(* ===== verification/_CoqProject ===== *)
-Q . S2P
Prelude.v
Status.v
Method.v
MsgProtocol.v
Pattern.v
Uri.v
HostAddress.v
Deposit.v
Nng.v
MsgUtil.v
Draining.v
MsgHeaders.v
MsgLayout.v
MsgView.v
MsgParse.v
OwnedMsg.v
TypedMsg.v
MsgWriter.v
MsgRoundTrip.v
MsgLength.v
IoQueue.v
AsyncSend.v
AsyncSendFacts.v
AsyncRecv.v
ClientRequest.v
ClientRequestFacts.v
RequestShutdown.v
HttpClient.v
HttpConstruct.v
HttpClientFacts.v
HttpBoxFacts.v
HttpShutdown.v
ServiceReply.v
ServiceReplyFacts.v
Notices.v
Reactor.v
Socket.v
SocketFacts.v
PrefixMap.v
Boxes.v
Route.v
Relays.v
Services.v
Server.v
Registration.v
ServicesFacts.v
ServicesRoutes.v
ServerFacts.v
RegistrationFacts.v
Bundles.v
BundlesFacts.v
Mailboxes.v
Exchange.v
ExchangeParts.v
ExchangeFacts.v
ExchangeLive.v
ExchangeExample.v
