(* ===== verification/Prelude.v ===== *)
(** * Telling: a verification development

    Telling is a C++ library for services and clients that exchange messages
    in the style of HTTP over NNG sockets.  This development translates the
    library into executable definitions and proves what makes it correct.
    File names in brackets below are of this directory; the others are under
    [src/].

    ** The program and its model

    - Vocabulary.  [Status] ([util/HttpStatusCodes_C++11.h], [msg_status.h]),
      [Method] ([msg_method.h]), [MsgProtocol] ([msg_protocol.h]), [Pattern]
      ([pattern.h]), [Uri] ([msg_uri.h]), [HostAddress] ([host_address.h]).
    - Messages.  [MsgUtil] ([msg_util.h]: exceptions, words and lines),
      [MsgHeaders] ([msg_headers.h]), [MsgLayout] (the parser of
      [msg_view.cpp]), [MsgView] (the accessors of [msg_view.h]), [OwnedMsg]
      ([msg.h]) and [TypedMsg] (its classes of a known type), [MsgWriter]
      ([msg_writer.cpp]).  A message is the bytes of its
      body with a layout, the ranges of its parts; [MsgParse], [MsgRoundTrip],
      [MsgLength] and [Notices] hold the theorems.
    - Loops and queues.  [IoQueue] ([io_queue.h]), [AsyncSend] and [AsyncRecv]
      ([async_loop.h], [async_queue.h]).  [AsyncSend] is a transition system
      of any number of threads and one aio; the handler is a class,
      [AsyncSendHandler], and the theorems of [AsyncSendFacts] rest on its
      contract, [SendDiscipline], which the queues implement.
    - Communicators.  [Socket] ([socket.cpp]); [Boxes] ([client_push.h],
      [client_subscribe.h], [service_publish.h], [service_pull.h]);
      [ClientRequest] ([client_request.cpp]); [ServiceReply]
      ([service_reply.cpp]); [HttpClient] and [HttpConstruct]
      ([http_client.cpp]).  The last three
      are pools of operations: each is a [step] function on events (a call of
      a thread, a completion, the first or the second half of a callback) and
      its reachable states; the theorems are in the files ending in [Facts].
      The destructors of [Request] and [HttpClient] wait for their operations:
      [RequestShutdown] and [HttpShutdown] treat both as instances of one
      class, [Draining].  The destructor of [Reply] is a step that closes
      contexts and then the steps that NNG makes until it is stopped
      ([ServiceReply]).
    - The server.  [Services] and [Route] are the directory
      ([server_services.cpp]); [Relays] the sockets of the three patterns and
      [Server] the whole ([server.cpp], [server_reply.cpp],
      [server_publish.cpp], [server_pull.cpp]).
    - What uses the server.  [Registration] ([service_registration.cpp]),
      [Reactor] ([service_reactor.cpp]), [Bundles] ([Client] and [Service] of
      [client.cpp] and [service.cpp]), [Mailboxes] ([Client_Box] and
      [Service_Box]).
    - The system.  [Exchange] puts clients, a server and services together: a
      state with all of them and a [step] function on events, each a call, a
      callback, or a message on its way.  Services are constructed, register,
      lose their registration and are destroyed as it runs.  [ServicesRoutes]
      says what a step of the directory does to the routes, [ExchangeParts] what
      the steps of one part do to its messages, [ExchangeFacts] has the
      invariant, [ExchangeLive] the way of a request through the system at
      rest, and [ExchangeExample] a run.
    - Apart from the rest: [Deposit] ([deposit.h]), which no other source
      includes; the model reads it as it means where it does not compile.

    ** How code is translated

    A function that can throw is in the monad [M exn S] below: a function from
    a state to a result and a state.  A result is a value, a C++ exception, or
    a [fault]: undefined behaviour, or an exception that leaves a [noexcept]
    function or a callback of C.  A mutexed section is one step.  Integers have
    their width ([u8], [u16], [u32], [u64]); the hypotheses [blen x < 2 ^ 57]
    and the like of some theorems keep lengths inside [size_t].  A weak pointer
    to a handler is an option; a handler is a state and a class of the virtual
    functions.  What NNG makes, a context, an aio, a copy of a message,
    is an argument: the thing made, or the exception.  The order in which C++ evaluates the arguments of [Dial],
    [Listen] and [Disconnect] is unspecified, so it is an argument, and the
    theorems hold for each.

    Loops that the code bounds by data recur on the data.  The others have
    fuel, and running out of it is the fault [OutOfFuel], which no theorem lets
    happen: the header loops ([header_loop], [iterate]) have the length of the
    text, of which each turn consumes a byte; [close_loop] and [open_loop] of
    the directory have the length of the queue that each turn shortens (nothing
    is added under the mutex); [respond_all], between whose turns queries may
    arrive, has a turn for each of them and one more ([turns_needed]); a callback of a service in
    [Exchange] takes at most four actions; the digits of a 16-bit port
    have 6 turns, those of a 64-bit length 20, and the methods that an [Allow]
    header can name 10; the search of a claim number in [Deposit] has as many
    turns as there are numbers, 2 ^ 32.

    ** Interfaces

    [NngMsg] and [NngMsgLaws] ([Nng]): NNG's messages, with the laws its manual
    states; [flat_msg] implements them.  [NngBuffer] ([HttpClient]): [realloc].  [NngHttp]
    ([HttpConstruct]): NNG's HTTP client and TLS.
    [PrefixMap]: the trie of the routing table, with its limit on the length of a
    key; finite maps implement it.
    [Routing] and [ServicesEnv] ([Services]): what the directory asks of its
    routes and of its communicators; [Route] and [Server] implement them, so
    that the theorems about the directory hold in the server.  [AsyncSendHandler],
    [AsyncQuery], [AsyncRespond], [HttpHandler] and [Reactor]: what communicators ask of
    their handlers.
    [Transport] ([Exchange]): NNG's requests and replies between sockets, with
    the laws its manual states; the example implements them on [flat_msg].
    The answers of NNG (which sockets open, which connectors are made, how
    operations end) are arguments of the model or events.

    ** What is proved

    - The whole: however clients, server and services interleave, and services
      come and go, the answer
      that a client gets to a request is the one its service gave to it, or
      that there is no service ([answers_not_crossed]); and a system at rest
      serves a request and is at rest again ([request_served]).
    - The parser is safe on every input, and whatever the writer writes is read
      back ([parse_safe], [request_roundtrip], [reply_roundtrip],
      [report_roundtrip], [content_length_complete]); owners of messages
      neither share nor free twice nor leak, unless NNG fails to copy a message
      ([msg_ownership]), and a message of
      a typed class has the type ([typed_messages]); the elements
      popped off a path are its segments ([uri_walk]).
    - A sending loop never overlaps operations, keeps the order, and drains
      ([send_loop_exclusive], [send_loop_fifo], [send_loop_drains]); the queues
      of the boxes refine it ([queued_send_refines]); a receiving loop keeps
      its protocol with the handler ([recv_loop_protocol]).
    - The pools never reuse what is in use, and each query has one outcome
      ([request_pool_safe], [request_one_outcome], [box_futures],
      [reply_contexts_owned], [reply_safe], [reply_once],
      [box_answers_in_order], [respond_all_drains], [http_pool_safe],
      [http_connections_owned], [http_exchange]); destructors wait for a
      bounded number of events, and delete each action once
      ([request_shutdown], [http_shutdown]).
    - The directory refines its specification, which says when a registration is
      refused, dialled and enrolled ([ServicesFacts.served]), routes by the
      longest prefix and forgets what disconnects ([registrations_answered],
      [routing_by_longest_prefix], [disconnect_removes_route],
      [refused_disconnect_undefined]).
    - The server starts at its address, or not at all, and relays requests,
      pushes and reports ([server_starts], [request_relayed], [push_relayed], [report_relayed]); a
      service that registers is understood and understands the answer
      ([registration_enrolls]); a reactor gives each request to the function of
      its method, or answers it ([reactor_reacts]); services are set up whole
      ([service_constructed]); sockets are connected all
      or none, and at distinct addresses ([dial_all_or_nothing],
      [socket_connectors], [derived_distinct]).
    - No depositor is ever given the number of a deposit ([deposits_lost]).

    ** Not modelled

    The waiting of the destructors of the loops and of the server for NNG's
    threads; the race of [async_sent] of a [Request_Box], which takes no mutex,
    with the other callbacks (it is a step of its own); the logs; [nng::device], of which only the thread's
    existence is kept; in [Exchange], what a route that is being closed still
    carries; [afar.h], an unfinished header that no other source includes and
    that does not compile, and whose table has keys that do not outlive the
    call that adds them; [async_future.h], likewise unfinished; the JSON
    interface, a sketch; the third-party libraries; the tests. *)
From Stdlib Require Export Ascii ZArith Lia.
From stdpp Require Export base tactics strings numbers option list.

(** ** This file

    Machine integers, byte strings, the outcome type of C++ code and the
    state-and-exception monad in which the components are written, together
    with the generic lemmas, hint databases and tactics they share. *)
#[global] Open Scope Z_scope.

(** ** Byte strings

    A [char] is an [ascii]; the contents of a [std::string],
    [std::string_view] or NNG buffer is a list of them. *)
Abbreviation bytes := (list ascii).

Definition lit (s : string) : bytes := String.list_ascii_of_string s.

Arguments lit : simpl never.
#[global] Arguments Ascii.eqb : simpl never.

Definition LF : ascii := "010"%char.
Definition CR : ascii := "013"%char.
Definition TAB : ascii := "009"%char.
Definition SP : ascii := " "%char.

(** The length of a byte string as a [size_t]. *)
Definition blen (s : bytes) : Z := Z.of_nat (length s).

(** ** Machine integers *)
Definition u8  (z : Z) : Z := z mod 2 ^ 8.
Definition u16 (z : Z) : Z := z mod 2 ^ 16.
Definition u32 (z : Z) : Z := z mod 2 ^ 32.
Definition u64 (z : Z) : Z := z mod 2 ^ 64.

#[global] Arguments u8 : simpl never.
#[global] Arguments u16 : simpl never.
#[global] Arguments u32 : simpl never.
#[global] Arguments u64 : simpl never.

(** Implicit conversion of [bool] to an integer. *)
Definition of_bool (c : bool) : Z := if c then 1 else 0.

(** ** Outcomes

    A C++ call returns, throws, or has no defined continuation: undefined
    behaviour, or an exception that leaves a [noexcept] function and calls
    [std::terminate].  The last case is kept apart from exceptions, because
    no handler can observe it. *)
Inductive fault : Type :=
| NullStringView      (** [std::string_view] built from a null pointer *)
| EmptyBack           (** [back()] of an empty string view *)
| InvalidShift        (** shift by a negative amount or by the width *)
| EraseEnd            (** [erase(end())] *)
| NullDeref           (** dereference of a null pointer *)
| OutOfBounds         (** access outside an array *)
| NoexceptTerminate   (** an exception left a [noexcept] function *)
| AioInUse            (** an operation started on an aio that is in use *)
| DoubleFree          (** memory freed that is not allocated *)
| MissingReturn       (** a value-returning function ran off its end *)
| OutOfFuel.          (** the bound chosen for a loop was too small *)

Inductive result (E A : Type) : Type :=
| Ret (a : A)
| Throw (e : E)
| Fault (f : fault).
Arguments Ret {E A} a.
Arguments Throw {E A} e.
Arguments Fault {E A} f.

#[export] Instance result_ret E : MRet (result E) := λ _ a, Ret a.
#[export] Instance result_bind E : MBind (result E) := λ _ _ k r,
  match r with Ret a => k a | Throw e => Throw e | Fault f => Fault f end.

(** The state-and-exception monad: the state reached is kept when an
    exception is thrown, as a C++ object keeps the writes made before it. *)
Definition M (E S A : Type) : Type := S → result E A * S.

#[export] Instance M_ret E S : MRet (M E S) := λ _ a s, (Ret a, s).
#[export] Instance M_bind E S : MBind (M E S) := λ _ _ k m s,
  match m s with
  | (Ret a, s') => k a s'
  | (Throw e, s') => (Throw e, s')
  | (Fault f, s') => (Fault f, s')
  end.

Definition throw {E S A} (e : E) : M E S A := λ s, (Throw e, s).
Definition fail {E S A} (f : fault) : M E S A := λ s, (Fault f, s).
Definition get {E S} : M E S S := λ s, (Ret s, s).
Definition modify {E S} (f : S → S) : M E S unit := λ s, (Ret tt, f s).
Definition lift {E S A} (r : result E A) : M E S A := λ s, (r, s).

(** A computation on a part of the state. *)
Definition zoom {E S T A} (proj : S → T) (set : T → S → S) (m : M E T A) : M E S A :=
  λ s, let '(r, t) := m (proj s) in (r, set t s).

(** A [noexcept] function: an exception that would leave it ends the program. *)
Definition noexcept {E S A} (m : M E S A) : M E S A := λ s,
  match m s with
  | (Throw _, s') => (Fault NoexceptTerminate, s')
  | o => o
  end.

(** ** Weakest preconditions

    [wp m Q R s]: run from [s], [m] does not fault; if it returns [a] in state
    [s'] then [Q a s'], and if it throws [e] in state [s'] then [R e s']. *)
Definition wp {E S A} (m : M E S A) (Q : A → S → Prop) (R : E → S → Prop) (s : S) : Prop :=
  match m s with
  | (Ret a, s') => Q a s'
  | (Throw e, s') => R e s'
  | (Fault _, _) => False
  end.

Section wp_rules.
Context {E S : Type}.

Lemma wp_ret {A} (a : A) Q R (s : S) : wp (E := E) (mret a) Q R s ↔ Q a s.
Proof. done. Qed.

Lemma wp_bind {A B} (m : M E S A) (k : A → M E S B) Q R s :
  wp (m ≫= k) Q R s ↔ wp m (λ a, wp (k a) Q R) R s.
Proof. unfold wp, mbind, M_bind. by destruct (m s) as [[] ?]. Qed.

Lemma wp_throw {A} (e : E) (Q : A → S → Prop) R s : wp (throw e) Q R s ↔ R e s.
Proof. done. Qed.

Lemma wp_get Q R (s : S) : wp (E := E) get Q R s ↔ Q s s.
Proof. done. Qed.

Lemma wp_modify f Q R (s : S) : wp (E := E) (modify f) Q R s ↔ Q tt (f s).
Proof. done. Qed.

Lemma wp_mono {A} (m : M E S A) (Q Q' : A → S → Prop) (R R' : E → S → Prop) s :
  wp m Q R s → (∀ a s', Q a s' → Q' a s') → (∀ e s', R e s' → R' e s') → wp m Q' R' s.
Proof. unfold wp. destruct (m s) as [[] ?]; auto. Qed.

(** From a run to its precondition and back. *)
Lemma wp_inv {A} (m : M E S A) Q R s r s' :
  wp m Q R s → m s = (r, s') →
  match r with Ret a => Q a s' | Throw e => R e s' | Fault _ => False end.
Proof. unfold wp. intros H Hm. rewrite Hm in H. by destruct r. Qed.
End wp_rules.

(** Running a sequence whose first part is known. *)
Lemma bind_run {E S A B} (m : M E S A) (k : A → M E S B) s a s' :
  m s = (Ret a, s') → (m ≫= k) s = k a s'.
Proof. unfold mbind, M_bind. by intros ->. Qed.

Lemma modify_run {E S B} (f : S → S) (k : unit → M E S B) s :
  (modify f ≫= k) s = k tt (f s).
Proof. done. Qed.

Create Rewrite HintDb wp.
#[export] Hint Rewrite @wp_ret @wp_bind @wp_throw @wp_get @wp_modify : wp.

(** Run the monadic rules, splitting the tests of the code. *)
Ltac wp_step :=
  match goal with
  | |- wp (match ?x with _ => _ end) _ _ _ => destruct x eqn:?
  | |- wp (if ?b then _ else _) _ _ _ => destruct b eqn:?
  | |- _ => progress autorewrite with wp
  end.
Ltac wp_run := repeat wp_step.

(** ** Exceptions

    [throws m R]: every exception that [m] throws satisfies [R]. *)
Definition throws {E S A} (m : M E S A) (R : E → Prop) : Prop := ∀ s e s', m s = (Throw e, s') → R e.

Section throws_rules.
Context {E S : Type} (R : E → Prop).

Lemma throws_ret {A} (a : A) : throws (S := S) (mret a) R.
Proof. by intros s e s'. Qed.
Lemma throws_throw {A} (e : E) : R e → throws (S := S) (A := A) (throw e) R.
Proof. intros He s e' s' [= <- <-]. done. Qed.
Lemma throws_get : throws (S := S) get R.
Proof. by intros s e s'. Qed.
Lemma throws_modify (f : S → S) : throws (modify f) R.
Proof. by intros s e s'. Qed.
Lemma throws_lift {A} (r : result E A) : (∀ e, r = Throw e → R e) → throws (S := S) (lift r) R.
Proof. intros Hr s e s' [= E1 _]. by apply Hr. Qed.
Lemma throws_bind {A B} (m : M E S A) (k : A → M E S B) :
  throws m R → (∀ a, throws (k a) R) → throws (m ≫= k) R.
Proof.
  intros Hm Hk s e s'. unfold mbind, M_bind. destruct (m s) as [[a|e'|f] s1] eqn:E1.
  - apply Hk.
  - intros [= <- <-]. by eapply Hm.
  - done.
Qed.
End throws_rules.

(** Follow the structure of a computation, splitting its tests. *)
Ltac throws_run :=
  repeat first
    [ apply throws_ret | apply throws_get | apply throws_modify
    | apply throws_bind; [|intros ?]
    | apply throws_throw
    | match goal with
      | |- throws (match ?x with _ => _ end) _ => destruct x
      | |- throws (let '(_, _) := ?x in _) _ => destruct x
      end ].

(** ** Decimal numerals *)
Definition digit (n : Z) : ascii := ascii_of_N (Z.to_N (48 + n)).
Definition char_code (c : ascii) : Z := Z.of_N (N_of_ascii c).
Definition is_digit (c : ascii) : bool := (48 <=? char_code c) && (char_code c <=? 57).

(** The least significant digit first, as the loops of the sources produce
    them: [do {emit(v % 10); v /= 10;} while (v)]. *)
Fixpoint digits_le (fuel : nat) (v : Z) : bytes :=
  match fuel with
  | O => []
  | S fuel => digit (v mod 10) :: (if v / 10 =? 0 then [] else digits_le fuel (v / 10))
  end.

(** The value of a numeral, most significant digit first. *)
Definition dec_step (acc : Z) (c : ascii) : Z := 10 * acc + (char_code c - 48).
Definition dec_value (s : bytes) : Z := fold_left dec_step s 0.

(** ** Splitting a string at the first character that fails a test *)
Fixpoint span (p : ascii → bool) (s : bytes) : bytes * bytes :=
  match s with
  | [] => ([], [])
  | c :: s' => if p c then let '(l, r) := span p s' in (c :: l, r) else ([], s)
  end.

(** Remove the characters at the end of a string that satisfy a test. *)
Definition rtrim (p : ascii → bool) (s : bytes) : bytes := reverse (snd (span p (reverse s))).

(** * Lemmas *)

Create HintDb telling.
Create Rewrite HintDb blen.

Lemma blen_nonneg s : 0 ≤ blen s.
Proof. unfold blen. lia. Qed.

Lemma blen_nil : blen [] = 0.
Proof. reflexivity. Qed.

Lemma blen_cons c s : blen (c :: s) = 1 + blen s.
Proof. unfold blen. simpl. lia. Qed.

Lemma blen_app s t : blen (s ++ t) = blen s + blen t.
Proof. unfold blen. rewrite length_app. lia. Qed.

Lemma blen_eqb_0 s : s ≠ [] → (blen s =? 0) = false.
Proof. destruct s; [done|]. intros _. rewrite blen_cons. pose proof (blen_nonneg s). lia. Qed.

Lemma u8_small z : 0 ≤ z < 256 → u8 z = z.
Proof. intros H. apply Z.mod_small. lia. Qed.

Lemma u16_small z : 0 ≤ z < 65536 → u16 z = z.
Proof. intros H. apply Z.mod_small. lia. Qed.

Lemma u32_small z : 0 ≤ z < 2 ^ 32 → u32 z = z.
Proof. apply Z.mod_small. Qed.

Lemma u64_small z : 0 ≤ z < 2 ^ 64 → u64 z = z.
Proof. apply Z.mod_small. Qed.

Lemma char_code_bounds c : 0 ≤ char_code c < 256.
Proof. unfold char_code. pose proof (N_ascii_bounded c). lia. Qed.

Lemma char_code_digit n : 0 ≤ n < 10 → char_code (digit n) = 48 + n.
Proof. intros H. unfold char_code, digit. rewrite N_ascii_embedding; lia. Qed.

Lemma is_digit_digit n : 0 ≤ n < 10 → is_digit (digit n) = true.
Proof. intros H. unfold is_digit. rewrite char_code_digit by done. lia. Qed.

Lemma eqb_char_neq (c d : ascii) : c ≠ d → Ascii.eqb c d = false.
Proof. by apply Ascii.eqb_neq. Qed.

#[export] Hint Rewrite blen_nil blen_cons blen_app : blen.
#[export] Hint Resolve blen_nonneg u8_small u16_small u32_small u64_small : telling.

(** Split on every character test of the goal. *)
Ltac case_char :=
  match goal with
  | |- context [Ascii.eqb ?c ?d] => destruct (Ascii.eqb_spec c d)
  | H : context [Ascii.eqb ?c ?d] |- _ => destruct (Ascii.eqb_spec c d)
  end.

(** Decide a [bool] comparison from the hypotheses. *)
Ltac solve_cmp := rewrite ?andb_true_iff, ?orb_true_iff, ?Z.leb_le, ?Z.ltb_lt; lia.

Section span_lemmas.
Context (p : ascii → bool).

Lemma span_app s : fst (span p s) ++ snd (span p s) = s.
Proof.
  induction s as [|c s IH]; [done|]. simpl. destruct (p c); [|done].
  destruct (span p s). simpl in *. by rewrite IH.
Qed.

Lemma span_fst_Forall s : Forall (λ c, p c = true) (fst (span p s)).
Proof.
  induction s as [|c s IH]; [constructor|]. simpl. destruct (p c) eqn:E; [|constructor].
  destruct (span p s). by constructor.
Qed.

Lemma span_snd_head s c r : snd (span p s) = c :: r → p c = false.
Proof.
  induction s as [|d s IH]; [done|]. simpl. destruct (p d) eqn:E.
  - by destruct (span p s).
  - intros [= -> ->]. done.
Qed.

Lemma span_app_stop l c r :
  Forall (λ c, p c = true) l → p c = false → span p (l ++ c :: r) = (l, c :: r).
Proof.
  induction 1 as [|d l Hd _ IH]; intros Hc; simpl.
  - by rewrite Hc.
  - by rewrite Hd, IH.
Qed.

Lemma span_all l : Forall (λ c, p c = true) l → span p l = (l, []).
Proof. induction 1 as [|d l Hd _ IH]; simpl; [done|]. by rewrite Hd, IH. Qed.

Lemma span_snd_length s : (length (snd (span p s)) ≤ length s)%nat.
Proof. rewrite <- (span_app s) at 2. rewrite length_app. lia. Qed.

(** [rtrim] removes a block of matching characters, and all of it. *)
Lemma rtrim_spec s :
  ∃ t, s = rtrim p s ++ t ∧ Forall (λ c, p c = true) t
       ∧ (∀ c, last (rtrim p s) = Some c → p c = false).
Proof.
  exists (reverse (fst (span p (reverse s)))). unfold rtrim. split_and!.
  - rewrite <- reverse_app, span_app, reverse_involutive. done.
  - apply Forall_reverse, span_fst_Forall.
  - intros c. rewrite last_reverse. destruct (snd _) as [|d r] eqn:E; [done|].
    intros [= ->]. by eapply span_snd_head.
Qed.

Lemma rtrim_app_stop s c t :
  p c = false → Forall (λ c, p c = true) t → rtrim p (s ++ c :: t) = s ++ [c].
Proof.
  intros Hc Ht. unfold rtrim. rewrite reverse_app, reverse_cons.
  rewrite <- (app_assoc _ [c]). simpl.
  rewrite span_app_stop by (done || by apply Forall_reverse). simpl.
  by rewrite reverse_cons, reverse_involutive.
Qed.
End span_lemmas.

(** ** Decimal numerals *)

Lemma fold_dec_app s acc :
  fold_left dec_step s acc = acc * 10 ^ blen s + fold_left dec_step s 0.
Proof.
  revert acc. induction s as [|c s IH]; intros acc; simpl.
  - rewrite blen_nil. lia.
  - rewrite IH, (IH (dec_step 0 c)), blen_cons, Z.pow_add_r by (pose proof (blen_nonneg s); lia).
    unfold dec_step. ring.
Qed.

Lemma fold_dec_nonneg s acc :
  Forall (λ c, is_digit c = true) s → 0 ≤ acc → 0 ≤ fold_left dec_step s acc.
Proof.
  intros H. revert acc. induction H as [|c s Hc _ IH]; intros acc Ha; simpl; [done|].
  apply IH. unfold dec_step, is_digit in *. lia.
Qed.

Lemma dec_value_snoc s c : dec_value (s ++ [c]) = 10 * dec_value s + (char_code c - 48).
Proof. unfold dec_value. by rewrite fold_left_app. Qed.

(** The digits of [v], printed most significant first, denote [v]. *)
Lemma dec_value_digits fuel v :
  0 ≤ v < 10 ^ Z.of_nat fuel → dec_value (reverse (digits_le fuel v)) = v.
Proof.
  revert v. induction fuel as [|fuel IH]; intros v Hv.
  { replace v with 0 by (simpl in Hv; lia). reflexivity. }
  simpl digits_le. rewrite reverse_cons, dec_value_snoc.
  rewrite char_code_digit by (apply Z.mod_pos_bound; lia).
  assert (0 ≤ v / 10 < 10 ^ Z.of_nat fuel) as Hd.
  { rewrite Nat2Z.inj_succ, Z.pow_succ_r in Hv by lia.
    split; [apply Z.div_pos; lia | apply Z.div_lt_upper_bound; lia]. }
  pose proof (Z.div_mod v 10).
  destruct (Z.eqb_spec (v / 10) 0) as [E|E].
  - unfold dec_value. simpl. lia.
  - rewrite IH by done. lia.
Qed.

Lemma digits_le_digits fuel v : Forall (λ c, is_digit c = true) (digits_le fuel v).
Proof.
  revert v. induction fuel as [|fuel IH]; intros v; simpl; constructor.
  - apply is_digit_digit, Z.mod_pos_bound. lia.
  - destruct (_ =? 0); [constructor | apply IH].
Qed.

(** Every value below [10 ^ n] has at most [n] digits, whatever the fuel. *)
Lemma digits_le_length fuel v n :
  0 ≤ v < 10 ^ Z.of_nat (S n) → (length (digits_le fuel v) ≤ S n)%nat.
Proof.
  revert v n. induction fuel as [|fuel IH]; intros v n Hv; simpl; [lia|].
  destruct (Z.eqb_spec (v / 10) 0) as [E|E]; [simpl; lia|].
  destruct n as [|n].
  - exfalso. apply E, Z.div_small. simpl in Hv. lia.
  - apply le_n_S, IH. rewrite Nat2Z.inj_succ, Z.pow_succ_r in Hv by lia.
    split; [apply Z.div_pos; lia | apply Z.div_lt_upper_bound; lia].
Qed.

Lemma digits_le_nonempty fuel v : digits_le (S fuel) v ≠ [].
Proof. done. Qed.
