(* ===== verification/Status.v ===== *)
(** * HTTP status codes

    [include/telling/util/HttpStatusCodes_C++11.h] (the enumeration, its
    classification and reason phrases) and [include/telling/msg_status.h]
    (the class [Status] with its textual form). *)
From S2P Require Import Prelude.

(** ** The namespace [HttpStatus] *)
Module HttpStatus.

(** The enumerators of [enum class Code]. *)
Inductive Code : Set :=
| Continue
| SwitchingProtocols
| Processing
| EarlyHints
| OK
| Created
| Accepted
| NonAuthoritativeInformation
| NoContent
| ResetContent
| PartialContent
| MultiStatus
| AlreadyReported
| IMUsed
| MultipleChoices
| MovedPermanently
| Found
| SeeOther
| NotModified
| UseProxy
| TemporaryRedirect
| PermanentRedirect
| BadRequest
| Unauthorized
| PaymentRequired
| Forbidden
| NotFound
| MethodNotAllowed
| NotAcceptable
| ProxyAuthenticationRequired
| RequestTimeout
| Conflict
| Gone
| LengthRequired
| PreconditionFailed
| PayloadTooLarge
| URITooLong
| UnsupportedMediaType
| RangeNotSatisfiable
| ExpectationFailed
| ImATeapot
| UnprocessableEntity
| Locked
| FailedDependency
| UpgradeRequired
| PreconditionRequired
| TooManyRequests
| RequestHeaderFieldsTooLarge
| UnavailableForLegalReasons
| InternalServerError
| NotImplemented
| BadGateway
| ServiceUnavailable
| GatewayTimeout
| HTTPVersionNotSupported
| VariantAlsoNegotiates
| InsufficientStorage
| LoopDetected
| NotExtended
| NetworkAuthenticationRequired.

#[export] Instance Code_eq_dec : EqDecision Code.
Proof. solve_decision. Defined.

(** [toInt]: the value given to each enumerator.  A [Code] object may hold
    any [int] (the sources cast to it), so a status is a [Z] from here on. *)
Definition toInt (code : Code) : Z :=
  match code with
  | Continue => 100
  | SwitchingProtocols => 101
  | Processing => 102
  | EarlyHints => 103
  | OK => 200
  | Created => 201
  | Accepted => 202
  | NonAuthoritativeInformation => 203
  | NoContent => 204
  | ResetContent => 205
  | PartialContent => 206
  | MultiStatus => 207
  | AlreadyReported => 208
  | IMUsed => 226
  | MultipleChoices => 300
  | MovedPermanently => 301
  | Found => 302
  | SeeOther => 303
  | NotModified => 304
  | UseProxy => 305
  | TemporaryRedirect => 307
  | PermanentRedirect => 308
  | BadRequest => 400
  | Unauthorized => 401
  | PaymentRequired => 402
  | Forbidden => 403
  | NotFound => 404
  | MethodNotAllowed => 405
  | NotAcceptable => 406
  | ProxyAuthenticationRequired => 407
  | RequestTimeout => 408
  | Conflict => 409
  | Gone => 410
  | LengthRequired => 411
  | PreconditionFailed => 412
  | PayloadTooLarge => 413
  | URITooLong => 414
  | UnsupportedMediaType => 415
  | RangeNotSatisfiable => 416
  | ExpectationFailed => 417
  | ImATeapot => 418
  | UnprocessableEntity => 422
  | Locked => 423
  | FailedDependency => 424
  | UpgradeRequired => 426
  | PreconditionRequired => 428
  | TooManyRequests => 429
  | RequestHeaderFieldsTooLarge => 431
  | UnavailableForLegalReasons => 451
  | InternalServerError => 500
  | NotImplemented => 501
  | BadGateway => 502
  | ServiceUnavailable => 503
  | GatewayTimeout => 504
  | HTTPVersionNotSupported => 505
  | VariantAlsoNegotiates => 506
  | InsufficientStorage => 507
  | LoopDetected => 508
  | NotExtended => 510
  | NetworkAuthenticationRequired => 511
  end.

Definition all_codes : list Code :=
  [Continue; SwitchingProtocols; Processing; EarlyHints;
   OK; Created; Accepted; NonAuthoritativeInformation;
   NoContent; ResetContent; PartialContent; MultiStatus;
   AlreadyReported; IMUsed; MultipleChoices; MovedPermanently;
   Found; SeeOther; NotModified; UseProxy;
   TemporaryRedirect; PermanentRedirect; BadRequest; Unauthorized;
   PaymentRequired; Forbidden; NotFound; MethodNotAllowed;
   NotAcceptable; ProxyAuthenticationRequired; RequestTimeout; Conflict;
   Gone; LengthRequired; PreconditionFailed; PayloadTooLarge;
   URITooLong; UnsupportedMediaType; RangeNotSatisfiable; ExpectationFailed;
   ImATeapot; UnprocessableEntity; Locked; FailedDependency;
   UpgradeRequired; PreconditionRequired; TooManyRequests; RequestHeaderFieldsTooLarge;
   UnavailableForLegalReasons; InternalServerError; NotImplemented; BadGateway;
   ServiceUnavailable; GatewayTimeout; HTTPVersionNotSupported; VariantAlsoNegotiates;
   InsufficientStorage; LoopDetected; NotExtended; NetworkAuthenticationRequired].

Definition isInformational (code : Z) : bool := (100 <=? code) && (code <? 200).
Definition isSuccessful (code : Z) : bool := (200 <=? code) && (code <? 300).
Definition isRedirection (code : Z) : bool := (300 <=? code) && (code <? 400).
Definition isClientError (code : Z) : bool := (400 <=? code) && (code <? 500).
Definition isServerError (code : Z) : bool := (500 <=? code) && (code <? 600).
Definition isError (code : Z) : bool := 400 <=? code.

Definition reasonPhrase (code : Z) : bytes :=
  match code with
  | 100 => lit "Continue"
  | 101 => lit "Switching Protocols"
  | 102 => lit "Processing"
  | 103 => lit "Early Hints"
  | 200 => lit "OK"
  | 201 => lit "Created"
  | 202 => lit "Accepted"
  | 203 => lit "Non-Authoritative Information"
  | 204 => lit "No Content"
  | 205 => lit "Reset Content"
  | 206 => lit "Partial Content"
  | 207 => lit "Multi-Status"
  | 208 => lit "Already Reported"
  | 226 => lit "IM Used"
  | 300 => lit "Multiple Choices"
  | 301 => lit "Moved Permanently"
  | 302 => lit "Found"
  | 303 => lit "See Other"
  | 304 => lit "Not Modified"
  | 305 => lit "Use Proxy"
  | 307 => lit "Temporary Redirect"
  | 308 => lit "Permanent Redirect"
  | 400 => lit "Bad Request"
  | 401 => lit "Unauthorized"
  | 402 => lit "Payment Required"
  | 403 => lit "Forbidden"
  | 404 => lit "Not Found"
  | 405 => lit "Method Not Allowed"
  | 406 => lit "Not Acceptable"
  | 407 => lit "Proxy Authentication Required"
  | 408 => lit "Request Timeout"
  | 409 => lit "Conflict"
  | 410 => lit "Gone"
  | 411 => lit "Length Required"
  | 412 => lit "Precondition Failed"
  | 413 => lit "Payload Too Large"
  | 414 => lit "URI Too Long"
  | 415 => lit "Unsupported Media Type"
  | 416 => lit "Range Not Satisfiable"
  | 417 => lit "Expectation Failed"
  | 418 => lit "I'm a teapot"
  | 422 => lit "Unprocessable Entity"
  | 423 => lit "Locked"
  | 424 => lit "Failed Dependency"
  | 426 => lit "Upgrade Required"
  | 428 => lit "Precondition Required"
  | 429 => lit "Too Many Requests"
  | 431 => lit "Request Header Fields Too Large"
  | 451 => lit "Unavailable For Legal Reasons"
  | 500 => lit "Internal Server Error"
  | 501 => lit "Not Implemented"
  | 502 => lit "Bad Gateway"
  | 503 => lit "Service Unavailable"
  | 504 => lit "Gateway Time-out"
  | 505 => lit "HTTP Version Not Supported"
  | 506 => lit "Variant Also Negotiates"
  | 507 => lit "Insufficient Storage"
  | 508 => lit "Loop Detected"
  | 510 => lit "Not Extended"
  | 511 => lit "Network Authentication Required"
  | _ => []
  end.

End HttpStatus.

(** ** The class [Status]

    Its only member is a [StatusCode], that is an [int]. *)
Module Status.
Import HttpStatus.

(** [explicit operator bool]: "does not distinguish success from error". *)
Definition valid (code : Z) : bool := 0 <? code.

Definition reasonPhrase (code : Z) : bytes :=
  match HttpStatus.reasonPhrase code with
  | [] => lit "(Undefined Status)"
  | rp => rp
  end.

(** Three decimal digits; ["N/A"] outside [1..999].  The operators [/] and
    [%] act on a positive [int] here, so they are [Z.div] and [Z.modulo]. *)
Definition toString (n : Z) : bytes :=
  if (n <=? 0) || (999 <? n) then lit "N/A"
  else [digit ((n / 100) mod 10); digit ((n / 10) mod 10); digit (n mod 10)].

Definition Parse (s : bytes) : Z :=
  match s with
  | [a; b; c] =>
      if is_digit a && is_digit b && is_digit c
      then (char_code c - 48) + 10 * (char_code b - 48) + 100 * (char_code a - 48)
      else 0
  | _ => 0
  end.

End Status.

(** * Theorems *)

Module StatusFacts.
Import HttpStatus Status.

Lemma digit_of_code c : is_digit c = true → digit (char_code c - 48) = c.
Proof.
  unfold is_digit, digit. intros H.
  replace (48 + (char_code c - 48)) with (char_code c) by lia.
  unfold char_code. by rewrite N2Z.id, ascii_N_embedding.
Qed.

Lemma Parse_digits a b c :
  0 ≤ a < 10 → 0 ≤ b < 10 → 0 ≤ c < 10 →
  Parse [digit a; digit b; digit c] = c + 10 * b + 100 * a.
Proof.
  intros Ha Hb Hc. simpl. rewrite !is_digit_digit by done. simpl.
  rewrite !char_code_digit by done. lia.
Qed.

(** The value of three decimal digits and the digits of a value. *)
Lemma three_digits n : 0 ≤ n ≤ 999 →
  n = n mod 10 + 10 * ((n / 10) mod 10) + 100 * ((n / 100) mod 10).
Proof.
  intros H. replace (n / 100) with (n / 10 / 10) by (by rewrite Z.div_div by lia).
  pose proof (Z.div_mod n 10). pose proof (Z.div_mod (n / 10) 10).
  rewrite (Z.mod_small (n / 10 / 10) 10); [lia|].
  split; [apply Z.div_pos; [apply Z.div_pos|]; lia|].
  repeat (apply Z.div_lt_upper_bound; [lia|]). lia.
Qed.

Lemma three_digits_inj a b c :
  0 ≤ a < 10 → 0 ≤ b < 10 → 0 ≤ c < 10 →
  let n := c + 10 * b + 100 * a in
  (n / 100) mod 10 = a ∧ (n / 10) mod 10 = b ∧ n mod 10 = c.
Proof.
  intros Ha Hb Hc n. subst n.
  replace (c + 10 * b + 100 * a) with (c + (b + a * 10) * 10) by lia.
  replace 100 with (10 * 10) by lia. rewrite <- Z.div_div by lia.
  rewrite !Z.div_add, !Z.mod_add by lia.
  rewrite !(Z.div_small c), !Z.add_0_l, !Z.div_add, !Z.mod_add by lia.
  rewrite (Z.div_small b), !Z.mod_small by lia. lia.
Qed.

Lemma Parse_range s : 0 ≤ Parse s ≤ 999.
Proof.
  destruct s as [|a [|b [|c [|]]]]; try (simpl; lia). simpl.
  destruct (is_digit a && is_digit b && is_digit c) eqn:E; [|lia].
  rewrite !andb_true_iff in E. unfold is_digit in E. lia.
Qed.

Lemma status_Parse_toString n : 1 ≤ n ≤ 999 → Parse (toString n) = n.
Proof.
  intros H. unfold toString.
  replace ((n <=? 0) || (999 <? n)) with false by lia.
  rewrite Parse_digits by (apply Z.mod_pos_bound; lia).
  symmetry. apply three_digits. lia.
Qed.

Lemma status_toString_Parse s : 1 ≤ Parse s → toString (Parse s) = s.
Proof.
  intros H. pose proof (Parse_range s) as Hr. unfold toString.
  replace ((Parse s <=? 0) || (999 <? Parse s)) with false by lia.
  destruct s as [|a [|b [|c [|]]]]; try (simpl in H; lia).
  simpl in *. destruct (is_digit a && is_digit b && is_digit c) eqn:E; [|lia].
  rewrite !andb_true_iff in E. destruct E as [[Ea Eb] Ec].
  destruct (three_digits_inj (char_code a - 48) (char_code b - 48) (char_code c - 48))
    as (-> & -> & ->); try (unfold is_digit in *; lia).
  by rewrite !digit_of_code.
Qed.

Lemma code_in_all c : c ∈ all_codes.
Proof. apply (bool_decide_unpack _). destruct c; vm_compute; exact I. Qed.

(** The text of a status and its code determine each other: a string parses
    to a (non-zero) status exactly when it is that status printed, and only
    the codes 1 to 999 have a text. *)
Theorem status_text_bijection s n :
  1 ≤ n → (Parse s = n ↔ n ≤ 999 ∧ s = toString n).
Proof.
  intros Hn. split.
  - intros <-. split; [apply Parse_range | by rewrite status_toString_Parse].
  - intros [Hm ->]. apply status_Parse_toString. lia.
Qed.

Lemma status_text_bijection_witness :
  1 ≤ 404 ∧ (Parse (lit "404") = 404 ↔ 404 ≤ 999 ∧ lit "404" = toString 404).
Proof. split; [lia | apply status_text_bijection; lia]. Defined.

Lemma phrase_of_enum c : HttpStatus.reasonPhrase (toInt c) ≠ [].
Proof. by destruct c. Qed.

Lemma enum_of_phrase n : HttpStatus.reasonPhrase n ≠ [] → ∃ c, toInt c = n.
Proof.
  intros H.
  assert (existsb (λ c, toInt c =? n) all_codes = true) as Hex.
  { unfold HttpStatus.reasonPhrase in H.
    repeat match type of H with
    | context [match ?p with _ => _ end] => is_var p; destruct p
    end; first [by destruct H | reflexivity]. }
  apply existsb_exists in Hex as (c & _ & Hc). exists c. lia.
Qed.

(** The reason-phrase table covers the enumeration exactly: a code has a
    standard phrase if and only if it is an enumerator, every other code gets
    the placeholder, and every enumerator belongs to one of the five classes,
    client and server errors being the errors. *)
Theorem reason_phrase_enum n :
  (HttpStatus.reasonPhrase n ≠ [] ↔ ∃ c, toInt c = n)
  ∧ (HttpStatus.reasonPhrase n = [] → Status.reasonPhrase n = lit "(Undefined Status)")
  ∧ (∀ c, isInformational (toInt c) || isSuccessful (toInt c) || isRedirection (toInt c)
          || isError (toInt c) = true)
  ∧ (∀ c, isError (toInt c) = isClientError (toInt c) || isServerError (toInt c)).
Proof.
  split_and!.
  - split; [apply enum_of_phrase | intros [c <-]; apply phrase_of_enum].
  - intros E. unfold Status.reasonPhrase. by rewrite E.
  - by intros [].
  - by intros [].
Qed.

End StatusFacts.
