(* ===== verification/Method.v ===== *)
(** * HTTP methods and sets of methods

    [include/telling/msg_method.h]: the class [Method] with its textual form
    and its categories, and the class [Methods], a bit mask. *)
From S2P Require Import Prelude.

(** [enum class MethodCode].  [Unknown_] and [None_] are the enumerators
    [Unknown] and [None]. *)
Inductive MethodCode : Set :=
| Unknown_ | None_
| GET | HEAD | POST | PUT | DELETE | PATCH | OPTIONS | CONNECT | TRACE
| EndOfValidMethods.

#[export] Instance MethodCode_eq_dec : EqDecision MethodCode.
Proof. solve_decision. Defined.

Module Method.

(** The integer value of an enumerator. *)
Definition value (m : MethodCode) : Z :=
  match m with
  | Unknown_ => -1 | None_ => 0
  | GET => 1 | HEAD => 2 | POST => 3 | PUT => 4 | DELETE => 5
  | PATCH => 6 | OPTIONS => 7 | CONNECT => 8 | TRACE => 9
  | EndOfValidMethods => 10
  end.

(** [explicit operator bool]. *)
Definition valid (m : MethodCode) : bool :=
  (value None_ <? value m) && (value m <? value EndOfValidMethods).

Definition isSafe (m : MethodCode) : bool :=
  match m with GET | HEAD | OPTIONS | TRACE => true | _ => false end.

Definition isIdempotent (m : MethodCode) : bool :=
  match m with GET | HEAD | PUT | DELETE | OPTIONS | TRACE => true | _ => false end.

Definition isCacheable (m : MethodCode) : bool :=
  match m with GET | HEAD | POST => true | _ => false end.

Definition allowRequestBody (m : MethodCode) : bool :=
  match m with HEAD | DELETE | TRACE => false | _ => true end.

Definition allowResponseBody (m : MethodCode) : bool :=
  match m with HEAD => false | _ => true end.

Definition allowNoResponse (m : MethodCode) : bool :=
  match m with GET | HEAD | OPTIONS | CONNECT | TRACE => false | _ => true end.

Definition toString (m : MethodCode) : bytes :=
  match m with
  | GET => lit "GET"
  | HEAD => lit "HEAD"
  | POST => lit "POST"
  | PUT => lit "PUT"
  | DELETE => lit "DELETE"
  | PATCH => lit "PATCH"
  | OPTIONS => lit "OPTIONS"
  | TRACE => lit "TRACE"
  | CONNECT => lit "CONNECT"
  | None_ => lit "NoMethod"
  | _ => lit "UnknownMethod"
  end.

(** [unsigned(c)] for a [char]: [char] is signed, so it sign-extends. *)
Definition unsigned_char (c : ascii) : Z :=
  u32 (if char_code c <? 128 then char_code c else char_code c - 256).

(** [detail::CC2]: the first two characters of a name as one integer. *)
Definition CC2 (a b : ascii) : Z := Z.lor (u32 (Z.shiftl (unsigned_char a) 8)) (unsigned_char b).

(** The [case] labels of the [switch] in [Method::Parse], in source order. *)
Definition parse_cases : list MethodCode :=
  [GET; HEAD; POST; PUT; DELETE; PATCH; OPTIONS; TRACE; CONNECT].

(** The label of one case: [CC2] of the first two letters of the name. *)
Definition case_label (m : MethodCode) : Z :=
  match toString m with a :: b :: _ => CC2 a b | _ => 0 end.

(** The [switch] runs the only case whose label is the selector; the name is
    then compared as a whole. *)
Fixpoint parse_switch (sel : Z) (v : bytes) (cases : list MethodCode) : MethodCode :=
  match cases with
  | [] => Unknown_
  | m :: cases =>
      if sel =? case_label m
      then (if bool_decide (v = toString m) then m else Unknown_)
      else parse_switch sel v cases
  end.

Definition Parse (v : bytes) : MethodCode :=
  match v with
  | [] => None_
  | [_] => Unknown_
  | a :: b :: _ => parse_switch (CC2 a b) v parse_cases
  end.

End Method.

(** ** The class [Methods]

    Its state is the member [mask], a 32-bit unsigned integer. *)
Module Methods.

(** Shifts of a [uint32_t]: undefined for an amount of 32 or more. *)
Definition shl32 {E} (a n : Z) : result E Z :=
  if n <? 32 then Ret (u32 (Z.shiftl a n)) else Fault InvalidShift.
Definition shr32 {E} (a n : Z) : result E Z :=
  if n <? 32 then Ret (Z.shiftr a n) else Fault InvalidShift.

Definition empty : Z := 0.
Definition All : Z := u32 (Z.lnot 1).

Definition insert {E} (mask : Z) (m : MethodCode) : result E Z :=
  if Method.value None_ <? Method.value m
  then bit ← shl32 1 (u32 (Method.value m)); Ret (Z.lor mask bit)
  else Ret mask.

Definition erase {E} (mask : Z) (m : MethodCode) : result E Z :=
  bit ← shl32 1 (u32 (Method.value m)); Ret (Z.land mask (u32 (Z.lnot bit))).

Definition contains {E} (mask : Z) (m : MethodCode) : result E bool :=
  r ← shr32 mask (u32 (Method.value m)); Ret (negb (Z.land r 1 =? 0)).

(** [operator+(Method, Method)]. *)
Definition plus {E} (a b : MethodCode) : result E Z :=
  m ← insert empty a; insert m b.

End Methods.

(** * Theorems *)

Module MethodFacts.
Import Method.

Lemma labels_distinct m m' :
  m ∈ parse_cases → m' ∈ parse_cases → case_label m = case_label m' → m = m'.
Proof.
  intros H H' E.
  assert (forallb (λ m, forallb (λ m', implb (case_label m =? case_label m')
            (bool_decide (m = m'))) parse_cases) parse_cases = true) as Hall by reflexivity.
  rewrite forallb_forall in Hall. apply list_elem_of_In in H, H'.
  specialize (Hall _ H). rewrite forallb_forall in Hall. specialize (Hall _ H').
  rewrite E, Z.eqb_refl in Hall. by apply bool_decide_eq_true in Hall.
Qed.

Lemma valid_in_cases m : valid m = true ↔ m ∈ parse_cases.
Proof.
  split; [intros H|].
  - apply (bool_decide_unpack _). destruct m; (discriminate H || (vm_compute; exact I)).
  - intros H%(bool_decide_pack _). by destruct m.
Qed.

Lemma parse_switch_some sel v cases m :
  parse_switch sel v cases = m → m ≠ Unknown_ → m ∈ cases ∧ v = toString m.
Proof.
  induction cases as [|m' cases IH]; simpl; [by intros <-|].
  destruct (_ =? _).
  - case_bool_decide as E; intros <- ?; [|done]. split; [left|done].
  - intros Hp Hm. destruct (IH Hp Hm). split; [by right|done].
Qed.

Lemma parse_switch_hit v cases m a b w :
  v = toString m → v = a :: b :: w → m ∈ cases → incl cases parse_cases →
  parse_switch (CC2 a b) v cases = m.
Proof.
  intros Hv Hab Hin. assert (CC2 a b = case_label m) as Hl.
  { unfold case_label. by rewrite <- Hv, Hab. }
  induction cases as [|m' cases IH]; intros Hincl; [by apply elem_of_nil in Hin|]. simpl.
  destruct (Z.eqb_spec (CC2 a b) (case_label m')) as [E|E].
  - assert (m = m') as <-.
    { apply labels_distinct; [apply list_elem_of_In, Hincl, list_elem_of_In, Hin | | congruence].
      apply list_elem_of_In, Hincl. by left. }
    rewrite bool_decide_true; done.
  - apply IH.
    + apply elem_of_cons in Hin as [->|Hin]; [congruence|done].
    + intros x Hx. apply Hincl. by right.
Qed.

Lemma method_toString_Parse s : valid (Parse s) = true → s = toString (Parse s).
Proof.
  destruct s as [|a [|b s]]; unfold Parse; try discriminate. intros Hv.
  destruct (parse_switch _ _ _) eqn:Hp; try discriminate Hv;
    (apply parse_switch_some in Hp; [apply Hp | done]).
Qed.

Lemma method_Parse_toString m : valid m = true → Parse (toString m) = m.
Proof.
  intros Hv%valid_in_cases.
  destruct (toString m) as [|a [|b w]] eqn:E; try by destruct m.
  unfold Parse. eapply parse_switch_hit; [done..| |apply incl_refl]. done.
Qed.

(** A string parses to a given valid method exactly when it is that method's
    name; the dispatch on the first two characters loses no name and confuses
    no two. *)
Theorem method_text_bijection s m :
  valid m = true → (Parse s = m ↔ s = toString m).
Proof.
  intros Hv. split.
  - intros <-. by apply method_toString_Parse.
  - intros ->. by apply method_Parse_toString.
Qed.

Lemma method_text_bijection_witness :
  valid PATCH = true ∧ (Parse (lit "PATCH") = PATCH ↔ lit "PATCH" = toString PATCH).
Proof. split; [reflexivity | apply method_text_bijection; reflexivity]. Defined.

(** ** Sets of methods *)

(** A mask that fits in the member's 32 bits. *)
Definition mask_ok (mask : Z) : Prop := 0 ≤ mask < 2 ^ 32.

Lemma value_range m : m ≠ Unknown_ → 0 ≤ value m ≤ 10.
Proof. by destruct m. Qed.

Lemma value_inj m m' : value m = value m' → m = m'.
Proof. by destruct m, m'. Qed.

Lemma land_1_odd r : negb (Z.land r 1 =? 0) = Z.odd r.
Proof.
  change 1 with (Z.ones 1). rewrite Z.land_ones, Z.pow_1_r, Zmod_odd by lia.
  by destruct (Z.odd r).
Qed.

Lemma contains_testbit {E} mask m :
  m ≠ Unknown_ → Methods.contains (E := E) mask m = Ret (Z.testbit mask (value m)).
Proof.
  intros Hm. pose proof (value_range m Hm).
  unfold Methods.contains, Methods.shr32. rewrite u32_small by lia.
  replace (value m <? 32) with true by lia. unfold mbind, result_bind. f_equal.
  by rewrite land_1_odd, <- Z.bit0_odd, Z.shiftr_spec, Z.add_0_l by lia.
Qed.

Lemma bit_ok n : 0 ≤ n ≤ 10 → u32 (Z.shiftl 1 n) = 2 ^ n.
Proof.
  intros H. rewrite Z.shiftl_1_l. apply u32_small. split; [apply Z.pow_nonneg; lia|].
  apply Z.pow_lt_mono_r; lia.
Qed.

Lemma insert_eq {E} mask m :
  valid m = true → Methods.insert (E := E) mask m = Ret (Z.lor mask (2 ^ value m)).
Proof.
  unfold valid, Methods.insert, Methods.shl32. intros H.
  replace (value None_ <? value m) with true by lia. simpl in H.
  rewrite u32_small by lia. replace (value m <? 32) with true by lia.
  unfold mbind, result_bind. by rewrite bit_ok by lia.
Qed.

Lemma erase_eq {E} mask m :
  m ≠ Unknown_ →
  Methods.erase (E := E) mask m = Ret (Z.land mask (u32 (Z.lnot (2 ^ value m)))).
Proof.
  intros H. pose proof (value_range m H). unfold Methods.erase, Methods.shl32.
  rewrite u32_small by lia. replace (value m <? 32) with true by lia.
  unfold mbind, result_bind. by rewrite bit_ok by lia.
Qed.

Lemma land_ok a b : mask_ok a → 0 ≤ b → mask_ok (Z.land a b).
Proof.
  intros [Ha Hb] Hnb. assert (0 ≤ Z.land a b) as Hn by (apply Z.land_nonneg; lia).
  split; [done|]. destruct (Z.eq_dec (Z.land a b) 0) as [->|Hne]; [lia|].
  apply Z.log2_lt_pow2; [lia|]. pose proof (Z.log2_land a b Ha Hnb).
  destruct (Z.eq_dec a 0) as [->|Ha0]; [by rewrite Z.land_0_l in Hne|].
  assert (Z.log2 a < 32) by (apply Z.log2_lt_pow2; lia). lia.
Qed.

Lemma lor_ok a b : mask_ok a → mask_ok b → mask_ok (Z.lor a b).
Proof.
  intros [Ha Hb] [Hc Hd]. assert (0 ≤ Z.lor a b) as Hn by (apply Z.lor_nonneg; lia).
  split; [done|]. destruct (Z.eq_dec (Z.lor a b) 0) as [->|Hne]; [lia|].
  apply Z.log2_lt_pow2; [lia|]. rewrite Z.log2_lor by lia.
  assert (∀ x, 0 ≤ x < 2 ^ 32 → Z.log2 x < 32) as Hlog.
  { intros x Hx. destruct (Z.eq_dec x 0) as [->|]; [by vm_compute|]. apply Z.log2_lt_pow2; lia. }
  apply Z.max_lub_lt; apply Hlog; lia.
Qed.

(** [Methods] is a finite set of methods: for a mask of 32 bits and valid
    methods, [insert], [erase] and [contains] never shift out of range, keep
    the mask in 32 bits, and obey the set laws; [All] has every method and
    the default mask none. *)
Theorem methods_set_laws {E} mask m m' :
  mask_ok mask → valid m = true → valid m' = true →
  (∃ ins, Methods.insert (E := E) mask m = Ret ins ∧ mask_ok ins ∧
     ∃ c, Methods.contains (E := E) mask m' = Ret c ∧
          Methods.contains (E := E) ins m' = Ret (bool_decide (m = m') || c)) ∧
  (∃ del, Methods.erase (E := E) mask m = Ret del ∧ mask_ok del ∧
     ∃ c, Methods.contains (E := E) mask m' = Ret c ∧
          Methods.contains (E := E) del m' = Ret (negb (bool_decide (m = m')) && c)) ∧
  Methods.contains (E := E) Methods.All m' = Ret true ∧
  Methods.contains (E := E) Methods.empty m' = Ret false.
Proof.
  intros Hk Hm Hm'.
  assert (m ≠ Unknown_ ∧ m' ≠ Unknown_) as [Hu Hu'] by (by destruct m, m').
  pose proof (value_range m Hu) as Hr. pose proof (value_range m' Hu') as Hr'.
  assert (Z.eqb (value m) (value m') = bool_decide (m = m')) as Heq.
  { case_bool_decide as E0; [subst; lia|]. apply Z.eqb_neq. intros E1. by apply E0, value_inj. }
  split_and!.
  - eexists. rewrite insert_eq by done. split; [done|]. split.
    + apply lor_ok; [done|]. rewrite <- bit_ok by done. apply Z.mod_pos_bound. lia.
    + exists (Z.testbit mask (value m')). rewrite !contains_testbit by done. split; [done|].
      by rewrite Z.lor_spec, Z.pow2_bits_eqb, Heq, orb_comm by lia.
  - eexists. rewrite erase_eq by done. split; [done|]. split.
    + apply land_ok; [done|]. apply Z.mod_pos_bound. lia.
    + exists (Z.testbit mask (value m')). rewrite !contains_testbit by done. split; [done|].
      rewrite Z.land_spec. unfold u32.
      rewrite Z.mod_pow2_bits_low, Z.lnot_spec, Z.pow2_bits_eqb, Heq, andb_comm by lia. done.
  - rewrite contains_testbit by done. by destruct m'.
  - rewrite contains_testbit by done. unfold Methods.empty. by rewrite Z.bits_0.
Qed.

Lemma methods_set_laws_witness :
  mask_ok 6 ∧ valid POST = true ∧ valid GET = true ∧
  (∃ ins, Methods.insert (E := unit) 6 POST = Ret ins ∧ mask_ok ins).
Proof.
  assert (mask_ok 6) as Hk by (unfold mask_ok; lia).
  split_and!; [done | reflexivity | reflexivity |].
  destruct (methods_set_laws (E := unit) 6 POST GET Hk eq_refl eq_refl) as [(ins & H1 & H2 & _) _].
  by exists ins.
Defined.

(** The categories follow HTTP: a safe method is idempotent and needs its
    response, so it may not be pushed without one; the methods that may be
    pushed are the four that change state, and [Unknown]. *)
Theorem method_categories m :
  (isSafe m = true → isIdempotent m = true ∧ allowNoResponse m = false) ∧
  (valid m = true → allowNoResponse m = true ↔ m ∈ [POST; PUT; DELETE; PATCH]).
Proof.
  split; [by destruct m|]. intros Hv. split; intros H.
  - apply (bool_decide_unpack _). destruct m; (discriminate H || discriminate Hv || by vm_compute).
  - apply (bool_decide_pack _) in H. by destruct m.
Qed.

Lemma method_categories_witness :
  isSafe OPTIONS = true ∧ isIdempotent OPTIONS = true ∧ allowNoResponse OPTIONS = false.
Proof.
  split; [reflexivity|]. exact (proj1 (method_categories OPTIONS) eq_refl).
Defined.

End MethodFacts.
