(* ===== verification/MsgProtocol.v ===== *)
(** * Message protocols

    [include/telling/msg_protocol.h]: the protocol named in a start-line. *)
From S2P Require Import Prelude.

(** [enum class MsgProtocolCode]; the enumerator [Http] is an alias of
    [Http_1_1] (both are 3). *)
Inductive MsgProtocolCode : Set :=
| UnknownProtocol | NoProtocol | Telling | Http_1_0 | Http_1_1.

#[export] Instance MsgProtocolCode_eq_dec : EqDecision MsgProtocolCode.
Proof. solve_decision. Defined.

Module MsgProtocol.

Definition value (p : MsgProtocolCode) : Z :=
  match p with
  | UnknownProtocol => -1 | NoProtocol => 0 | Telling => 1 | Http_1_0 => 2 | Http_1_1 => 3
  end.

Definition Http : MsgProtocolCode := Http_1_1.

(** [explicit operator bool]. *)
Definition valid (p : MsgProtocolCode) : bool :=
  (value NoProtocol <? value p) && (value p <=? value Http).

Definition toString (p : MsgProtocolCode) : bytes :=
  match p with
  | Telling => lit "Tell/0"
  | Http_1_0 => lit "HTTP/1.0"
  | Http_1_1 => lit "HTTP/1.1"
  | NoProtocol => lit "NoProtocol"
  | UnknownProtocol => lit "UnknownProtocol"
  end.

Definition preferred_newline (p : MsgProtocolCode) : bytes :=
  if value p <=? value Telling then [LF] else [CR; LF].

Definition is_http (p : MsgProtocolCode) : bool :=
  match p with Http_1_0 | Http_1_1 => true | _ => false end.

Definition Parse (v : bytes) : MsgProtocolCode :=
  match v with
  | [] => NoProtocol
  | c :: _ =>
      if Ascii.eqb c "T" then
        (if bool_decide (v = lit "Tell/0") then Telling else UnknownProtocol)
      else if Ascii.eqb c "H" then
        (if bool_decide (v = lit "HTTP/1.0") then Http_1_0
         else if bool_decide (v = lit "HTTP/1.1") then Http_1_1
         else UnknownProtocol)
      else UnknownProtocol
  end.

End MsgProtocol.

(** * Theorems *)
Module MsgProtocolFacts.
Import MsgProtocol.

Lemma protocol_Parse_toString p : valid p = true → Parse (toString p) = p.
Proof. by destruct p. Qed.

Lemma protocol_toString_Parse s : valid (Parse s) = true → s = toString (Parse s).
Proof.
  destruct s as [|c s]; unfold Parse; [done|].
  repeat first [case_bool_decide | case_char]; done.
Qed.

(** A string names a valid protocol exactly when it is that protocol printed. *)
Lemma Parse_iff s p : valid p = true → (Parse s = p ↔ s = toString p).
Proof.
  intros Hv. split; [intros <-; by apply protocol_toString_Parse | intros ->; by apply protocol_Parse_toString].
Qed.

Lemma Parse_no_slash s : ¬ ("/"%char ∈ s) → valid (Parse s) = false.
Proof.
  intros H. destruct (valid (Parse s)) eqn:E; [|done]. exfalso. apply H.
  rewrite (protocol_toString_Parse s E). destruct (Parse s); try discriminate E;
    apply (bool_decide_unpack _); by vm_compute.
Qed.

Lemma toString_no_space p : Forall (λ c, c ≠ SP ∧ c ≠ LF ∧ c ≠ CR) (toString p).
Proof. destruct p; repeat constructor; discriminate. Qed.

Lemma newline_cases p : preferred_newline p = [LF] ∨ preferred_newline p = [CR; LF].
Proof. destruct p; auto. Qed.

End MsgProtocolFacts.
