(* ===== verification/Pattern.v ===== *)
(** * Communication patterns, roles and NNG protocols

    [include/telling/pattern.h]. *)
From S2P Require Import Prelude.

(** [enum PATTERN : int8_t]; [PIPELINE] is an alias of [PUSH_PULL].  The
    enumerator [PAIR] of each enumeration has a name of its own here. *)
Inductive PATTERN : Set := NO_PATTERN | REQ_REP | PUB_SUB | PUSH_PULL | PAIR_PATTERN | PATTERN_COUNT.
Inductive ROLE : Set := NO_ROLE | CLIENT | SERVICE | BROKER | PEER.
Inductive PROTOCOL : Set := NO_PROTOCOL | PAIR | REQ | REP | SUB | PUB | PUSH | PULL.

#[export] Instance PATTERN_eq_dec : EqDecision PATTERN.
Proof. solve_decision. Defined.
#[export] Instance ROLE_eq_dec : EqDecision ROLE.
Proof. solve_decision. Defined.
#[export] Instance PROTOCOL_eq_dec : EqDecision PROTOCOL.
Proof. solve_decision. Defined.

Module Pattern.
Definition value (p : PATTERN) : Z :=
  match p with
  | NO_PATTERN => -1 | REQ_REP => 0 | PUB_SUB => 1 | PUSH_PULL => 2
  | PAIR_PATTERN => 3 | PATTERN_COUNT => 4
  end.

Definition Name (p : PATTERN) : bytes :=
  match p with
  | REQ_REP => lit "REQ_REP"
  | PUB_SUB => lit "PUB_SUB"
  | PUSH_PULL => lit "PUSHPULL"
  | PAIR_PATTERN => lit "PEER"
  | _ => lit "none"
  end.
End Pattern.

Module Role.
Definition Name (r : ROLE) : bytes :=
  match r with
  | CLIENT => lit "CLIENT"
  | SERVICE => lit "SERVICE"
  | BROKER => lit "BROKER"
  | PEER => lit "PEER"
  | NO_ROLE => lit "none"
  end.

Definition Name4c (r : ROLE) : bytes :=
  match r with
  | CLIENT => lit "CLNT"
  | SERVICE => lit "SRVC"
  | BROKER => lit "BROK"
  | PEER => lit "PEER"
  | NO_ROLE => lit "none"
  end.
End Role.

Module Protocol.
Definition Name (p : PROTOCOL) : bytes :=
  match p with
  | PAIR => lit "PAIR" | REQ => lit "REQ" | REP => lit "REP" | SUB => lit "SUB"
  | PUB => lit "PUB" | PUSH => lit "PUSH" | PULL => lit "PULL"
  | NO_PROTOCOL => lit "none"
  end.

Definition ClientSide (p : PATTERN) : PROTOCOL :=
  match p with REQ_REP => REQ | PUB_SUB => SUB | PUSH_PULL => PUSH | _ => NO_PROTOCOL end.

Definition ServerSide (p : PATTERN) : PROTOCOL :=
  match p with REQ_REP => REP | PUB_SUB => PUB | PUSH_PULL => PULL | _ => NO_PROTOCOL end.

Definition Choose (r : ROLE) (p : PATTERN) : PROTOCOL :=
  match r with
  | CLIENT => ClientSide p
  | SERVICE | BROKER => ServerSide p
  | PEER => match p with PAIR_PATTERN => PAIR | _ => NO_PROTOCOL end
  | NO_ROLE => NO_PROTOCOL
  end.

(** "Stateful protocols support contexts." *)
Definition IsStateful (p : PROTOCOL) : bool :=
  match p with
  | REQ | REP | SUB | PULL => true
  | PAIR | PUB | PUSH | NO_PROTOCOL => false
  end.
End Protocol.

(** * Theorems *)
Module PatternFacts.
Import Protocol.

(** The protocol at the other end of a connection. *)
Definition peer (p : PROTOCOL) : PROTOCOL :=
  match p with
  | REQ => REP | REP => REQ | SUB => PUB | PUB => SUB | PUSH => PULL | PULL => PUSH
  | PAIR => PAIR | NO_PROTOCOL => NO_PROTOCOL
  end.

(** For each pattern the client's and the service's (or the broker's) socket
    speak the two ends of one NNG protocol, a role and pattern that name a
    protocol are determined by it up to service/broker, and every other
    combination is rejected. *)
Theorem choose_complementary p :
  Choose SERVICE p = peer (Choose CLIENT p) ∧
  Choose BROKER p = Choose SERVICE p ∧
  (∀ r r' p', Choose r p = Choose r' p' → Choose r p ≠ NO_PROTOCOL →
     p = p' ∧ (r = r' ∨ (r ∈ [SERVICE; BROKER] ∧ r' ∈ [SERVICE; BROKER]))) ∧
  (∀ r, Choose r p = NO_PROTOCOL ↔
     r = NO_ROLE ∨ p ∈ [NO_PATTERN; PATTERN_COUNT] ∨ (r = PEER ↔ p ≠ PAIR_PATTERN)).
Proof.
  split_and!.
  - by destruct p.
  - by destruct p.
  - intros r r' p'. destruct p, r, r', p'; simpl; intros E N; try discriminate E; try done;
      split; auto; right; split; apply (bool_decide_unpack _); by vm_compute.
  - intros r. destruct p, r; simpl; split; intros H;
      try discriminate H; try done; try (by left); try (right; right; split; congruence);
      try (right; left; apply (bool_decide_unpack _); by vm_compute);
      exfalso; destruct H as [H|[H|H]];
      first [discriminate H | apply (bool_decide_pack _) in H; by vm_compute in H
            | destruct H as [H1 H2]; first [by apply H1 | specialize (H2 ltac:(discriminate)); discriminate]].
Qed.

End PatternFacts.
