(* ===== verification/Uri.v ===== *)
(** * URIs

    [include/telling/msg_uri.h]: [UriView] and [Uri], adaptations of
    [std::string_view] and [std::string] with path operations. *)
From S2P Require Import Prelude.

(** ** Searches of [std::string] used by the class

    The result is an index, [None] standing for [npos]. *)
Module StdString.

(** The first index whose character satisfies [p]. *)
Fixpoint find_if (p : ascii → bool) (s : bytes) : option nat :=
  match s with
  | [] => None
  | c :: s' => if p c then Some 0%nat else S <$> find_if p s'
  end.

(** The last such index. *)
Fixpoint find_last_if (p : ascii → bool) (s : bytes) : option nat :=
  match s with
  | [] => None
  | c :: s' =>
      match find_last_if p s' with
      | Some i => Some (S i)
      | None => if p c then Some 0%nat else None
      end
  end.

(** [find_first_of(c, pos)] and [find_first_not_of(c)]. *)
Definition find_first_of (c : ascii) (s : bytes) (pos : option nat) : option nat :=
  match pos with
  | Some pos => (λ i, (pos + i)%nat) <$> find_if (Ascii.eqb c) (drop pos s)
  | None => None
  end.
Definition find_first_not_of (c : ascii) (s : bytes) : option nat :=
  find_if (λ d, negb (Ascii.eqb c d)) s.

(** [find_last_of(c, pos)], which considers indices up to [pos], and
    [find_last_not_of(c)]. *)
Definition find_last_of (c : ascii) (s : bytes) (pos : option nat) : option nat :=
  match pos with
  | Some pos => find_last_if (Ascii.eqb c) (take (S pos) s)
  | None => find_last_if (Ascii.eqb c) s
  end.
Definition find_last_not_of (c : ascii) (s : bytes) : option nat :=
  find_last_if (λ d, negb (Ascii.eqb c d)) s.

(** [rfind(prefix, 0) == 0]. *)
Definition starts_with (s prefix_ : bytes) : bool := bool_decide (prefix_ `prefix_of` s).

End StdString.

Module Uri.
Import StdString.

(** A [UriView]: [None] when its data pointer is null (the view is then
    empty), its characters otherwise. *)
Abbreviation t := (option bytes).
Definition chars (u : t) : bytes := default [] u.

(** [explicit operator bool]: "truthy if it points to a non-zero address,
    even if its length is zero". *)
Definition truthy (u : t) : bool := match u with Some _ => true | None => false end.

Definition hasPrefix (u : t) (prefix : bytes) : bool := starts_with (chars u) prefix.

(** [substr]: a position past the end throws [std::out_of_range]. *)
Definition substr {E} (exn : E) (u : t) (pos : nat) (len : option nat) : result E t :=
  match u with
  | Some s =>
      if bool_decide (pos ≤ length s)%nat
      then Ret (Some (match len with Some n => take n (drop pos s) | None => drop pos s end))
      else Throw exn
  | None => Ret None
  end.

(** The conditional has the type of [Uri_()]: a prefix match gives a view
    into the string, whose pointer is null only when the string's is. *)
Definition subpath (u : t) (prefix : bytes) : t :=
  if hasPrefix u prefix then drop (length prefix) <$> u else None.

Definition slash : ascii := "/"%char.

(** [front] and [back]: a range (offset, length) of the string. *)
Definition front_range (s : bytes) : nat * nat :=
  let beg := find_first_not_of slash s in
  let end_ := find_first_of slash s beg in
  let beg := default (length s) beg in
  let end_ := default (length s) end_ in
  (beg, (end_ - beg)%nat).

Definition back_range (s : bytes) : nat * nat :=
  match s with
  | [] => (0%nat, 0%nat)
  | _ =>
      let end_ := find_last_not_of slash s in
      let beg := find_last_of slash s end_ in
      let beg := match beg with None => 0%nat | Some b => S b end in
      let end_ := match end_ with None => length s | Some e => S e end in
      (beg, (end_ - beg)%nat)
  end.

Definition range_chars (s : bytes) (r : nat * nat) : bytes := take (snd r) (drop (fst r) s).

Definition front (s : bytes) : bytes := range_chars s (front_range s).
Definition back (s : bytes) : bytes := range_chars s (back_range s).

(** The element removed and the string left behind. *)
Definition pop_front (s : bytes) : bytes * bytes :=
  let r := front_range s in
  (range_chars s r, if (0 <? snd r)%nat then drop (fst r + snd r) s else s).

Definition pop_back (s : bytes) : bytes * bytes :=
  let r := back_range s in
  (range_chars s r, if (0 <? snd r)%nat then take (fst r) s else s).

End Uri.

(** * Theorems *)
Module UriFacts.
Import StdString Uri.

(** ** The path as a list of segments

    The specification: split at slashes and drop the empty pieces. *)
Fixpoint pieces (s : bytes) : list bytes :=
  match s with
  | [] => [[]]
  | c :: s' =>
      if Ascii.eqb slash c then [] :: pieces s'
      else match pieces s' with
           | p :: ps => (c :: p) :: ps
           | [] => [[c]]
           end
  end.
Definition segments (s : bytes) : list bytes := filter (λ p, p ≠ []) (pieces s).

Abbreviation is_slash := (Ascii.eqb slash).
Abbreviation not_slash := (λ c, negb (Ascii.eqb slash c)).

Lemma find_if_span p s :
  find_if p s =
    match snd (span (λ c, negb (p c)) s) with
    | [] => None | _ => Some (length (fst (span (λ c, negb (p c)) s)))
    end.
Proof.
  induction s as [|c s IH]; [done|]. simpl. destruct (p c); [done|]. simpl.
  rewrite IH. destruct (span _ s) as [l [|d r]]; done.
Qed.

Lemma span_ext p q s : (∀ c, p c = q c) → span p s = span q s.
Proof. intros E. induction s as [|c s IH]; [done|]. simpl. by rewrite E, IH. Qed.

Lemma find_last_if_app p s c t :
  p c = true → Forall (λ d, p d = false) t → find_last_if p (s ++ c :: t) = Some (length s).
Proof.
  intros Hc Ht. induction s as [|d s IH]; simpl.
  - assert (find_last_if p t = None) as ->; [|by rewrite Hc].
    induction Ht as [|d t Hd _ IH]; simpl; [done|]. by rewrite IH, Hd.
  - by rewrite IH.
Qed.

Lemma find_last_if_none p s : Forall (λ d, p d = false) s → find_last_if p s = None.
Proof. induction 1 as [|d t Hd _ IH]; simpl; [done|]. by rewrite IH, Hd. Qed.

(** [pop_front] in terms of the blocks of a string. *)
Lemma front_blocks l w r :
  Forall (λ c, is_slash c = true) l → Forall (λ c, is_slash c = false) w →
  (w = [] → r = []) → (r = [] ∨ ∃ r', r = slash :: r') →
  front_range (l ++ w ++ r) = (length l, length w).
Proof.
  intros Hl Hw Hwr Hr. unfold front_range, find_first_not_of.
  rewrite find_if_span, (span_ext _ is_slash) by (intros; apply negb_involutive).
  destruct w as [|c w].
  { rewrite (Hwr eq_refl), !app_nil_r, span_all by done. simpl. f_equal. lia. }
  inversion_clear Hw as [|? ? Hc Hw'].
  simpl app. rewrite span_app_stop by done. simpl. unfold find_first_of.
  rewrite drop_app_length, find_if_span.
  assert (Forall (λ c, not_slash c = true) (c :: w)) as Hn.
  { constructor; [by rewrite Hc|]. eapply Forall_impl; [exact Hw'|]. by intros d ->. }
  rewrite app_comm_cons.
  destruct Hr as [->|[r' ->]].
  - rewrite app_nil_r, span_all by done. simpl. f_equal. rewrite !length_app. simpl. lia.
  - rewrite span_app_stop by done. simpl. f_equal. lia.
Qed.

(** Every string is leading slashes, a word without slashes, and a rest. *)
Lemma front_split s :
  ∃ l w r, s = l ++ w ++ r ∧ Forall (λ c, is_slash c = true) l
    ∧ Forall (λ c, is_slash c = false) w ∧ (w = [] → r = []) ∧ (r = [] ∨ ∃ r', r = slash :: r').
Proof.
  pose proof (span_app is_slash s) as H1. pose proof (span_fst_Forall is_slash s) as H2.
  pose proof (span_snd_head is_slash s) as H3. destruct (span is_slash s) as [l t].
  pose proof (span_app not_slash t) as H4. pose proof (span_fst_Forall not_slash t) as H5.
  pose proof (span_snd_head not_slash t) as H6. destruct (span not_slash t) as [w r].
  simpl in *. exists l, w, r. split_and!; [by rewrite H4 | done | | |].
  - eapply Forall_impl; [exact H5|]. intros c. simpl. by destruct (Ascii.eqb slash c).
  - intros ->. simpl in H4. subst r. destruct t as [|c t]; [done|].
    specialize (H3 c t eq_refl). specialize (H6 c t eq_refl). simpl in H6. by rewrite H3 in H6.
  - destruct r as [|c r]; [by left|]. right. specialize (H6 c r eq_refl).
    destruct (Ascii.eqb_spec slash c) as [->|]; [by eexists | done].
Qed.

Lemma segments_slashes l s : Forall (λ c, is_slash c = true) l → segments (l ++ s) = segments s.
Proof.
  unfold segments. induction 1 as [|c l Hc _ IH]; [done|]. simpl. rewrite Hc.
  by rewrite filter_cons_False by auto.
Qed.

Lemma pieces_word w r :
  Forall (λ c, is_slash c = false) w →
  pieces (w ++ slash :: r) = w :: pieces r ∧ pieces w = [w].
Proof.
  induction 1 as [|c w Hc _ [IH1 IH2]]; [done|]. simpl. by rewrite Hc, IH1, IH2.
Qed.

Lemma segments_word w r :
  Forall (λ c, is_slash c = false) w → w ≠ [] → (r = [] ∨ ∃ r', r = slash :: r') →
  segments (w ++ r) = w :: segments r.
Proof.
  intros Hw Hne Hr. unfold segments. destruct Hr as [->|[r' ->]].
  - rewrite app_nil_r, (proj2 (pieces_word w [] Hw)). by rewrite filter_cons_True by done.
  - rewrite (proj1 (pieces_word w r' Hw)), filter_cons_True by done.
    done.
Qed.

(** [pop_front] removes exactly the first segment of the path: the element
    has no slash, what is left of a non-empty path is a shorter string whose
    segments are the remaining ones, and an empty element means there is no
    segment left (nothing is then removed). *)
Theorem uri_pop_front s :
  let '(w, rest) := pop_front s in
  w = front s ∧ Forall (λ c, c ≠ slash) w ∧
  (w = [] → segments s = [] ∧ rest = s) ∧
  (w ≠ [] → segments s = w :: segments rest ∧ (length rest < length s)%nat).
Proof.
  unfold pop_front, front.
  destruct (front_split s) as (l & w & r & -> & Hl & Hw & Hwr & Hr).
  rewrite (front_blocks l w r) by done. unfold range_chars. simpl fst; simpl snd.
  rewrite drop_app_length, take_app_length.
  split_and!; [done | | |].
  - eapply Forall_impl; [exact Hw|]. intros c E ->. by rewrite Ascii.eqb_refl in E.
  - intros ->. rewrite (Hwr eq_refl). split; [|done].
    by rewrite segments_slashes.
  - intros Hne. destruct w as [|c w]; [done|]. simpl ltb.
    rewrite <- drop_drop, drop_app_length, drop_app_length.
    rewrite segments_slashes, segments_word by done. split; [done|].
    rewrite !length_app. simpl. lia.
Qed.

(** ** The last element *)

Lemma back_range_ne s : s ≠ [] →
  back_range s =
    (let end_ := find_last_not_of slash s in
     let beg := match find_last_of slash s end_ with None => 0%nat | Some b => S b end in
     let end_ := match end_ with None => length s | Some e => S e end in
     (beg, (end_ - beg)%nat)).
Proof. by destruct s. Qed.

Lemma back_blocks_empty r :
  Forall (λ c, is_slash c = true) r → back_range r = (length r, 0%nat).
Proof.
  intros Hr. destruct r as [|d r _] using rev_ind; [done|].
  rewrite back_range_ne by (by destruct r). unfold find_last_not_of, find_last_of.
  rewrite find_last_if_none by (eapply Forall_impl; [exact Hr|]; by intros c ->).
  apply Forall_app in Hr as [_ Hd]. inversion_clear Hd as [|? ? Hd' _].
  rewrite find_last_if_app by (done || constructor). rewrite length_app. simpl. f_equal; lia.
Qed.

Lemma back_blocks_word l w c r :
  Forall (λ c, is_slash c = true) r → Forall (λ c, is_slash c = false) (w ++ [c]) →
  (l = [] ∨ ∃ l', l = l' ++ [slash]) →
  back_range (l ++ w ++ c :: r) = (length l, S (length w)).
Proof.
  intros Hr Hw Hl. rewrite back_range_ne by (by destruct l, w).
  rewrite (app_assoc l w). unfold find_last_not_of.
  pose proof (proj2 (proj1 (Forall_app _ _ _) Hw)) as Hc. inversion_clear Hc as [|? ? Hc' _].
  rewrite find_last_if_app
    by first [by rewrite Hc' | (eapply Forall_impl; [exact Hr|]; by intros d ->)].
  unfold find_last_of. rewrite (cons_middle c), (app_assoc (l ++ w)).
  rewrite take_app_length' by (rewrite !length_app; simpl; lia).
  rewrite <- (app_assoc l w).
  destruct Hl as [->|[l' ->]].
  - simpl app. rewrite find_last_if_none by done. simpl. f_equal; lia.
  - rewrite <- app_assoc. simpl app. rewrite find_last_if_app by done.
    rewrite !length_app. simpl. f_equal; lia.
Qed.

Lemma pieces_app_slash s t : pieces (s ++ slash :: t) = pieces s ++ pieces t.
Proof.
  induction s as [|c s IH]; [done|]. simpl. rewrite IH. destruct (is_slash c); [done|].
  destruct (pieces s) eqn:E; [|done]. by destruct s as [|d s]; simpl in E; repeat case_match.
Qed.

Lemma segments_app_slash s t : segments (s ++ slash :: t) = segments s ++ segments t.
Proof. unfold segments. by rewrite pieces_app_slash, filter_app. Qed.

Lemma segments_all_slashes r : Forall (λ c, is_slash c = true) r → segments r = [].
Proof. intros H. rewrite <- (app_nil_r r). by rewrite segments_slashes. Qed.

(** Every string is slashes only, or ends in a last word and slashes. *)
Lemma back_split s :
  Forall (λ c, is_slash c = true) s ∨
  ∃ l w c r, s = l ++ w ++ c :: r ∧ Forall (λ c, is_slash c = true) r
    ∧ Forall (λ c, is_slash c = false) (w ++ [c]) ∧ (l = [] ∨ ∃ l', l = l' ++ [slash]).
Proof.
  destruct (front_split (reverse s)) as (r & w & l & E & Hr & Hw & Hwl & Hl).
  apply (f_equal reverse) in E. rewrite reverse_involutive, !reverse_app in E.
  destruct w as [|c w].
  - left. rewrite E, (Hwl eq_refl). simpl. by apply Forall_reverse.
  - right. exists (reverse l), (reverse w), c, (reverse r). split_and!.
    + rewrite E, reverse_cons, <- !app_assoc. done.
    + by apply Forall_reverse.
    + rewrite <- reverse_cons. by apply Forall_reverse.
    + destruct Hl as [->|[l' ->]]; [by left|]. right. exists (reverse l').
      by rewrite reverse_cons.
Qed.

Lemma segments_last l w c r :
  Forall (λ c, is_slash c = true) r → Forall (λ c, is_slash c = false) (w ++ [c]) →
  (l = [] ∨ ∃ l', l = l' ++ [slash]) →
  segments (l ++ w ++ c :: r) = segments l ++ [w ++ [c]].
Proof.
  intros Hr Hw Hl. rewrite (cons_middle c), (app_assoc w).
  assert (segments ((w ++ [c]) ++ r) = [w ++ [c]]) as Hwr.
  { rewrite segments_word; [by rewrite segments_all_slashes | done | by destruct w |].
    destruct r as [|d r]; [by left|]. right. inversion_clear Hr as [|? ? Hd _].
    apply Ascii.eqb_eq in Hd as ->. by eexists. }
  destruct Hl as [->|[l' ->]]; [done|].
  rewrite <- app_assoc. simpl app. rewrite !segments_app_slash. simpl.
  by rewrite Hwr, app_nil_r.
Qed.

(** [pop_back] removes exactly the last segment of the path, with the same
    guarantees as [pop_front]. *)
Theorem uri_pop_back s :
  let '(w, rest) := pop_back s in
  w = back s ∧ Forall (λ c, c ≠ slash) w ∧
  (w = [] → segments s = [] ∧ rest = s) ∧
  (w ≠ [] → segments s = segments rest ++ [w] ∧ (length rest < length s)%nat).
Proof.
  unfold pop_back, back. destruct (back_split s) as [Hs|(l & w & c & r & -> & Hr & Hw & Hl)].
  - rewrite back_blocks_empty by done. unfold range_chars. simpl.
    split_and!; [done | constructor | | done]. intros _. split; [|done].
    by apply segments_all_slashes.
  - pose proof (segments_last l w c r Hr Hw Hl) as Hseg.
    rewrite back_blocks_word by done. unfold range_chars. simpl fst; simpl snd.
    rewrite drop_app_length, take_app_length. rewrite (cons_middle c), (app_assoc w) in Hseg |- *.
    rewrite take_app_length' by (rewrite length_app; simpl; lia).
    split_and!; [done | | by destruct w |].
    + eapply Forall_impl; [exact Hw|]. intros d E ->. by rewrite Ascii.eqb_refl in E.
    + intros _. simpl ltb. rewrite Hseg. split; [done|]. rewrite !length_app. simpl. lia.
Qed.

(** ** Walking a path

    What a caller sees that pops elements until one is empty, from either end. *)
Fixpoint walk (pop : bytes → bytes * bytes) (fuel : nat) (s : bytes) : list bytes :=
  match fuel with
  | O => []
  | S fuel => let '(w, rest) := pop s in match w with [] => [] | _ => w :: walk pop fuel rest end
  end.

(** C36. Popping from the front lists the segments of the path, as splitting it at
    the slashes and dropping the empty pieces does; popping from the back
    lists them in reverse.  A path has no more segments than characters, so
    that as many turns as it has characters are enough to empty it, and one
    turn more finds nothing. *)
Theorem uri_walk s extra :
  walk pop_front (length s + extra) s = segments s
  ∧ walk pop_back (length s + extra) s = reverse (segments s).
Proof.
  assert (∀ fuel s, (length s ≤ fuel)%nat →
    walk pop_front fuel s = segments s ∧ walk pop_back fuel s = reverse (segments s)) as Hwalk; [|apply Hwalk; lia].
  intros fuel. induction fuel as [|fuel IH]; intros t Ht.
  { destruct t; [done | simpl in Ht; lia]. }
  cbn [walk]. pose proof (uri_pop_front t) as HF. pose proof (uri_pop_back t) as HB.
  destruct (pop_front t) as [w rest], (pop_back t) as [w' rest'].
  destruct HF as (_ & _ & F0 & F1), HB as (_ & _ & B0 & B1). split.
  - destruct w as [|c w]; [by rewrite (proj1 (F0 eq_refl))|].
    destruct (F1 ltac:(done)) as [-> Hlt]. f_equal. apply IH. lia.
  - destruct w' as [|c w']; [by rewrite (proj1 (B0 eq_refl))|].
    destruct (B1 ltac:(done)) as [-> Hlt]. rewrite reverse_app. simpl. f_equal. apply IH. lia.
Qed.

(** [subpath] succeeds exactly on a prefix, and returns what follows it. *)
Theorem uri_subpath s prefix :
  match subpath (Some s) prefix with
  | Some rest => s = prefix ++ rest
  | None => ¬ prefix `prefix_of` s
  end.
Proof.
  unfold subpath, hasPrefix, starts_with. simpl.
  case_bool_decide as H; [|done]. destruct H as [k ->]. simpl.
  by rewrite drop_app_length.
Qed.

End UriFacts.
