(* ===== verification/HostAddress.v ===== *)
(** * Host addresses

    [include/telling/host_address.h]: the address of a socket and the range
    of addresses a server uses, one per communication pattern. *)
From S2P Require Import Prelude.
From S2P Require Import Pattern.

(** [enum TRANSPORT : int8_t]. *)
Inductive TRANSPORT : Set := NO_TRANSPORT | INPROC | IPC | TCP | TRANSPORT_COUNT.

#[export] Instance TRANSPORT_eq_dec : EqDecision TRANSPORT.
Proof. solve_decision. Defined.

(** The platforms the preprocessor distinguishes for IPC paths. *)
Inductive PLATFORM : Set := Windows | Apple | OtherPlatform.

Record HostAddress : Type := mkHost {
  transport : TRANSPORT;
  number : Z;             (** [uint16_t] *)
  name : bytes;
}.

#[export] Instance HostAddress_eq_dec : EqDecision HostAddress.
Proof. solve_decision. Defined.

Module Host.

(** The default constructor. *)
Definition nil : HostAddress := mkHost NO_TRANSPORT 0 [].

(** The transport constructors. *)
Definition TCP_ (host : bytes) (port : Z) : HostAddress := mkHost TCP port host.
Definition TCP_Local (port : Z) : HostAddress := TCP_ (lit "localhost") port.
Definition InProc (n : bytes) : HostAddress := mkHost INPROC 0 n.
Definition IPC_ (n : bytes) : HostAddress := mkHost IPC 0 n.

(** [operator bool] and [operator==]. *)
Definition valid (a : HostAddress) : bool := negb (bool_decide (transport a = NO_TRANSPORT)).

Definition eqb (a o : HostAddress) : bool :=
  bool_decide (transport a = transport o) &&
  (if bool_decide (transport a = TCP)
   then number a =? number o
   else bool_decide (name a = name o)).

(** The digits of a port, least significant first, in [char portstr[5]]:
    [while (port_ != 0) {portstr[portchars++] = '0' + port_ % 10; port_ /= 10;}] *)
Fixpoint port_loop {E} (fuel : nat) (port : Z) (portstr : bytes) (portchars : nat)
  : result E (bytes * nat) :=
  match fuel with
  | O => Fault OutOfFuel
  | S fuel =>
      if port =? 0 then Ret (portstr, portchars)
      else if (portchars <? 5)%nat
      then port_loop fuel (port / 10) (<[portchars := digit (port mod 10)]> portstr) (S portchars)
      else Fault OutOfBounds
  end.

(** [portstr] starts as ['0'] followed by zero bytes; the digits are pushed
    back in reverse order, at least one of them. *)
Definition port_string {E} (port : Z) : result E bytes :=
  '(portstr, portchars) ← port_loop 6 port ("0"%char :: replicate 4 "000"%char) 0;
  Ret (reverse (take (Nat.max portchars 1) portstr)).

(** [operator std::string]: the URI of the address. *)
Definition toString {E} (pf : PLATFORM) (a : HostAddress) : result E bytes :=
  match transport a with
  | INPROC => Ret (lit "inproc://" ++ name a)
  | IPC =>
      Ret (lit (match pf with
                | Windows => "ipc://" | Apple => "ipc:///tmp/" | OtherPlatform => "ipc:///var/run/"
                end) ++ name a)
  | TCP =>
      port ← port_string (number a);
      Ret (lit "tcp://" ++ (match name a with [] => lit "localhost" | n => n end)
           ++ lit ":" ++ port)
  | _ => Ret (lit "unknown")
  end.

(** ** [HostAddress::Base] *)

Definition Extension (p : PATTERN) : option bytes :=
  match p with
  | REQ_REP => Some (lit ".req")
  | PUB_SUB => Some (lit ".sub")
  | PUSH_PULL => Some (lit ".push")
  | _ => None
  end.

Definition PortOffset (base_port : Z) (p : PATTERN) : Z :=
  u16 (base_port + u16 (Pattern.value p)).

Definition derived (base : HostAddress) (p : PATTERN) : HostAddress :=
  match transport base with
  | TCP => mkHost TCP (PortOffset (number base) p) (name base)
  | INPROC | IPC =>
      match Extension p with
      | Some suffix => mkHost (transport base) (number base) (name base ++ suffix)
      | None => nil
      end
  | _ => nil
  end.

Definition DefaultServerID : bytes := lit "telling.v0".
Definition DefaultInProc : HostAddress := InProc DefaultServerID.

End Host.

(** * Theorems *)
Module HostFacts.
Import Host.

(** A [uint16_t] has at most five digits, so the buffer is large enough. *)
Lemma port_loop_spec {E} fuel k port portstr n :
  (n + k = 5)%nat → length portstr = 5%nat → 0 ≤ port < 10 ^ Z.of_nat k → (k < fuel)%nat →
  ∃ portstr' n', port_loop (E := E) fuel port portstr n = Ret (portstr', n') ∧
    (if port =? 0 then portstr' = portstr ∧ n' = n
     else take n' portstr' = take n portstr ++ digits_le k port ∧ (0 < n')%nat).
Proof.
  revert k port portstr n. induction fuel as [|fuel IH]; intros k port portstr n Hnk Hlen Hp Hf;
    [lia|]. simpl. destruct (Z.eqb_spec port 0) as [->|Hne]; [by eauto|].
  destruct k as [|k]; [simpl in Hp; lia|].
  replace (n <? 5)%nat with true by (symmetry; apply Nat.ltb_lt; lia).
  assert (0 ≤ port / 10 < 10 ^ Z.of_nat k) as Hd.
  { rewrite Nat2Z.inj_succ, Z.pow_succ_r in Hp by lia.
    split; [apply Z.div_pos; lia | apply Z.div_lt_upper_bound; lia]. }
  destruct (IH k (port / 10) (<[n:=digit (port mod 10)]> portstr) (S n))
    as (portstr' & n' & -> & H); [lia | by rewrite length_insert | done | lia |].
  eexists _, _. split; [done|]. simpl.
  assert (take (S n) (<[n:=digit (port mod 10)]> portstr) = take n portstr ++ [digit (port mod 10)])
    as Htake.
  { rewrite (take_S_r _ _ (digit (port mod 10))) by (apply list_lookup_insert_eq; lia).
    by rewrite take_insert_ge by lia. }
  destruct (port / 10 =? 0).
  - destruct H as [-> ->]. rewrite Htake. split; [done | lia].
  - destruct H as [H ?]. rewrite H, Htake, <- app_assoc. split; [done | lia].
Qed.

Lemma port_string_eq {E} port :
  0 ≤ port < 65536 → port_string (E := E) port = Ret (reverse (digits_le 5 port)).
Proof.
  intros Hp. unfold port_string.
  destruct (port_loop_spec (E := E) 6 5 port ("0"%char :: replicate 4 "000"%char) 0)
    as (portstr & n & -> & H); [done | done | simpl; lia | lia |].
  unfold mbind, result_bind. destruct (Z.eqb_spec port 0) as [->|Hne].
  - destruct H as [-> ->]. done.
  - destruct H as [H ?]. replace (Nat.max n 1) with n by lia. by rewrite H.
Qed.

(** The port of an address is written in full: the digit buffer never
    overflows, and the text after the last colon is a decimal numeral of one
    to five digits whose value is the port. *)
Theorem host_tcp_text {E} pf host port :
  0 ≤ port < 65536 → host ≠ [] →
  ∃ d, toString (E := E) pf (TCP_ host port) = Ret (lit "tcp://" ++ host ++ lit ":" ++ d)
    ∧ Forall (λ c, is_digit c = true) d ∧ (1 ≤ length d ≤ 5)%nat ∧ dec_value d = port.
Proof.
  intros Hp Hh. exists (reverse (digits_le 5 port)). unfold toString, TCP_. simpl transport.
  simpl number; simpl name. rewrite port_string_eq by done. split_and!.
  - by destruct host.
  - apply Forall_reverse, digits_le_digits.
  - rewrite length_reverse. simpl digits_le. simpl length. lia.
  - rewrite length_reverse. apply digits_le_length. simpl. lia.
  - apply dec_value_digits. simpl. lia.
Qed.

Lemma host_tcp_text_witness :
  ∃ d, toString (E := unit) Apple (TCP_ (lit "a") 8080)
         = Ret (lit "tcp://" ++ lit "a" ++ lit ":" ++ d) ∧ dec_value d = 8080.
Proof.
  destruct (host_tcp_text (E := unit) Apple (lit "a") 8080) as (d & H1 & _ & _ & H2);
    [lia | discriminate |]. by exists d.
Defined.

(** C40. Two patterns get addresses with different URIs from one base, on every
    transport: the ports differ modulo 2^16, the names by their extension. *)
Theorem derived_distinct pf base p p' :
  transport base ∈ [INPROC; IPC; TCP] → 0 ≤ number base < 65536 →
  p ∈ [REQ_REP; PUB_SUB; PUSH_PULL] → p' ∈ [REQ_REP; PUB_SUB; PUSH_PULL] → p ≠ p' →
  ∃ u u', toString (E := unit) pf (derived base p) = Ret u
        ∧ toString (E := unit) pf (derived base p') = Ret u' ∧ u ≠ u'.
Proof.
  intros Ht Hn Hp%(bool_decide_pack _) Hp'%(bool_decide_pack _) Hne.
  unfold derived, toString.
  destruct base as [t n nm]; simpl in *. apply (bool_decide_pack _) in Ht.
  destruct t; try (by vm_compute in Ht); simpl.
  1, 2: destruct p; try (by vm_compute in Hp); destruct p'; try (by vm_compute in Hp'); try done;
    destruct pf; simpl; eexists _, _; (split; [reflexivity|split; [reflexivity|]]); intros E;
    injection E as E; apply app_inv_head in E; discriminate E.
  assert (∀ q, 0 ≤ PortOffset n q < 65536) as Hq by (intros q; apply Z.mod_pos_bound; lia).
  rewrite !port_string_eq by apply Hq. unfold mbind, result_bind.
  eexists _, _. split; [reflexivity|]. split; [reflexivity|]. intros E.
  apply (app_inv_head (lit "tcp://")), app_inv_head, (app_inv_head (lit ":")) in E.
  apply (f_equal dec_value) in E. 
  pose proof (Hq p) as Hqp. pose proof (Hq p') as Hqp'.
  rewrite !dec_value_digits in E by lia.
  unfold PortOffset, u16 in E. rewrite !Zplus_mod_idemp_r in E.
  destruct p; try (by vm_compute in Hp); destruct p'; try (by vm_compute in Hp'); try done; simpl in E;
    repeat match type of E with context [?a mod ?b] =>
      rewrite (Z.mod_eq a b) in E by lia end; lia.
Qed.

Lemma derived_distinct_witness :
  ∃ u u', toString (E := unit) OtherPlatform (derived (TCP_Local 65535) REQ_REP) = Ret u
        ∧ toString (E := unit) OtherPlatform (derived (TCP_Local 65535) PUSH_PULL) = Ret u' ∧ u ≠ u'.
Proof.
  apply derived_distinct;
    first [apply (bool_decide_unpack _); vm_compute; exact I | simpl; lia | discriminate].
Defined.

(** The address of a pattern can be printed. *)
Lemma derived_uri {E} pf base p : ∃ uri, toString (E := E) pf (derived base p) = Ret uri.
Proof.
  unfold derived, toString. destruct (transport base); simpl; try by eexists.
  - destruct (Extension p); by eexists.
  - destruct (Extension p); by eexists.
  - rewrite port_string_eq by (apply Z.mod_pos_bound; lia). by eexists.
Qed.

(** [operator==] ignores the host of a TCP address: two addresses with
    different hosts, hence different URIs, compare equal. *)
Theorem host_eq_ignores_tcp_host pf port :
  0 ≤ port < 65536 →
  eqb (TCP_ (lit "10.0.0.1") port) (TCP_ (lit "10.0.0.2") port) = true ∧
  toString (E := unit) pf (TCP_ (lit "10.0.0.1") port)
    ≠ toString (E := unit) pf (TCP_ (lit "10.0.0.2") port).
Proof.
  intros Hp. split.
  - unfold eqb, TCP_. simpl. apply Z.eqb_refl.
  - unfold toString, TCP_. simpl. rewrite port_string_eq by done. simpl. congruence.
Qed.

Lemma host_eq_ignores_tcp_host_witness :
  eqb (TCP_ (lit "10.0.0.1") 80) (TCP_ (lit "10.0.0.2") 80) = true.
Proof. apply (host_eq_ignores_tcp_host Apple 80). lia. Defined.

End HostFacts.
