(* ===== verification/Deposit.v ===== *)
(** * Deposits

    [include/telling/deposit.h]: objects left with a number and a time to
    expire.  The mutex makes [deposit], [claim] and each turn of the loop of
    the expiring thread one step; [terminate] is set without it.  The header is
    not included anywhere, and [&run_expire_thread] is read as the address of
    the member function it names.  Times are integers; which of several
    expirations at one time is on top of the queue is not specified, and here
    it is the first. *)
From stdpp Require Import gmap.
From S2P Require Import Prelude.

Abbreviation ClaimNumber := Z.

(** [Expiration]. *)
Record Expiration : Type := mkExpiration { x_number : ClaimNumber; x_expire : Z }.

(** Where the expiring thread is: at the head of the loop or past its test,
    with the mutex; or waiting without it, until a time if there is one. *)
Inductive expire_thread : Type :=
| AtTest
| InBody
| Waiting (until : option Z)
| Ended.

(** [Depository]; a [std::any] is an option. *)
Record Depository (A : Type) : Type := mkDepository {
  lockers : gmap ClaimNumber (option A);
  expireQueue : list Expiration;
  terminate : bool;
  claimNumberGen : ClaimNumber;
  expireThread : expire_thread;
}.
Arguments mkDepository {A} _ _ _ _ _.
Arguments lockers {A} _.
Arguments expireQueue {A} _.
Arguments terminate {A} _.
Arguments claimNumberGen {A} _.
Arguments expireThread {A} _.

Module DepositOps.

(** Up to [2 ^ n] turns of a loop that ends with [inr]. *)
Fixpoint turns {X R : Type} (body : X → X + R) (n : nat) (x : X) : X + R :=
  match n with
  | O => body x
  | S n => match turns body n x with inl x' => turns body n x' | inr r => inr r end
  end.

Section Ops.
Context {A : Type}.

Abbreviation D := (Depository A).
Abbreviation DM := (M Empty_set (Depository A)).

Definition new : D := mkDepository ∅ [] false 0 AtTest.

Definition set_lockers x (d : D) : D := mkDepository x (expireQueue d) (terminate d) (claimNumberGen d) (expireThread d).
Definition set_queue x (d : D) : D := mkDepository (lockers d) x (terminate d) (claimNumberGen d) (expireThread d).
Definition set_terminate x (d : D) : D := mkDepository (lockers d) (expireQueue d) x (claimNumberGen d) (expireThread d).
Definition set_gen x (d : D) : D := mkDepository (lockers d) (expireQueue d) (terminate d) x (expireThread d).
Definition set_thread x (d : D) : D := mkDepository (lockers d) (expireQueue d) (terminate d) (claimNumberGen d) x.

(** [operator<]: earlier times have greater priority. *)
Definition later (a b : Expiration) : bool := x_expire b <? x_expire a.

(** [expireQueue.emplace]: the first of the list is [top()]. *)
Fixpoint emplace (x : Expiration) (q : list Expiration) : list Expiration :=
  match q with
  | [] => [x]
  | y :: q' => if later y x then x :: q else y :: emplace x q'
  end.

(** The loop of [deposit]: it goes on while the number is not zero and not in
    use.  [claimNumberGen] has 32 bits, so [2 ^ 32] turns reach zero. *)
Definition next_number (used : gmap ClaimNumber (option A)) (gen : ClaimNumber) : ClaimNumber + ClaimNumber :=
  let n := u32 (gen + 1) in
  if negb (n =? 0) && negb (bool_decide (is_Some (used !! n))) then inl n else inr n.
Definition generate (used : gmap ClaimNumber (option A)) (gen : ClaimNumber) : ClaimNumber + ClaimNumber :=
  turns (next_number used) 32 gen.

(** [notify_one]: the expiring thread leaves its wait. *)
Definition notify_one (d : D) : D :=
  match expireThread d with Waiting _ => set_thread AtTest d | _ => d end.

(** [deposit] at the time [now]: it ends without a [return]. *)
Definition deposit (object : option A) (duration now : Z) : DM ClaimNumber :=
  if duration <=? 0 then mret 0
  else
    d ← get;
    match generate (lockers d) (claimNumberGen d) with
    | inl _ => fail OutOfFuel
    | inr claimNumber =>
        modify (set_gen claimNumber);;
        let expiration := mkExpiration claimNumber (now + duration) in
        let wakeExpiration := match expireQueue d with [] => true | top :: _ => later expiration top end in
        modify (set_queue (emplace expiration (expireQueue d)));;
        modify (set_lockers (match lockers d !! claimNumber with
                             | Some _ => lockers d
                             | None => <[claimNumber := object]> (lockers d) end));;
        (if wakeExpiration then modify notify_one else mret tt);;
        fail MissingReturn
    end.

(** [claim]: the object is moved out, and its locker stays. *)
Definition claim (number : ClaimNumber) : DM (option A) :=
  d ← get;
  match lockers d !! number with
  | Some object => modify (set_lockers (<[number := None]> (lockers d)));; mret object
  | None => mret None
  end.

(** One action of [run_expire_thread] at the time [now]. *)
Definition run_thread (now : Z) (d : D) : D :=
  match expireThread d with
  | AtTest => set_thread (if terminate d then Ended else InBody) d
  | InBody =>
      match expireQueue d with
      | [] => set_thread (Waiting None) d
      | top :: rest =>
          if x_expire top <? now
          then set_thread AtTest (set_queue rest (set_lockers (delete (x_number top) (lockers d)) d))
          else set_thread (Waiting (Some (x_expire top))) d
      end
  | _ => d
  end.

Inductive event : Type :=
| EDeposit (object : option A) (duration now : Z)
| EClaim (number : ClaimNumber)
| EThread (now : Z)
| EWake                                  (** the wait times out, or for no reason *)
| ETerminate                             (** the destructor sets [terminate] *)
| ENotify.                               (** and calls [notify_one] *)

(** [deposit] and [claim] need the mutex. *)
Definition unlocked (d : D) : bool := match expireThread d with AtTest | InBody => false | _ => true end.

(** What a program does that goes on with the values that it has after the
    end of [deposit]. *)
Definition step (d : D) (e : event) : option D :=
  match e with
  | EDeposit object duration now => if unlocked d then Some (snd (deposit object duration now d)) else None
  | EClaim number => if unlocked d then Some (snd (claim number d)) else None
  | EThread now => Some (run_thread now d)
  | EWake => match expireThread d with Waiting _ => Some (set_thread AtTest d) | _ => None end
  | ETerminate => Some (set_terminate true d)
  | ENotify => if terminate d then Some (notify_one d) else None
  end.

Inductive reachable : D → Prop :=
| reach_new : reachable new
| reach_step d e d' : reachable d → step d e = Some d' → reachable d'.

End Ops.
Arguments event : clear implicits.
End DepositOps.

(** * Theorems *)
Module DepositFacts.
Import DepositOps.

(** ** Loops *)

(** A loop that goes on [k] times from [x] ends at the next turn, if [k] is
    less than the bound. *)
Lemma turns_spec {X R} (body : X → X + R) n : ∀ x,
  match turns body n x with
  | inr r => ∃ k y, (k < 2 ^ n)%nat ∧ Nat.iter k (λ s, s ≫= λ x, match body x with inl y => Some y | inr _ => None end) (Some x) = Some y
      ∧ body y = inr r
  | inl y => Nat.iter (2 ^ n) (λ s, s ≫= λ x, match body x with inl y => Some y | inr _ => None end) (Some x) = Some y
  end.
Proof.
  set (f := λ s, s ≫= λ x, match body x with inl y => Some y | inr _ => None end).
  induction n as [|n IH]; intros x; simpl.
  - destruct (body x) as [y|r] eqn:E; [done|]. exists 0%nat, x. split; [lia | done].
  - specialize (IH x) as H1. destruct (turns body n x) as [x'|r].
    + pose proof (IH x') as H2. destruct (turns body n x') as [y|r].
      * rewrite Nat.add_0_r, Nat.iter_add. by rewrite H1.
      * destruct H2 as (k & y & Hk & Hy & Hb). exists (2 ^ n + k)%nat, y. split; [lia|].
        rewrite Nat.add_comm, Nat.iter_add. by rewrite H1.
    + destruct H1 as (k & y & Hk & Hy & Hb). exists k, y. split; [lia | done].
Qed.

Section Facts.
Context {A : Type}.
Implicit Types (d : Depository A) (used : gmap ClaimNumber (option A)).

(** As long as the loop goes on the numbers count up, and none is zero. *)
Lemma next_number_counts used gen k : 0 ≤ gen < 2 ^ 32 → ∀ y,
  Nat.iter k (λ s, s ≫= λ x, match next_number used x with inl y => Some y | inr _ => None end) (Some gen) = Some y →
  y = gen + Z.of_nat k ∧ y < 2 ^ 32.
Proof.
  intros Hg. induction k as [|k IH]; intros y; simpl; [intros [= <-]; lia|].
  destruct (Nat.iter k _ (Some gen)) as [z|] eqn:Ez; [|done]. simpl. destruct (IH z eq_refl) as [-> Hz].
  unfold next_number. destruct (negb _ && negb _) eqn:Eb; [|done]. intros [= <-].
  apply andb_true_iff in Eb as [Eb _]. apply negb_true_iff, Z.eqb_neq in Eb.
  assert (gen + Z.of_nat k + 1 < 2 ^ 32) as Hlt.
  { destruct (decide (gen + Z.of_nat k + 1 = 2 ^ 32)) as [E|]; [|lia]. rewrite E in Eb. done. }
  rewrite u32_small by lia. lia.
Qed.

(** The loop ends, and what it ends with is zero or a number in use. *)
Lemma generate_spec used gen :
  0 ≤ gen < 2 ^ 32 → ∃ n, generate used gen = inr n ∧ (n = 0 ∨ is_Some (used !! n)).
Proof.
  intros Hg. unfold generate. pose proof (turns_spec (next_number used) 32 gen) as Ht.
  destruct (turns (next_number used) 32 gen) as [y|n].
  - destruct (next_number_counts used gen _ Hg y Ht) as [E Hy]. exfalso.
    rewrite Nat2Z.inj_pow in E. change (Z.of_nat 2 ^ Z.of_nat 32) with (2 ^ 32) in E. lia.
  - exists n. split; [done|]. destruct Ht as (k & y & _ & _ & Hb). unfold next_number in Hb.
    destruct (negb _ && negb _) eqn:Eb; [done|]. injection Hb as <-. apply andb_false_iff in Eb as [Eb|Eb]; apply negb_false_iff in Eb.
    + left. by apply Z.eqb_eq.
    + right. by apply bool_decide_eq_true in Eb.
Qed.

(** Nothing is in a locker with a number other than zero. *)
Record Inv d : Prop := {
  inv_lockers n : is_Some (lockers d !! n) → n = 0;
  inv_gen : claimNumberGen d = 0;
}.

Lemma deposit_spec d object duration now :
  Inv d → 0 < duration →
  ∃ d', deposit object duration now d = (Fault MissingReturn, d') ∧ Inv d'
    ∧ lockers d' = match lockers d !! 0 with Some _ => lockers d | None => <[0 := object]> (lockers d) end.
Proof.
  intros [H1 H2] Hd. unfold deposit. replace (duration <=? 0) with false by lia.
  unfold mbind at 1, M_bind at 1, get at 1. rewrite H2.
  destruct (generate_spec (lockers d) 0) as (n & E & Hn); [lia|]. rewrite E.
  assert (n = 0) as -> by (destruct Hn as [?|?]; [done | by apply H1]).
  unfold mbind, M_bind, modify, fail, mret, M_ret. simpl.
  assert (∀ m, is_Some (match lockers d !! 0 with Some _ => lockers d | None => <[0 := object]> (lockers d) end !! m) → m = 0) as HL.
  { intros m. destruct (lockers d !! 0); [apply H1|]. intros [x [[<- _]|[_ Hx]]%lookup_insert_Some]; [done|]. by apply H1; rewrite Hx. }
  destruct (match expireQueue d with [] => true | top :: _ => _ end); (eexists; split; [reflexivity|]).
  - unfold notify_one. simpl. by destruct (expireThread d).
  - done.
Qed.

Lemma depository_step d e d' : Inv d → step d e = Some d' → Inv d'.
Proof.
  intros HI. destruct e as [object duration now|number|now| | |]; simpl.
  - destruct (unlocked d); [|done]. intros [= <-]. destruct (decide (duration ≤ 0)) as [Hd|Hd].
    + unfold deposit. by replace (duration <=? 0) with true by lia.
    + destruct (deposit_spec d object duration now HI) as (d' & -> & ? & _); [lia | done].
  - destruct (unlocked d); [|done]. intros [= <-]. unfold claim, mbind, M_bind, get, modify, mret, M_ret.
    destruct (lockers d !! number) eqn:El; simpl; [|done]. destruct HI as [H1 H2]. split; [|done]. simpl.
    intros n [x [[<- _]|[_ Hx]]%lookup_insert_Some]; apply H1; by rewrite ?El, ?Hx.
  - intros [= <-]. destruct HI as [H1 H2]. unfold run_thread. destruct (expireThread d); [by split| |by split..].
    destruct (expireQueue d) as [|top rest]; [by split|]. destruct (_ <? _); [|by split]. split; [|done]. simpl.
    intros n [x Hx]. apply lookup_delete_Some in Hx as [_ Hx]. apply H1. by rewrite Hx.
  - destruct HI as [H1 H2]. destruct (expireThread d); try done. intros [= <-]. by split.
  - intros [= <-]. by destruct HI; split.
  - destruct (terminate d); [|done]. intros [= <-]. destruct HI as [H1 H2]. unfold notify_one. destruct (expireThread d); by split.
Qed.

Lemma depository_Inv d : reachable d → Inv d.
Proof.
  induction 1 as [|d e d' _ IH E]; [|by eapply depository_step]. split; [|done]. simpl. intros n. rewrite lookup_empty. by intros [].
Qed.

(** A deposit of positive duration ends, after at most [2 ^ 32] turns of its
    loop, and never with a number: it runs off its end.  The object is dropped,
    or kept under the number 0, so that [Claim] of any other number, which is
    what a depositor could be given, finds nothing in any state. *)
Theorem deposits_lost d object duration now :
  reachable d → 0 < duration →
  (∃ d', deposit object duration now d = (Fault MissingReturn, d') ∧ dom (lockers d') ⊆ {[0]})
  ∧ ∀ number, number ≠ 0 → claim number d = (Ret None, d).
Proof.
  intros Hr Hd. pose proof (depository_Inv d Hr) as HI. split.
  - destruct (deposit_spec d object duration now HI Hd) as (d' & E & HI' & _). exists d'. split; [done|].
    intros n Hn%elem_of_dom. apply elem_of_singleton. by apply (inv_lockers d').
  - intros number Hn. unfold claim, mbind, M_bind, get, mret, M_ret. destruct (lockers d !! number) eqn:El; [|done].
    destruct Hn. apply (inv_lockers d HI). by rewrite El.
Qed.

End Facts.

(** The destructor does not hold the mutex: when it sets [terminate] and
    notifies after the thread's test and before its wait, the thread waits with
    nothing left to end its wait, and [join] does not return. *)
Example missed_wakeup :
  fold_left (λ x e, x ≫= λ d, step d e) [EThread 0; ETerminate; ENotify; EThread 0] (Some (new (A := nat))) =
  Some (mkDepository ∅ [] true 0 (Waiting None)).
Proof. reflexivity. Qed.

(** ** Witness *)
Definition idle_depository : Depository nat := run_thread 0 (run_thread 0 new).

Lemma deposits_lost_witness :
  ∃ d', deposit (Some 1%nat) 10 0 idle_depository = (Fault MissingReturn, d') ∧ claim 1 idle_depository = (Ret None, idle_depository).
Proof.
  assert (reachable idle_depository) as Hr.
  { apply (reach_step (run_thread 0 new) (EThread 0)); [|done]. by apply (reach_step new (EThread 0)); [constructor|]. }
  destruct (deposits_lost idle_depository (Some 1%nat) 10 0 Hr) as [(d' & E & _) H]; [lia|]. exists d'. split; [exact E | by apply H].
Defined.

End DepositFacts.
