(* ===== verification/Nng.v ===== *)
(** * What the library uses of NNG

    NNG and its C++ wrapper nngpp are not part of the repository.  Their
    error codes are an enumeration; an NNG message is an interface, a class
    of the operations the sources call and the laws the NNG manual documents
    for them.  Everything built on messages is proved against the interface. *)
From S2P Require Import Prelude.

(** [nng::error]: the codes the sources name; [other_error] is any other. *)
Inductive nng_error : Set :=
| success | canceled | timedout | busy | closed | exist | inval | nospc | state_
| internal | perm | addrinuse | addrinval | connaborted | connreset | connshut
| other_error (code : Z).

#[export] Instance nng_error_eq_dec : EqDecision nng_error.
Proof. solve_decision. Defined.

(** ** Messages

    - [make_msg]: [nng::make_msg(0)], an empty message;
    - [msg_body], [msg_header]: [body().get()] and [header().get()];
    - [body_append]: [body().append(view)]; the stream buffer [nng::msgbuf]
      opened with [ios::ate] appends in the same way, and the sources rely on
      its writes being visible in [body().size()] at once;
    - [body_poke]: a store of one character through [body().get().data()];
    - [set_header]: [header().clear(); header().append(view)]. *)
Class NngMsg (msg : Type) : Type := {
  make_msg : msg;
  msg_body : msg → bytes;
  msg_header : msg → bytes;
  body_append : msg → bytes → msg;
  body_poke : msg → nat → ascii → msg;
  set_header : msg → bytes → msg;
}.

Class NngMsgLaws (msg : Type) `{NngMsg msg} : Prop := {
  body_make : msg_body make_msg = [];
  header_make : msg_header make_msg = [];
  body_of_append m s : msg_body (body_append m s) = msg_body m ++ s;
  header_of_append m s : msg_header (body_append m s) = msg_header m;
  body_of_poke m i c : (i < length (msg_body m))%nat →
    msg_body (body_poke m i c) = <[i:=c]> (msg_body m);
  header_of_poke m i c : msg_header (body_poke m i c) = msg_header m;
  body_of_set_header m s : msg_body (set_header m s) = msg_body m;
  header_of_set_header m s : msg_header (set_header m s) = s;
}.

(** ** A concrete message: two byte buffers

    The instance that the examples and witnesses of the development run on. *)
Record flat_msg : Type := mkFlat { flat_header : bytes; flat_body : bytes }.

#[export] Instance flat_NngMsg : NngMsg flat_msg := {
  make_msg := mkFlat [] [];
  msg_body := flat_body;
  msg_header := flat_header;
  body_append m s := mkFlat (flat_header m) (flat_body m ++ s);
  body_poke m i c := mkFlat (flat_header m) (<[i:=c]> (flat_body m));
  set_header m s := mkFlat s (flat_body m);
}.

#[export] Instance flat_NngMsgLaws : NngMsgLaws flat_msg.
Proof. by split. Qed.
