(* ===== verification/MsgUtil.v ===== *)
(** * Exceptions and lexical helpers

    [include/telling/msg_util.h]: the exceptions that can be turned into
    replies, and the line and word readers of [namespace detail]. *)
From S2P Require Import Prelude.
From S2P Require Import Nng.
From S2P Require Import Status.

(** ** Exceptions *)

(** [MsgError::ERROR_ENUM]. *)
Inductive MSG_ERROR : Set :=
| SUCCESS | HEADER_INCOMPLETE | HEADER_MALFORMED | HEADER_TOO_BIG
| START_LINE_MALFORMED | ALREADY_WRITTEN | UNKNOWN_PROTOCOL.

#[export] Instance MSG_ERROR_eq_dec : EqDecision MSG_ERROR.
Proof. solve_decision. Defined.

(** The exceptions the sources throw or catch: [MsgException]; the classes
    [Err_<CODE>] and [StatusException], which carry a status and a message;
    [nng::exception]; and any other [std::exception] a handler may throw. *)
Inductive exn : Type :=
| MsgException (error : MSG_ERROR) (excerpt more_info : bytes)
| StatusException (status : Z) (message : bytes)
| NngException (error : nng_error) (who : bytes)
| StdException (what : bytes).

#[export] Instance exn_eq_dec : EqDecision exn.
Proof. solve_decision. Defined.

(** The constructors [Err_()] and [StatusException(status)], whose message is
    the reason phrase. *)
Definition Err_ (code : HttpStatus.Code) : exn :=
  StatusException (HttpStatus.toInt code) (Status.reasonPhrase (HttpStatus.toInt code)).

(** [throw MsgException(e, 0, 0)]: the literal [0] converts to
    [std::string_view] through the [const char*] constructor, which reads the
    length of the string at a null pointer. *)
Definition throw_null_view {S A} (e : MSG_ERROR) : M exn S A := fail NullStringView.

Module Exceptions.

(** [MsgException::what]. *)
Definition msg_what (e : MSG_ERROR) : bytes :=
  match e with
  | SUCCESS => lit "The message was parsed successfully."
  | HEADER_INCOMPLETE => lit "The message's header is incomplete."
  | HEADER_MALFORMED => lit "The message contains a malformed header."
  | HEADER_TOO_BIG => lit "The message header is too large (>64KiB)."
  | START_LINE_MALFORMED => lit "The message's start line is malformed."
  | ALREADY_WRITTEN => lit "The message's header has already been written."
  | UNKNOWN_PROTOCOL => lit "The protocol is not supported."
  end.

(** [MsgException::replyStatus]. *)
Definition msg_replyStatus (e : MSG_ERROR) : Z :=
  match e with
  | SUCCESS => HttpStatus.toInt HttpStatus.OK
  | ALREADY_WRITTEN => HttpStatus.toInt HttpStatus.InternalServerError
  | HEADER_TOO_BIG => HttpStatus.toInt HttpStatus.RequestHeaderFieldsTooLarge
  | UNKNOWN_PROTOCOL => HttpStatus.toInt HttpStatus.HTTPVersionNotSupported
  | _ => HttpStatus.toInt HttpStatus.BadRequest
  end.

End Exceptions.

(** ** Lines and words

    A pointer into a buffer is the suffix it points at, so a reader takes the
    characters up to [end] and returns what it read and the suffix left. *)
Module Detail.

(** [ConsumeLine]: a line ends at LF, CR, CR LF or the end of the data. *)
Fixpoint ConsumeLine (pos : bytes) : bytes * bytes :=
  match pos with
  | [] => ([], [])
  | c :: pos' =>
      if Ascii.eqb c LF then ([], pos')
      else if Ascii.eqb c CR then
        ([], match pos' with
             | d :: pos'' => if Ascii.eqb d LF then pos'' else pos'
             | [] => []
             end)
      else let '(line, rest) := ConsumeLine pos' in (c :: line, rest)
  end.

(** [IsWhitespace]: a bit test against the mask 0x80001F00.  The right shift
    is evaluated for every argument, also when [cp] exceeds 31. *)
Definition IsWhitespace {E} (cp : Z) : result E bool :=
  let cp := u32 (cp - 1) in
  if cp <? 32
  then Ret (negb (Z.land (of_bool (cp <=? 31)) (Z.shiftr 0x80001F00 cp) =? 0))
  else Fault InvalidShift.

(** [ConsumeWhitespace] and [ConsumeWord] (instances with [END_SAFE]). *)
Fixpoint ConsumeWhitespace {E} (pos : bytes) : result E bytes :=
  match pos with
  | [] => Ret []
  | c :: pos' =>
      w ← IsWhitespace (char_code c);
      if (w : bool) then ConsumeWhitespace pos' else Ret pos
  end.

Fixpoint word_loop {E} (pos : bytes) : result E (bytes * bytes) :=
  match pos with
  | [] => Ret ([], [])
  | c :: pos' =>
      w ← IsWhitespace (char_code c);
      if (w : bool) then Ret ([], pos)
      else '(word, rest) ← word_loop pos'; Ret (c :: word, rest)
  end.

Definition ConsumeWord {E} (pos : bytes) : result E (bytes * bytes) :=
  pos ← ConsumeWhitespace pos; word_loop pos.

End Detail.

(** * Theorems *)
Module MsgUtilFacts.
Import Detail.

Abbreviation no_newline := (Forall (λ c, c ≠ CR ∧ c ≠ LF)).

Lemma ConsumeLine_line s : no_newline (fst (ConsumeLine s)).
Proof.
  induction s as [|c s IH]; simpl; [constructor|].
  repeat case_char; try constructor.
  destruct (ConsumeLine s). simpl in *. by constructor.
Qed.

(** The shape of what [ConsumeLine] reads: the line, its terminator, the rest. *)
Lemma ConsumeLine_shape s :
  ∃ nl, s = fst (ConsumeLine s) ++ nl ++ snd (ConsumeLine s)
    ∧ (nl = [] ∧ snd (ConsumeLine s) = [] ∨ nl = [LF] ∨ nl = [CR; LF]
       ∨ nl = [CR] ∧ head (snd (ConsumeLine s)) ≠ Some LF).
Proof.
  induction s as [|c s IH]; simpl; [exists []; auto|].
  case_char; [subst; exists [LF]; auto|].
  case_char.
  - subst. destruct s as [|d s]; [exists [CR]; by auto 6|].
    case_char; [subst; exists [CR; LF]; auto|]. exists [CR]. simpl.
    split; [done|]. do 3 right. split; [done|]. congruence.
  - destruct (ConsumeLine s) as [l r]. simpl in *. destruct IH as (nl & E & H).
    exists nl. by rewrite <- E.
Qed.

(** A line without newline characters followed by a terminator is read whole. *)
Lemma ConsumeLine_app l nl r :
  no_newline l → nl = [LF] ∨ nl = [CR; LF] → ConsumeLine (l ++ nl ++ r) = (l, r).
Proof.
  intros Hl Hnl. induction Hl as [|c l [H1 H2] _ IH]; simpl.
  - destruct Hnl as [->| ->]; done.
  - rewrite !eqb_char_neq by done. by rewrite IH.
Qed.

Lemma ConsumeLine_length s :
  (length (fst (ConsumeLine s)) + length (snd (ConsumeLine s)) ≤ length s)%nat.
Proof.
  destruct (ConsumeLine_shape s) as (nl & E & _).
  apply (f_equal length) in E. rewrite !length_app in E. lia.
Qed.

Lemma ConsumeLine_progress c s : (length (snd (ConsumeLine (c :: s))) ≤ length s)%nat.
Proof.
  pose proof (ConsumeLine_length (c :: s)) as H.
  destruct (ConsumeLine_shape (c :: s)) as (nl & E & Hnl).
  destruct (ConsumeLine (c :: s)) as [l r]. simpl in *.
  apply (f_equal length) in E. rewrite !length_app in E. simpl in E.
  destruct Hnl as [[-> ->]|[->|[->|[-> _]]]]; simpl in *; lia.
Qed.

Lemma ConsumeLine_no_newline l : no_newline l → ConsumeLine l = (l, []).
Proof.
  induction 1 as [|c l [H1 H2] _ IH]; [done|]. simpl.
  by rewrite !eqb_char_neq, IH by done.
Qed.

(** [IsWhitespace] is defined on the codes 1 to 32 only, where it recognizes
    space, TAB, LF, VT, FF and CR; on every other argument, letters and digits
    included, the shift count is at least 32. *)
Theorem is_whitespace_domain cp :
  0 ≤ cp < 2 ^ 32 →
  (1 ≤ cp ≤ 32 → IsWhitespace (E := exn) cp = Ret (bool_decide (cp ∈ [9; 10; 11; 12; 13; 32]))) ∧
  (¬ (1 ≤ cp ≤ 32) → IsWhitespace (E := exn) cp = Fault InvalidShift).
Proof.
  intros Hcp. split; intros H.
  - assert (cp ∈ seqZ 1 32) as Hin by (apply elem_of_seqZ; lia).
    assert (forallb (λ cp, match IsWhitespace (E := exn) cp with
              | Ret w => Bool.eqb w (bool_decide (cp ∈ [9; 10; 11; 12; 13; 32]))
              | _ => false end) (seqZ 1 32) = true) as Hall by (vm_compute; reflexivity).
    rewrite forallb_forall in Hall. specialize (Hall cp (proj1 (list_elem_of_In _ _) Hin)).
    destruct (IsWhitespace cp); try discriminate Hall. by apply eqb_prop in Hall as ->.
  - unfold IsWhitespace. replace (u32 (cp - 1) <? 32) with false; [done|].
    symmetry. apply Z.ltb_ge. destruct (Z.eq_dec cp 0) as [->|]; [by vm_compute|].
    rewrite u32_small by lia. lia.
Qed.

Lemma is_whitespace_domain_witness :
  IsWhitespace (E := exn) 32 = Ret true ∧ IsWhitespace (E := exn) 65 = Fault InvalidShift.
Proof.
  split.
  - refine (eq_trans (proj1 (is_whitespace_domain 32 _) _) _); [lia | lia | reflexivity].
  - apply (is_whitespace_domain 65); lia.
Defined.

End MsgUtilFacts.
