(* ===== verification/Draining.v ===== *)
(** * Waiting until nothing is active

    The destructors of [Request] and [HttpClient] wait in the same way: while
    an action is active they wait for its aio, and meanwhile operations end and
    callbacks run.  [Draining] is what such a wait needs to come to its end. *)
From stdpp Require Import gmap.
From S2P Require Import Prelude.
From S2P Require Import MsgUtil.

(** What happens during the wait, as a function on events; the actions that are
    active; how many events each has before it. *)
Class Draining (S E I : Type) `{Countable I} : Type := {
  dr_step : S → E → option (result exn unit * S);
  dr_active : S → gset I;
  dr_weight : S → I → nat;
  dr_inv : S → Prop;
  dr_max : nat;
}.

(** Each event serves one action; an active action can always be served. *)
Class DrainingLaws (S E I : Type) `{Draining S E I} : Prop := {
  dr_bound s i : (dr_weight s i ≤ dr_max)%nat;
  dr_waiting s i : dr_inv s → i ∈ dr_active s ↔ dr_weight s i ≠ 0%nat;
  dr_serves s e r s' : dr_inv s → dr_step s e = Some (r, s') →
    r = Ret tt ∧ dr_inv s' ∧ ∃ i, (dr_weight s' i < dr_weight s i)%nat ∧ ∀ j, j ≠ i → dr_weight s' j = dr_weight s j;
  dr_progress s i : dr_inv s → i ∈ dr_active s → ∃ e s', dr_step s e = Some (Ret tt, s');
}.

Section Run.
Context {S E : Type}.

(** Events one after another, that return. *)
Fixpoint run_events (step : S → E → option (result exn unit * S)) (s : S) (es : list E) : option S :=
  match es with
  | [] => Some s
  | e :: es => match step s e with Some (Ret _, s') => run_events step s' es | _ => None end
  end.

End Run.

(** The action that is waited for next, of those that are active. *)
Definition next_of {I} `{Countable I} (active : gset I) : option I := head (elements active).

Lemma next_of_None {I} `{Countable I} (X : gset I) i : next_of X = None → i ∉ X.
Proof. unfold next_of. intros Hw Hi%elem_of_elements. destruct (elements X); [by apply elem_of_nil in Hi | done]. Qed.

Lemma next_of_Some {I} `{Countable I} (X : gset I) i : next_of X = Some i → i ∈ X.
Proof. unfold next_of. intros Hw. apply elem_of_elements. destruct (elements X); [done|]. injection Hw as ->. left. Qed.

(** [delete action] for each action of a pool: the actions that are left. *)
Fixpoint delete_all {I A} `{Countable I} (ids : list I) (actions : gmap I A) : result exn (gmap I A) :=
  match ids with
  | [] => Ret actions
  | i :: ids =>
      match actions !! i with
      | Some _ => delete_all ids (delete i actions)
      | None => Fault DoubleFree
      end
  end.

Lemma delete_all_ok {I A} `{Countable I} (ids : list I) (actions : gmap I A) :
  NoDup ids → (∀ i, i ∈ ids → is_Some (actions !! i)) →
  ∃ left, delete_all ids actions = Ret left
    ∧ ∀ i, (i ∈ ids → left !! i = None) ∧ (i ∉ ids → left !! i = actions !! i).
Proof.
  intros Hn. revert actions. induction Hn as [|k ids Hk Hn IH]; intros actions Ha; simpl.
  { exists actions. split; [done|]. intros i. split; [by intros ?%elem_of_nil | done]. }
  destruct (Ha k) as [a E]; [left|]. rewrite E.
  destruct (IH (delete k actions)) as (rest & E1 & Hr).
  { intros i Hi. rewrite lookup_delete_ne by (by intros ->). apply Ha. by right. }
  exists rest. split; [done|]. intros i. destruct (Hr i) as [Hin Hout]. split.
  - intros [->|Hi]%elem_of_cons; [by rewrite Hout, lookup_delete_eq | by apply Hin].
  - intros [Hne Hi]%not_elem_of_cons. by rewrite Hout, lookup_delete_ne.
Qed.

Section Facts.
Context {S E I : Type} `{DrainingLaws S E I}.
Implicit Types (s : S) (i : I) (es : list E).

(** How many events are left, of the actions of a list. *)
Definition distance (l : list I) s : nat := sum_list_with (dr_weight s) l.

Lemma distance_same l s s' : (∀ i, i ∈ l → dr_weight s' i = dr_weight s i) → distance l s' = distance l s.
Proof.
  intros Hs. induction l as [|i l IH]; [done|]. cbn [distance sum_list_with]. rewrite (Hs i) by left.
  f_equal. apply IH. intros j Hj. apply Hs. by right.
Qed.

Lemma distance_serves l s s' i :
  NoDup l → i ∈ l → (dr_weight s' i < dr_weight s i)%nat → (∀ j, j ≠ i → dr_weight s' j = dr_weight s j) →
  (distance l s' < distance l s)%nat.
Proof.
  intros Hl Hin Hw Ho. induction Hl as [|k l Hk Hl IH]; [by apply elem_of_nil in Hin|].
  cbn [distance sum_list_with]. fold (distance l s) (distance l s'). apply elem_of_cons in Hin as [->|Hin].
  - rewrite (distance_same l s s'); [lia|]. intros j Hj. apply Ho. by intros ->.
  - rewrite (Ho k) by (by intros ->). specialize (IH Hin). lia.
Qed.

Lemma distance_fewer l l' s : l ⊆+ l' → (distance l s ≤ distance l' s)%nat.
Proof. intros [k E1]%submseteq_Permutation. unfold distance. rewrite E1, sum_list_with_app. lia. Qed.

Lemma distance_bound l s : (distance l s ≤ dr_max * length l)%nat.
Proof.
  induction l as [|i l IH]; [simpl; lia|]. cbn [distance sum_list_with length]. fold (distance l s).
  pose proof (dr_bound s i). lia.
Qed.

Lemma serves_active s e r s' :
  dr_inv s → dr_step s e = Some (r, s') → dr_active s' ⊆ dr_active s ∧ (distance (elements (dr_active s)) s' < distance (elements (dr_active s)) s)%nat.
Proof.
  intros HI E1. destruct (dr_serves s e r s' HI E1) as (_ & HI' & i & Hw & Ho).
  assert (i ∈ dr_active s) as Hi by (apply dr_waiting; [done|lia]). split.
  - intros j Hj. destruct (decide (j = i)) as [->|Hne]; [done|].
    apply dr_waiting; [done|]. rewrite <- (Ho j Hne). by apply dr_waiting.
  - apply (distance_serves _ s s' i); [apply NoDup_elements | by apply elem_of_elements | done | done].
Qed.

Lemma distance_active s s' :
  dr_active s' ⊆ dr_active s → (distance (elements (dr_active s')) s' ≤ distance (elements (dr_active s)) s')%nat.
Proof.
  intros Hsub. apply distance_fewer, NoDup_submseteq; [apply NoDup_elements|].
  intros i Hi. apply elem_of_elements, Hsub, elem_of_elements, Hi.
Qed.

(** Each event of a wait is one less to come. *)
Lemma drain_counts es s s' : dr_inv s → run_events dr_step s es = Some s' →
  dr_inv s' ∧ (length es + distance (elements (dr_active s')) s' ≤ distance (elements (dr_active s)) s)%nat.
Proof.
  revert s. induction es as [|e es IH]; intros s HI E1; simpl in E1; [by injection E1 as <-|].
  destruct (dr_step s e) as [[r s1]|] eqn:E2; [|done]. destruct (dr_serves s e r s1 HI E2) as (-> & HI1 & _).
  destruct (IH s1 HI1 E1) as [HI' Hb]. split; [done|]. destruct (serves_active s e _ s1 HI E2) as [Hsub Hlt].
  pose proof (distance_active s s1 Hsub). simpl. lia.
Qed.

Lemma drain_bound es s s' : dr_inv s → run_events dr_step s es = Some s' → (length es ≤ dr_max * size (dr_active s))%nat.
Proof.
  intros HI E1. destruct (drain_counts es s s' HI E1) as [_ Hb].
  pose proof (distance_bound (elements (dr_active s)) s). unfold size, set_size. simpl in *. lia.
Qed.

(** The wait can come to its end. *)
Lemma drain_ends s : dr_inv s → ∃ es s', run_events dr_step s es = Some s' ∧ next_of (dr_active s') = None.
Proof.
  intros HI. remember (distance (elements (dr_active s)) s) as n eqn:En. revert s HI En.
  induction (lt_wf n) as [n _ IH]. intros s HI ->. destruct (next_of (dr_active s)) as [i|] eqn:Ew; [|by exists [], s].
  destruct (dr_progress s i HI (next_of_Some _ _ Ew)) as (e & s1 & E1).
  destruct (dr_serves s e _ s1 HI E1) as (_ & HI1 & _). destruct (serves_active s e _ s1 HI E1) as [Hsub Hlt].
  pose proof (distance_active s s1 Hsub) as Hle.
  destruct (IH (distance (elements (dr_active s1)) s1) ltac:(lia) s1 HI1 eq_refl) as (es & s' & E2 & Hw).
  exists (e :: es), s'. split; [|done]. simpl. by rewrite E1.
Qed.

(** What every event of the wait keeps. *)
Lemma drain_keeps (P : S → Prop) es s s' :
  (∀ s e s', dr_inv s → dr_inv s' → P s → dr_step s e = Some (Ret tt, s') → P s') →
  dr_inv s → P s → run_events dr_step s es = Some s' → P s'.
Proof.
  intros HP. revert s. induction es as [|e es IH]; intros s HI Hs E1; simpl in E1; [by injection E1 as <-|].
  destruct (dr_step s e) as [[r s1]|] eqn:E2; [|done]. destruct (dr_serves s e r s1 HI E2) as (-> & HI1 & _).
  apply (IH s1); [done | exact (HP s e s1 HI HI1 Hs E2) | done].
Qed.

End Facts.
