(* ===== verification/MsgHeaders.v ===== *)
(** * Message headers

    [include/telling/msg_headers.h] and the members of [MsgHeaderView] in
    [src/telling/msg_util.cpp]: one header, and iteration over a block of
    header lines. *)
From S2P Require Import Prelude.
From S2P Require Import MsgUtil.

(** [MsgHeaderView]. *)
Record MsgHeaderView : Type := mkHeader { h_name : bytes; h_value : bytes }.

#[export] Instance MsgHeaderView_eq_dec : EqDecision MsgHeaderView.
Proof. solve_decision. Defined.

Module Header.
Import Detail.

(** [explicit operator bool]. *)
Definition truthy (h : MsgHeaderView) : bool :=
  negb (blen (h_name h) =? 0) || negb (blen (h_value h) =? 0).

Definition is_blank (c : ascii) : bool := Ascii.eqb c SP || Ascii.eqb c TAB.

(** The first loop of [parse_header]: the characters before a colon, and the
    position after it; [None] when the line has no name. *)
Fixpoint find_name (i : bytes) : option (bytes * bytes) :=
  match i with
  | [] => None
  | c :: i' =>
      if Ascii.eqb c CR || Ascii.eqb c LF then None
      else if Ascii.eqb c ":" then Some ([], i')
      else '(n, r) ← find_name i'; Some (c :: n, r)
  end.

(** The second loop: skip the blanks before the value. *)
Fixpoint skip_blanks (i : bytes) : bytes :=
  match i with
  | [] => []
  | c :: i' => if is_blank c then skip_blanks i' else i
  end.

(** The third loop: [v_last] is the position after the last non-blank. *)
Fixpoint scan_value (s : bytes) (i v_last : nat) : nat :=
  match s with
  | [] => v_last
  | c :: s' => scan_value s' (S i) (if is_blank c then v_last else S i)
  end.

Definition parse_header (line : bytes) : MsgHeaderView :=
  let '(name, i) := match find_name line with Some (n, r) => (n, r) | None => ([], line) end in
  let v_first := skip_blanks i in
  mkHeader name (take (scan_value v_first 0 0) v_first).

(** [std::tolower] in the "C" locale. *)
Definition tolower (c : ascii) : ascii :=
  if (65 <=? char_code c) && (char_code c <=? 90)
  then ascii_of_N (Z.to_N (char_code c + 32)) else c.

(** [MsgHeaderView::is]. *)
Fixpoint same_letters (a b : bytes) : bool :=
  match a, b with
  | c :: a, d :: b => Ascii.eqb (tolower c) (tolower d) && same_letters a b
  | _, _ => true
  end.
Definition is_named (h : MsgHeaderView) (header_name : bytes) : bool :=
  if (blen (h_name h) =? blen header_name) then same_letters (h_name h) header_name else false.

(** [std::from_chars(b, e, v, 10)] for an [int64_t]: an optional minus sign
    and at least one digit; the target is left alone when there is no number
    or it is out of range. *)
Definition from_chars_dec (s : bytes) (v : Z) : Z :=
  let '(neg, s) := match s with
                   | c :: s' => if Ascii.eqb c "-" then (true, s') else (false, s)
                   | [] => (false, s)
                   end in
  let digits := fst (span is_digit s) in
  let n := if (neg : bool) then - dec_value digits else dec_value digits in
  if (blen digits =? 0) then v
  else if (- 2 ^ 63 <=? n) && (n <? 2 ^ 63) then n else v.

(** [MsgHeaderView::value_dec]: a leading plus sign is skipped. *)
Definition value_dec (h : MsgHeaderView) (int_value : Z) : Z :=
  match h_value h with
  | c :: s => from_chars_dec (if Ascii.eqb c "+" then s else c :: s) int_value
  | [] => int_value
  end.

(** ** [MsgHeaders]

    [iterator::setp(p)]: the header on the line at [p].  Two iterators are
    equal when they point at the same place, so [p] is the iterator. *)
Definition setp (p : bytes) : MsgHeaderView := parse_header (fst (ConsumeLine p)).

(** [for (auto &h : headers)]: from [begin()] to [end()] by [operator++]. *)
Fixpoint iterate (fuel : nat) (p : bytes) : list MsgHeaderView :=
  match fuel, p with
  | O, _ | _, [] => []
  | S fuel, _ => setp p :: iterate fuel (snd (ConsumeLine p))
  end.
Definition headers (s : bytes) : list MsgHeaderView := iterate (length s) s.

End Header.

(** * Theorems *)
Module HeaderFacts.
Import Header Detail MsgUtilFacts.

(** The value of a header as a specification: the text without the blanks
    around it. *)
Definition trim (s : bytes) : bytes := rtrim is_blank (snd (span is_blank s)).

Lemma skip_blanks_span s : skip_blanks s = snd (span is_blank s).
Proof.
  induction s as [|c s IH]; [done|]. simpl. destruct (is_blank c); [|done].
  rewrite IH. by destruct (span is_blank s).
Qed.

Lemma scan_value_blanks t i v :
  Forall (λ c, is_blank c = true) t → scan_value t i v = v.
Proof. intros H. revert i. induction H as [|c t Hc _ IH]; intros i; [done|]. simpl. by rewrite Hc. Qed.

Lemma scan_value_app s c t i v :
  is_blank c = false → Forall (λ c, is_blank c = true) t →
  scan_value (s ++ c :: t) i v = (i + length s + 1)%nat.
Proof.
  intros Hc Ht. revert i v. induction s as [|d s IH]; intros i v; simpl.
  - rewrite Hc, scan_value_blanks by done. lia.
  - rewrite IH. lia.
Qed.

Lemma scan_value_rtrim s : take (scan_value s 0 0) s = rtrim is_blank s.
Proof.
  destruct (rtrim_spec is_blank s) as (t & E & Ht & Hl). rewrite E at 1 2.
  destruct (rtrim is_blank s) as [|d l _] eqn:El using rev_ind.
  - simpl. rewrite scan_value_blanks by done. done.
  - rewrite <- app_assoc. simpl. rewrite scan_value_app.
    + rewrite (cons_middle d), app_assoc, take_app_length'; [done|].
      rewrite length_app. simpl. lia.
    + apply Hl. by rewrite last_snoc.
    + done.
Qed.

Abbreviation name_ok := (Forall (λ c, c ≠ CR ∧ c ≠ LF ∧ c ≠ ":"%char)).

Lemma find_name_app n r : name_ok n → find_name (n ++ ":"%char :: r) = Some (n, r).
Proof.
  induction 1 as [|c n (H1 & H2 & H3) _ IH]; [done|]. simpl.
  by rewrite !eqb_char_neq, IH by done.
Qed.

(** A line "name:value" is split at the first colon. *)
Lemma parse_header_line n v : name_ok n → parse_header (n ++ ":"%char :: v) = mkHeader n (trim v).
Proof.
  intros Hn. unfold parse_header. rewrite find_name_app by done.
  by rewrite scan_value_rtrim, skip_blanks_span.
Qed.

Lemma iterate_fuel fuel p : (length p ≤ fuel)%nat → iterate fuel p = headers p.
Proof.
  unfold headers. remember (length p) as n eqn:E. revert fuel p E.
  induction (lt_wf n) as [n _ IH]. intros fuel p -> Hf.
  destruct p as [|c p]; [by destruct fuel|]. destruct fuel as [|fuel]; [simpl in Hf; lia|].
  cbn [iterate length]. f_equal. pose proof (ConsumeLine_progress c p) as Hp. simpl in Hf.
  assert (length (snd (ConsumeLine (c :: p))) < length (c :: p))%nat as Hlt by (simpl in *; lia).
  rewrite (IH _ Hlt fuel _ eq_refl) by lia. symmetry. apply (IH _ Hlt _ _ eq_refl). lia.
Qed.

Lemma headers_cons c p :
  headers (c :: p) = setp (c :: p) :: headers (snd (ConsumeLine (c :: p))).
Proof.
  unfold headers at 1. cbn [iterate length]. f_equal. apply iterate_fuel, ConsumeLine_progress.
Qed.

(** A block of written header lines is read back header by header. *)
Lemma headers_lines (hs : list (bytes * bytes)) nl rest :
  nl = [LF] ∨ nl = [CR; LF] →
  Forall (λ h, name_ok (fst h) ∧ no_newline (snd h)) hs →
  headers (concat (map (λ h, fst h ++ ":"%char :: snd h ++ nl) hs) ++ rest)
  = map (λ h, mkHeader (fst h) (trim (snd h))) hs ++ headers rest.
Proof.
  intros Hnl. induction 1 as [|[n v] hs [Hn Hv] _ IH]; [done|]. simpl in *.
  assert (no_newline (n ++ ":"%char :: v)) as Hline.
  { apply Forall_app. split; [eapply Forall_impl; [exact Hn|]; by intros ? (? & ? & ?)|].
    constructor; [split; discriminate | done]. }
  assert (∀ r, ConsumeLine ((n ++ ":"%char :: v) ++ nl ++ r) = (n ++ ":"%char :: v, r)) as Hc.
  { intros r. by apply ConsumeLine_app. }
  replace ((n ++ ":"%char :: v ++ nl) ++ concat (map (λ h, h.1 ++ ":"%char :: h.2 ++ nl) hs))
    with ((n ++ ":"%char :: v) ++ nl ++ concat (map (λ h, h.1 ++ ":"%char :: h.2 ++ nl) hs))
    by (by rewrite <- !app_assoc; simpl; rewrite <- app_assoc).
  rewrite <- !app_assoc. specialize (Hc (concat (map (λ h, h.1 ++ ":"%char :: h.2 ++ nl) hs) ++ rest)).
  rewrite <- !app_assoc in Hc.
  destruct (n ++ (":"%char :: v) ++ nl ++ _ ++ rest) as [|x xs] eqn:Ex; [by destruct n|].
  rewrite headers_cons. unfold setp. rewrite Hc. simpl. rewrite IH.
  by rewrite parse_header_line.
Qed.

Lemma from_chars_digits s d :
  Forall (λ c, is_digit c = true) s → s ≠ [] → dec_value s < 2 ^ 63 → from_chars_dec s d = dec_value s.
Proof.
  intros Hs Hne Hlt. unfold from_chars_dec.
  destruct s as [|c s]; [done|]. inversion_clear Hs as [|? ? Hc Hs'].
  rewrite eqb_char_neq by (intros ->; discriminate Hc).
  rewrite span_all by (by constructor). cbn [fst]. rewrite blen_eqb_0 by done.
  assert (0 ≤ dec_value (c :: s)) as Hpos.
  { apply fold_dec_nonneg; [by constructor | lia]. }
  by replace ((- 2 ^ 63 <=? dec_value (c :: s)) && (dec_value (c :: s) <? 2 ^ 63)) with true by lia.
Qed.

Lemma value_dec_digits nm s d :
  Forall (λ c, is_digit c = true) s → s ≠ [] → dec_value s < 2 ^ 63 →
  value_dec (mkHeader nm s) d = dec_value s.
Proof.
  intros Hs Hne Hlt. unfold value_dec. simpl. destruct s as [|c s]; [done|].
  inversion Hs; subst. rewrite eqb_char_neq by (intros ->; discriminate).
  by apply from_chars_digits.
Qed.

(** [value_dec] reads back every decimal numeral of an [int64_t], with or
    without a plus sign, and never leaves the range of [int64_t]; on anything
    that is not a number, or is out of range, it returns the default. *)
Theorem value_dec_spec nm v d :
  (∀ digits, Forall (λ c, is_digit c = true) digits → digits ≠ [] → dec_value digits < 2 ^ 63 →
     v = digits ∨ v = "+"%char :: digits → value_dec (mkHeader nm v) d = dec_value digits) ∧
  (value_dec (mkHeader nm v) d = d ∨ - 2 ^ 63 ≤ value_dec (mkHeader nm v) d < 2 ^ 63).
Proof.
  split.
  - intros digits Hd Hne Hlt [->| ->]; [by apply value_dec_digits | by apply from_chars_digits].
  - unfold value_dec. simpl. destruct v as [|c s]; [by left|].
    unfold from_chars_dec. repeat case_match; auto; right; lia.
Qed.

Lemma value_dec_spec_witness : value_dec (mkHeader [] (lit "+1024")) 0 = 1024.
Proof.
  refine (eq_trans (proj1 (value_dec_spec [] (lit "+1024") 0) (lit "1024") _ _ _ _) _);
    [repeat constructor | discriminate | reflexivity | by right | reflexivity].
Defined.

End HeaderFacts.
