(* ===== verification/MsgLayout.v ===== *)
(** * The layout of a message and its parser

    [include/telling/msg_layout.h] and, of [src/telling/msg_view.cpp], the
    members [MsgLayout::_setStartLine] and [MsgLayout::_parse_msg]. *)
From S2P Require Import Prelude.
From S2P Require Import MsgUtil.
From S2P Require Import MsgProtocol.

(** [enum class TYPE : int16_t]. *)
Inductive TYPE : Set := UNKNOWN | REPLY | REPORT | REQUEST | MASK_TYPE | FLAG_HEADER_ONLY.

#[export] Instance TYPE_eq_dec : EqDecision TYPE.
Proof. solve_decision. Defined.

(** The members: the offset of the body ([uint16_t]), the length of the
    start-line ([uint16_t]), and the positions of its elements ([uint8_t]):
    the URI counted from the left, protocol and status from the right. *)
Record MsgLayout : Type := mkLayout {
  _p_body : Z;
  _sl_len : Z;
  _uri_pos : Z;
  _prt_rpos : Z;
  _sts_rpos : Z;
  _sl_nl : Z;
}.

#[export] Instance MsgLayout_eq_dec : EqDecision MsgLayout.
Proof. solve_decision. Defined.

(** [HeadRange]. *)
Record HeadRange : Type := mkRange { r_start : Z; r_length : Z }.

Module Layout.
Import Detail.

Definition MAX_METHOD_LENGTH : Z := 14.
Definition MAX_PROTOCOL_LENGTH : Z := 16.
Definition MAX_STATUS_LENGTH : Z := 3.
Definition MAX_REASON_LENGTH : Z := 128.

Definition type_value (t : TYPE) : Z :=
  match t with
  | UNKNOWN => -1 | REPLY => 0 | REPORT => 1 | REQUEST => 2
  | MASK_TYPE => 15 | FLAG_HEADER_ONLY => 16
  end.

(** [_parse_reset]: [*this = {}]. *)
Definition reset : MsgLayout := mkLayout 0 0 0 0 0 0.

(** ** Accessors *)

Definition _has_method (l : MsgLayout) : bool := negb (_uri_pos l =? 0).
Definition _has_uri (l : MsgLayout) : bool := _prt_rpos l <? _sl_len l.
Definition _has_protocol (l : MsgLayout) : bool := _sts_rpos l + 1 <=? _prt_rpos l.
Definition _has_status (l : MsgLayout) : bool := 3 <=? _sts_rpos l.
Definition _has_reason (l : MsgLayout) : bool := 4 <? _sts_rpos l.

(** [_type]: classify the message. *)
Definition _type (l : MsgLayout) : TYPE :=
  if _has_method l then REQUEST
  else if _has_uri l then REPORT
  else if _has_protocol l then REPLY
  else UNKNOWN.

Definition _p_headers (l : MsgLayout) : Z := _sl_len l + _sl_nl l.

(** The ranges; the lengths are converted to [size_t]. *)
Definition _startLine (l : MsgLayout) : HeadRange := mkRange 0 (_sl_len l).
Definition _headers (l : MsgLayout) : HeadRange :=
  mkRange (_p_headers l) (u64 (_p_body l - _p_headers l)).
Definition _method (l : MsgLayout) : HeadRange :=
  mkRange 0 (u64 (_uri_pos l - of_bool (negb (_uri_pos l =? 0)))).
Definition _uri (l : MsgLayout) : HeadRange :=
  mkRange (_uri_pos l)
    (u64 (if _has_uri l
          then _sl_len l - _uri_pos l - _prt_rpos l - of_bool (negb (_prt_rpos l =? 0)) else 0)).
Definition _protocol (l : MsgLayout) : HeadRange :=
  mkRange (u64 (_sl_len l - _prt_rpos l))
    (u64 (if _prt_rpos l =? 0 then 0
          else _prt_rpos l - _sts_rpos l - of_bool (negb (_sts_rpos l =? 0)))).
Definition _status (l : MsgLayout) : HeadRange :=
  mkRange (u64 (_sl_len l - _sts_rpos l)) (if _sts_rpos l =? 0 then 0 else 3).
Definition _reason (l : MsgLayout) : HeadRange :=
  mkRange (u64 (_sl_len l + 4 - _sts_rpos l)) (u64 (if 4 <? _sts_rpos l then _sts_rpos l - 4 else 0)).

(** ** Assignments to the members *)
Definition set_p_body z l := mkLayout z (_sl_len l) (_uri_pos l) (_prt_rpos l) (_sts_rpos l) (_sl_nl l).
Definition set_sl_len z l := mkLayout (_p_body l) z (_uri_pos l) (_prt_rpos l) (_sts_rpos l) (_sl_nl l).
Definition set_uri_pos z l := mkLayout (_p_body l) (_sl_len l) z (_prt_rpos l) (_sts_rpos l) (_sl_nl l).
Definition set_prt_rpos z l := mkLayout (_p_body l) (_sl_len l) (_uri_pos l) z (_sts_rpos l) (_sl_nl l).
Definition set_sts_rpos z l := mkLayout (_p_body l) (_sl_len l) (_uri_pos l) (_prt_rpos l) z (_sl_nl l).
Definition set_sl_nl z l := mkLayout (_p_body l) (_sl_len l) (_uri_pos l) (_prt_rpos l) (_sts_rpos l) z.

(** ** [_setStartLine] *)

Definition MAX_URI_POS : Z := MAX_METHOD_LENGTH + 1.
Definition MAX_STS_RPOS : Z := MAX_REASON_LENGTH + MAX_STATUS_LENGTH + 1.
Definition MAX_PRT_RPOS : Z := MAX_STS_RPOS + MAX_PROTOCOL_LENGTH + 1.

(** The lambda [checkSize], and the label [start_line_malformed]. *)
Definition checkSize (line : bytes) (s lim : Z) : M exn MsgLayout Z :=
  if lim <? s then throw (MsgException HEADER_TOO_BIG line []) else mret s.
Definition start_line_malformed {A} (line : bytes) : M exn MsgLayout A :=
  throw (MsgException START_LINE_MALFORMED line []).

(** [line.remove_suffix(...)]: the line without its LF or CR LF. *)
Definition line_of (lineWithEol : bytes) : bytes :=
  let len := length lineWithEol in
  take (len - (if bool_decide (lineWithEol !! (len - 2)%nat = Some CR) then 2 else 1)) lineWithEol.

(** The verification after the [switch]: a status without a reason phrase has
    three characters, with one the two have at least four. *)
Definition verify_status (line : bytes) (reason : option Z) : M exn MsgLayout unit :=
  l ← get;
  if _sts_rpos l =? 0 then mret tt
  else match reason with
       | Some _ => if _sts_rpos l <? 4 then start_line_malformed line else mret tt
       | None => if negb (_sts_rpos l =? 3) then start_line_malformed line else mret tt
       end.

(** The elements are offsets from the beginning of the line, [None] for a
    null pointer. *)
Definition _setStartLine (lineWithEol : bytes) (type : TYPE)
    (second_elem third_elem fourth_elem : option Z) : M exn MsgLayout unit :=
  if (blen lineWithEol <? 2) || negb (bool_decide (last lineWithEol = Some LF))
  then throw (MsgException START_LINE_MALFORMED lineWithEol [])
  else
    let line := line_of lineWithEol in
    let EOL := blen line in
    n ← checkSize line (blen line) 65535;
    modify (set_sl_len (u16 n));;
    modify (set_sl_nl (u8 (blen lineWithEol - blen line)));;
    match type with
    | REQUEST =>
        match second_elem, fourth_elem with
        | Some second, None =>
            n ← checkSize line second MAX_URI_POS;
            modify (set_uri_pos (u8 n));;
            match third_elem with
            | Some third => n ← checkSize line (EOL - third) MAX_PRT_RPOS;
                            modify (set_prt_rpos (u8 n))
            | None => modify (set_prt_rpos 0)
            end;;
            modify (set_sts_rpos 0)
        | _, _ => start_line_malformed line
        end
    | REPLY =>
        match second_elem with
        | None => start_line_malformed line
        | Some second =>
            modify (set_uri_pos 0);;
            n ← checkSize line (blen line) MAX_PRT_RPOS;
            modify (set_prt_rpos (u8 n));;
            n ← checkSize line (EOL - second) MAX_STS_RPOS;
            modify (set_sts_rpos (u8 n));;
            verify_status line third_elem
        end
    | REPORT =>
        modify (set_uri_pos 0);;
        match second_elem with
        | None =>
            modify (set_prt_rpos 0);;
            modify (set_sts_rpos 0);;
            match third_elem, fourth_elem with
            | None, None => verify_status line None
            | _, _ => start_line_malformed line
            end
        | Some second =>
            n ← checkSize line (EOL - second) MAX_PRT_RPOS;
            modify (set_prt_rpos (u8 n));;
            match third_elem with
            | None =>
                modify (set_sts_rpos 0);;
                match fourth_elem with
                | None => verify_status line None
                | Some _ => start_line_malformed line
                end
            | Some third =>
                n ← checkSize line (EOL - third) MAX_STS_RPOS;
                modify (set_sts_rpos (u8 n));;
                verify_status line fourth_elem
            end
        end
    | _ => start_line_malformed line
    end.

(** ** [_parse_msg] *)

(** The loop over the header lines: the position after the blank line. *)
Fixpoint header_loop (fuel : nat) (pos : bytes) : result exn bytes :=
  match fuel with
  | O => Fault OutOfFuel
  | S fuel =>
      let '(headerLine, pos') := ConsumeLine pos in
      if blen headerLine =? 0 then Ret pos'
      else if blen pos' =? 0 then Throw (MsgException HEADER_INCOMPLETE headerLine [])
      else header_loop fuel pos'
  end.

Definition MAX_PARTS : nat := 4.

(** Delimit the start-line into up to [n] more parts from offset [off]: the
    parts with their offsets, and the final value of the pointer [i], which
    may be one past the end of the line. *)
Fixpoint delimit (n : nat) (off : nat) (i : bytes) : list (nat * bytes) * nat :=
  match n, i with
  | O, _ | _, [] => ([], off)
  | S O, _ => ([(off, i)], off)
  | S n, _ =>
      let '(word, rest) := span (λ c, negb (Ascii.eqb c SP)) i in
      let '(parts, e) := delimit n (off + length word + 1) (tail rest) in
      ((off, word) :: parts, e)
  end.

(** "Respect empty final element if present": [*(i-1)] is read from the
    message, where the line is followed by its newline. *)
Definition start_parts (msg startLine : bytes) : list (nat * bytes) :=
  let '(parts, i) := delimit MAX_PARTS 0 startLine in
  if (0 <? i)%nat && bool_decide (msg !! (i - 1)%nat = Some SP) && (length parts <? MAX_PARTS)%nat
  then parts ++ [(i, [])] else parts.

Definition part_data (parts : list (nat * bytes)) (k : nat) : option Z :=
  (λ p, Z.of_nat (fst p)) <$> parts !! k.
Definition part_text (parts : list (nat * bytes)) (k : nat) : bytes :=
  default [] (snd <$> parts !! k).

(** The [switch] that guesses the type; a type given by the caller stands. *)
Definition guess_type (type : TYPE) (parts : list (nat * bytes)) : TYPE :=
  if type_value type <? 0 then
    match length parts with
    | 0%nat => type
    | 1%nat => REPORT
    | n =>
        if bool_decide (n ≠ 2%nat) && MsgProtocol.valid (MsgProtocol.Parse (part_text parts 2))
        then REQUEST
        else if MsgProtocol.valid (MsgProtocol.Parse (part_text parts 1)) then REPORT
        else if (blen (part_text parts 0) =? 0) || bool_decide ("/"%char ∈ part_text parts 0)
        then REPLY
        else REQUEST
    end
  else type.

Definition data_is_empty : bytes := lit "Message data is empty (no header)".
Definition start_line_64K : bytes := lit "Start line >= 64 KiB".
Definition headers_64K : bytes := lit "Headers >= 64 KiB; missing empty line?".

(** A view of data has a non-null pointer unless it is empty, so the second
    guard of the source (null data) is subsumed by the first. *)
Definition _parse_msg (msg : bytes) (type : TYPE) : M exn MsgLayout unit :=
  if blen msg =? 0 then throw (MsgException HEADER_INCOMPLETE data_is_empty [])
  else
    modify (λ _, reset);;
    let '(startLine, header_beg) := ConsumeLine msg in
    (if 0xFFFF <? blen startLine
     then throw (MsgException HEADER_TOO_BIG start_line_64K []) else mret tt);;
    (if blen header_beg =? 0
     then throw (MsgException HEADER_INCOMPLETE startLine []) else mret tt);;
    pos ← lift (header_loop (length header_beg) header_beg);
    let p_body := blen msg - blen pos in
    (if 0xFFFF <? p_body
     then throw (MsgException HEADER_TOO_BIG headers_64K []) else mret tt);;
    modify (set_p_body (u16 p_body));;
    let parts := start_parts msg startLine in
    let startLineWithNL := take (length msg - length header_beg) msg in
    _setStartLine startLineWithNL (guess_type type parts)
      (part_data parts 1) (part_data parts 2) (part_data parts 3).

End Layout.
