(* ===== verification/MsgView.v ===== *)
(** * Views of messages

    [include/telling/msg_view.h] and [MsgView::completion] of
    [src/telling/msg_view.cpp]: a layout together with the bytes it
    describes. *)
From S2P Require Import Prelude.
From S2P Require Import MsgUtil.
From S2P Require Import MsgProtocol.
From S2P Require Import Method.
From S2P Require Import Status.
From S2P Require Import MsgHeaders.
From S2P Require Import MsgLayout.

(** [MsgCompletion]. *)
Record MsgCompletion : Type := mkCompletion {
  complete : bool;
  is_chunked : bool;
  length_header : bool;
  message_length : Z;   (** [size_t] *)
}.

(** [MsgView]: the bytes of the message it refers to and their layout. *)
Record MsgView : Type := mkView { v_raw : bytes; v_layout : MsgLayout }.

Module View.
Import Layout.

(** The constructors: parse a (non-null) message, with the expected type
    [UNKNOWN], or [REQUEST], [REPLY], [REPORT] for the derived classes. *)
Definition parse (type : TYPE) (msg : bytes) : result exn MsgView :=
  match _parse_msg msg type reset with
  | (Ret _, l) => Ret (mkView msg l)
  | (Throw e, _) => Throw e
  | (Fault f, _) => Fault f
  end.

(** [explicit operator bool] and [msgType]. *)
Definition msgType (v : MsgView) : TYPE := _type (v_layout v).
Definition valid (v : MsgView) : bool := negb (bool_decide (msgType v = UNKNOWN)).
Definition is_request (v : MsgView) : bool := bool_decide (msgType v = REQUEST).
Definition is_reply (v : MsgView) : bool := bool_decide (msgType v = REPLY).
Definition is_report (v : MsgView) : bool := bool_decide (msgType v = REPORT).

(** [_string]: the characters of a range of the message; reading characters
    outside the message is out of bounds. *)
Definition _string (v : MsgView) (r : HeadRange) : result exn bytes :=
  if r_length r =? 0 then Ret []
  else if r_start r + r_length r <=? blen (v_raw v)
  then Ret (take (Z.to_nat (r_length r)) (drop (Z.to_nat (r_start r)) (v_raw v)))
  else Fault OutOfBounds.

(** [_string_rem_nl]: [back()] requires a non-empty view. *)
Definition _string_rem_nl (v : MsgView) (r : HeadRange) : result exn bytes :=
  s ← _string v r;
  match last s with
  | None => Fault EmptyBack
  | Some c =>
      let s := if Ascii.eqb c LF then take (length s - 1) s else s in
      Ret (if bool_decide (last s = Some CR) then take (length s - 1) s else s)
  end.

Definition startLine (v : MsgView) : result exn bytes := _string v (_startLine (v_layout v)).
Definition methodString (v : MsgView) : result exn bytes := _string v (_method (v_layout v)).
Definition uriString (v : MsgView) : result exn bytes := _string v (_uri (v_layout v)).
Definition protocolString (v : MsgView) : result exn bytes := _string v (_protocol (v_layout v)).
Definition statusString (v : MsgView) : result exn bytes := _string v (_status (v_layout v)).
Definition reason (v : MsgView) : result exn bytes := _string v (_reason (v_layout v)).

Definition method (v : MsgView) : result exn MethodCode := s ← methodString v; Ret (Method.Parse s).
Definition protocol (v : MsgView) : result exn MsgProtocolCode :=
  s ← protocolString v; Ret (MsgProtocol.Parse s).
Definition status (v : MsgView) : result exn Z := s ← statusString v; Ret (Status.Parse s).

Definition headers (v : MsgView) : result exn (list MsgHeaderView) :=
  s ← _string_rem_nl v (_headers (v_layout v)); Ret (Header.headers s).

Definition bodySize (v : MsgView) : Z := u64 (blen (v_raw v) - _p_body (v_layout v)).
Definition bodyString (v : MsgView) : result exn bytes :=
  _string v (mkRange (_p_body (v_layout v)) (bodySize v)).

(** [value.find("chunked") != npos]. *)
Fixpoint contains_text (needle s : bytes) : bool :=
  bool_decide (needle `prefix_of` s) ||
  match s with [] => false | _ :: s' => contains_text needle s' end.

(** The loop of [completion] over the headers. *)
Definition completion_step (c : MsgCompletion) (h : MsgHeaderView) : MsgCompletion :=
  if Header.is_named h (lit "Content-Length")
  then mkCompletion (complete c) (is_chunked c) true (u64 (Header.value_dec h 0))
  else if Header.is_named h (lit "Transfer-Encoding")
  then (if contains_text (lit "chunked") (h_value h)
        then mkCompletion (complete c) true (length_header c) (message_length c) else c)
  else c.

Definition implicit (c : MsgCompletion) : bool := negb (is_chunked c) && negb (length_header c).

Definition no_completion : MsgCompletion := mkCompletion false false false 0.

Definition completion (v : MsgView) : result exn MsgCompletion :=
  hs ← headers v;
  p ← protocol v;
  let c := fold_left completion_step hs no_completion in
  let c := if length_header c && (message_length c <=? bodySize v)
           then mkCompletion true (is_chunked c) true (message_length c) else c in
  Ret (if implicit c && negb (MsgProtocol.is_http p)
       then mkCompletion true (is_chunked c) (length_header c) (bodySize v) else c).

End View.

(** ** The examples of the repository

    The messages of [test/main.cpp] ([test_message_parsers]) parse, with the
    type guessed, to the types listed there. *)
Module ViewExamples.
Import View.

Definition nl (s : string) : bytes := lit s ++ [LF].

Definition guessed (s : bytes) : option TYPE :=
  match parse UNKNOWN s with Ret v => Some (msgType v) | _ => None end.

Example full_request :
  guessed (nl "PATCH /voices/1 Tell/0" ++ nl "Content-Type: application/json " ++ nl "" ++ lit "{}")
  = Some REQUEST.
Proof. vm_compute. reflexivity. Qed.

Example tiny_and_min_messages :
  map guessed [nl "GET /a" ++ nl ""; nl "GET " ++ nl ""; nl "Tell/0 404" ++ nl "";
               nl " 404" ++ nl ""; nl "/a Tell/0 201" ++ nl ""; nl "/a Tell/0" ++ nl "";
               nl "/a" ++ nl ""; nl "Tell/0 200 OK" ++ nl "";
               nl "/voices/1 Tell/0 201 Created" ++ nl ""]
  = map Some [REQUEST; REQUEST; REPLY; REPLY; REPORT; REPORT; REPORT; REPLY; REPORT].
Proof. vm_compute. reflexivity. Qed.

(** The known defect noted in [msg_layout.h] ("[_prt_rpos] is 0 for
    [GET x ]"): an empty final element is not recorded, and the URI keeps the
    space before it. *)
Example uri_keeps_trailing_space :
  match parse REQUEST (nl "GET x " ++ nl "") with Ret v => uriString v | _ => Ret [] end
  = Ret (lit "x ").
Proof. vm_compute. reflexivity. Qed.

(** A status element that is not three characters long is accepted when a
    reason phrase follows, and read as its first three characters. *)
Example long_status_accepted :
  match parse REPLY (nl "Tell/0 2000 x" ++ nl "") with
  | Ret v => (status v, reason v) | _ => (Ret 0, Ret []) end = (Ret 200, Ret (lit " x")).
Proof. vm_compute. reflexivity. Qed.

End ViewExamples.
