(* ===== verification/MsgParse.v ===== *)
(** * The parser is total and safe

    Theorems about [_parse_msg] and the accessors of a parsed message: the
    parser never faults on any input, and after a successful parse every
    accessor stays inside the message. *)
From S2P Require Import Prelude.
From S2P Require Import MsgUtil.
From S2P Require Import MsgProtocol.
From S2P Require Import MsgHeaders.
From S2P Require Import MsgLayout.
From S2P Require Import MsgView.

Module ParseFacts.
Import Detail MsgUtilFacts Layout.

(** ** Header lines *)

Lemma header_loop_spec fuel pos :
  pos ≠ [] → (length pos ≤ fuel)%nat →
  (∃ rest h, header_loop fuel pos = Ret rest ∧ pos = h ++ rest ∧ h ≠ []) ∨
  (∃ line, header_loop fuel pos = Throw (MsgException HEADER_INCOMPLETE line [])).
Proof.
  revert pos. induction fuel as [|fuel IH]; intros pos Hne Hlen.
  { destruct pos; [done | simpl in Hlen; lia]. }
  simpl. destruct pos as [|c pos]; [done|].
  pose proof (ConsumeLine_progress c pos) as Hp.
  destruct (ConsumeLine_shape (c :: pos)) as (nl & E & Hnl).
  destruct (ConsumeLine (c :: pos)) as [line rest]. simpl in Hp, E, Hnl.
  destruct (Z.eqb_spec (blen line) 0) as [H0|H0].
  { left. exists rest, nl. destruct line; [|rewrite blen_cons in H0; pose proof (blen_nonneg line); lia].
    split_and!; [done | done |]. intros ->. simpl in E. subst rest.
    destruct Hnl as [[_ ?]|[?|[?|[? _]]]]; done. }
  destruct (Z.eqb_spec (blen rest) 0) as [H1|H1]; [right; by eexists|].
  assert (rest ≠ []) as Hr by (by intros ->).
  simpl in Hlen. destruct (IH rest Hr ltac:(lia)) as [(r & h & -> & -> & Hh)|[ln ->]].
  - left. exists r, (line ++ nl ++ h). split_and!; [done | by rewrite E, <- !app_assoc |].
    intros E'. apply app_eq_nil in E' as [-> _]. by rewrite blen_nil in H0.
  - right. by eexists.
Qed.

(** A block of non-empty lines closed by a blank line is consumed whole. *)
Lemma header_loop_lines fuel (ls : list bytes) nl rest :
  nl = [LF] ∨ nl = [CR; LF] → Forall (λ l, no_newline l ∧ l ≠ []) ls →
  (length (concat (map (λ l, l ++ nl) ls) ++ nl ++ rest) ≤ fuel)%nat →
  header_loop fuel (concat (map (λ l, l ++ nl) ls) ++ nl ++ rest) = Ret rest.
Proof.
  intros Hnl Hls. revert fuel. induction Hls as [|l ls [Hl Hne] _ IH]; intros fuel Hf.
  - destruct fuel as [|fuel]; [destruct Hnl as [->| ->]; simpl in Hf; lia|].
    cbn [concat map header_loop]. pose proof (ConsumeLine_app [] nl rest (Forall_nil_2 _) Hnl) as E.
    simpl in E. simpl app. by rewrite E.
  - cbn [concat map] in *. rewrite <- !app_assoc in *.
    destruct fuel as [|fuel]; [destruct l; simpl in Hf; [done | lia]|].
    cbn [header_loop]. rewrite ConsumeLine_app by done.
    replace (blen l =? 0) with false by (destruct l; [done|]; rewrite blen_cons; pose proof (blen_nonneg l); lia).
    set (r := concat (map (λ l, l ++ nl) ls) ++ nl ++ rest) in *.
    assert (1 ≤ length r)%nat as Hr.
    { unfold r. rewrite !length_app. destruct Hnl as [->| ->]; simpl; lia. }
    replace (blen r =? 0) with false by (unfold blen; lia).
    apply IH. rewrite !length_app in Hf. destruct l; [done|]. simpl in Hf. lia.
Qed.

(** ** The parts of the start-line *)

(** Offsets increase, each part starting after the separator of the last. *)
Fixpoint increasing (lo : nat) (ps : list (nat * bytes)) : Prop :=
  match ps with
  | [] => True
  | (o, _) :: ps => (lo ≤ o)%nat ∧ increasing (S o) ps
  end.

Lemma increasing_weaken lo lo' ps : (lo' ≤ lo)%nat → increasing lo ps → increasing lo' ps.
Proof. destruct ps as [|[o w] ps]; simpl; [done|]. intros ? [? ?]. split; [lia | done]. Qed.

Lemma delimit_word n off c i :
  delimit (S (S n)) off (c :: i) =
    (let '(word, rest) := span (λ c, negb (Ascii.eqb c SP)) (c :: i) in
     let '(parts, e) := delimit (S n) (off + length word + 1) (tail rest) in
     ((off, word) :: parts, e)).
Proof. reflexivity. Qed.

Lemma delimit_spec n off i ps e :
  delimit n off i = (ps, e) →
  increasing off ps ∧ Forall (λ p, off ≤ fst p < off + length i)%nat ps
  ∧ (off ≤ e ≤ off + length i + 1)%nat ∧ (i = [] → e = off)
  ∧ ((length ps < n)%nat → ∀ w, increasing off (ps ++ [(e, w)])).
Proof.
  revert off i ps e. induction n as [|n IH]; intros off i ps e.
  { simpl. intros [= <- <-]. simpl. split_and!; [done | done | lia | lia | done |]. lia. }
  destruct i as [|c i].
  { intros E. assert (ps = [] ∧ e = off) as [-> ->] by (destruct n; simpl in E; by simplify_eq).
    simpl. split_and!; [done | constructor | lia | lia | done |]. intros _ w. split; [lia | done]. }
  destruct n as [|n].
  { simpl. intros [= <- <-]. simpl. split_and!; [lia | done | | lia | lia | done |].
    - constructor; [simpl; lia | constructor].
    - lia. }
  rewrite delimit_word. pose proof (span_app (λ c, negb (Ascii.eqb c SP)) (c :: i)) as Hs.
  destruct (span _ (c :: i)) as [w r]. cbn [fst snd] in Hs.
  destruct (delimit (S n) (off + length w + 1) (tail r)) as [ps' e'] eqn:E. intros Hps.
  injection Hps as <- <-.
  apply IH in E as (H1 & H2 & H3 & H3' & H4). rewrite <- Hs, length_app.
  assert (length (tail r) = length r - 1)%nat as Ht by (destruct r; simpl; lia).
  split_and!.
  - simpl. split; [lia|]. eapply increasing_weaken; [|exact H1]. lia.
  - constructor.
    + simpl. apply (f_equal length) in Hs. rewrite length_app in Hs. simpl in Hs. lia.
    + eapply Forall_impl; [exact H2|]. intros p. simpl. rewrite Ht. lia.
  - lia.
  - destruct r as [|d r]; [rewrite H3' by done; simpl; lia | simpl in *; lia].
  - intros E'. by rewrite E' in Hs.
  - intros Hlt v. simpl. split; [lia|]. eapply increasing_weaken; [|apply H4]; simpl in Hlt; lia.
Qed.

Lemma start_parts_spec msg line c rest :
  msg = line ++ c :: rest → c ≠ SP →
  increasing 0 (start_parts msg line) ∧
  Forall (λ p, fst p ≤ length line)%nat (start_parts msg line).
Proof.
  intros -> Hc. unfold start_parts.
  destruct (delimit MAX_PARTS 0 line) as [ps e] eqn:E.
  apply delimit_spec in E as (H1 & H2 & H3 & _ & H4). simpl in H3.
  assert (Forall (λ p, p.1 ≤ length line)%nat ps) as H2'.
  { eapply Forall_impl; [exact H2|]. intros p. simpl. lia. }
  destruct ((0 <? e)%nat && _ && _) eqn:Hb; [|done].
  rewrite !andb_true_iff, bool_decide_eq_true in Hb. destruct Hb as [[Hb1 Hb2] Hb3].
  apply Nat.ltb_lt in Hb3. split; [by apply H4|]. apply Forall_app. split; [done|]. constructor; [|constructor]. simpl.
  destruct (decide (e = length line + 1)%nat) as [->|]; [|lia].
  rewrite Nat.add_sub, lookup_app_r, Nat.sub_diag in Hb2 by lia. simpl in Hb2. congruence.
Qed.

(** What the parser passes to [_setStartLine]: element offsets in order. *)
Definition offsets_ok (len : Z) (second third : option Z) : Prop :=
  (∀ a, second = Some a → 1 ≤ a ≤ len) ∧
  (∀ b, third = Some b → ∃ a, second = Some a ∧ a + 1 ≤ b ≤ len).

Lemma part_offsets_ok line ps :
  increasing 0 ps → Forall (λ p, fst p ≤ length line)%nat ps →
  offsets_ok (blen line) (part_data ps 1) (part_data ps 2).
Proof.
  intros Hi Hl. unfold offsets_ok, part_data, blen.
  destruct ps as [|[o0 w0] [|[o1 w1] [|[o2 w2] ps]]]; simpl in *; split; intros ? [= <-];
    repeat match goal with H : Forall _ (_ :: _) |- _ => inversion_clear H end;
    simpl in *; first [lia | eexists; split; [reflexivity | lia]].
Qed.

(** ** [_setStartLine] *)

(** The positions of the elements are inside the start-line and in order. *)
Record layout_ok (l : MsgLayout) : Prop := {
  ok_uri : 0 ≤ _uri_pos l ≤ _sl_len l;
  ok_prt : 0 ≤ _prt_rpos l ≤ _sl_len l;
  ok_sts : 0 ≤ _sts_rpos l;
  ok_uri_prt : _prt_rpos l < _sl_len l →
    _uri_pos l + _prt_rpos l + of_bool (negb (_prt_rpos l =? 0)) ≤ _sl_len l;
  ok_prt_sts : _sts_rpos l ≠ 0 → 3 ≤ _sts_rpos l ∧ _sts_rpos l + 1 ≤ _prt_rpos l;
}.

Lemma line_of_app line nl :
  no_newline line → nl = [LF] ∧ line ≠ [] ∨ nl = [CR; LF] → line_of (line ++ nl) = line.
Proof.
  intros Hl [[-> Hne]| ->]; unfold line_of; rewrite length_app; simpl length.
  - destruct line as [|c line _] using rev_ind; [done|].
    rewrite bool_decide_false.
    + rewrite Nat.add_sub. apply take_app_length.
    + rewrite lookup_app_l by (rewrite length_app; simpl; lia). rewrite length_app. simpl length.
      rewrite lookup_app_r by lia.
      replace (length line + 1 + 1 - 2 - length line)%nat with 0%nat by lia. simpl.
      apply Forall_app in Hl as [_ Hc]. inversion_clear Hc as [|? ? [? _] _]. congruence.
  - rewrite bool_decide_true.
    + rewrite Nat.add_sub. apply take_app_length.
    + rewrite lookup_app_r by lia. by replace (length line + 2 - 2 - length line)%nat with 0%nat by lia.
Qed.

Lemma wp_checkSize line s lim Q R l :
  wp (checkSize line s lim) Q R l ↔
  (s ≤ lim → Q s l) ∧ (lim < s → R (MsgException HEADER_TOO_BIG line []) l).
Proof. unfold checkSize. destruct (Z.ltb_spec lim s); autorewrite with wp; intuition lia. Qed.

(** The exceptions of the start-line. *)
Definition start_line_error (e : exn) : Prop :=
  ∃ text, e = MsgException START_LINE_MALFORMED text [] ∨ e = MsgException HEADER_TOO_BIG text [].

Lemma verify_status_ok line reason (Q : unit → MsgLayout → Prop) l :
  0 ≤ _sts_rpos l → (_sts_rpos l = 0 ∨ 3 ≤ _sts_rpos l → Q tt l) →
  wp (verify_status line reason) Q (λ e _, start_line_error e) l.
Proof.
  intros H HQ. unfold verify_status, start_line_malformed.
  wp_run; first [apply HQ; lia | unfold start_line_error; eauto].
Qed.

(** A guarded size check, in the style of the rules. *)
Lemma checkSize_ok line s lim (Q : Z → MsgLayout → Prop) l :
  (s ≤ lim → Q s l) → wp (checkSize line s lim) Q (λ e _, start_line_error e) l.
Proof.
  intros HQ. unfold checkSize. destruct (Z.ltb_spec lim s); autorewrite with wp; [|by apply HQ].
  unfold start_line_error. eauto.
Qed.

Ltac setLine_step :=
  match goal with
  | |- wp (checkSize _ _ _) _ _ _ => apply checkSize_ok; intros ?
  | |- wp (verify_status _ _) _ _ _ => apply verify_status_ok; [|intros ?]
  | |- start_line_error _ => unfold start_line_error; by eauto
  | |- wp _ _ _ _ => wp_step
  end.

(** The facts about offsets that apply to the elements at hand. *)
Ltac offsets_facts :=
  repeat match goal with
  | H : ∀ a, Some ?z = Some a → _ |- _ => specialize (H z eq_refl)
  | H : ∃ a, Some _ = Some a ∧ _ |- _ => destruct H as (? & [= <-] & H)
  end.

(** Remove the conversions of values that fit. *)
Ltac narrow :=
  repeat match goal with
  | |- context [u8 ?x] => rewrite (u8_small x) by lia
  | |- context [u16 ?x] => rewrite (u16_small x) by lia
  | H : context [u8 ?x] |- _ => rewrite (u8_small x) in H by lia
  end.

(** The type that [_type] finds: the one the start-line was set for, except
    that a report with an empty start-line has none. *)
Definition has_type (t : TYPE) (l : MsgLayout) : Prop :=
  match t with
  | REQUEST | REPLY => _type l = t
  | REPORT => _type l = if _sl_len l =? 0 then UNKNOWN else REPORT
  | _ => False
  end.

Lemma setStartLine_ok lineWithEol line nl type e2 e3 e4 l :
  lineWithEol = line ++ nl → no_newline line → nl = [LF] ∨ nl = [CR; LF] →
  offsets_ok (blen line) e2 e3 →
  wp (_setStartLine lineWithEol type e2 e3 e4)
    (λ _ l', _p_body l' = _p_body l ∧ _sl_len l' = blen line ∧ _sl_nl l' = blen nl
       ∧ layout_ok l' ∧ has_type type l' ∧ 2 ≤ _sl_len l' + _sl_nl l')
    (λ e _, start_line_error e) l.
Proof.
  intros -> Hl Hnl [He2 He3]. unfold _setStartLine.
  destruct ((_ <? 2) || _) eqn:Hg.
  { autorewrite with wp. unfold start_line_error. eauto. }
  rewrite line_of_app.
  2: done.
  2: { destruct Hnl as [->| ->]; [left; split; [done|] | by right]. intros ->. discriminate Hg. }
  pose proof (blen_nonneg line) as Hlen.
  assert (2 ≤ blen line + blen nl) as Htwo.
  { apply orb_false_iff in Hg as [Hg _]. apply Z.ltb_ge in Hg. by rewrite blen_app in Hg. }
  assert (1 ≤ blen nl ≤ 2) as Hn by (destruct Hnl as [->| ->]; unfold blen; simpl; lia).
  replace (blen (line ++ nl) - blen line) with (blen nl) by (rewrite blen_app; lia).
  unfold start_line_malformed, MAX_PRT_RPOS, MAX_STS_RPOS, MAX_URI_POS, MAX_STATUS_LENGTH,
    MAX_REASON_LENGTH, MAX_PROTOCOL_LENGTH, MAX_METHOD_LENGTH.
  repeat setLine_step; offsets_facts.
  all: simpl in *; narrow; try lia.
  all: split_and!; [done | done | done | | |done].
  all: try (unfold has_type, _type, _has_method, _has_uri, _has_protocol; simpl).
  all: try (constructor; simpl); unfold of_bool;
    repeat match goal with
    | |- context [?a =? ?b] => destruct (Z.eqb_spec a b)
    | |- context [?a <? ?b] => destruct (Z.ltb_spec a b)
    | |- context [?a <=? ?b] => destruct (Z.leb_spec a b)
    end; simpl; first [lia | done | exfalso; lia].
Qed.

Lemma setStartLine_no_LF lineWithEol type e2 e3 e4 Q l :
  last lineWithEol ≠ Some LF →
  wp (_setStartLine lineWithEol type e2 e3 e4) Q (λ e _, start_line_error e) l.
Proof.
  intros H. unfold _setStartLine. rewrite (bool_decide_false _ H), orb_true_r.
  autorewrite with wp. unfold start_line_error. eauto.
Qed.

(** ** [_parse_msg] *)

(** What a parsed message looks like: start-line, newline, header block
    (closed by a blank line), body; and what its layout says of it. *)
Record parsed (msg : bytes) (l : MsgLayout) (line nl h body : bytes) : Prop := {
  p_msg : msg = line ++ nl ++ h ++ body;
  p_line : no_newline line;
  p_nl : nl = [LF] ∨ nl = [CR; LF];
  p_h : h ≠ [];
  p_p_body : _p_body l = blen (line ++ nl ++ h);
  p_small : _p_body l ≤ 0xFFFF;
  p_sl_len : _sl_len l = blen line;
  p_sl_nl : _sl_nl l = blen nl;
  p_layout : layout_ok l;
}.

Definition parse_error (e : exn) : Prop :=
  ∃ err text, e = MsgException err text [] ∧
    (err = HEADER_INCOMPLETE ∨ err = HEADER_TOO_BIG ∨ err = START_LINE_MALFORMED).

Lemma parse_error_intro err text :
  err = HEADER_INCOMPLETE ∨ err = HEADER_TOO_BIG ∨ err = START_LINE_MALFORMED →
  parse_error (MsgException err text []).
Proof. unfold parse_error. eauto. Qed.
#[local] Hint Resolve parse_error_intro : telling.

Lemma start_line_parse_error e : start_line_error e → parse_error e.
Proof. intros [t [->| ->]]; auto with telling. Qed.

Lemma parse_msg_ok msg type l :
  wp (_parse_msg msg type)
    (λ _ l', ∃ line nl h body, parsed msg l' line nl h body
       ∧ has_type (guess_type type (start_parts msg line)) l' ∧ 2 ≤ _sl_len l' + _sl_nl l')
    (λ e _, parse_error e) l.
Proof.
  unfold _parse_msg. destruct (_ =? 0); [autorewrite with wp; auto with telling|].
  pose proof (ConsumeLine_line msg) as Hl. destruct (ConsumeLine_shape msg) as (nl & E & Hnl).
  destruct (ConsumeLine msg) as [line header_beg]. cbn [fst snd] in *.
  autorewrite with wp. destruct (_ <? blen line); [autorewrite with wp; auto with telling|].
  autorewrite with wp. destruct (Z.eqb_spec (blen header_beg) 0) as [H0|H0];
    [autorewrite with wp; auto with telling|].
  autorewrite with wp. unfold wp at 1, lift.
  assert (header_beg ≠ []) as Hne by (by intros ->).
  destruct (header_loop_spec (length header_beg) header_beg Hne (le_n _))
    as [(body & h & -> & Eh & Hh)|[ln ->]]; [|auto with telling].
  autorewrite with wp. destruct (Z.ltb_spec 0xFFFF (blen msg - blen body));
    [autorewrite with wp; auto with telling|].
  autorewrite with wp.
  assert (take (length msg - length header_beg) msg = line ++ nl) as ->.
  { rewrite E, app_assoc, (length_app (line ++ nl)), Nat.add_sub. apply take_app_length. }
  assert (blen msg - blen body = blen (line ++ nl ++ h)) as Hb.
  { rewrite E, Eh. autorewrite with blen. lia. }
  destruct (decide (nl = [CR])) as [->|Hncr].
  { eapply wp_mono; [apply setStartLine_no_LF|..]; [by rewrite last_snoc | intros ? ? H'; exact H' |].
    intros e s'. apply start_line_parse_error. }
  assert (nl = [LF] ∨ nl = [CR; LF]) as Hnl' by (destruct Hnl as [[_ ?]|[?|[?|[? _]]]]; auto; done).
  eapply wp_mono; [eapply (setStartLine_ok _ line nl); [done..|]| |].
  - destruct (start_parts_spec msg line (default LF (head nl)) (tail nl ++ header_beg)) as [H1 H2].
    { rewrite E. by destruct Hnl' as [->| ->]. }
    { by destruct Hnl' as [->| ->]. }
    by apply part_offsets_ok.
  - simpl. intros _ l' (H1 & H2 & H3 & H4 & H5). exists line, nl, h, body. split; [|done].
    rewrite Hb in *. rewrite u16_small in H1 by (pose proof (blen_nonneg (line ++ nl ++ h)); lia).
    split; try done; [by rewrite E, Eh | by rewrite H1].
  - intros e s'. apply start_line_parse_error.
Qed.

(** ** Accessors *)
Import View.

Lemma string_ok v r :
  0 ≤ r_start r → 0 ≤ r_length r →
  r_length r = 0 ∨ r_start r + r_length r ≤ blen (v_raw v) →
  ∃ s, _string v r = Ret s ∧ blen s = r_length r.
Proof.
  intros Hs Hl H. unfold _string. destruct (Z.eqb_spec (r_length r) 0) as [E|E].
  { exists []. by rewrite E. }
  destruct H as [?|H]; [done|]. replace (_ <=? _) with true by lia.
  eexists. split; [done|]. unfold blen in *. rewrite length_take, length_drop. lia.
Qed.

(** Every accessor of a parsed message succeeds. *)
Record accessible (v : MsgView) : Prop := {
  acc_startLine : ∃ s, startLine v = Ret s;
  acc_method : ∃ s, methodString v = Ret s;
  acc_uri : ∃ s, uriString v = Ret s;
  acc_protocol : ∃ s, protocolString v = Ret s;
  acc_status : ∃ s, statusString v = Ret s;
  acc_reason : ∃ s, reason v = Ret s;
  acc_headers : ∃ hs, headers v = Ret hs;
  acc_body : ∃ s, bodyString v = Ret s;
  acc_completion : ∃ c, completion v = Ret c;
}.

Lemma headers_ok v line nl h body :
  parsed (v_raw v) (v_layout v) line nl h body → ∃ hs, headers v = Ret hs.
Proof.
  intros [Hm _ _ Hh Hb Hs H1 H2 _]. unfold headers, _string_rem_nl, _headers, _p_headers.
  pose proof (blen_nonneg line). pose proof (blen_nonneg nl). pose proof (blen_nonneg body).
  rewrite Hb, H1, H2. autorewrite with blen.
  replace (blen line + (blen nl + blen h) - (blen line + blen nl)) with (blen h) by lia.
  assert (1 ≤ blen h) as Hpos by (destruct h; [done|]; rewrite blen_cons; pose proof (blen_nonneg h); lia).
  rewrite Hb in Hs. autorewrite with blen in Hs. rewrite u64_small by lia.
  destruct (string_ok v (mkRange (blen line + blen nl) (blen h))) as (s & -> & Hlen); simpl; try lia.
  { right. rewrite Hm. autorewrite with blen. lia. }
  unfold mbind, result_bind. destruct (last s) eqn:El; [by eexists|].
  apply last_None in El as ->. simpl in Hlen. rewrite blen_nil in Hlen. lia.
Qed.

Lemma protocolString_ok v line nl h body :
  parsed (v_raw v) (v_layout v) line nl h body → ∃ s, protocolString v = Ret s.
Proof.
  intros [Hm _ _ _ Hb Hs H1 H2 [Ku Kp Ks Kup Kps]].
  assert (blen (v_raw v) = _p_body (v_layout v) + blen body) as Hraw.
  { rewrite Hm, Hb. autorewrite with blen. lia. }
  rewrite Hb in *. pose proof (blen_nonneg body). pose proof (blen_nonneg h).
  pose proof (blen_nonneg nl). autorewrite with blen in *.
  destruct (string_ok v (_protocol (v_layout v))) as (s & ? & _); [| | |by exists s].
  all: simpl; unfold of_bool;
    destruct (Z.eqb_spec (_prt_rpos (v_layout v)) 0); destruct (Z.eqb_spec (_sts_rpos (v_layout v)) 0);
    simpl; rewrite ?u64_small by lia; lia.
Qed.

(** Completion is computed from the head alone, whatever the size. *)
Lemma completion_ok v line nl h body :
  parsed (v_raw v) (v_layout v) line nl h body → ∃ c, completion v = Ret c.
Proof.
  intros Hp. destruct (headers_ok _ _ _ _ _ Hp) as [hs Hh], (protocolString_ok _ _ _ _ _ Hp) as [s Hs].
  unfold completion, protocol. rewrite Hh, Hs. by eexists.
Qed.

Lemma accessible_ok v line nl h body :
  parsed (v_raw v) (v_layout v) line nl h body → blen (v_raw v) < 2 ^ 64 → accessible v.
Proof.
  intros Hp Hbig. pose proof (headers_ok _ _ _ _ _ Hp) as Hh. pose proof (completion_ok _ _ _ _ _ Hp) as Hc.
  pose proof (protocolString_ok _ _ _ _ _ Hp) as Hpr.
  destruct Hp as [Hm _ _ _ Hb Hs H1 H2 [Ku Kp Ks Kup Kps]].
  assert (blen (v_raw v) = _p_body (v_layout v) + blen body) as Hraw.
  { rewrite Hm, Hb. autorewrite with blen. lia. }
  rewrite Hb in *. pose proof (blen_nonneg body). pose proof (blen_nonneg h).
  pose proof (blen_nonneg nl). autorewrite with blen in *.
  assert (∀ r, 0 ≤ r_start r → 0 ≤ r_length r →
            r_length r = 0 ∨ r_start r + r_length r ≤ _sl_len (v_layout v) →
            ∃ s, _string v r = Ret s) as Hstr.
  { intros r ? ? Hr. destruct (string_ok v r) as (s & ? & _); [done|done|lia|by exists s]. }
  split; try done.
  - apply Hstr; simpl; lia.
  - apply Hstr; simpl; unfold of_bool; destruct (Z.eqb_spec (_uri_pos (v_layout v)) 0);
      simpl; rewrite ?u64_small by lia; lia.
  - apply Hstr; simpl; unfold _has_uri, of_bool in *;
      destruct (Z.ltb_spec (_prt_rpos (v_layout v)) (_sl_len (v_layout v)));
      destruct (Z.eqb_spec (_prt_rpos (v_layout v)) 0); simpl in *; rewrite ?u64_small by lia; lia.
  - apply Hstr; simpl; destruct (Z.eqb_spec (_sts_rpos (v_layout v)) 0);
      rewrite ?u64_small by lia; lia.
  - apply Hstr; simpl; destruct (Z.ltb_spec 4 (_sts_rpos (v_layout v)));
      try (rewrite (u64_small 0) by lia); rewrite ?u64_small by lia; lia.
  - unfold bodyString, bodySize.
    destruct (string_ok v (mkRange (_p_body (v_layout v))
      (u64 (blen (v_raw v) - _p_body (v_layout v))))) as (s & -> & _); simpl; try by eexists.
    all: rewrite ?u64_small by lia; lia.
Qed.

(** A message parses, or a message error is thrown. *)
Lemma parse_total type msg :
  match parse type msg with
  | Ret v => v_raw v = msg ∧ ∃ line nl h body, parsed msg (v_layout v) line nl h body
  | Throw e => parse_error e
  | Fault _ => False
  end.
Proof.
  unfold parse. pose proof (parse_msg_ok msg type reset) as H. unfold wp in H.
  destruct (_parse_msg msg type reset) as [[] l]; [|done..]. split; [done|].
  destruct H as (line & nl & h & body & Hp & _). by exists line, nl, h, body.
Qed.

(** A message parsed as a request, a reply or a report is one; but a report
    may consist of an empty line. *)
Lemma parse_typed t msg v :
  t = REQUEST ∨ t = REPLY ∨ t = REPORT → parse t msg = Ret v →
  msgType v = t ∨ (t = REPORT ∧ msgType v = UNKNOWN ∧ [CR; LF] `prefix_of` msg).
Proof.
  intros Ht E. unfold parse in E. pose proof (parse_msg_ok msg t reset) as H. unfold wp in H.
  destruct (_parse_msg msg t reset) as [[] l]; [|done..]. injection E as <-. unfold msgType. simpl.
  destruct H as (line & nl & h & body & Hp & Hty & Htwo).
  assert (guess_type t (start_parts msg line) = t) as Eg by (by destruct Ht as [->|[->| ->]]). rewrite Eg in Hty.
  destruct Ht as [->|[->| ->]]; simpl in Hty; [by left..|]. destruct (Z.eqb_spec (_sl_len l) 0) as [E0|E0]; [|by left].
  right. split_and!; [done | done |]. destruct Hp as [Em _ Hnl Hh _ _ E1 E2 _].
  assert (line = []) as -> by (destruct line; [done|]; unfold blen in E1; simpl in E1; lia).
  destruct Hnl as [->| ->]; [change (blen [LF]) with 1 in E2; lia | rewrite Em; by eexists].
Qed.

Lemma parse_completion type msg v : parse type msg = Ret v → ∃ c, completion v = Ret c.
Proof.
  intros E. pose proof (parse_total type msg) as H. rewrite E in H.
  destruct H as (<- & line & nl & h & body & Hp). by eapply completion_ok.
Qed.

Lemma parse_accessible type msg v : blen msg < 2 ^ 64 → parse type msg = Ret v → v_raw v = msg ∧ accessible v.
Proof.
  intros Hbig E. pose proof (parse_total type msg) as H. rewrite E in H.
  destruct H as (Hr & line & nl & h & body & Hp). subst msg. split; [done|]. by eapply accessible_ok.
Qed.

(** The excerpt of a message error is a part of the message, or a short text. *)
Definition excerpt_within (n : Z) (e : exn) : Prop := match e with MsgException _ text _ => blen text ≤ n | _ => True end.

Lemma header_loop_excerpt fuel pos e : header_loop fuel pos = Throw e → excerpt_within (blen pos) e.
Proof.
  revert pos. induction fuel as [|fuel IH]; intros pos; [done|]. simpl.
  pose proof (ConsumeLine_length pos) as Hl. destruct (ConsumeLine pos) as [line rest]. simpl in Hl.
  destruct (_ =? 0); [done|]. destruct (_ =? 0).
  - intros [= <-]. simpl. unfold blen. lia.
  - intros H%IH. destruct e; simpl in *; try done. unfold blen in *. lia.
Qed.

Lemma setStartLine_excerpt lineWithEol type e2 e3 e4 :
  throws (_setStartLine lineWithEol type e2 e3 e4) (excerpt_within (blen lineWithEol)).
Proof.
  assert (blen (line_of lineWithEol) ≤ blen lineWithEol) as Hl.
  { unfold line_of, blen. rewrite length_take. lia. }
  unfold _setStartLine, checkSize, start_line_malformed, verify_status. throws_run; simpl; lia.
Qed.

Lemma parse_excerpt type msg e : parse type msg = Throw e → excerpt_within (blen msg + 64) e.
Proof.
  unfold parse. pose proof (blen_nonneg msg) as Hn.
  assert (throws (_parse_msg msg type) (excerpt_within (blen msg + 64))) as H.
  { unfold _parse_msg. pose proof (ConsumeLine_length msg) as Hl.
    destruct (ConsumeLine msg) as [line rest]. simpl in Hl.
    destruct (_ =? 0); [apply throws_throw; simpl; change (blen data_is_empty) with 33; lia|].
    throws_run; simpl; try (change (blen start_line_64K) with 20; lia);
      try (change (blen headers_64K) with 38; lia); try (unfold blen in *; lia).
    - apply throws_lift. intros e1 H1%header_loop_excerpt. destruct e1; simpl in *; try done. unfold blen in *. lia.
    - intros s e1 s' H1%setStartLine_excerpt. destruct e1; simpl in *; try done.
      unfold blen in *. rewrite length_take in H1. lia. }
  destruct (_parse_msg msg type reset) as [[| e1 |] l] eqn:E1; try done. intros [= <-]. by eapply H.
Qed.

(** What a view reads is part of its message. *)
Lemma string_short v r s : _string v r = Ret s → blen s ≤ blen (v_raw v).
Proof.
  unfold _string. pose proof (blen_nonneg (v_raw v)). destruct (_ =? 0); [by intros [= <-]|].
  destruct (_ <=? _); [|done]. intros [= <-]. unfold blen. rewrite length_take, length_drop. lia.
Qed.

(** C5. The parser accepts or rejects every message, with any expected type: it
    neither reads out of bounds nor loops, and a rejection is one of three
    message errors.  Once it accepts, every accessor of the view (start-line
    elements, headers, body, completion) stays within the message. *)
Theorem parse_safe type msg :
  blen msg < 2 ^ 64 →
  match parse type msg with
  | Ret v => accessible v
  | Throw e => parse_error e
  | Fault _ => False
  end.
Proof.
  intros Hbig. pose proof (parse_total type msg) as H.
  destruct (parse type msg) as [v| |] eqn:E; [|done..]. by apply (parse_accessible type msg).
Qed.

Lemma parse_safe_witness :
  match parse REQUEST (lit "GET /a" ++ [LF; LF] ++ lit "body") with
  | Ret v => accessible v | Throw e => parse_error e | Fault _ => False end.
Proof. apply parse_safe. reflexivity. Defined.

End ParseFacts.
