(* ===== verification/OwnedMsg.v ===== *)
(** * Messages that own their buffer

    [include/telling/msg.h]: the class [Msg], a view that owns the message it
    refers to.  The messages of NNG live in a heap; a [Msg] holds a pointer
    into it, or none. *)
From stdpp Require Import gmap.
From S2P Require Import Prelude.
From S2P Require Import MsgUtil.
From S2P Require Import Nng.
From S2P Require Import MsgLayout.
From S2P Require Import MsgView.
From S2P Require Import MsgParse.

(** [Msg]: [msg] and the layout it inherits. *)
Record Msg : Type := mkMsg { mg_msg : option Z; mg_layout : MsgLayout }.

(** The heap, the objects of class [Msg] that exist, by the address of each,
    and the messages that belong to an object of class [nng::msg]. *)
Record MsgWorld (msg : Type) : Type := mkMsgWorld {
  mw_heap : gmap Z msg;
  mw_objects : gmap nat Msg;
  mw_loose : gset Z;
}.
Arguments mkMsgWorld {msg} _ _ _.
Arguments mw_heap {msg} _.
Arguments mw_objects {msg} _.
Arguments mw_loose {msg} _.

Module MsgOps.
Section Ops.
Context {msg : Type} `{NngMsg msg}.

Abbreviation MW := (M exn (MsgWorld msg)).

Definition set_heap x (w : MsgWorld msg) : MsgWorld msg := mkMsgWorld x (mw_objects w) (mw_loose w).
Definition set_object (v : nat) (o : Msg) (w : MsgWorld msg) := mkMsgWorld (mw_heap w) (<[v := o]> (mw_objects w)) (mw_loose w).
Definition set_loose x (w : MsgWorld msg) : MsgWorld msg := mkMsgWorld (mw_heap w) (mw_objects w) x.

Definition object (v : nat) : MW Msg :=
  w ← get; match mw_objects w !! v with Some o => mret o | None => fail NullDeref end.

Definition nng_msg_free (p : Z) : MW unit :=
  w ← get;
  match mw_heap w !! p with
  | Some _ => modify (set_heap (delete p (mw_heap w)))
  | None => fail DoubleFree
  end.

(** [_release] and [_free]; the layout stays. *)
Definition _release (v : nat) : MW (option Z) :=
  o ← object v; modify (set_object v (mkMsg None (mg_layout o)));; mret (mg_msg o).
Definition _free (v : nat) : MW unit :=
  p ← _release v; match p with Some p => nng_msg_free p | None => mret tt end.

(** [Msg()]. *)
Definition construct (v : nat) : MW unit := modify (set_object v (mkMsg None Layout.reset)).

(** [Msg(nng::msg &&m, TYPE type)] for a message that is not null: [m] gives
    it up first.  The object does not exist if the parser throws. *)
Definition construct_from (v : nat) (p : Z) (type : TYPE) : MW unit :=
  modify (λ w, set_loose (mw_loose w ∖ {[p]}) w);;
  w ← get;
  match mw_heap w !! p with
  | Some m => view ← lift (View.parse type (msg_body m)); modify (set_object v (mkMsg (Some p) (v_layout view)))
  | None => fail NullDeref
  end.

(** [~Msg]. *)
Definition destroy (v : nat) : MW unit :=
  _free v;; modify (λ w, mkMsgWorld (mw_heap w) (delete v (mw_objects w)) (mw_loose w)).

(** [release]: the message belongs to the [nng::msg] returned. *)
Definition release (v : nat) : MW unit :=
  p ← _release v;
  match p with Some p => modify (λ w, set_loose ({[p]} ∪ mw_loose w) w) | None => mret tt end.

(** [Msg(Msg &&o)], a new object at [v]. *)
Definition move_construct (v from : nat) : MW unit :=
  o ← object from; modify (set_object v o);; _ ← _release from; mret tt.

(** [operator=(Msg &&o)]; the two may be one object. *)
Definition move_assign (v from : nat) : MW unit :=
  _free v;; o ← object from; modify (set_object v o);; _ ← _release from; mret tt.

(** [clone] of a message that is not null.  [orig], an [nng::msg], holds the
    message of the source until both are released; [copied] is what
    [nng_msg_dup] gives for [copy]: a copy at an address, whose layout is not
    computed again, or an exception, which destroys [orig]. *)
Definition clone (v from : nat) (copied : exn + Z) : MW unit :=
  o ← object from;
  w ← get;
  match mg_msg o, copied with
  | None, _ => fail NullDeref
  | Some p, inl e => nng_msg_free p;; throw e
  | Some p, inr fresh =>
      match mw_heap w !! p with
      | Some m =>
          modify (set_heap (<[fresh := m]> (mw_heap w)));; modify (set_object v (mkMsg (Some fresh) (mg_layout o)))
      | None => fail NullDeref
      end
  end.

(** ** The system: objects come and go, messages arrive and are dropped *)
Inductive event : Type :=
| EArrive (p : Z) (m : msg)
| EDrop (p : Z)
| EConstruct (v : nat)
| EConstructFrom (v : nat) (p : Z) (type : TYPE)
| EDestroy (v : nat)
| ERelease (v : nat)
| EMoveConstruct (v from : nat)
| EMoveAssign (v from : nat)
| EClone (v from : nat) (copied : exn + Z).

Definition exists_ (w : MsgWorld msg) (v : nat) : bool := bool_decide (is_Some (mw_objects w !! v)).
Definition free_address (w : MsgWorld msg) (p : Z) : bool := bool_decide (mw_heap w !! p = None).

(** [None]: the event cannot happen. *)
Definition step (w : MsgWorld msg) (e : event) : option (result exn unit * MsgWorld msg) :=
  match e with
  | EArrive p m =>
      if free_address w p then Some (Ret tt, mkMsgWorld (<[p := m]> (mw_heap w)) (mw_objects w) ({[p]} ∪ mw_loose w)) else None
  | EDrop p =>
      if bool_decide (p ∈ mw_loose w)
      then Some ((modify (set_loose (mw_loose w ∖ {[p]}));; nng_msg_free p) w) else None
  | EConstruct v => if exists_ w v then None else Some (construct v w)
  | EConstructFrom v p type =>
      if exists_ w v || negb (bool_decide (p ∈ mw_loose w)) then None else Some (construct_from v p type w)
  | EDestroy v => if exists_ w v then Some (destroy v w) else None
  | ERelease v => if exists_ w v then Some (release v w) else None
  | EMoveConstruct v from => if exists_ w from && negb (exists_ w v) then Some (move_construct v from w) else None
  | EMoveAssign v from => if exists_ w from && exists_ w v then Some (move_assign v from w) else None
  | EClone v from copied =>
      if bool_decide (is_Some (mw_objects w !! from ≫= mg_msg)) && negb (exists_ w v)
         && match copied with inr fresh => free_address w fresh | inl _ => true end
      then Some (clone v from copied w) else None
  end.

(** [nng_msg_dup] does not fail. *)
Definition copies (e : event) : bool := match e with EClone _ _ (inl _) => false | _ => true end.

Definition empty : MsgWorld msg := mkMsgWorld ∅ ∅ ∅.

Inductive reachable : MsgWorld msg → Prop :=
| reach_empty : reachable empty
| reach_step w e r w' : reachable w → copies e = true → step w e = Some (r, w') → reachable w'.

End Ops.
Arguments event : clear implicits.
End MsgOps.

(** * Theorems *)
Module OwnedMsgFacts.
Import MsgOps.

Section Facts.
Context {msg : Type} {Hmsg : NngMsg msg}.
Implicit Types (w : MsgWorld msg) (o : Msg).

(** Each message has one owner at most, and each layout is that of the message
    it comes with. *)
Record Inv w : Prop := {
  inv_valid v o p : mw_objects w !! v = Some o → mg_msg o = Some p →
    (p ∉ mw_loose w) ∧ ∃ m t view, mw_heap w !! p = Some m ∧ View.parse t (msg_body m) = Ret view ∧ v_layout view = mg_layout o;
  inv_one v v' o o' p : mw_objects w !! v = Some o → mw_objects w !! v' = Some o' →
    mg_msg o = Some p → mg_msg o' = Some p → v = v';
  inv_loose p : p ∈ mw_loose w → is_Some (mw_heap w !! p);
}.

Lemma Inv_no_messages : Inv empty.
Proof. by split. Qed.

(** A message of an object, and one that is in the heap and belongs to
    nobody. *)
Definition owned p w : Prop := ∃ v o, mw_objects w !! v = Some o ∧ mg_msg o = Some p.
Definition leaked p w : Prop := is_Some (mw_heap w !! p) ∧ (p ∉ mw_loose w) ∧ ¬ owned p w.

(** What a step does to the owners: it does not fault, takes hold of no
    message that is leaked, and unless it throws, it leaks none. *)
Definition sound w (o : result exn unit * MsgWorld msg) : Prop :=
  (∀ f, o.1 ≠ Fault f) ∧ Inv o.2 ∧ (∀ p, leaked p w → leaked p o.2) ∧ (o.1 = Ret tt → ∀ p, leaked p o.2 → leaked p w).

(** An object is emptied. *)
Lemma Inv_emptied w v l : Inv w → Inv (set_object v (mkMsg None l) w).
Proof.
  intros [H1 H2 H3]. split; simpl; [| |done].
  - intros u o p [[<- <-]|[_ Ho]]%lookup_insert_Some; [done|]. by eapply H1.
  - intros u u' o o' p [[<- <-]|[_ Ho]]%lookup_insert_Some [[<- <-]|[_ Ho']]%lookup_insert_Some; try done. by eapply H2.
Qed.

(** An object gets a message that no other has. *)
Lemma Inv_filled w v o p m t view :
  Inv w → mg_msg o = Some p → p ∉ mw_loose w → mw_heap w !! p = Some m →
  View.parse t (msg_body m) = Ret view → v_layout view = mg_layout o →
  (∀ u b, mw_objects w !! u = Some b → mg_msg b = Some p → u = v) → Inv (set_object v o w).
Proof.
  intros [H1 H2 H3] Ho Hp Hm Hv Hl Hone. split; simpl; [| |done].
  - intros u b q [[<- <-]|[_ Hb]]%lookup_insert_Some Hq; [|by eapply H1]. simplify_eq. split; [done|]. by exists m, t, view.
  - intros u u' b b' q [[<- <-]|[Hu Hb]]%lookup_insert_Some [[<- <-]|[Hu' Hb']]%lookup_insert_Some Hq Hq'; simplify_eq; try done.
    + apply eq_sym. by eapply Hone.
    + by eapply Hone.
    + by eapply H2.
Qed.

(** A message that nobody else has is freed. *)
Lemma Inv_freed w p :
  Inv w → p ∉ mw_loose w → (∀ u b, mw_objects w !! u = Some b → mg_msg b ≠ Some p) →
  Inv (set_heap (delete p (mw_heap w)) w).
Proof.
  intros [H1 H2 H3] Hp Hno. split; simpl; [|done|].
  - intros u b q Hb Hq. destruct (H1 u b q Hb Hq) as (Hl & m & t & view & Hm & Hv & Hlay). split; [done|].
    exists m, t, view. split; [|done]. rewrite lookup_delete_ne; [done|]. intros ->. by apply (Hno u b).
  - intros q Hq. rewrite lookup_delete_ne by congruence. by apply H3.
Qed.

Lemma free_ok w v o :
  Inv w → mw_objects w !! v = Some o →
  ∃ w', _free v w = (Ret tt, w') ∧ Inv w' ∧ mw_objects w' = <[v := mkMsg None (mg_layout o)]> (mw_objects w)
    ∧ mw_loose w' = mw_loose w ∧ mw_heap w' = match mg_msg o with Some p => delete p (mw_heap w) | None => mw_heap w end.
Proof.
  intros HI Ho. unfold _free, _release, object, mbind, M_bind, get, modify, mret, M_ret. rewrite Ho.
  pose proof (Inv_emptied w v (mg_layout o) HI) as HI1.
  destruct (mg_msg o) as [p|] eqn:Ep; [|by eexists].
  destruct (inv_valid w HI v o p Ho Ep) as (Hl & m & t & view & Hm & _).
  unfold nng_msg_free, mbind, M_bind, get, modify. simpl. rewrite Hm. eexists. split; [reflexivity|].
  split; [|done]. apply (Inv_freed (set_object v (mkMsg None (mg_layout o)) w)); [done | done |].
  simpl. intros u b [[<- <-]|[Hu Hb]]%lookup_insert_Some; [done|]. intros Hp. apply Hu. by apply (inv_one w HI v u o b p).
Qed.

(** The message of an object moves to another object that has none. *)
Lemma moved_ok w v from o :
  Inv w → mw_objects w !! from = Some o →
  (∀ b, mw_objects w !! v = Some b → mg_msg b = None) →
  ∃ w', (modify (set_object v o);; _ ← _release from; mret tt) w = (Ret tt, w') ∧ Inv w' ∧ mw_heap w' = mw_heap w
    ∧ mw_loose w' = mw_loose w
    ∧ (∀ p, owned p w ↔ owned p w').
Proof.
  intros HI Ho Hv. unfold _release, object, mbind, M_bind, get, modify, mret, M_ret. simpl.
  destruct (decide (v = from)) as [->|Hne].
  - rewrite lookup_insert_eq. simpl. eexists. split; [reflexivity|].
    assert (set_object from (mkMsg None (mg_layout o)) (set_object from o w) = set_object from (mkMsg None (mg_layout o)) w) as ->.
    { unfold set_object. simpl. by rewrite insert_insert_eq. }
    split; [by apply Inv_emptied|]. split_and!; try done. simpl. intros p. split.
    + intros (u & b & Hb & Hp). exists u, b. split; [|done]. simpl. rewrite lookup_insert_ne; [done|].
      intros <-. rewrite Hb in Ho. injection Ho as ->. by rewrite (Hv o Hb) in Hp.
    + unfold owned; simpl; intros (u & b & [[<- <-]|[_ Hb]]%lookup_insert_Some & Hp); [done|]. by exists u, b.
  - rewrite lookup_insert_ne, Ho by done. eexists. split; [reflexivity|].
    assert (set_object from (mkMsg None (mg_layout o)) (set_object v o w)
      = set_object v o (set_object from (mkMsg None (mg_layout o)) w)) as ->.
    { unfold set_object. simpl. f_equal. by apply insert_insert_ne. }
    split; [|split_and!; try done].
    + pose proof (Inv_emptied w from (mg_layout o) HI) as HI1. destruct (mg_msg o) as [p|] eqn:Ep.
      * destruct (inv_valid w HI from o p Ho Ep) as (Hl & m & t & view & Hm & Hp & Hlay).
        eapply (Inv_filled _ v o p m t view); try done. simpl.
        intros u b [[<- <-]|[Hu Hb]]%lookup_insert_Some Hq; [done|]. destruct Hu. by eapply (inv_one w HI).
      * destruct o as [[] l]; [done|]. by apply Inv_emptied.
    + intros p. split.
      * intros (u & b & Hb & Hp). destruct (decide (u = from)) as [->|Hu].
        -- exists v, o. simpl. rewrite lookup_insert_eq. by simplify_eq.
        -- exists u, b. simpl. rewrite !lookup_insert_ne; [done..|]. intros <-. by rewrite (Hv b Hb) in Hp.
      * unfold owned; simpl; intros (u & b & [[<- <-]|[_ [[<- <-]|[_ Hb]]%lookup_insert_Some]]%lookup_insert_Some & Hp); [by exists from, o | done | by exists u, b].
Qed.

Lemma leaked_same p w w' :
  leaked p w → mw_heap w' !! p = mw_heap w !! p → mw_loose w' = mw_loose w → (owned p w' → owned p w) → leaked p w'.
Proof. intros (H1 & H2 & H3) E1 E2 E3. split_and!; [by rewrite E1 | by rewrite E2 |]. by intros Ho%E3. Qed.

Lemma owned_emptied w v l p : owned p (set_object v (mkMsg None l) w) → owned p w.
Proof. unfold owned; simpl; intros (u & b & [[<- <-]|[_ Hb]]%lookup_insert_Some & Hq); [done | by exists u, b]. Qed.

Lemma owned_emptied_back w v o l p :
  mw_objects w !! v = Some o → owned p w → mg_msg o = Some p ∨ owned p (set_object v (mkMsg None l) w).
Proof.
  intros Ho (u & b & Hb & Hp). destruct (decide (u = v)) as [->|Hne]; [left; congruence|].
  right. exists u, b. split; [|done]. simpl. by rewrite lookup_insert_ne.
Qed.

Lemma owned_new w v o p : mw_objects w !! v = None → owned p w → owned p (set_object v o w).
Proof.
  intros Hv (u & b & Hb & Hp). exists u, b. split; [|done]. simpl. rewrite lookup_insert_ne; [done|]. congruence.
Qed.

Lemma owned_filled w v o p : owned p (set_object v o w) → mg_msg o = Some p ∨ owned p w.
Proof. unfold owned; simpl; intros (u & b & [[<- <-]|[_ Hb]]%lookup_insert_Some & Hq); [by left | right; by exists u, b]. Qed.

(** [_free] leaks nothing and takes hold of nothing. *)
Lemma free_leaked w v o w' p :
  Inv w → mw_objects w !! v = Some o → _free v w = (Ret tt, w') → leaked p w ↔ leaked p w'.
Proof.
  intros HI Ho E. destruct (free_ok w v o HI Ho) as (w1 & E1 & _ & Hobj & Hl & Hh). rewrite E in E1. injection E1 as <-.
  assert (∀ q, owned q w' → owned q w) as Hback.
  { intros q (u & b & Hb & Hq). rewrite Hobj in Hb. apply (owned_emptied w v (mg_layout o)). by exists u, b. }
  split.
  - intros Hp. pose proof Hp as (_ & _ & H3). apply (leaked_same p w); [done | | done | apply Hback].
    rewrite Hh. destruct (mg_msg o) as [q|] eqn:Eq; [|done]. apply lookup_delete_ne. intros ->. apply H3. by exists v, o.
  - intros Hp. pose proof Hp as (H1 & _ & H3). rewrite Hh in H1. apply (leaked_same p w'); [done | | done |].
    + rewrite Hh. destruct (mg_msg o) as [q|]; [|done]. symmetry. apply lookup_delete_ne. intros ->. rewrite lookup_delete_eq in H1. by destruct H1.
    + intros Hp'. destruct (owned_emptied_back w v o (mg_layout o) p Ho Hp') as [Ep|(u & b & Hb & Hq)].
      * rewrite Ep, lookup_delete_eq in H1. by destruct H1.
      * exists u, b. by rewrite Hobj.
Qed.

(** One lemma an event. *)
Lemma not_owned w p : Inv w → p ∈ mw_loose w → ∀ u b, mw_objects w !! u = Some b → mg_msg b ≠ Some p.
Proof. intros HI Hp u b Hb Hq. by destruct (inv_valid w HI u b p Hb Hq). Qed.

Lemma Inv_loose_less w p : Inv w → Inv (set_loose (mw_loose w ∖ {[p]}) w).
Proof.
  intros [H1 H2 H3]. split; simpl; [|done|].
  - intros u b q Hb Hq. destruct (H1 u b q Hb Hq) as [Hl Hx]. split; [|done]. by intros [Hin _]%elem_of_difference.
  - intros q [Hq _]%elem_of_difference. by apply H3.
Qed.

Lemma not_loose_less w p : p ∉ mw_loose (set_loose (mw_loose w ∖ {[p]}) w).
Proof. simpl. intros [_ Hn]%elem_of_difference. by apply Hn, elem_of_singleton. Qed.

Lemma leaked_less w p q : leaked q w → leaked q (set_loose (mw_loose w ∖ {[p]}) w).
Proof. intros (L1 & L2 & L3). split_and!; [done | | done]. simpl. by intros [Hin _]%elem_of_difference. Qed.

Lemma leaked_less_back w p q : q ≠ p → leaked q (set_loose (mw_loose w ∖ {[p]}) w) → leaked q w.
Proof.
  intros Hne (L1 & L2 & L3). split_and!; [done | | done]. intros Hq. apply L2. simpl. apply elem_of_difference.
  split; [done|]. by intros ?%elem_of_singleton.
Qed.

Lemma heap_more w p m : Inv w → mw_heap w !! p = None → Inv (set_heap (<[p := m]> (mw_heap w)) w).
Proof.
  intros [H1 H2 H3] Hf. split; simpl; [|done|].
  - intros u b q Hb Hq. destruct (H1 u b q Hb Hq) as (Hl & m' & t & view & Hm & Hx). split; [done|].
    exists m', t, view. rewrite lookup_insert_ne; [done|]. congruence.
  - intros q Hq. destruct (decide (q = p)) as [->|]; [by rewrite lookup_insert_eq|]. rewrite lookup_insert_ne by done. by apply H3.
Qed.

Lemma leaked_ne w p q : leaked q w → mw_heap w !! p = None → q ≠ p.
Proof. intros (L1 & _) Hf ->. rewrite Hf in L1. by destruct L1. Qed.

Lemma loose_more w p : Inv w → is_Some (mw_heap w !! p) → ¬ owned p w → Inv (set_loose ({[p]} ∪ mw_loose w) w).
Proof.
  intros [H1 H2 H3] Hp Hno. split; simpl; [|done|].
  - intros u b q Hb Hq. destruct (H1 u b q Hb Hq) as [Hl Hx]. split; [|done].
    intros [->%elem_of_singleton|?]%elem_of_union; [|done]. apply Hno. by exists u, b.
  - intros q [->%elem_of_singleton|Hq]%elem_of_union; [done | by apply H3].
Qed.

Lemma leaked_more w p q : q ≠ p → leaked q w ↔ leaked q (set_loose ({[p]} ∪ mw_loose w) w).
Proof.
  intros Hne. split; intros (L1 & L2 & L3); (split_and!; [done | | done]); simpl.
  - by intros [?%elem_of_singleton|?]%elem_of_union.
  - intros Hq. apply L2. simpl. apply elem_of_union. by right.
Qed.

Lemma arrive_sound w p m :
  Inv w → mw_heap w !! p = None → sound w (Ret tt, mkMsgWorld (<[p := m]> (mw_heap w)) (mw_objects w) ({[p]} ∪ mw_loose w)).
Proof.
  intros HI Hf. set (w1 := set_heap (<[p := m]> (mw_heap w)) w).
  change (sound w (Ret tt, set_loose ({[p]} ∪ mw_loose w1) w1)). split; [done|].
  assert (∀ q, q ≠ p → leaked q w ↔ leaked q w1) as Hiff.
  { intros q Hne. unfold leaked. simpl. by rewrite lookup_insert_ne. }
  split; [|split].
  - apply (loose_more w1 p); simpl; [by apply heap_more | by rewrite lookup_insert_eq |].
    intros (u & b & Hb & Hq). destruct (inv_valid w HI u b p Hb Hq) as (_ & ? & ? & ? & Hx & _). congruence.
  - intros q Hq. pose proof (leaked_ne w p q Hq Hf) as Hne. by apply leaked_more, Hiff.
  - intros _ q Hq. assert (q ≠ p) as Hne. { intros ->. destruct Hq as (_ & Hn & _). apply Hn. simpl. apply elem_of_union. left. by apply elem_of_singleton. }
    by apply Hiff, (leaked_more w1 p).
Qed.

Lemma drop_sound w p : Inv w → p ∈ mw_loose w → sound w ((modify (set_loose (mw_loose w ∖ {[p]}));; nng_msg_free p) w).
Proof.
  intros HI Hp. unfold nng_msg_free, mbind, M_bind, get, modify. simpl. destruct (inv_loose w HI p Hp) as [m Hm]. rewrite Hm.
  split; [done|]. split; [|split].
  - apply (Inv_freed (set_loose (mw_loose w ∖ {[p]}) w)); [by apply Inv_loose_less | apply not_loose_less | exact (not_owned w p HI Hp)].
  - intros q Hq. destruct (leaked_less w p q Hq) as (L1 & L2 & L3). split_and!; [|done|done].
    simpl. rewrite lookup_delete_ne; [done|]. intros <-. by destruct Hq as (_ & ? & _).
  - intros _ q (L1 & L2 & L3). simpl in L1. destruct (decide (q = p)) as [->|Hne]; [rewrite lookup_delete_eq in L1; by destruct L1|].
    rewrite lookup_delete_ne in L1 by done. by apply (leaked_less_back w p).
Qed.

Lemma destroy_sound w v o : Inv w → mw_objects w !! v = Some o → sound w (destroy v w).
Proof.
  intros HI Ho. destruct (free_ok w v o HI Ho) as (w1 & E1 & HI1 & Hobj & Hl & _).
  unfold destroy. rewrite (bind_run _ _ _ _ _ E1).
  set (w2 := mkMsgWorld (mw_heap w1) (delete v (mw_objects w1)) (mw_loose w1)).
  assert (∀ q, owned q w1 ↔ owned q w2) as Hown.
  { intros q. split.
    - intros (u & b & Hb & Hq). exists u, b. split; [|done]. simpl. rewrite lookup_delete_ne; [done|].
      intros <-. rewrite Hobj, lookup_insert_eq in Hb. by injection Hb as <-.
    - unfold owned; simpl; intros (u & b & [_ Hb]%lookup_delete_Some & Hq). by exists u, b. }
  assert (∀ q, leaked q w ↔ leaked q w2) as Hiff.
  { intros q. rewrite (free_leaked w v o w1 q HI Ho E1). unfold leaked. by rewrite Hown. }
  split; [done|]. split; [|split; intros; by apply Hiff]. destruct HI1 as [H1 H2 H3]. split; simpl; [| |done].
  - intros u b q [_ Hb]%lookup_delete_Some. by eapply H1.
  - intros u u' b b' q [_ Hb]%lookup_delete_Some [_ Hb']%lookup_delete_Some. by eapply H2.
Qed.

Lemma release_sound w v o : Inv w → mw_objects w !! v = Some o → sound w (release v w).
Proof.
  intros HI Ho. unfold release, _release, object, mbind, M_bind, get, modify, mret, M_ret. rewrite Ho.
  pose proof (Inv_emptied w v (mg_layout o) HI) as HI1. set (w1 := set_object v (mkMsg None (mg_layout o)) w) in *.
  assert (∀ q, mg_msg o ≠ Some q → leaked q w ↔ leaked q w1) as Hiff.
  { intros q Hne. split; intros Hq.
    - apply (leaked_same q w); [done..|]. apply owned_emptied.
    - apply (leaked_same q w1); [done..|]. intros Hown. by destruct (owned_emptied_back w v o (mg_layout o) q Ho Hown). }
  destruct (mg_msg o) as [p|] eqn:Ep; (split; [done|]).
  - destruct (inv_valid w HI v o p Ho Ep) as (Hl & m & t & view & Hm & _). split; [|split].
    + apply (loose_more w1 p); [done | simpl; by rewrite Hm |].
      unfold owned; simpl; intros (u & b & [[_ <-]|[Hne Hb]]%lookup_insert_Some & Hq); [done|]. by apply Hne, (inv_one w HI v u o b p).
    + intros q Hq. assert (q ≠ p) as Hne. { intros ->. destruct Hq as (_ & _ & Hn). apply Hn. by exists v, o. }
      apply (leaked_more w1 p q Hne), Hiff; [congruence | done].
    + intros _ q Hq. assert (q ≠ p) as Hne.
      { intros ->. destruct Hq as (_ & Hn & _). apply Hn. simpl. apply elem_of_union. left. by apply elem_of_singleton. }
      apply Hiff; [congruence|]. by apply (leaked_more w1 p q Hne).
  - split; [done|]. split; intros; by apply Hiff.
Qed.

Lemma moved_leaked p w w' :
  mw_heap w' = mw_heap w → mw_loose w' = mw_loose w → (∀ p, owned p w ↔ owned p w') → leaked p w ↔ leaked p w'.
Proof. intros E1 E2 E3. unfold leaked. by rewrite E1, E2, E3. Qed.

Lemma move_construct_sound w v from o :
  Inv w → mw_objects w !! from = Some o → mw_objects w !! v = None → sound w (move_construct v from w).
Proof.
  intros HI Ho Hv. destruct (moved_ok w v from o HI Ho) as (w1 & E1 & HI1 & Hh & Hl & Hown); [by rewrite Hv|].
  unfold move_construct. erewrite bind_run by (unfold object, mbind, M_bind, get; by rewrite Ho).
  rewrite E1. split; [done|]. split; [done|]. split; intros; by apply (moved_leaked p w w1 Hh Hl Hown).
Qed.

Lemma move_assign_sound w v from o ov :
  Inv w → mw_objects w !! from = Some o → mw_objects w !! v = Some ov → sound w (move_assign v from w).
Proof.
  intros HI Ho Hov. destruct (free_ok w v ov HI Hov) as (w1 & E1 & HI1 & Hobj & Hl & _).
  assert (∃ o1, mw_objects w1 !! from = Some o1) as [o1 Ho1].
  { rewrite Hobj. destruct (decide (from = v)) as [->|]; [rewrite lookup_insert_eq | rewrite lookup_insert_ne by done]; by eexists. }
  destruct (moved_ok w1 v from o1 HI1 Ho1) as (w2 & E2 & HI2 & Hh & Hl2 & Hown).
  { intros b. rewrite Hobj, lookup_insert_eq. by intros [= <-]. }
  unfold move_assign. rewrite (bind_run _ _ _ _ _ E1).
  erewrite bind_run by (unfold object, mbind, M_bind, get; by rewrite Ho1).
  rewrite E2. split; [done|]. split; [done|].
  assert (∀ q, leaked q w ↔ leaked q w2) as Hiff.
  { intros q. rewrite (free_leaked w v ov w1 q HI Hov E1). by apply moved_leaked. }
  split; intros; by apply Hiff.
Qed.

Lemma clone_sound w v from fresh o p :
  Inv w → mw_objects w !! v = None → mw_objects w !! from = Some o → mg_msg o = Some p → mw_heap w !! fresh = None →
  sound w (clone v from (inr fresh) w).
Proof.
  intros HI Hnew Ho Hp Hf. destruct (inv_valid w HI from o p Ho Hp) as (Hl & m & t & view & Hm & Hv & Hlay).
  unfold clone, object, mbind, M_bind, get, modify, mret, M_ret. rewrite Ho, Hp. simpl. rewrite Hm.
  set (w1 := set_heap (<[fresh := m]> (mw_heap w)) w).
  assert (¬ owned fresh w) as Hno.
  { intros (u & b & Hb & Hq). destruct (inv_valid w HI u b fresh Hb Hq) as (_ & ? & ? & ? & Hx & _). congruence. }
  split; [done|]. split; [|split].
  - eapply (Inv_filled w1 v _ fresh m t view); try done; simpl.
    + by apply heap_more.
    + intros [? Hx]%(inv_loose w HI). congruence.
    + apply lookup_insert_eq.
    + intros u b Hb Hq. destruct Hno. by exists u, b.
  - intros q Hq. pose proof (leaked_ne w fresh q Hq Hf) as Hne. apply (leaked_same q w); [done | | done |].
    + simpl. by rewrite lookup_insert_ne.
    + intros [Hq'|Ho']%(owned_filled w1); [|done]. simpl in Hq'. congruence.
  - intros _ q Hq. assert (q ≠ fresh) as Hne.
    { intros ->. destruct Hq as (_ & _ & Hn). apply Hn. exists v, (mkMsg (Some fresh) (mg_layout o)). simpl. by rewrite lookup_insert_eq. }
    eapply (leaked_same q); [exact Hq | | done |].
    + simpl. by rewrite lookup_insert_ne.
    + intros Hq'. by apply (owned_new w1).
Qed.

Lemma construct_sound w v : Inv w → mw_objects w !! v = None → sound w (construct v w).
Proof.
  intros HI Hv. split; [done|]. split; [by apply Inv_emptied|]. split.
  - intros p Hp. apply (leaked_same p w); [done..|]. apply owned_emptied.
  - intros _ p Hp. eapply (leaked_same p); [exact Hp | done..|]. by apply owned_new.
Qed.

Lemma parse_from_ok v p t w :
  Inv w → mw_objects w !! v = None → p ∈ mw_loose w → sound w (construct_from v p t w)
  ∧ (∀ e, (construct_from v p t w).1 = Throw e → leaked p (construct_from v p t w).2).
Proof.
  intros HI Hv Hp. destruct (inv_loose w HI p Hp) as [m Hm]. pose proof (not_owned w p HI Hp) as Hno.
  pose proof (Inv_loose_less w p HI) as HI1. pose proof (leaked_less w p) as Hleak. pose proof (not_loose_less w p) as Hout.
  set (w1 := set_loose (mw_loose w ∖ {[p]}) w) in *.
  unfold construct_from, mbind, M_bind, get, modify, lift. fold w1. simpl. rewrite Hm.
  pose proof (ParseFacts.parse_total t (msg_body m)) as Ht. destruct (View.parse t (msg_body m)) as [view|e|f] eqn:Ev; [| |done]; simpl.
  - split; [|done]. set (o := mkMsg (Some p) (v_layout view)). split; [done|]. split; [|split]; simpl.
    + eapply (Inv_filled w1 v o p m t view); try done. intros u b Hb Hq. by destruct (Hno u b).
    + intros q Hq. apply (leaked_same q w1); [by apply Hleak | done..|].
      intros [[= ->]|Ho]%(owned_filled w1); [|done]. by destruct Hq as (_ & Hn & _).
    + intros _ q Hq. assert (q ≠ p) as Hne.
      { intros ->. destruct Hq as (_ & _ & Hn). apply Hn. exists v, o. simpl. by rewrite lookup_insert_eq. }
      apply (leaked_less_back w p q Hne). eapply (leaked_same q); [exact Hq | done..|]. by apply (owned_new w1).
  - split; [by split|]. intros e' _. split; [by simpl; rewrite Hm|]. split; [done|]. intros (u & b & Hb & Hq). by apply (Hno u b).
Qed.

(** A copy that fails. *)
Lemma clone_fails w v from o p e :
  Inv w → mw_objects w !! from = Some o → mg_msg o = Some p →
  ∃ w', clone v from (inl e) w = (Throw e, w') ∧ mw_objects w' = mw_objects w ∧ mw_heap w' !! p = None.
Proof.
  intros HI Ho Hp. destruct (inv_valid w HI from o p Ho Hp) as (_ & m & _ & _ & Hm & _).
  unfold clone, nng_msg_free, object, mbind, M_bind, get, modify, mret, M_ret, throw. rewrite Ho, Hp, Hm.
  eexists. split; [reflexivity|]. split; [done|]. apply lookup_delete_eq.
Qed.

Lemma sound_step w e r w' : Inv w → copies e = true → step w e = Some (r, w') → sound w (r, w').
Proof.
  intros HI Hcp. assert (∀ v, exists_ w v = true → ∃ o, mw_objects w !! v = Some o) as Hex.
  { intros v Hv. unfold exists_ in Hv. by apply bool_decide_eq_true in Hv as [o Ho]; exists o. }
  assert (∀ v, exists_ w v = false → mw_objects w !! v = None) as Hnex.
  { intros v Hv. unfold exists_ in Hv. apply bool_decide_eq_false in Hv. by apply eq_None_not_Some. }
  destruct e as [p m|p|v|v p t|v|v|v from|v from|v from [e|fresh]]; [..|discriminate|]; cbn [step]; unfold free_address.
  - case_bool_decide as Hf; [|done]. intros [= <- <-]. by apply arrive_sound.
  - case_bool_decide as Hp; [|done]. intros [= <-]. by apply drop_sound.
  - destruct (exists_ w v) eqn:Ev; [done|]. intros [= <- <-]. by apply (construct_sound w v HI), Hnex.
  - destruct (exists_ w v) eqn:Ev; [done|]. case_bool_decide as Hp; [|done]. intros [= <-].
    by apply (parse_from_ok v p t w HI (Hnex v Ev) Hp).
  - destruct (exists_ w v) eqn:Ev; [|done]. destruct (Hex v Ev) as [o Ho]. intros [= <-]. by eapply destroy_sound.
  - destruct (exists_ w v) eqn:Ev; [|done]. destruct (Hex v Ev) as [o Ho]. intros [= <-]. by eapply release_sound.
  - destruct (exists_ w from) eqn:Ef; [|done]. destruct (exists_ w v) eqn:Ev; [done|]. destruct (Hex from Ef) as [o Ho].
    intros [= <-]. eapply move_construct_sound; [done..|]. by apply Hnex.
  - destruct (exists_ w from) eqn:Ef; [|done]. destruct (exists_ w v) eqn:Ev; [|done].
    destruct (Hex from Ef) as [o Ho], (Hex v Ev) as [ov Hov]. intros [= <-]. by eapply move_assign_sound.
  - destruct (bool_decide (is_Some _)) eqn:Eb; [|done]. apply bool_decide_eq_true in Eb as [p Hp].
    destruct (exists_ w v) eqn:Ev; [done|]. case_bool_decide as Hf; [|done].
    destruct (mw_objects w !! from) as [o|] eqn:Ho; [|done].
    intros [= <-]. eapply clone_sound; [done | by apply Hnex | done..].
Qed.

Lemma reachable_Inv_msg w : reachable w → Inv w.
Proof. induction 1 as [|w e r w' _ IH Hc Hs]; [apply Inv_no_messages|]. by destruct (sound_step w e r w' IH Hc Hs) as (_ & ? & _). Qed.

(** C32. As long as NNG does not fail to copy a message, whatever is done with
    objects of class [Msg], construction, moves, assignments (to itself too),
    clones, [release] and destruction: no message is freed twice, no two
    objects own one message, the layout of an object that owns a message is the
    layout of that message, and what does not throw leaks no message.  When the
    copy fails, [clone] throws and has freed the message that its source still
    owns: destroying the source frees it again. *)
Theorem msg_ownership w e r w' :
  reachable w → step w e = Some (r, w') →
  (copies e = true →
    (∀ f, r ≠ Fault f)
    ∧ (∀ v o p, mw_objects w' !! v = Some o → mg_msg o = Some p →
        (p ∉ mw_loose w') ∧ (∀ v' o', mw_objects w' !! v' = Some o' → mg_msg o' = Some p → v' = v)
        ∧ ∃ m t view, mw_heap w' !! p = Some m ∧ View.parse t (msg_body m) = Ret view ∧ v_layout view = mg_layout o)
    ∧ (r = Ret tt → ∀ p, leaked p w' → leaked p w))
  ∧ (∀ v from ex, e = EClone v from (inl ex) →
      r = Throw ex ∧ ∃ w'', step w' (EDestroy from) = Some (Fault DoubleFree, w'')).
Proof.
  intros Hr Hs. pose proof (reachable_Inv_msg w Hr) as HI. split.
  - intros Hcp. destruct (sound_step w e r w' HI Hcp Hs) as (H1 & HI' & _ & Hl). simpl in HI'.
    split; [exact H1|]. split; [|exact Hl]. intros v o p Ho Hp. destruct (inv_valid w' HI' v o p Ho Hp) as [Hlo Hx].
    split; [done|]. split; [|done]. intros v' o' Ho' Hp'. by eapply inv_one.
  - intros v from ex ->. cbn [step] in Hs. destruct (bool_decide (is_Some _)) eqn:Eb; [|done].
    apply bool_decide_eq_true in Eb as [p Hp]. destruct (exists_ w v); [done|]. simpl in Hs. injection Hs as Hs.
    destruct (mw_objects w !! from) as [o|] eqn:Ho; [|done]. simpl in Hp.
    destruct (clone_fails w v from o p ex HI Ho Hp) as (w1 & E1 & Eo & Eh). rewrite E1 in Hs. injection Hs as <- <-.
    split; [done|]. eexists. cbn [step]. unfold exists_. rewrite Eo, Ho. simpl.
    unfold destroy, _free, _release, nng_msg_free, object, mbind, M_bind, get, modify, mret, M_ret, fail. rewrite Eo, Ho, Hp. simpl.
    by rewrite Eh.
Qed.

(** When the constructor throws, because the message does not parse, the
    message has no owner any more, and nothing that happens later frees it. *)
Theorem msg_constructor_leaks w v p t e w' es w'' :
  reachable w → step w (EConstructFrom v p t) = Some (Throw e, w') → Forall (λ e, copies e = true) es →
  fold_left (λ x e, x ≫= λ w, snd <$> step w e) es (Some w') = Some w'' → leaked p w''.
Proof.
  intros Hr Hs Hes. pose proof (reachable_Inv_msg w Hr) as HI.
  destruct (sound_step w (EConstructFrom v p t) _ w' HI eq_refl Hs) as (_ & HI' & _). simpl in HI'.
  assert (leaked p w') as Hp.
  { cbn [step] in Hs. destruct (exists_ w v) eqn:Ev; [done|]. case_bool_decide as Hin; [|done]. simpl in Hs. injection Hs as E.
    unfold exists_ in Ev. apply bool_decide_eq_false, eq_None_not_Some in Ev.
    destruct (parse_from_ok v p t w HI Ev Hin) as [_ Hl]. rewrite E in Hl. by apply (Hl e). }
  clear Hs. revert w' HI' Hp. induction Hes as [|e' es He Hes IH]; intros w' HI' Hp; simpl.
  - by intros [= <-].
  - destruct (step w' e') as [[r' w1]|] eqn:E; simpl.
    + destruct (sound_step w' e' r' w1 HI' He E) as (_ & HI1 & Hl & _). by apply IH; [|apply Hl].
    + assert (∀ es, fold_left (λ x e, x ≫= λ w : MsgWorld msg, snd <$> step w e) es None = None) as Hn.
      { clear. intros es. by induction es. }
      by rewrite Hn.
Qed.

End Facts.

(** ** Witnesses *)
Definition arrived (text : bytes) : MsgWorld flat_msg := mkMsgWorld {[7 := mkFlat [] text]} ∅ {[7]}.

Lemma arrived_reachable text : reachable (arrived text).
Proof. apply (reach_step empty (EArrive 7 (mkFlat [] text)) (Ret tt)); [constructor | done | reflexivity]. Qed.

Lemma msg_ownership_witness :
  ∃ r w', step (arrived (lit "GET /a" ++ [LF; LF])) (EConstructFrom 0%nat 7 REQUEST) = Some (r, w')
    ∧ (∀ f, r ≠ Fault f) ∧ is_Some (mw_objects w' !! 0%nat).
Proof.
  destruct (step (arrived (lit "GET /a" ++ [LF; LF])) (EConstructFrom 0%nat 7 REQUEST)) as [[r w']|] eqn:E; [|by vm_compute in E].
  exists r, w'. split; [done|]. destruct (msg_ownership _ _ r w' (arrived_reachable _) E) as [H1 _]. split; [apply H1; reflexivity|].
  vm_compute in E. injection E as <- <-. vm_compute. by eexists.
Defined.

Lemma msg_constructor_leaks_witness :
  ∃ e w', step (arrived (lit "GET")) (EConstructFrom 0%nat 7 REQUEST) = Some (Throw e, w') ∧ is_Some (mw_heap w' !! 7).
Proof.
  destruct (step (arrived (lit "GET")) (EConstructFrom 0%nat 7 REQUEST)) as [[r w']|] eqn:E; [|by vm_compute in E].
  assert (∃ e, r = Throw e) as [e ->]. { vm_compute in E. injection E as <- _. by eexists. }
  exists e, w'. split; [done|]. by apply (msg_constructor_leaks _ _ _ _ e w' [] w' (arrived_reachable _) E (Forall_nil_2 _)).
Defined.

End OwnedMsgFacts.
