(* ===== verification/TypedMsg.v ===== *)
(** * Messages of a known type

    [Msg::Request], [Msg::Reply] and [Msg::Report] of [include/telling/msg.h],
    and the views of the same names of [include/telling/msg_view.h]: classes
    that differ from [Msg] and [MsgView] by the type they are parsed with.  The
    objects are those of [OwnedMsg], with the class of each. *)
From stdpp Require Import gmap.
From S2P Require Import Prelude.
From S2P Require Import MsgUtil.
From S2P Require Import Nng.
From S2P Require Import MsgLayout.
From S2P Require Import MsgView.
From S2P Require Import MsgParse.
From S2P Require Import OwnedMsg.

(** ** Views *)

Definition View_ : bytes → result exn MsgView := View.parse UNKNOWN.
Definition ViewRequest : bytes → result exn MsgView := View.parse REQUEST.
Definition ViewReply : bytes → result exn MsgView := View.parse REPLY.
Definition ViewReport : bytes → result exn MsgView := View.parse REPORT.

(** ** Messages *)

Inductive msg_class : Set := CMsg | CRequest | CReply | CReport.
#[export] Instance msg_class_eq_dec : EqDecision msg_class.
Proof. solve_decision. Defined.

Record TypedWorld (msg : Type) : Type := mkTyped {
  tw_world : MsgWorld msg;
  tw_class : gmap nat msg_class;
}.
Arguments mkTyped {msg} _ _.
Arguments tw_world {msg} _.
Arguments tw_class {msg} _.

Module TypedOps.
Section Ops.
Context {msg : Type} `{NngMsg msg}.

(** The type that the constructor of a class gives to the parser; [Msg] takes
    one from its caller. *)
Definition class_type (c : msg_class) (t : TYPE) : TYPE :=
  match c with CMsg => t | CRequest => REQUEST | CReply => REPLY | CReport => REPORT end.

(** A reference to [c] can refer to an object of class [d]. *)
Definition binds (c d : msg_class) : bool := bool_decide (c = CMsg ∨ c = d).

(** What programs do with the objects.  Assignment through a reference to the
    base class is not one of these: it would assign any message to an object
    of any class; nor is a clone whose copy fails, which constructs no
    object. *)
Inductive event : Type :=
| TArrive (p : Z) (m : msg)
| TDrop (p : Z)
| TConstruct (c : msg_class) (v : nat)
| TConstructFrom (c : msg_class) (v : nat) (p : Z) (t : TYPE)
| TDestroy (v : nat)
| TRelease (v : nat)
| TMoveConstruct (c : msg_class) (v from : nat)
| TMoveAssign (v from : nat)
| TClone (c : msg_class) (v from : nat) (fresh : Z).

(** The event of [OwnedMsg] that it is, when the classes allow it, and the
    object it constructs. *)
Definition erase (cs : gmap nat msg_class) (e : event) : option (MsgOps.event msg * option (nat * msg_class)) :=
  match e with
  | TArrive p m => Some (MsgOps.EArrive p m, None)
  | TDrop p => Some (MsgOps.EDrop p, None)
  | TConstruct c v => Some (MsgOps.EConstruct v, Some (v, c))
  | TConstructFrom c v p t => Some (MsgOps.EConstructFrom v p (class_type c t), Some (v, c))
  | TDestroy v => Some (MsgOps.EDestroy v, None)
  | TRelease v => Some (MsgOps.ERelease v, None)
  | TMoveConstruct c v from =>
      d ← cs !! from;
      if binds c d then Some (MsgOps.EMoveConstruct v from, Some (v, c)) else None
  | TMoveAssign v from =>
      c ← cs !! v; d ← cs !! from;
      if binds c d then Some (MsgOps.EMoveAssign v from, None) else None
  | TClone c v from fresh =>
      d ← cs !! from;
      if binds c d then Some (MsgOps.EClone v from (inr fresh), Some (v, c)) else None
  end.

(** The class of an object that an exception keeps from existing does not
    matter. *)
Definition step (w : TypedWorld msg) (e : event) : option (result exn unit * TypedWorld msg) :=
  '(e, new) ← erase (tw_class w) e;
  '(r, w') ← MsgOps.step (tw_world w) e;
  Some (r, mkTyped w' (match new with Some (v, c) => <[v := c]> (tw_class w) | None => tw_class w end)).

Inductive reachable : TypedWorld msg → Prop :=
| reach_empty : reachable (mkTyped MsgOps.empty ∅)
| reach_step w e r w' : reachable w → step w e = Some (r, w') → reachable w'.

End Ops.
Arguments event : clear implicits.
End TypedOps.

(** * Theorems *)
Module TypedMsgFacts.
Import TypedOps.

Section Facts.
Context {msg : Type} {Hmsg : NngMsg msg}.
Implicit Types (w : MsgWorld msg) (o : Msg) (c : msg_class).

(** A message of a class: parsed with a type that its constructor gives. *)
Definition of_class c (m : msg) (l : MsgLayout) : Prop :=
  ∃ t view, View.parse (class_type c t) (msg_body m) = Ret view ∧ v_layout view = l.

Lemma of_class_binds c d m l : binds c d = true → of_class d m l → of_class c m l.
Proof.
  unfold binds. rewrite bool_decide_eq_true. intros [->| ->] (t & view & E & El); [|by exists t, view].
  by exists (class_type d t), view.
Qed.

(** ** Where the message of an object comes from *)

Inductive origin w (u : nat) (l : MsgLayout) (m : msg) : MsgOps.event msg → Prop :=
| from_same e o p : (∀ from, e ≠ MsgOps.EMoveAssign u from) →
    mw_objects w !! u = Some o → mg_msg o = Some p → mw_heap w !! p = Some m → mg_layout o = l → origin w u l m e
| from_parse p t view : View.parse t (msg_body m) = Ret view → v_layout view = l → origin w u l m (MsgOps.EConstructFrom u p t)
| from_other e from o p : e = MsgOps.EMoveConstruct u from ∨ e = MsgOps.EMoveAssign u from ∨ (∃ fresh, e = MsgOps.EClone u from (inr fresh)) →
    mw_objects w !! from = Some o → mg_msg o = Some p → mw_heap w !! p = Some m → mg_layout o = l → origin w u l m e.

Import OwnedMsgFacts.

(** An object that the event leaves alone. *)
Lemma origin_kept w e u o p m :
  Inv w → (∀ from, e ≠ MsgOps.EMoveAssign u from) → mw_objects w !! u = Some o → mg_msg o = Some p →
  (∀ m0, mw_heap w !! p = Some m0 → m0 = m) → origin w u (mg_layout o) m e.
Proof.
  intros HI He Ho Hp Hm. destruct (inv_valid w HI u o p Ho Hp) as (_ & m0 & _ & _ & Hm0 & _).
  eapply from_same; [done | exact Ho | exact Hp | by rewrite Hm0, (Hm m0 Hm0) | done].
Qed.

Lemma freed_heap w o p (m m0 : msg) :
  match mg_msg o with Some q => delete q (mw_heap w) | None => mw_heap w end !! p = Some m → mw_heap w !! p = Some m0 → m0 = m.
Proof. destruct (mg_msg o); rewrite ?lookup_delete_Some; [intros [_ ?] | intros ?]; congruence. Qed.

Lemma assign_origin w v from r w' u b p m :
  Inv w → is_Some (mw_objects w !! v) → is_Some (mw_objects w !! from) → MsgOps.move_assign v from w = (r, w') →
  mw_objects w' !! u = Some b → mg_msg b = Some p → mw_heap w' !! p = Some m → origin w u (mg_layout b) m (MsgOps.EMoveAssign v from).
Proof.
  intros HI [ov Hv] [o Ho] E Hb Hp Hm. destruct (free_ok w v ov HI Hv) as (w1 & E1 & HI1 & Eo & El & Eh).
  unfold MsgOps.move_assign in E. rewrite (bind_run _ _ _ _ _ E1) in E.
  revert E. unfold MsgOps._release, MsgOps.object, mbind, M_bind, get, modify, mret, M_ret. rewrite Eo.
  destruct (decide (from = v)) as [->|Hne].
  - rewrite lookup_insert_eq. simpl. rewrite lookup_insert_eq. simpl. intros [= _ <-]. simpl in Hb, Hm.
    rewrite Eo in Hb. apply lookup_insert_Some in Hb as [[_ <-]|[Hu Hb]]; [done|].
    apply lookup_insert_Some in Hb as [[_ <-]|[_ Hb]]; [done|]. apply lookup_insert_Some in Hb as [[_ <-]|[_ Hb]]; [done|].
    apply (origin_kept w _ u b p); [done | congruence | done | done |]. intros m0. apply (freed_heap w ov). by rewrite <- Eh.
  - rewrite lookup_insert_ne, Ho by done. simpl. rewrite lookup_insert_ne, Eo, lookup_insert_ne, Ho by done. simpl.
    intros [= _ <-]. simpl in Hb, Hm. rewrite Eh in Hm.
    apply lookup_insert_Some in Hb as [[_ <-]|[Hu Hb]]; [done|]. rewrite Eo in Hb.
    apply lookup_insert_Some in Hb as [[<- <-]|[Hu' Hb]].
    + eapply (from_other w v _ m _ from o p); [by right; left | done | done | | done].
      destruct (inv_valid w HI from o p Ho Hp) as (_ & m0 & _ & _ & Hm0 & _). by rewrite Hm0, (freed_heap w ov p m m0 Hm Hm0).
    + apply lookup_insert_Some in Hb as [[_ <-]|[_ Hb]]; [done|].
      apply (origin_kept w _ u b p); [done | congruence | done | done |]. intros m0. by apply (freed_heap w ov).
Qed.

Lemma move_origin w v from r w' u b p m :
  Inv w → mw_objects w !! v = None → is_Some (mw_objects w !! from) → MsgOps.move_construct v from w = (r, w') →
  mw_objects w' !! u = Some b → mg_msg b = Some p → mw_heap w' !! p = Some m → origin w u (mg_layout b) m (MsgOps.EMoveConstruct v from).
Proof.
  intros HI Hv [o Ho] E Hb Hp Hm. assert (v ≠ from) as Hne by congruence.
  revert E. unfold MsgOps.move_construct, MsgOps._release, MsgOps.object, mbind, M_bind, get, modify, mret, M_ret.
  rewrite Ho. simpl. rewrite lookup_insert_ne, Ho by done. simpl. intros [= _ <-]. simpl in Hb, Hm.
  apply lookup_insert_Some in Hb as [[_ <-]|[_ Hb]]; [done|]. apply lookup_insert_Some in Hb as [[<- <-]|[_ Hb]].
  - eapply (from_other w v _ m _ from o p); [by left | done..].
  - apply (origin_kept w _ u b p); [done | congruence | done | done |]. congruence.
Qed.

Lemma parse_origin w v p0 t r w' u b p m :
  Inv w → MsgOps.construct_from v p0 t w = (r, w') →
  mw_objects w' !! u = Some b → mg_msg b = Some p → mw_heap w' !! p = Some m → origin w u (mg_layout b) m (MsgOps.EConstructFrom v p0 t).
Proof.
  intros HI E Hb Hp Hm.
  assert (mw_objects w' = mw_objects w → mw_heap w' = mw_heap w → origin w u (mg_layout b) m (MsgOps.EConstructFrom v p0 t)) as Hsame.
  { intros E1 E2. rewrite E1 in Hb. rewrite E2 in Hm. apply (origin_kept w _ u b p); [done | congruence | done | done |]. congruence. }
  revert E. unfold MsgOps.construct_from, mbind, M_bind, get, modify, lift, fail. simpl.
  destruct (mw_heap w !! p0) as [m0|] eqn:Hm0; [|intros [= _ <-]; by apply Hsame].
  destruct (View.parse t (msg_body m0)) as [view| |] eqn:Ev; [|intros [= _ <-]; by apply Hsame..].
  intros [= _ <-]. simpl in Hb, Hm. apply lookup_insert_Some in Hb as [[<- <-]|[_ Hb]].
  - simpl in Hp. injection Hp as <-. assert (m0 = m) as -> by congruence. by eapply from_parse.
  - apply (origin_kept w _ u b p); [done | congruence | done | done |]. congruence.
Qed.

Lemma clone_origin w v from fresh r w' u b p m :
  Inv w → mw_heap w !! fresh = None → is_Some (mw_objects w !! from ≫= mg_msg) → MsgOps.clone v from (inr fresh) w = (r, w') →
  mw_objects w' !! u = Some b → mg_msg b = Some p → mw_heap w' !! p = Some m → origin w u (mg_layout b) m (MsgOps.EClone v from (inr fresh)).
Proof.
  intros HI Hf [q Hs] E Hb Hp Hm. destruct (mw_objects w !! from) as [o|] eqn:Ho; [|done]. simpl in Hs.
  destruct (inv_valid w HI from o q Ho Hs) as (_ & m0 & _ & _ & Hq & _).
  revert E. unfold MsgOps.clone, MsgOps.object, mbind, M_bind, get, modify, mret, M_ret.
  rewrite Ho, Hs. simpl. rewrite Hq. intros [= _ <-]. simpl in Hb, Hm.
  apply lookup_insert_Some in Hb as [[<- <-]|[_ Hb]].
  - simpl in Hp. injection Hp as <-. rewrite lookup_insert_eq in Hm. injection Hm as <-.
    eapply (from_other w v _ m0 _ from o q); [right; right; by eexists | done..].
  - apply (origin_kept w _ u b p); [done | congruence | done | done |]. intros m1 Hm1.
    rewrite lookup_insert_ne in Hm by congruence. congruence.
Qed.

Lemma destroy_origin w v r w' u b p m :
  Inv w → is_Some (mw_objects w !! v) → MsgOps.destroy v w = (r, w') →
  mw_objects w' !! u = Some b → mg_msg b = Some p → mw_heap w' !! p = Some m → origin w u (mg_layout b) m (MsgOps.EDestroy v).
Proof.
  intros HI [o Ho] E Hb Hp Hm. destruct (free_ok w v o HI Ho) as (w1 & E1 & HI1 & Eo & El & Eh).
  unfold MsgOps.destroy in E. rewrite (bind_run _ _ _ _ _ E1) in E. unfold modify in E. injection E as _ <-. simpl in Hb, Hm.
  rewrite Eo in Hb. apply lookup_delete_Some in Hb as [Hne Hb]. apply lookup_insert_Some in Hb as [[? _]|[_ Hb]]; [done|].
  apply (origin_kept w _ u b p); [done | congruence | done | done |]. intros m0. apply (freed_heap w o). by rewrite <- Eh.
Qed.

Lemma release_origin w v w' r u b p m :
  Inv w → MsgOps.release v w = (r, w') →
  mw_objects w' !! u = Some b → mg_msg b = Some p → mw_heap w' !! p = Some m → origin w u (mg_layout b) m (MsgOps.ERelease v).
Proof.
  intros HI E Hb Hp Hm. revert E. unfold MsgOps.release, MsgOps._release, MsgOps.object, mbind, M_bind, get, modify, mret, M_ret, fail.
  destruct (mw_objects w !! v) as [o|] eqn:Ho.
  - destruct (mg_msg o); intros [= _ <-]; simpl in Hb, Hm; apply lookup_insert_Some in Hb as [[_ <-]|[_ Hb]]; try done;
      (apply (origin_kept w _ u b p); [done | congruence | done | done | congruence]).
  - intros [= _ <-]. apply (origin_kept w _ u b p); [done | congruence | done | done | congruence].
Qed.

Lemma step_origin w e r w' u b p m :
  Inv w → MsgOps.copies e = true → MsgOps.step w e = Some (r, w') → mw_objects w' !! u = Some b → mg_msg b = Some p → mw_heap w' !! p = Some m →
  origin w u (mg_layout b) m e.
Proof.
  intros HI Hcp E Hb Hp Hm. destruct (sound_step w e r w' HI Hcp E) as (Hnf & _). simpl in Hnf.
  assert (∀ q, mw_objects w !! u = Some b → (∀ m0, mw_heap w !! p = Some m0 → m0 = m) → (∀ from, q ≠ MsgOps.EMoveAssign u from) →
    origin w u (mg_layout b) m q) as Hsame by (intros; by eapply origin_kept).
  destruct e as [q m0|q|v|v q t|v|v|v from|v from|v from [ex|fresh]]; [..|discriminate|]; simpl in E.
  - unfold MsgOps.free_address in E. case_bool_decide as Hq; [|done]. injection E as _ <-. simpl in Hb, Hm.
    apply Hsame; [done | | congruence]. intros m1 Hm1. rewrite lookup_insert_ne in Hm by congruence. congruence.
  - case_bool_decide; [|done]. injection E as E. revert E.
    unfold MsgOps.nng_msg_free, mbind, M_bind, get, modify, fail. simpl.
    destruct (mw_heap w !! q); intros [= _ <-]; simpl in Hb, Hm; (apply Hsame; [done | | congruence]);
      rewrite ?lookup_delete_Some in Hm; intros; destruct_and?; congruence.
  - destruct (MsgOps.exists_ w v); [done|]. injection E as _ <-. simpl in Hb, Hm.
    apply lookup_insert_Some in Hb as [[_ <-]|[_ Hb]]; [done|]. apply Hsame; [done | congruence | congruence].
  - destruct (_ || _); [done|]. injection E as E. by eapply parse_origin.
  - unfold MsgOps.exists_ in E. case_bool_decide as Hv; [|done]. injection E as E. by eapply destroy_origin.
  - destruct (MsgOps.exists_ w v); [|done]. injection E as E. by eapply release_origin.
  - unfold MsgOps.exists_ in E. case_bool_decide as Hf; [|done]. case_bool_decide as Hv; [done|]. simpl in E. injection E as E.
    apply eq_None_not_Some in Hv. by eapply move_origin.
  - unfold MsgOps.exists_ in E. case_bool_decide as Hf; [|done]. case_bool_decide as Hv; [|done]. simpl in E. injection E as E.
    by eapply assign_origin.
  - case_bool_decide as Hf; [|done]. unfold MsgOps.free_address in E. destruct (MsgOps.exists_ w v); [done|].
    case_bool_decide as Hfr; [|done]. simpl in E. injection E as E. by eapply clone_origin.
Qed.

(** ** The classes *)

Lemma erase_copies cs (e : event msg) e' new : erase cs e = Some (e', new) → MsgOps.copies e' = true.
Proof. destruct e; simpl; intros E; simplify_option_eq; repeat case_match; by simplify_eq. Qed.

Lemma reachable_world (w : TypedWorld msg) : reachable w → MsgOps.reachable (tw_world w).
Proof.
  induction 1 as [|w e r w' _ IH E]; [constructor|]. unfold step in E.
  destruct (erase _ e) as [[e' new]|] eqn:Ee; [|done]. simpl in E. destruct (MsgOps.step _ e') as [[r' w1]|] eqn:E1; [|done].
  simpl in E. injection E as <- <-. eapply MsgOps.reach_step; [exact IH | by eapply erase_copies | exact E1].
Qed.

(** The event behind an event. *)
Ltac erased H :=
  simpl in H; simplify_option_eq;
  repeat match type of H with context [binds ?a ?b] => destruct (binds a b) eqn:? end; simplify_eq.

(** An object that is constructed did not exist. *)
Lemma erase_new cs (w : MsgWorld msg) e e' v c x :
  erase cs e = Some (e', Some (v, c)) → MsgOps.step w e' = Some x → mw_objects w !! v = None.
Proof.
  intros E1 E2. apply eq_None_not_Some. intros Hv. assert (MsgOps.exists_ w v = true) as Hx by (by apply bool_decide_eq_true).
  destruct e; erased E1; simpl in E2; rewrite Hx in E2; simpl in E2; rewrite ?andb_false_r in E2; done.
Qed.

Definition classified (w : TypedWorld msg) : Prop :=
  ∀ v o p m c, mw_objects (tw_world w) !! v = Some o → mg_msg o = Some p → mw_heap (tw_world w) !! p = Some m →
    tw_class w !! v = Some c → of_class c m (mg_layout o).

Lemma classified_step (w w' : TypedWorld msg) e r :
  Inv (tw_world w) → classified w → step w e = Some (r, w') → classified w'.
Proof.
  intros HI HC E u b p m c Hb Hp Hm Hc. unfold step in E.
  destruct (erase _ e) as [[e' new]|] eqn:Ee; [|done]. simpl in E. destruct (MsgOps.step _ e') as [[r' w1]|] eqn:E1; [|done].
  simpl in E. injection E as <- <-. simpl in *.
  destruct (step_origin (tw_world w) e' r' w1 u b p m HI (erase_copies _ _ _ _ Ee) E1 Hb Hp Hm) as [e0 o q _ Ho Hq Hm0 <-|q t view Ev <-|e0 from o q He Ho Hq Hm0 <-].
  - apply (HC u o q m c Ho Hq Hm0). destruct new as [[v d]|]; [|done].
    rewrite lookup_insert_ne in Hc; [done|]. intros ->. by rewrite (erase_new _ _ _ _ _ _ _ Ee E1) in Ho.
  - clear E1. destruct e; erased Ee. rewrite lookup_insert_eq in Hc. injection Hc as <-. by eexists _, view.
  - clear E1. destruct He as [->|[->|[fresh ->]]]; destruct e; erased Ee; try (rewrite lookup_insert_eq in Hc); simplify_eq;
      (eapply of_class_binds; [done|]; by eapply HC).
Qed.

Lemma reachable_classified (w : TypedWorld msg) : reachable w → classified w.
Proof.
  induction 1 as [|w e r w' Hr IH E]; [by intros v o p m c|].
  eapply classified_step; [|exact IH | exact E]. by apply reachable_Inv_msg, reachable_world.
Qed.

(** C33. Whatever is done with objects of class [Msg], [Msg::Request],
    [Msg::Reply] and [Msg::Report]: an object that owns a message has the
    layout of that message as its class parses it, so every object of class
    [Msg::Request] holds a request and every one of class [Msg::Reply] a
    reply; one of class [Msg::Report] holds a report, or a message that begins
    with an empty line, of which [msgType] says [UNKNOWN]. *)
Theorem typed_messages (w : TypedWorld msg) v o p c :
  reachable w → mw_objects (tw_world w) !! v = Some o → mg_msg o = Some p → tw_class w !! v = Some c →
  ∃ m t, mw_heap (tw_world w) !! p = Some m ∧ View.parse (class_type c t) (msg_body m) = Ret (mkView (msg_body m) (mg_layout o))
    ∧ match c with
      | CMsg => True
      | CReport => Layout._type (mg_layout o) = REPORT ∨ Layout._type (mg_layout o) = UNKNOWN ∧ [CR; LF] `prefix_of` msg_body m
      | _ => Layout._type (mg_layout o) = class_type c t
      end.
Proof.
  intros Hr Ho Hp Hc. destruct (inv_valid _ (reachable_Inv_msg _ (reachable_world w Hr)) v o p Ho Hp) as (_ & m & _ & _ & Hm & _).
  destruct (reachable_classified w Hr v o p m c Ho Hp Hm Hc) as (t & view & Ev & El). exists m, t.
  pose proof (ParseFacts.parse_total (class_type c t) (msg_body m)) as Hraw. rewrite Ev in Hraw. destruct Hraw as [Hraw _].
  split_and!; [done | rewrite Ev; destruct view; simpl in *; by subst |].
  assert (c ≠ CMsg → class_type c t = REQUEST ∨ class_type c t = REPLY ∨ class_type c t = REPORT) as Ht by (destruct c; simpl; tauto).
  rewrite <- El. destruct c; [done|..]; destruct (ParseFacts.parse_typed _ _ _ (Ht ltac:(discriminate)) Ev) as [?|(? & ? & ?)]; auto;
    discriminate.
Qed.

End Facts.

(** A report with an empty start-line is parsed, and has no type. *)
Example empty_report : match ViewReport [CR; LF; CR; LF] with Ret v => Some (View.msgType v) | _ => None end = Some UNKNOWN.
Proof. reflexivity. Qed.

(** ** Witness *)

(** A request is parsed, moved into another object, and its clone is assigned
    to the first. *)
Definition ask : flat_msg := mkFlat [] (lit "GET /a Tell/0" ++ [LF; LF]).
Definition uses : list (event flat_msg) :=
  [TArrive 7 ask; TConstructFrom CRequest 0 7 UNKNOWN; TMoveConstruct CRequest 1 0; TClone CRequest 2 1 8; TMoveAssign 0 2].
Definition used : option (TypedWorld flat_msg) :=
  fold_left (λ x e, x ≫= λ w, snd <$> step w e) uses (Some (mkTyped MsgOps.empty ∅)).

Lemma uses_reachable es : ∀ w w' : TypedWorld flat_msg,
  reachable w → fold_left (λ x e, x ≫= λ w, snd <$> step w e) es (Some w) = Some w' → reachable w'.
Proof.
  induction es as [|e es IH]; intros w w' Hr; simpl; [by intros [= <-]|].
  destruct (step w e) as [[r w1]|] eqn:E; simpl; [apply IH; by eapply reach_step|].
  assert (∀ es, fold_left (λ x e, x ≫= λ w : TypedWorld flat_msg, snd <$> step w e) es None = None) as Hn by (clear; by induction es).
  by rewrite Hn.
Qed.

Lemma typed_messages_witness :
  ∃ w o, used = Some w ∧ mw_objects (tw_world w) !! 0%nat = Some o ∧ mg_msg o = Some 8 ∧ tw_class w !! 0%nat = Some CRequest
    ∧ Layout._type (mg_layout o) = REQUEST.
Proof.
  destruct used as [w|] eqn:E; [|by vm_compute in E]. pose proof (uses_reachable uses _ w reach_empty E) as Hr.
  vm_compute in E. injection E as <-. eexists _, _. split; [reflexivity|]. split; [reflexivity|]. split; [reflexivity|].
  split; [reflexivity|].
  by destruct (typed_messages _ 0%nat _ 8 CRequest Hr eq_refl eq_refl eq_refl) as (m & t & _ & _ & Ht).
Defined.

End TypedMsgFacts.
