(* ===== verification/MsgWriter.v ===== *)
(** * Writing messages

    [include/telling/msg_writer.h] and [src/telling/msg_writer.cpp]: a state
    machine that appends a start-line, headers and a body to an NNG message;
    and, of [src/telling/msg_util.cpp], the replies built from exceptions. *)
From S2P Require Import Prelude.
From S2P Require Import Nng.
From S2P Require Import MsgUtil.
From S2P Require Import MsgProtocol.
From S2P Require Import Method.
From S2P Require Import Status.
From S2P Require Import MsgLayout.

Section MsgWriter.
Context {msg : Type} `{NngMsg msg}.

(** [MsgWriter], with the members it inherits: the layout (from [MsgView]),
    the message, null before [start...] and after [release]; its protocol; and
    where the value of a Content-Length header is to be filled in ([head]). *)
Record MsgWriter : Type := mkWriter {
  w_layout : MsgLayout;
  w_msg : option msg;
  w_protocol : MsgProtocolCode;
  w_lengthOffset : Z;   (** [uint16_t] *)
  w_lengthSize : Z;     (** [uint16_t] *)
}.

Definition set_layout (l : MsgLayout) (w : MsgWriter) : MsgWriter :=
  mkWriter l (w_msg w) (w_protocol w) (w_lengthOffset w) (w_lengthSize w).
Definition set_msg (m : option msg) (w : MsgWriter) : MsgWriter :=
  mkWriter (w_layout w) m (w_protocol w) (w_lengthOffset w) (w_lengthSize w).
Definition set_length (off size : Z) (w : MsgWriter) : MsgWriter :=
  mkWriter (w_layout w) (w_msg w) (w_protocol w) off size.

(** The constructor [MsgWriter(protocol)]. *)
Definition new_writer (p : MsgProtocolCode) : MsgWriter := mkWriter Layout.reset None p 0 0.

Abbreviation W := (M exn MsgWriter).

(** ** Helpers *)

(** [NumDigits]: [do {++digits; value /= 10;} while (value);]. *)
Fixpoint num_digits_loop (fuel : nat) (digits value : Z) : Z :=
  match fuel with
  | O => digits
  | S fuel =>
      let digits := u8 (digits + 1) in
      let value := value / 10 in
      if value =? 0 then digits else num_digits_loop fuel digits value
  end.
Definition NumDigits (value : Z) : Z := num_digits_loop 20 0 value.

Definition ContainsNewline (s : bytes) : bool :=
  existsb (λ c, Ascii.eqb c CR || Ascii.eqb c LF) s.
Definition ContainsWhitespace (s : bytes) : bool :=
  existsb (λ c, Ascii.eqb c CR || Ascii.eqb c LF || Ascii.eqb c SP || Ascii.eqb c TAB) s.

(** A write through [bodyBuf(out | binary | ate)], which needs a message. *)
Definition append (s : bytes) : W unit :=
  w ← get;
  match w_msg w with
  | Some m => modify (set_msg (Some (body_append m s)))
  | None => fail NullDeref
  end.

(** ** Private members *)

Definition _startMsg : W unit :=
  w ← get;
  match w_msg w with
  | Some _ => throw_null_view ALREADY_WRITTEN
  | None => modify (λ w, set_msg (Some make_msg) (new_writer (w_protocol w)))
  end.

Definition _newline : W unit := w ← get; append (MsgProtocol.preferred_newline (w_protocol w)).

Definition _autoCloseHeaders : W unit :=
  w ← get;
  if _p_body (w_layout w) =? 0 then
    match w_msg w with
    | None => throw_null_view ALREADY_WRITTEN
    | Some _ =>
        _newline;;
        w ← get;
        match w_msg w with
        | Some m => zoom w_layout set_layout (Layout._parse_msg (msg_body m) UNKNOWN)
        | None => fail NullDeref
        end
    end
  else mret tt.

(** ** Step 1: the start-line *)

Definition startRequest (uri : bytes) (method : MethodCode) : W unit :=
  _startMsg;;
  (if negb (Method.valid method) then throw_null_view START_LINE_MALFORMED else mret tt);;
  (if ContainsWhitespace uri then throw_null_view START_LINE_MALFORMED else mret tt);;
  w ← get;
  append (Method.toString method ++ SP :: uri ++ SP :: MsgProtocol.toString (w_protocol w)
          ++ MsgProtocol.preferred_newline (w_protocol w)).

Definition startReply (status : Z) (reason : bytes) : W unit :=
  _startMsg;;
  (if ContainsNewline reason then throw_null_view START_LINE_MALFORMED else mret tt);;
  w ← get;
  append (MsgProtocol.toString (w_protocol w) ++ SP :: Status.toString status ++ SP :: reason
          ++ MsgProtocol.preferred_newline (w_protocol w)).

Definition startReport (uri : bytes) (status : Z) (reason : bytes) : W unit :=
  _startMsg;;
  (if ContainsWhitespace uri then throw_null_view START_LINE_MALFORMED else mret tt);;
  (if ContainsNewline reason then throw_null_view START_LINE_MALFORMED else mret tt);;
  w ← get;
  append (uri ++ SP :: MsgProtocol.toString (w_protocol w) ++ SP :: Status.toString status
          ++ SP :: reason ++ MsgProtocol.preferred_newline (w_protocol w)).

(** The overloads without a reason phrase use the standard one. *)
Definition startReply_std (status : Z) : W unit := startReply status (Status.reasonPhrase status).
Definition startReport_std (uri : bytes) (status : Z) : W unit :=
  startReport uri status (Status.reasonPhrase status).

(** ** Step 2: headers *)

Definition writeHeader (name value : bytes) : W unit :=
  w ← get;
  (if bool_decide (w_msg w = None) || negb (_p_body (w_layout w) =? 0)
   then throw_null_view ALREADY_WRITTEN else mret tt);;
  (if existsb (λ c, Ascii.eqb c CR || Ascii.eqb c LF || Ascii.eqb c ":") name
   then throw_null_view HEADER_MALFORMED else mret tt);;
  (if ContainsNewline value then throw_null_view HEADER_MALFORMED else mret tt);;
  append (name ++ ":"%char :: value ++ MsgProtocol.preferred_newline (w_protocol w)).

(** [MethodCode(n)]. *)
Definition method_of_value (n : Z) : MethodCode :=
  match n with
  | 0 => None_ | 1 => GET | 2 => HEAD | 3 => POST | 4 => PUT | 5 => DELETE
  | 6 => PATCH | 7 => OPTIONS | 8 => CONNECT | 9 => TRACE | 10 => EndOfValidMethods
  | _ => Unknown_
  end.

(** The loop of [writeHeader_Allow] over the valid methods. *)
Fixpoint allow_loop (fuel : nat) (m mask : Z) (first : bool) (allowed : bytes) : result exn bytes :=
  match fuel with
  | O => Fault OutOfFuel
  | S fuel =>
      let m := m + 1 in
      if Method.value EndOfValidMethods <=? m then Ret allowed
      else
        c ← Methods.contains mask (method_of_value m);
        if (c : bool)
        then allow_loop fuel m mask false
               (allowed ++ (if first then [] else lit ", ") ++ Method.toString (method_of_value m))
        else allow_loop fuel m mask first allowed
  end.

Definition writeHeader_Allow (methods : Z) : W unit :=
  allowed ← lift (allow_loop 10 0 methods true []);
  writeHeader (lit "Allow") allowed.

(** Space for the digits of the largest length expected.  The position in the
    message, unlike in [writeHeader], is not checked. *)
Definition writeHeader_Length (maxLength : Z) : W unit :=
  w ← get;
  (if negb (w_lengthSize w =? 0)
   then throw (NngException nospc (lit "Content-Length header allocation")) else mret tt);;
  let digits := NumDigits maxLength in
  append (lit "Content-Length:");;
  w ← get;
  match w_msg w with
  | Some m => modify (set_length (u16 (blen (msg_body m))) digits)
  | None => fail NullDeref
  end;;
  append (replicate (Z.to_nat digits) SP ++ MsgProtocol.preferred_newline (w_protocol w)).

(** ** Step 3: the body *)

(** [writeBody() << text]; [writeBody] is [noexcept]. *)
Definition writeBody (text : bytes) : W unit := noexcept _autoCloseHeaders;; append text.

(** [reserveBodyBytes]: reserving capacity does not change the message. *)
Definition reserveBodyBytes : W unit := _autoCloseHeaders.

(** ** Step 4: release *)

(** [do {*--pos = '0' + bodySize % 10; bodySize /= 10;} while (bodySize);] *)
Fixpoint fill_digits (fuel : nat) (pos bodySize : Z) (m : msg) : result exn msg :=
  match fuel with
  | O => Fault OutOfFuel
  | S fuel =>
      let pos := pos - 1 in
      if (0 <=? pos) && (pos <? blen (msg_body m)) then
        let m := body_poke m (Z.to_nat pos) (digit (bodySize mod 10)) in
        if bodySize / 10 =? 0 then Ret m else fill_digits fuel pos (bodySize / 10) m
      else Fault OutOfBounds
  end.

Definition fill_length : W unit :=
  w ← get;
  if w_lengthSize w =? 0 then mret tt
  else match w_msg w with
       | None => fail NullDeref
       | Some m =>
           let bodySize := u64 (blen (msg_body m) - _p_body (w_layout w)) in
           let digits := NumDigits bodySize in
           if w_lengthSize w <? digits
           then throw (NngException nospc (lit "Content-Length header completion"))
           else m' ← lift (fill_digits 20 (w_lengthOffset w + digits) bodySize m);
                modify (set_msg (Some m'))
       end.

(** The message is moved out; the layout keeps its values until the next
    [start...], which resets it. *)
Definition release : W (option msg) :=
  _autoCloseHeaders;;
  fill_length;;
  w ← get;
  modify (set_length 0 0);;
  modify (set_msg None);;
  mret (w_msg w).

Definition setNNGHeader (data : bytes) : W unit :=
  w ← get;
  match w_msg w with
  | Some m => modify (set_msg (Some (set_header m data)))
  | None => fail NullDeref
  end.

(** ** Whole messages *)

(** Run a writer from its construction; the message it releases. *)
Definition compose (p : MsgProtocolCode) (steps : W unit) : result exn (option msg) :=
  fst ((steps;; release) (new_writer p)).

(** [WriteRequest], [WriteReply] and [WriteReport] fix the protocol and do
    step 1; [HttpRequest] and [HttpReply] differ in the protocol only. *)
Definition WriteRequest (uri : bytes) (method : MethodCode) : W unit := startRequest uri method.
Definition WriteReply (status : Z) : W unit := startReply_std status.
Definition WriteReport (uri : bytes) (status : Z) : W unit := startReport_std uri status.

(** ** Replies from exceptions *)

(** The characters of a [const char*] end at the first NUL. *)
Definition c_str (s : bytes) : bytes := fst (span (λ c, negb (Ascii.eqb c "000")) s).

(** [ReplyableException::replyWithError]. *)
Definition status_replyWithError (status : Z) (what error_context : bytes) : W unit :=
  WriteReply status;;
  writeHeader (lit "Content-Type") (lit "text/plain");;
  writeBody ((match error_context with [] => [] | ctx => ctx ++ lit ": " end) ++ c_str what).

(** [MsgException::replyWithError]. *)
Definition msg_replyWithError (error : MSG_ERROR) (excerpt error_context : bytes) : W unit :=
  WriteReply (Exceptions.msg_replyStatus error);;
  writeHeader (lit "Content-Type") (lit "text/plain");;
  writeBody ((match error_context with
              | [] => []
              | ctx => lit " in `" ++ ctx ++ lit "`:" ++ [CR; LF; TAB] end)
             ++ Exceptions.msg_what error
             ++ (match excerpt with
                 | [] => []
                 | ex => [CR; LF] ++ lit "At location:" ++ [CR; LF; TAB] ++ lit "`" ++ ex ++ lit "`" end)
             ++ [CR; LF]).

End MsgWriter.

Arguments MsgWriter : clear implicits.
#[global] Arguments fill_digits : simpl never.
#[global] Arguments NumDigits : simpl never.
