(* ===== verification/MsgRoundTrip.v ===== *)
(** * What is written is what is read

    Round trips between [MsgWriter] and [MsgView]: a message composed with
    the writer parses back to the elements, headers and body given to it. *)
From S2P Require Import Prelude.
From S2P Require Import Nng.
From S2P Require Import MsgUtil.
From S2P Require Import MsgProtocol.
From S2P Require Import Method.
From S2P Require Import Status.
From S2P Require Import MsgHeaders.
From S2P Require Import MsgLayout.
From S2P Require Import MsgView.
From S2P Require Import MsgParse.
From S2P Require Import MsgWriter.

Module RoundTrip.
Import Detail MsgUtilFacts Layout View HeaderFacts ParseFacts.

Abbreviation newline nl := (nl = [LF] ∨ nl = [CR; LF]).
Abbreviation no_space := (Forall (λ c, c ≠ SP)).

(** The headers a writer accepts. *)
Abbreviation headers_ok hs := (Forall (λ h, name_ok (fst h) ∧ no_newline (snd h)) hs).

(** The text of a block of headers. *)
Definition header_text (nl : bytes) (hs : list (bytes * bytes)) : bytes :=
  concat (map (λ h, fst h ++ ":"%char :: snd h ++ nl) hs).

(** A whole message. *)
Definition message_text (line nl : bytes) (hs : list (bytes * bytes)) (body : bytes) : bytes :=
  line ++ nl ++ header_text nl hs ++ nl ++ body.

(** The headers as they are read: without the blanks around the value. *)
Definition read_headers (hs : list (bytes * bytes)) : list MsgHeaderView :=
  map (λ h, mkHeader (fst h) (trim (snd h))) hs.

Lemma header_text_lines nl hs :
  header_text nl hs = concat (map (λ l, l ++ nl) (map (λ h, fst h ++ ":"%char :: snd h) hs)).
Proof.
  unfold header_text. induction hs as [|h hs IH]; [done|]. simpl. rewrite IH.
  f_equal. by rewrite <- app_assoc.
Qed.

Lemma header_lines_ok hs :
  headers_ok hs → Forall (λ l, no_newline l ∧ l ≠ []) (map (λ h, fst h ++ ":"%char :: snd h) hs).
Proof.
  induction 1 as [|[n v] hs [Hn Hv] _ IH]; [constructor|]. constructor; [|done]. simpl in *. split.
  - apply Forall_app. split; [eapply Forall_impl; [exact Hn|]; by intros ? (? & ? & ?)|].
    by constructor.
  - by destruct n.
Qed.

Lemma newline_length nl : newline nl → (1 ≤ length nl ≤ 2)%nat.
Proof. intros [->| ->]; simpl; lia. Qed.

(** ** The parser on a composed message *)

Lemma parse_msg_text line nl hs body type l :
  newline nl → no_newline line → headers_ok hs →
  blen (line ++ nl ++ header_text nl hs ++ nl) ≤ 0xFFFF →
  let msg := message_text line nl hs body in
  let parts := start_parts msg line in
  _parse_msg msg type l =
    _setStartLine (line ++ nl) (guess_type type parts)
      (part_data parts 1) (part_data parts 2) (part_data parts 3)
      (set_p_body (blen (line ++ nl ++ header_text nl hs ++ nl)) reset).
Proof.
  intros Hnl Hl Hh Hsize msg parts. pose proof (newline_length nl Hnl) as Hn.
  unfold _parse_msg.
  assert ((blen msg =? 0) = false) as ->.
  { apply blen_eqb_0. unfold msg, message_text. destruct Hnl as [->| ->]; by destruct line. }
  assert (ConsumeLine msg = (line, header_text nl hs ++ nl ++ body)) as Hc.
  { unfold msg, message_text. by apply ConsumeLine_app. }
  rewrite Hc. autorewrite with blen in Hsize.
  pose proof (blen_nonneg nl). pose proof (blen_nonneg (header_text nl hs)).
  unfold mbind, M_bind, modify, mret, M_ret, throw, lift.
  replace (0xFFFF <? blen line) with false by lia.
  assert ((blen (header_text nl hs ++ nl ++ body) =? 0) = false) as ->.
  { apply blen_eqb_0. destruct Hnl as [->| ->]; by destruct (header_text _ hs). }
  assert (header_loop (length (header_text nl hs ++ nl ++ body)) (header_text nl hs ++ nl ++ body)
          = Ret body) as ->.
  { rewrite header_text_lines. apply header_loop_lines; [done | by apply header_lines_ok | done]. }
  assert (blen msg - blen body = blen (line ++ nl ++ header_text nl hs ++ nl)) as ->.
  { unfold msg, message_text. autorewrite with blen. lia. }
  replace (0xFFFF <? blen (line ++ nl ++ header_text nl hs ++ nl)) with false
    by (autorewrite with blen; lia).
  rewrite u16_small by (autorewrite with blen; pose proof (blen_nonneg line); lia).
  replace (take (length msg - length (header_text nl hs ++ nl ++ body)) msg) with (line ++ nl); [done|].
  unfold msg, message_text. rewrite (app_assoc line), (length_app (line ++ nl)), Nat.add_sub.
  by rewrite take_app_length.
Qed.

(** ** Reading ranges *)

Lemma string_at v r pre s post :
  v_raw v = pre ++ s ++ post → r_start r = blen pre → r_length r = blen s → _string v r = Ret s.
Proof.
  intros Hv Hs Hl. unfold _string. rewrite Hs, Hl, Hv. autorewrite with blen.
  pose proof (blen_nonneg post). destruct (Z.eqb_spec (blen s) 0) as [E|E].
  { destruct s; [done|]. rewrite blen_cons in E. pose proof (blen_nonneg s). lia. }
  replace (_ <=? _) with true by lia. unfold blen. rewrite !Nat2Z.id.
  by rewrite drop_app_length, take_app_length.
Qed.

Lemma last_header_text nl hs : newline nl → header_text nl hs ≠ [] → last (header_text nl hs) = Some LF.
Proof.
  intros Hnl. unfold header_text. induction hs as [|h hs IH] using rev_ind; [done|]. intros _.
  rewrite map_app, concat_app. simpl. rewrite app_nil_r, (cons_middle ":"%char), !app_assoc.
  destruct Hnl as [->| ->]; [apply last_snoc|].
  rewrite (cons_middle CR), app_assoc. apply last_snoc.
Qed.

Lemma headers_read v line nl hs body :
  newline nl → headers_ok hs →
  v_raw v = message_text line nl hs body →
  _sl_len (v_layout v) = blen line → _sl_nl (v_layout v) = blen nl →
  _p_body (v_layout v) = blen (line ++ nl ++ header_text nl hs ++ nl) →
  blen (line ++ nl ++ header_text nl hs ++ nl) ≤ 0xFFFF →
  headers v = Ret (read_headers hs).
Proof.
  intros Hnl Hh Hv H1 H2 H3 Hsize. unfold headers, _string_rem_nl.
  rewrite (string_at v _ (line ++ nl) (header_text nl hs ++ nl) body).
  2: { rewrite Hv. unfold message_text. by rewrite <- !app_assoc. }
  2: { simpl. unfold _p_headers. rewrite H1, H2. by rewrite blen_app. }
  2: { simpl. unfold _p_headers. rewrite H1, H2, H3. autorewrite with blen in *.
       pose proof (blen_nonneg line). pose proof (blen_nonneg nl).
       pose proof (blen_nonneg (header_text nl hs)). rewrite u64_small; lia. }
  unfold mbind, result_bind. fold (header_text nl hs).
  pose proof (headers_lines hs nl [] Hnl Hh) as Hread. rewrite !app_nil_r in Hread.
  fold (header_text nl hs) in Hread.
  destruct Hnl as [E|E].
  - subst nl. rewrite last_snoc, Ascii.eqb_refl, length_app, Nat.add_sub, take_app_length.
    rewrite bool_decide_false; [by rewrite Hread|].
    destruct (decide (header_text [LF] hs = [])) as [->|Hne]; [done|].
    by rewrite last_header_text by auto.
  - subst nl. rewrite (cons_middle CR), app_assoc, last_snoc, Ascii.eqb_refl.
    rewrite length_app, Nat.add_sub, take_app_length, last_snoc, bool_decide_true by done.
    by rewrite length_app, Nat.add_sub, take_app_length, Hread.
Qed.

Lemma body_read v line nl hs body :
  v_raw v = message_text line nl hs body → blen (v_raw v) < 2 ^ 64 →
  _p_body (v_layout v) = blen (line ++ nl ++ header_text nl hs ++ nl) →
  bodyString v = Ret body.
Proof.
  intros Hv Hbig H3. unfold bodyString.
  apply (string_at v _ (line ++ nl ++ header_text nl hs ++ nl) body []).
  - rewrite Hv. unfold message_text. by rewrite app_nil_r, <- !app_assoc.
  - done.
  - simpl. unfold bodySize. rewrite H3, Hv in *. unfold message_text in *. autorewrite with blen in *.
    pose proof (blen_nonneg body). pose proof (blen_nonneg line). pose proof (blen_nonneg nl).
    pose proof (blen_nonneg (header_text nl hs)). rewrite u64_small; lia.
Qed.

(** ** The parts of a start-line *)

Lemma no_space_word w : no_space w → Forall (λ c, negb (Ascii.eqb c SP) = true) w.
Proof. intros H. eapply Forall_impl; [exact H|]. intros c Hc. simpl. by rewrite eqb_char_neq. Qed.

(** A word followed by a space is split off. *)
Lemma delimit_space n off w r :
  no_space w →
  delimit (S (S n)) off (w ++ SP :: r) =
    (let '(parts, e) := delimit (S n) (off + length w + 1) r in ((off, w) :: parts, e)).
Proof.
  intros Hw. destruct (w ++ SP :: r) as [|c i] eqn:E; [by destruct w|].
  rewrite delimit_word, <- E, span_app_stop; [done | by apply no_space_word | done].
Qed.

Lemma delimit_last n off w :
  no_space w → w ≠ [] →
  delimit (S (S n)) off w = ([(off, w)], (off + length w + 1)%nat).
Proof.
  intros Hw Hne. destruct w as [|c w]; [done|].
  rewrite delimit_word, span_all by (by apply no_space_word). by destruct n.
Qed.

Lemma no_space_text s : Forall (λ c, c ≠ SP ∧ c ≠ LF ∧ c ≠ CR) s → no_space s.
Proof. intros H. eapply Forall_impl; [exact H|]. by intros c (? & _). Qed.

Lemma no_newline_text s : Forall (λ c, c ≠ SP ∧ c ≠ LF ∧ c ≠ CR) s → no_newline s.
Proof. intros H. eapply Forall_impl; [exact H|]. by intros c (? & ? & ?). Qed.

(** No empty final element: the pointer is past the newline. *)
Lemma start_parts_none line nl rest ps :
  newline nl → delimit MAX_PARTS 0 line = (ps, (length line + 1)%nat) →
  start_parts (line ++ nl ++ rest) line = ps.
Proof.
  intros Hnl E. unfold start_parts. rewrite E.
  rewrite (bool_decide_false (_ = Some SP)); [by rewrite andb_false_r|].
  rewrite Nat.add_sub, lookup_app_r, Nat.sub_diag by lia. by destruct Hnl as [->| ->].
Qed.

(** An empty final element after a trailing space. *)
Lemma start_parts_empty line rest ps :
  (length ps < MAX_PARTS)%nat → delimit MAX_PARTS 0 (line ++ [SP]) = (ps, length (line ++ [SP])) →
  start_parts ((line ++ [SP]) ++ rest) (line ++ [SP]) = ps ++ [(length (line ++ [SP]), [])].
Proof.
  intros Hps E. unfold start_parts. rewrite E. rewrite length_app in *. simpl length in *.
  rewrite bool_decide_true, andb_true_r.
  - apply Nat.ltb_lt in Hps as ->. by rewrite (proj2 (Nat.ltb_lt 0 _)) by lia.
  - rewrite Nat.add_sub, <- app_assoc, lookup_app_r, Nat.sub_diag by lia. done.
Qed.

(** The maximal number of parts: the last one is the rest of the line. *)
Lemma start_parts_full msg line ps e :
  delimit MAX_PARTS 0 line = (ps, e) → length ps = MAX_PARTS → start_parts msg line = ps.
Proof. intros E H. unfold start_parts. rewrite E, H. simpl. by rewrite andb_false_r. Qed.

(** The parts of the three forms of start-line: the offsets of the elements,
    and the texts the type is guessed from. *)
Lemma request_parts m u p nl rest :
  newline nl → no_space m → no_space u → no_space p → p ≠ [] →
  let line := m ++ SP :: u ++ SP :: p in
  start_parts (line ++ nl ++ rest) line =
    [(0%nat, m); ((length m + 1)%nat, u); ((length m + length u + 2)%nat, p)].
Proof.
  intros Hnl Hm Hu Hp Hne line. apply start_parts_none; [done|]. unfold line, MAX_PARTS.
  rewrite !delimit_space, delimit_last by done. simpl. rewrite length_app. simpl.
  rewrite length_app. simpl. repeat (f_equal; try lia).
Qed.

Lemma reply_parts p st r nl rest :
  newline nl → no_space p → no_space st →
  let line := p ++ SP :: st ++ SP :: r in
  ∃ more, start_parts (line ++ nl ++ rest) line =
    (0%nat, p) :: ((length p + 1)%nat, st)
      :: ((length p + length st + 2)%nat, fst (span (λ c, negb (Ascii.eqb c SP)) r)) :: more.
Proof.
  intros Hnl Hp Hst line. destruct r as [|c r].
  - exists []. unfold line. replace (p ++ SP :: st ++ [SP]) with ((p ++ SP :: st) ++ [SP])
      by (by rewrite <- app_assoc).
    rewrite start_parts_empty with (ps := [(0%nat, p); ((length p + 1)%nat, st)]).
    + simpl. rewrite !length_app. simpl. repeat (f_equal; try lia).
    + simpl. unfold MAX_PARTS. lia.
    + rewrite <- !app_assoc. cbn [app]. unfold MAX_PARTS. rewrite !delimit_space by done. simpl.
      rewrite !length_app. simpl. rewrite !length_app. simpl. repeat (f_equal; try lia).
  - unfold start_parts, line, MAX_PARTS. rewrite !delimit_space, delimit_word by done.
    destruct (span _ (c :: r)) as [w r'] eqn:E. destruct (delimit 1 _ _) as [ps e]. simpl fst.
    destruct (_ && _) eqn:Hb; simpl; eexists; repeat (f_equal; try lia).
Qed.

Lemma report_parts u p st r nl rest :
  newline nl → no_space u → no_space p → no_space st →
  let line := u ++ SP :: p ++ SP :: st ++ SP :: r in
  start_parts (line ++ nl ++ rest) line =
    [(0%nat, u); ((length u + 1)%nat, p); ((length u + length p + 2)%nat, st);
     ((length u + length p + length st + 3)%nat, r)].
Proof.
  intros Hnl Hu Hp Hst line. destruct r as [|c r].
  - unfold line.
    replace (u ++ SP :: p ++ SP :: st ++ [SP]) with ((u ++ SP :: p ++ SP :: st) ++ [SP])
      by (rewrite <- app_assoc; simpl; by rewrite <- app_assoc).
    rewrite start_parts_empty with
      (ps := [(0%nat, u); ((length u + 1)%nat, p); ((length u + length p + 2)%nat, st)]).
    + simpl. rewrite !length_app. simpl. rewrite !length_app. simpl. repeat (f_equal; try lia).
    + simpl. unfold MAX_PARTS. lia.
    + rewrite <- !app_assoc. cbn [app]. rewrite <- !app_assoc. cbn [app].
      unfold MAX_PARTS. rewrite !delimit_space by done. simpl.
      rewrite !length_app. simpl. rewrite !length_app. simpl. rewrite !length_app. simpl.
      repeat (f_equal; try lia).
  - eapply start_parts_full; [|shelve]. unfold line, MAX_PARTS.
    rewrite !delimit_space by done. simpl. repeat (f_equal; try lia).
    Unshelve. done.
Qed.

(** ** The layout of the three forms *)

Lemma wp_run_eq {E S A} (m : M E S A) a s s' :
  wp m (λ a' t, a' = a ∧ t = s') (λ _ _, False) s → m s = (Ret a, s').
Proof. unfold wp. destruct (m s) as [[] ?]; [|done|done]. by intros [-> ->]. Qed.

Lemma line_guard line nl :
  newline nl → line ≠ [] →
  (blen (line ++ nl) <? 2) || negb (bool_decide (last (line ++ nl) = Some LF)) = false.
Proof.
  intros Hnl Hl. rewrite bool_decide_true.
  - destruct line as [|c line]; [done|]. destruct Hnl as [->| ->];
      rewrite orb_false_r; apply Z.ltb_ge; simpl app; rewrite blen_cons, blen_app;
      pose proof (blen_nonneg line); unfold blen; simpl; lia.
  - destruct Hnl as [->| ->]; [apply last_snoc|]. by rewrite (cons_middle CR), app_assoc, last_snoc.
Qed.

Lemma newline_blen line nl : newline nl → u8 (blen (line ++ nl) - blen line) = blen nl.
Proof.
  intros Hnl. rewrite blen_app. replace (_ + _ - _) with (blen nl) by lia.
  by destruct Hnl as [->| ->].
Qed.

Ltac set_line Hnl Hl :=
  unfold _setStartLine, MAX_PRT_RPOS, MAX_STS_RPOS, MAX_URI_POS, MAX_STATUS_LENGTH,
    MAX_REASON_LENGTH, MAX_PROTOCOL_LENGTH, MAX_METHOD_LENGTH;
  rewrite line_guard by done;
  rewrite line_of_app by first [done | destruct Hnl; auto];
  rewrite newline_blen by done; apply wp_run_eq;
  repeat (autorewrite with wp; try (rewrite wp_checkSize; split; [intros _ | intros; simpl in *; lia]));
  unfold verify_status; autorewrite with wp; simpl; narrow.

Lemma set_request line nl body_pos (m u : Z) :
  newline nl → no_newline line → line ≠ [] → blen line ≤ 65535 →
  0 ≤ m ≤ 14 → 0 ≤ blen line - u ≤ 149 →
  _setStartLine (line ++ nl) REQUEST (Some (m + 1)) (Some u) None (set_p_body body_pos reset)
  = (Ret tt, mkLayout body_pos (blen line) (m + 1) (blen line - u) 0 (blen nl)).
Proof.
  intros Hnl Hl Hne Hsize Hm Hu. pose proof (blen_nonneg line). set_line Hnl Hl. done.
Qed.

Lemma set_reply line nl body_pos (second third : Z) fourth :
  newline nl → no_newline line → line ≠ [] → blen line ≤ 149 →
  4 ≤ blen line - second ≤ 132 →
  _setStartLine (line ++ nl) REPLY (Some second) (Some third) fourth (set_p_body body_pos reset)
  = (Ret tt, mkLayout body_pos (blen line) 0 (blen line) (blen line - second) (blen nl)).
Proof.
  intros Hnl Hl Hne Hsize Hs. pose proof (blen_nonneg line). set_line Hnl Hl.
  replace (_ =? 0) with false by lia. by replace (_ <? 4) with false by lia.
Qed.

Lemma set_report line nl body_pos (second third fourth : Z) :
  newline nl → no_newline line → line ≠ [] → blen line ≤ 65535 →
  0 ≤ blen line - second ≤ 149 → 4 ≤ blen line - third ≤ 132 →
  _setStartLine (line ++ nl) REPORT (Some second) (Some third) (Some fourth) (set_p_body body_pos reset)
  = (Ret tt, mkLayout body_pos (blen line) 0 (blen line - second) (blen line - third) (blen nl)).
Proof.
  intros Hnl Hl Hne Hsize Hs Ht. pose proof (blen_nonneg line). set_line Hnl Hl.
  replace (_ =? 0) with false by lia. by replace (_ <? 4) with false by lia.
Qed.

(** ** The parser on the three forms *)

Abbreviation word := (Forall (λ c, c ≠ SP ∧ c ≠ LF ∧ c ≠ CR)).

Lemma line_cons a b c : word a → word b → no_newline c → no_newline (a ++ SP :: b ++ SP :: c).
Proof.
  intros Ha Hb Hc. apply Forall_app. split; [by apply no_newline_text|]. constructor; [done|].
  apply Forall_app. split; [by apply no_newline_text|]. by constructor.
Qed.

Lemma parse_ret type msg l : _parse_msg msg type reset = (Ret tt, l) → parse type msg = Ret (mkView msg l).
Proof. unfold parse. by intros ->. Qed.

(** The bytes before the body. *)
Abbreviation head_text line nl hs := (line ++ nl ++ header_text nl hs ++ nl).

Lemma message_text_app line nl hs body :
  message_text line nl hs body = line ++ nl ++ (header_text nl hs ++ nl ++ body).
Proof. done. Qed.

Lemma head_line line nl hs : blen (head_text line nl hs) ≤ 0xFFFF → blen line ≤ 65535.
Proof.
  autorewrite with blen. pose proof (blen_nonneg nl). pose proof (blen_nonneg (header_text nl hs)). lia.
Qed.

Lemma parse_request type m u p nl hs body :
  newline nl → word m → word u → word p → headers_ok hs →
  type = UNKNOWN ∨ type = REQUEST → MsgProtocol.valid (MsgProtocol.Parse p) = true →
  blen m ≤ 14 → blen p ≤ 149 →
  let line := m ++ SP :: u ++ SP :: p in
  blen (head_text line nl hs) ≤ 0xFFFF →
  _parse_msg (message_text line nl hs body) type reset =
    (Ret tt, mkLayout (blen (head_text line nl hs)) (blen line) (blen m + 1) (blen p) 0 (blen nl)).
Proof.
  intros Hnl Hm Hu Hp Hh Ht Hv Hlm Hlp line Hsize.
  assert (p ≠ []) as Hne by (by intros ->).
  rewrite parse_msg_text; [|done| |done|done].
  2: { apply line_cons; [done | done | by apply no_newline_text]. }
  rewrite message_text_app. unfold line.
  rewrite request_parts by (done || by apply no_space_text).
  assert (∀ ps, ps = [(0%nat, m); ((length m + 1)%nat, u); ((length m + length u + 2)%nat, p)] →
    guess_type type ps = REQUEST) as Hg.
  { intros ps ->. destruct Ht as [->| ->]; [|done]. unfold guess_type, part_text. simpl. by rewrite Hv. }
  rewrite Hg by done. unfold part_data. simpl lookup. simpl fmap.
  fold line.
  assert (blen line = blen m + blen u + blen p + 2) as Hline.
  { unfold line. rewrite !blen_app, blen_cons, blen_app, blen_cons. lia. }
  replace (Z.of_nat (length m + 1)) with (blen m + 1) by (unfold blen; lia).
  pose proof (blen_nonneg m). pose proof (blen_nonneg u). pose proof (blen_nonneg p).
  rewrite set_request.
  - do 2 f_equal. rewrite Hline. unfold blen. lia.
  - done.
  - apply line_cons; [done | done | by apply no_newline_text].
  - unfold line. by destruct m.
  - by apply head_line in Hsize.
  - lia.
  - rewrite Hline. unfold blen in *. lia.
Qed.

Lemma parse_reply type p st r nl hs body :
  newline nl → word p → word st → no_newline r → headers_ok hs →
  type = UNKNOWN ∧ MsgProtocol.valid (MsgProtocol.Parse p) = true
    ∧ MsgProtocol.valid (MsgProtocol.Parse st) = false
    ∧ MsgProtocol.valid (MsgProtocol.Parse (fst (span (λ c, negb (Ascii.eqb c SP)) r))) = false
  ∨ type = REPLY →
  blen p ≤ 16 → blen st = 3 → blen r ≤ 128 →
  let line := p ++ SP :: st ++ SP :: r in
  blen (head_text line nl hs) ≤ 0xFFFF →
  _parse_msg (message_text line nl hs body) type reset =
    (Ret tt, mkLayout (blen (head_text line nl hs)) (blen line) 0 (blen line) (blen r + 4) (blen nl)).
Proof.
  intros Hnl Hp Hst Hr Hh Ht Hlp Hls Hlr line Hsize.
  rewrite parse_msg_text; [|done| by apply line_cons |done|done].
  rewrite message_text_app. unfold line.
  destruct (reply_parts p st r nl (header_text nl hs ++ nl ++ body)) as [more Hparts];
    [done | by apply no_space_text..|].
  rewrite Hparts.
  assert (guess_type type (start_parts ((p ++ SP :: st ++ SP :: r) ++ nl ++ header_text nl hs ++ nl ++ body)
    (p ++ SP :: st ++ SP :: r)) = REPLY) as Hg.
  { rewrite Hparts. destruct Ht as [(-> & Hv1 & Hv2 & Hv3)| ->]; [|done].
    unfold guess_type, part_text. simpl. rewrite Hv3, Hv2.
    rewrite (bool_decide_true ("/"%char ∈ p)), orb_true_r; [done|].
    destruct (decide ("/"%char ∈ p)) as [|Hn]; [done|].
    apply MsgProtocolFacts.Parse_no_slash in Hn. congruence. }
  rewrite Hparts in Hg. rewrite Hg. unfold part_data. simpl lookup. simpl fmap. fold line.
  assert (blen line = blen p + blen st + blen r + 2) as Hline.
  { unfold line. rewrite !blen_app, blen_cons, blen_app, blen_cons. lia. }
  pose proof (blen_nonneg r). pose proof (blen_nonneg p).
  rewrite set_reply.
  - do 2 f_equal. rewrite Hline. unfold blen in *. lia.
  - done.
  - by apply line_cons.
  - unfold line. by destruct p.
  - lia.
  - rewrite Hline. unfold blen in *. lia.
Qed.

Lemma parse_report type u p st r nl hs body :
  newline nl → word u → word p → word st → no_newline r → headers_ok hs →
  type = UNKNOWN ∨ type = REPORT → MsgProtocol.valid (MsgProtocol.Parse p) = true →
  MsgProtocol.valid (MsgProtocol.Parse st) = false →
  blen p ≤ 16 → blen st = 3 → blen r ≤ 128 →
  let line := u ++ SP :: p ++ SP :: st ++ SP :: r in
  blen (head_text line nl hs) ≤ 0xFFFF →
  _parse_msg (message_text line nl hs body) type reset =
    (Ret tt, mkLayout (blen (head_text line nl hs)) (blen line) 0 (blen p + blen r + 5)
               (blen r + 4) (blen nl)).
Proof.
  intros Hnl Hu Hp Hst Hr Hh Ht Hv1 Hv2 Hlp Hls Hlr line Hsize.
  assert (no_newline line) as Hl.
  { apply line_cons; [done | done |]. apply Forall_app. split; [by apply no_newline_text|]. by constructor. }
  rewrite parse_msg_text by done. rewrite message_text_app. unfold line.
  rewrite report_parts by (done || by apply no_space_text).
  match goal with |- context [guess_type type ?ps] => assert (guess_type type ps = REPORT) as -> end.
  { destruct Ht as [->| ->]; [|done]. unfold guess_type, part_text. simpl. by rewrite Hv1, Hv2. }
  unfold part_data. simpl lookup. simpl fmap. fold line.
  assert (blen line = blen u + blen p + blen st + blen r + 3) as Hline.
  { unfold line. rewrite !blen_app, blen_cons, blen_app, blen_cons, blen_app, blen_cons. lia. }
  pose proof (blen_nonneg r). pose proof (blen_nonneg p). pose proof (head_line _ _ _ Hsize).
  rewrite set_report.
  - do 2 f_equal; rewrite Hline; unfold blen in *; lia.
  - done.
  - done.
  - unfold line. by destruct u.
  - done.
  - rewrite Hline. unfold blen in *. lia.
  - rewrite Hline. unfold blen in *. lia.
Qed.

(** ** The writer *)

Section Writer.
Context {msg : Type} `{NngMsgLaws msg}.

(** The headers given to a writer, in order. *)
Fixpoint write_headers (hs : list (bytes * bytes)) : M exn (MsgWriter msg) unit :=
  match hs with
  | [] => mret tt
  | (n, v) :: hs => writeHeader n v;; write_headers hs
  end.

(** A writer whose message holds [text] and whose headers are still open. *)
Definition open_writer (p : MsgProtocolCode) (text : bytes) (w : MsgWriter msg) : Prop :=
  ∃ m, w = mkWriter reset (Some m) p 0 0 ∧ msg_body m = text.

Lemma ContainsNewline_false s : ContainsNewline s = false ↔ no_newline s.
Proof.
  unfold ContainsNewline. induction s as [|c s IH]; [by split|]. simpl. rewrite orb_false_iff, IH.
  rewrite Forall_cons, orb_false_iff, !Ascii.eqb_neq. tauto.
Qed.

Lemma name_guard n :
  existsb (λ c, Ascii.eqb c CR || Ascii.eqb c LF || Ascii.eqb c ":") n = false ↔ name_ok n.
Proof.
  induction n as [|c n IH]; [by split|]. simpl. rewrite orb_false_iff, IH.
  rewrite Forall_cons, !orb_false_iff, !Ascii.eqb_neq. tauto.
Qed.

Lemma writeHeader_ok p text n v w :
  open_writer p text w → name_ok n → no_newline v →
  wp (writeHeader n v) (λ _, open_writer p (text ++ n ++ ":"%char :: v ++ MsgProtocol.preferred_newline p))
    (λ _ _, False) w.
Proof.
  intros (m & -> & Hm) Hn Hv. unfold writeHeader, append. autorewrite with wp. simpl.
  apply name_guard in Hn. apply ContainsNewline_false in Hv. rewrite Hn, Hv. autorewrite with wp. simpl.
  eexists. split; [done|]. by rewrite body_of_append, Hm.
Qed.

Lemma write_headers_ok p text hs w :
  open_writer p text w → headers_ok hs →
  wp (write_headers hs)
    (λ _, open_writer p (text ++ header_text (MsgProtocol.preferred_newline p) hs)) (λ _ _, False) w.
Proof.
  intros Hw Hh. revert text w Hw. induction Hh as [|[n v] hs [Hn Hv] _ IH]; intros text w Hw; simpl.
  - autorewrite with wp. by rewrite app_nil_r.
  - autorewrite with wp. eapply wp_mono; [by apply writeHeader_ok | | done].
    intros [] w' Hw'. eapply wp_mono; [by apply IH | | done].
    intros [] w'' Hw''. unfold header_text in *. simpl. by rewrite app_assoc.
Qed.

(** Closing the headers parses the text so far. *)
Lemma autoClose_ok p m off sz l :
  _parse_msg (msg_body m ++ MsgProtocol.preferred_newline p) UNKNOWN reset = (Ret tt, l) →
  wp _autoCloseHeaders
    (λ _ w', ∃ m', w' = mkWriter l (Some m') p off sz
                   ∧ msg_body m' = msg_body m ++ MsgProtocol.preferred_newline p)
    (λ _ _, False) (mkWriter reset (Some m) p off sz).
Proof.
  intros Hl. unfold _autoCloseHeaders, _newline, append. autorewrite with wp. simpl.
  autorewrite with wp. simpl. autorewrite with wp. simpl.
  unfold wp, zoom. simpl. rewrite body_of_append, Hl. eexists. split; [done|].
  by rewrite body_of_append.
Qed.

Lemma noexcept_wp {E S A} (m : M E S A) Q s :
  wp m Q (λ _ _, False) s → wp (noexcept m) Q (λ _ _, False) s.
Proof. unfold wp, noexcept. by destruct (m s) as [[] ?]. Qed.

(** Nothing is left to do once the headers are closed. *)
Lemma release_plain l (m : msg) p :
  _p_body l ≠ 0 → release (mkWriter l (Some m) p 0 0) = (Ret (Some m), mkWriter l None p 0 0).
Proof.
  intros Hl. unfold release, _autoCloseHeaders, fill_length, mbind, M_bind, get.
  cbn [w_layout]. by rewrite (proj2 (Z.eqb_neq _ _) Hl).
Qed.

(** The writer after a start-line, headers and a body. *)
Lemma steps_ok p (start : M exn (MsgWriter msg) unit) line hs body l :
  let nl := MsgProtocol.preferred_newline p in
  wp start (λ _, open_writer p (line ++ nl)) (λ _ _, False) (new_writer p) →
  headers_ok hs →
  _parse_msg (message_text line nl hs []) UNKNOWN reset = (Ret tt, l) →
  ∃ m, (start;; write_headers hs;; writeBody body) (new_writer p) = (Ret tt, mkWriter l (Some m) p 0 0)
       ∧ msg_body m = message_text line nl hs body.
Proof.
  intros nl Hstart Hh Hl.
  assert (wp (start;; write_headers hs;; writeBody body)
    (λ _ w, ∃ m, w = mkWriter l (Some m) p 0 0 ∧ msg_body m = message_text line nl hs body) (λ _ _, False)
    (new_writer p)) as Hwp.
  { autorewrite with wp. eapply wp_mono; [exact Hstart | | done]. intros [] w Hw. autorewrite with wp.
    eapply wp_mono; [by apply write_headers_ok | | done]. intros [] ? (m0 & -> & Hm0).
    unfold writeBody. autorewrite with wp.
    eapply wp_mono; [apply noexcept_wp, (autoClose_ok _ _ _ _ l) | | done].
    { rewrite <- Hl, Hm0. unfold message_text. by rewrite app_nil_r, <- !app_assoc. }
    intros [] ? (m & -> & Hm). unfold append. autorewrite with wp. cbn [w_msg].
    autorewrite with wp. unfold set_msg. cbn [w_msg w_layout w_protocol w_lengthOffset w_lengthSize].
    eexists. split; [done|]. rewrite body_of_append, Hm, Hm0. unfold message_text. by rewrite <- !app_assoc. }
  unfold wp in Hwp. destruct ((start;; write_headers hs;; writeBody body) (new_writer p)) as [[[]|e|f] w];
    [|done|done].
  destruct Hwp as (m & -> & Hm). by exists m.
Qed.

(** A message composed from a start-line, headers and a body. *)
Lemma compose_ok p (start : M exn (MsgWriter msg) unit) line hs body l :
  let nl := MsgProtocol.preferred_newline p in
  wp start (λ _, open_writer p (line ++ nl)) (λ _ _, False) (new_writer p) →
  headers_ok hs →
  _parse_msg (message_text line nl hs []) UNKNOWN reset = (Ret tt, l) → _p_body l ≠ 0 →
  ∃ m, compose p (start;; write_headers hs;; writeBody body) = Ret (Some m)
       ∧ msg_body m = message_text line nl hs body.
Proof.
  intros nl Hstart Hh Hl Hb.
  destruct (steps_ok p start line hs body l Hstart Hh Hl) as (m & E & Hm). exists m. split; [|done].
  unfold compose. erewrite bind_run by exact E. by rewrite release_plain.
Qed.

(** A message without a body: [release] closes the headers. *)
Lemma compose_head_ok p (start : M exn (MsgWriter msg) unit) line hs l :
  let nl := MsgProtocol.preferred_newline p in
  wp start (λ _, open_writer p (line ++ nl)) (λ _ _, False) (new_writer p) →
  headers_ok hs →
  _parse_msg (message_text line nl hs []) UNKNOWN reset = (Ret tt, l) → _p_body l ≠ 0 →
  ∃ m, compose p (start;; write_headers hs) = Ret (Some m) ∧ msg_body m = message_text line nl hs [].
Proof.
  intros nl Hstart Hh Hl Hb.
  assert (wp (start;; write_headers hs) (λ _, open_writer p ((line ++ nl) ++ header_text nl hs)) (λ _ _, False)
    (new_writer p)) as Hwp.
  { autorewrite with wp. eapply wp_mono; [exact Hstart | | done]. intros [] w Hw. by apply write_headers_ok. }
  unfold compose. destruct ((start;; write_headers hs) (new_writer p)) as [[[]|e|f] w] eqn:E1;
    unfold wp in Hwp; rewrite E1 in Hwp; [|done|done].
  destruct Hwp as (m0 & -> & Hm0). erewrite bind_run by exact E1.
  assert (wp _autoCloseHeaders (λ _ w', ∃ m, w' = mkWriter l (Some m) p 0 0 ∧ msg_body m = message_text line nl hs [])
    (λ _ _, False) (mkWriter reset (Some m0) p 0 0)) as Hc.
  { eapply wp_mono; [apply (autoClose_ok _ _ _ _ l) | | done].
    - rewrite <- Hl, Hm0. unfold message_text. by rewrite app_nil_r, <- !app_assoc.
    - intros [] ? (m & -> & Hm). exists m. split; [done|]. rewrite Hm, Hm0. unfold message_text.
      by rewrite app_nil_r, <- !app_assoc. }
  unfold wp in Hc. destruct (_autoCloseHeaders (mkWriter reset (Some m0) p 0 0)) as [[[]|e|f] w] eqn:E2; [|done|done].
  destruct Hc as (m & -> & Hm). exists m. split; [|done].
  pose proof (release_plain l m p Hb) as Er. unfold release in *.
  rewrite (bind_run _ _ _ tt (mkWriter l (Some m) p 0 0) E2).
  rewrite (bind_run _ _ (mkWriter l (Some m) p 0 0) tt (mkWriter l (Some m) p 0 0)) in Er.
  - by rewrite Er.
  - unfold _autoCloseHeaders, mbind, M_bind, get. cbn [w_layout]. by rewrite (proj2 (Z.eqb_neq _ _) Hb).
Qed.

(** The same with an NNG header, which is not part of the text. *)
Lemma compose_header_ok p (start : M exn (MsgWriter msg) unit) line hs body l data :
  let nl := MsgProtocol.preferred_newline p in
  wp start (λ _, open_writer p (line ++ nl)) (λ _ _, False) (new_writer p) →
  headers_ok hs →
  _parse_msg (message_text line nl hs []) UNKNOWN reset = (Ret tt, l) → _p_body l ≠ 0 →
  ∃ m, compose p ((start;; write_headers hs;; writeBody body);; setNNGHeader data) = Ret (Some m)
       ∧ msg_body m = message_text line nl hs body ∧ msg_header m = data.
Proof.
  intros nl Hstart Hh Hl Hb.
  destruct (steps_ok p start line hs body l Hstart Hh Hl) as (m & E & Hm). exists (set_header m data).
  split; [|by rewrite body_of_set_header, header_of_set_header].
  unfold compose. rewrite (bind_run _ _ _ tt (mkWriter l (Some (set_header m data)) p 0 0)).
  - by rewrite release_plain.
  - erewrite bind_run by exact E. reflexivity.
Qed.

(** *** Start-lines *)

Definition request_line (p : MsgProtocolCode) (m : MethodCode) (u : bytes) : bytes :=
  Method.toString m ++ SP :: u ++ SP :: MsgProtocol.toString p.
Definition reply_line (p : MsgProtocolCode) (st : Z) (r : bytes) : bytes :=
  MsgProtocol.toString p ++ SP :: Status.toString st ++ SP :: r.
Definition report_line (p : MsgProtocolCode) (u : bytes) (st : Z) (r : bytes) : bytes :=
  u ++ SP :: MsgProtocol.toString p ++ SP :: Status.toString st ++ SP :: r.

Lemma ContainsWhitespace_word s : ContainsWhitespace s = false → word s.
Proof.
  unfold ContainsWhitespace. induction s as [|c s IH]; [done|]. simpl.
  rewrite orb_false_iff, !orb_false_iff, !Ascii.eqb_neq. intros [? ?]. constructor; [tauto | auto].
Qed.

Ltac run_start := unfold _startMsg, append, open_writer; autorewrite with wp; simpl; autorewrite with wp; simpl.

Lemma startRequest_ok p m u :
  Method.valid m = true → ContainsWhitespace u = false →
  wp (startRequest u m) (λ _, open_writer p (request_line p m u ++ MsgProtocol.preferred_newline p))
    (λ _ _, False) (new_writer p).
Proof.
  intros Hm Hu. unfold startRequest. run_start. rewrite Hm, Hu. simpl. run_start.
  eexists. split; [done|]. rewrite body_of_append, body_make. unfold request_line.
  rewrite <- !app_assoc. simpl. by rewrite <- !app_assoc.
Qed.

Lemma startReply_ok p st r :
  ContainsNewline r = false →
  wp (startReply st r) (λ _, open_writer p (reply_line p st r ++ MsgProtocol.preferred_newline p))
    (λ _ _, False) (new_writer p).
Proof.
  intros Hr. unfold startReply. run_start. rewrite Hr. run_start.
  eexists. split; [done|]. rewrite body_of_append, body_make. unfold reply_line.
  rewrite <- !app_assoc. simpl. by rewrite <- !app_assoc.
Qed.

Lemma startReport_ok p u st r :
  ContainsWhitespace u = false → ContainsNewline r = false →
  wp (startReport u st r) (λ _, open_writer p (report_line p u st r ++ MsgProtocol.preferred_newline p))
    (λ _ _, False) (new_writer p).
Proof.
  intros Hu Hr. unfold startReport. run_start. rewrite Hu. run_start. rewrite Hr. run_start.
  eexists. split; [done|]. rewrite body_of_append, body_make. unfold report_line.
  rewrite <- !app_assoc. simpl. rewrite <- !app_assoc. simpl. by rewrite <- !app_assoc.
Qed.

(** *** Facts about the elements *)

Lemma method_word m : word (Method.toString m) ∧ blen (Method.toString m) ≤ 14.
Proof. destruct m; split; (repeat constructor; discriminate) || (vm_compute; discriminate). Qed.

Lemma protocol_short p : blen (MsgProtocol.toString p) ≤ 16.
Proof. by destruct p; vm_compute. Qed.

Lemma digit_word n : digit (n mod 10) ≠ SP ∧ digit (n mod 10) ≠ LF ∧ digit (n mod 10) ≠ CR
  ∧ digit (n mod 10) ≠ "/"%char.
Proof.
  pose proof (char_code_digit (n mod 10) (Z.mod_pos_bound n 10 eq_refl)) as Hc.
  pose proof (Z.mod_pos_bound n 10 eq_refl).
  split_and!; intros E; rewrite E in Hc; vm_compute char_code in Hc; lia.
Qed.

Lemma status_text n :
  1 ≤ n ≤ 999 → word (Status.toString n) ∧ blen (Status.toString n) = 3
    ∧ MsgProtocol.valid (MsgProtocol.Parse (Status.toString n)) = false.
Proof.
  intros Hn. unfold Status.toString. replace ((n <=? 0) || (999 <? n)) with false by lia.
  destruct (digit_word (n / 100)) as (?&?&?&?), (digit_word (n / 10)) as (?&?&?&?),
    (digit_word n) as (?&?&?&?).
  split_and!; [by repeat constructor | done |].
  apply MsgProtocolFacts.Parse_no_slash. rewrite !elem_of_cons, elem_of_nil. intros [?|[?|[?|[]]]]; congruence.
Qed.

(** What the accessors return for a message of a given text. *)
Definition reads (v : MsgView) (hs : list (bytes * bytes)) (body : bytes) : Prop :=
  View.headers v = Ret (read_headers hs) ∧ bodyString v = Ret body.

Lemma reads_ok l line nl hs body :
  newline nl → headers_ok hs →
  _sl_len l = blen line → _sl_nl l = blen nl → _p_body l = blen (head_text line nl hs) →
  blen (head_text line nl hs) ≤ 0xFFFF → blen (message_text line nl hs body) < 2 ^ 64 →
  reads (mkView (message_text line nl hs body) l) hs body.
Proof.
  intros. split; [by eapply headers_read | by eapply body_read].
Qed.

(** Read an element of the start-line between what precedes and follows it. *)
Lemma element_read l line nl hs body r pre s post :
  line = pre ++ s ++ post → r_start r = blen pre → r_length r = blen s →
  _string (mkView (message_text line nl hs body) l) r = Ret s.
Proof.
  intros -> ? ?.
  apply (string_at _ _ pre s (post ++ nl ++ header_text nl hs ++ nl ++ body)); [|done|done].
  simpl. unfold message_text. by rewrite <- !app_assoc.
Qed.

Lemma head_text_pos line nl hs : newline nl → blen (head_text line nl hs) ≠ 0.
Proof.
  intros Hnl. autorewrite with blen. pose proof (blen_nonneg line). pose proof (blen_nonneg (header_text nl hs)).
  destruct Hnl as [->| ->]; unfold blen at 2 4; simpl; lia.
Qed.

(** The first word of a reason phrase. *)
Definition first_word (r : bytes) : bytes := fst (span (λ c, negb (Ascii.eqb c SP)) r).

(** The layout that the parser gives to each form. *)
Definition request_layout (p : MsgProtocolCode) (m : MethodCode) (line nl : bytes) hs : MsgLayout :=
  mkLayout (blen (head_text line nl hs)) (blen line) (blen (Method.toString m) + 1)
    (blen (MsgProtocol.toString p)) 0 (blen nl).
Definition reply_layout (r line nl : bytes) hs : MsgLayout :=
  mkLayout (blen (head_text line nl hs)) (blen line) 0 (blen line) (blen r + 4) (blen nl).
Definition report_layout (p : MsgProtocolCode) (r line nl : bytes) hs : MsgLayout :=
  mkLayout (blen (head_text line nl hs)) (blen line) 0 (blen (MsgProtocol.toString p) + blen r + 5)
    (blen r + 4) (blen nl).

Lemma request_parses p m u hs :
  MsgProtocol.valid p = true → ContainsWhitespace u = false → headers_ok hs →
  let nl := MsgProtocol.preferred_newline p in
  blen (head_text (request_line p m u) nl hs) ≤ 0xFFFF →
  ∀ t b, t = UNKNOWN ∨ t = REQUEST →
  _parse_msg (message_text (request_line p m u) nl hs b) t reset
  = (Ret tt, request_layout p m (request_line p m u) nl hs).
Proof.
  intros Hp Hu Hh nl Hs t b Ht. pose proof (protocol_short p).
  pose proof (MsgProtocolFacts.newline_cases p) as Hnl. apply parse_request; try done; [..|lia].
  - apply method_word.
  - by apply ContainsWhitespace_word.
  - apply MsgProtocolFacts.toString_no_space.
  - by rewrite MsgProtocolFacts.protocol_Parse_toString.
  - apply method_word.
Qed.

Lemma reply_parses p st r hs :
  MsgProtocol.valid p = true → 1 ≤ st ≤ 999 → ContainsNewline r = false → blen r ≤ 128 →
  MsgProtocol.valid (MsgProtocol.Parse (first_word r)) = false → headers_ok hs →
  let nl := MsgProtocol.preferred_newline p in
  blen (head_text (reply_line p st r) nl hs) ≤ 0xFFFF →
  ∀ t b, t = UNKNOWN ∨ t = REPLY →
  _parse_msg (message_text (reply_line p st r) nl hs b) t reset
  = (Ret tt, reply_layout r (reply_line p st r) nl hs).
Proof.
  intros Hp Hst Hr Hrl Hfw Hh nl Hs t b Ht. pose proof (protocol_short p).
  pose proof (MsgProtocolFacts.newline_cases p) as Hnl.
  destruct (status_text st Hst) as (? & ? & ?). apply parse_reply; try done.
  - apply MsgProtocolFacts.toString_no_space.
  - by apply ContainsNewline_false.
  - destruct Ht as [->| ->]; [left | by right]. by rewrite MsgProtocolFacts.protocol_Parse_toString.
Qed.

Lemma report_parses p u st r hs :
  MsgProtocol.valid p = true → ContainsWhitespace u = false → 1 ≤ st ≤ 999 →
  ContainsNewline r = false → blen r ≤ 128 → headers_ok hs →
  let nl := MsgProtocol.preferred_newline p in
  blen (head_text (report_line p u st r) nl hs) ≤ 0xFFFF →
  ∀ t b, t = UNKNOWN ∨ t = REPORT →
  _parse_msg (message_text (report_line p u st r) nl hs b) t reset
  = (Ret tt, report_layout p r (report_line p u st r) nl hs).
Proof.
  intros Hp Hu Hst Hr Hrl Hh nl Hs t b Ht. pose proof (protocol_short p).
  pose proof (MsgProtocolFacts.newline_cases p) as Hnl.
  destruct (status_text st Hst) as (? & ? & ?). apply parse_report; try done.
  - by apply ContainsWhitespace_word.
  - apply MsgProtocolFacts.toString_no_space.
  - by apply ContainsNewline_false.
  - by rewrite MsgProtocolFacts.protocol_Parse_toString.
Qed.

(** From the layout of the three forms to their elements. *)
Ltac element pre s post :=
  apply (element_read _ _ _ _ _ _ pre s post);
  [ unfold request_line, reply_line, report_line; repeat (rewrite <- ?app_assoc; simpl); by rewrite ?app_nil_r
  | simpl; unfold _has_uri, of_bool; simpl | simpl; unfold _has_uri, of_bool; simpl ].

Lemma request_elements p m u nl hs body pb :
  MsgProtocol.valid p = true → Method.valid m = true → blen (request_line p m u) ≤ 65535 →
  let line := request_line p m u in
  let v := mkView (message_text line nl hs body)
             (mkLayout pb (blen line) (blen (Method.toString m) + 1) (blen (MsgProtocol.toString p)) 0 (blen nl)) in
  msgType v = REQUEST ∧ method v = Ret m ∧ uriString v = Ret u ∧ protocol v = Ret p.
Proof.
  intros Hp Hm Hsize line v. set (ms := Method.toString m) in *. set (ps := MsgProtocol.toString p) in *.
  assert (blen line = blen ms + blen u + blen ps + 2) as Hline.
  { unfold line, request_line. rewrite !blen_app, blen_cons, blen_app, blen_cons. unfold ms, ps. lia. }
  pose proof (blen_nonneg ms). pose proof (blen_nonneg u).
  assert (1 ≤ blen ps) as Hps by (unfold ps; by destruct p).
  fold line in Hsize.
  assert (methodString v = Ret ms) as E1.
  { element ([] : bytes) ms (SP :: u ++ SP :: ps); [done|].
    replace (blen ms + 1 =? 0) with false by lia. simpl. rewrite u64_small; lia. }
  assert (uriString v = Ret u) as E2.
  { element (ms ++ [SP]) u (SP :: ps); [by rewrite blen_app|].
    replace (blen ps <? blen line) with true by lia. replace (blen ps =? 0) with false by lia.
    simpl. rewrite u64_small; lia. }
  assert (protocolString v = Ret ps) as E3.
  { element (ms ++ SP :: u ++ [SP]) ps ([] : bytes).
    - rewrite u64_small by lia. rewrite blen_app, blen_cons, blen_app, Hline.
      replace (blen [SP]) with 1 by done. lia.
    - replace (blen ps =? 0) with false by lia. rewrite u64_small; lia. }
  split_and!; [|unfold method; rewrite E1|done|unfold protocol; rewrite E3].
  - unfold msgType, _type, _has_method. simpl. by replace (blen ms + 1 =? 0) with false by lia.
  - unfold mbind, result_bind, ms. by rewrite MethodFacts.method_Parse_toString.
  - unfold mbind, result_bind, ps. by rewrite MsgProtocolFacts.protocol_Parse_toString.
Qed.

(** The shape of the property below, shared by the components that compose such
    messages. *)
Lemma composed_request p m u hs body type :
  MsgProtocol.valid p = true → Method.valid m = true → ContainsWhitespace u = false →
  headers_ok hs → type = UNKNOWN ∨ type = REQUEST →
  let nl := MsgProtocol.preferred_newline p in
  blen (head_text (request_line p m u) nl hs) ≤ 0xFFFF →
  blen (message_text (request_line p m u) nl hs body) < 2 ^ 64 →
  ∃ out v,
    compose (msg := msg) p (startRequest u m;; write_headers hs;; writeBody body) = Ret (Some out)
    ∧ parse type (msg_body out) = Ret v
    ∧ msgType v = REQUEST ∧ method v = Ret m ∧ uriString v = Ret u ∧ protocol v = Ret p
    ∧ reads v hs body.
Proof.
  intros Hp Hm Hu Hh Ht nl Hs1 Hs2.
  pose proof (MsgProtocolFacts.newline_cases p) as Hnl.
  pose proof (request_parses p m u hs Hp Hu Hh Hs1) as Hparse.
  destruct (compose_ok p (startRequest u m) (request_line p m u) hs body
              _ (startRequest_ok p m u Hm Hu) Hh (Hparse UNKNOWN [] (or_introl eq_refl)))
    as (out & Hout & Hbody); [by apply head_text_pos|].
  exists out. eexists. split; [done|]. rewrite Hbody. split; [apply parse_ret, Hparse, Ht|].
  edestruct request_elements as (? & ? & ? & ?); [exact Hp | exact Hm | by eapply head_line |].
  split_and!; [done..|]. by apply reads_ok.
Qed.

(** C6. Requests: what [startRequest], [writeHeader] and [writeBody] were given
    is what a reader gets. *)
Theorem request_roundtrip p m u hs body type :
  MsgProtocol.valid p = true → Method.valid m = true → ContainsWhitespace u = false →
  headers_ok hs → type = UNKNOWN ∨ type = REQUEST →
  let nl := MsgProtocol.preferred_newline p in
  blen (head_text (request_line p m u) nl hs) ≤ 0xFFFF →
  blen (message_text (request_line p m u) nl hs body) < 2 ^ 64 →
  ∃ out v,
    compose (msg := msg) p (startRequest u m;; write_headers hs;; writeBody body) = Ret (Some out)
    ∧ parse type (msg_body out) = Ret v
    ∧ msgType v = REQUEST ∧ method v = Ret m ∧ uriString v = Ret u ∧ protocol v = Ret p
    ∧ reads v hs body.
Proof. apply composed_request. Qed.

Lemma reply_elements p st r nl hs body pb :
  MsgProtocol.valid p = true → 1 ≤ st ≤ 999 → blen r ≤ 128 →
  let line := reply_line p st r in
  let v := mkView (message_text line nl hs body)
             (mkLayout pb (blen line) 0 (blen line) (blen r + 4) (blen nl)) in
  msgType v = REPLY ∧ protocol v = Ret p ∧ status v = Ret st ∧ View.reason v = Ret r.
Proof.
  intros Hp Hst Hr line v. set (ps := MsgProtocol.toString p) in *. set (ss := Status.toString st) in *.
  assert (blen ss = 3) as Hss by (by apply status_text).
  assert (blen line = blen ps + blen r + 5) as Hline.
  { unfold line, reply_line. rewrite !blen_app, blen_cons, blen_app, blen_cons. fold ps ss. lia. }
  pose proof (blen_nonneg r). pose proof (protocol_short p) as Hpl. fold ps in Hpl.
  assert (1 ≤ blen ps) as Hps by (unfold ps; by destruct p).
  assert (protocolString v = Ret ps) as E1.
  { element ([] : bytes) ps (SP :: ss ++ SP :: r).
    - rewrite u64_small by lia. rewrite blen_nil. lia.
    - replace (blen line =? 0) with false by lia. replace (blen r + 4 =? 0) with false by lia.
      simpl. rewrite u64_small; lia. }
  assert (statusString v = Ret ss) as E2.
  { element (ps ++ [SP]) ss (SP :: r).
    - rewrite u64_small by lia. rewrite blen_app, Hline. replace (blen [SP]) with 1 by done. lia.
    - by replace (blen r + 4 =? 0) with false by lia. }
  assert (View.reason v = Ret r) as E3.
  { element (ps ++ SP :: ss ++ [SP]) r ([] : bytes).
    - rewrite u64_small by lia. rewrite blen_app, blen_cons, blen_app, Hline.
      replace (blen [SP]) with 1 by done. lia.
    - destruct (Z.ltb_spec 4 (blen r + 4)); rewrite u64_small; lia. }
  split_and!; [|unfold protocol; rewrite E1|unfold status; rewrite E2|done].
  - unfold msgType, _type, _has_method, _has_uri, _has_protocol. simpl.
    by replace (blen line <? blen line) with false by lia; replace (_ <=? _) with true by lia.
  - unfold mbind, result_bind, ps. by rewrite MsgProtocolFacts.protocol_Parse_toString.
  - unfold mbind, result_bind, ss. by rewrite StatusFacts.status_Parse_toString.
Qed.

(** The shape of the property below, shared by the components that compose such
    messages. *)
Lemma composed_reply p st r hs body type :
  MsgProtocol.valid p = true → 1 ≤ st ≤ 999 →
  ContainsNewline r = false → blen r ≤ 128 →
  MsgProtocol.valid (MsgProtocol.Parse (first_word r)) = false →
  headers_ok hs → type = UNKNOWN ∨ type = REPLY →
  let nl := MsgProtocol.preferred_newline p in
  blen (head_text (reply_line p st r) nl hs) ≤ 0xFFFF →
  blen (message_text (reply_line p st r) nl hs body) < 2 ^ 64 →
  ∃ out v,
    compose (msg := msg) p (startReply st r;; write_headers hs;; writeBody body) = Ret (Some out)
    ∧ parse type (msg_body out) = Ret v
    ∧ msgType v = REPLY ∧ protocol v = Ret p ∧ status v = Ret st ∧ View.reason v = Ret r
    ∧ reads v hs body.
Proof.
  intros Hp Hst Hr Hrl Hfw Hh Ht nl Hs1 Hs2.
  pose proof (MsgProtocolFacts.newline_cases p) as Hnl.
  pose proof (reply_parses p st r hs Hp Hst Hr Hrl Hfw Hh Hs1) as Hparse.
  destruct (compose_ok p (startReply st r) (reply_line p st r) hs body
              _ (startReply_ok p st r Hr) Hh (Hparse UNKNOWN [] (or_introl eq_refl)))
    as (out & Hout & Hbody); [by apply head_text_pos|].
  exists out. eexists. split; [done|]. rewrite Hbody. split; [apply parse_ret, Hparse, Ht|].
  edestruct reply_elements as (? & ? & ? & ?); [exact Hp | exact Hst | exact Hrl |].
  split_and!; [done..|]. by apply reads_ok.
Qed.

(** A reply without a body. *)
Lemma composed_head p st r hs :
  MsgProtocol.valid p = true → 1 ≤ st ≤ 999 →
  ContainsNewline r = false → blen r ≤ 128 →
  MsgProtocol.valid (MsgProtocol.Parse (first_word r)) = false →
  headers_ok hs →
  let nl := MsgProtocol.preferred_newline p in
  blen (head_text (reply_line p st r) nl hs) ≤ 0xFFFF →
  ∃ out v,
    compose (msg := msg) p (startReply st r;; write_headers hs) = Ret (Some out)
    ∧ parse REPLY (msg_body out) = Ret v
    ∧ msgType v = REPLY ∧ protocol v = Ret p ∧ status v = Ret st ∧ View.reason v = Ret r
    ∧ reads v hs [].
Proof.
  intros Hp Hst Hr Hrl Hfw Hh nl Hs1. pose proof (MsgProtocolFacts.newline_cases p) as Hnl.
  pose proof (reply_parses p st r hs Hp Hst Hr Hrl Hfw Hh Hs1) as Hparse.
  destruct (compose_head_ok p (startReply st r) (reply_line p st r) hs
              _ (startReply_ok p st r Hr) Hh (Hparse UNKNOWN [] (or_introl eq_refl)))
    as (out & Hout & Hbody); [by apply head_text_pos|].
  exists out. eexists. split; [done|]. rewrite Hbody. split; [apply parse_ret, Hparse; by right|].
  edestruct reply_elements as (? & ? & ? & ?); [exact Hp | exact Hst | exact Hrl |].
  split_and!; [done..|]. apply reads_ok; try done.
  unfold message_text. rewrite app_nil_r. by eapply Z.le_lt_trans; [exact Hs1|].
Qed.

(** C7. Replies. *)
Theorem reply_roundtrip p st r hs body type :
  MsgProtocol.valid p = true → 1 ≤ st ≤ 999 →
  ContainsNewline r = false → blen r ≤ 128 →
  MsgProtocol.valid (MsgProtocol.Parse (first_word r)) = false →
  headers_ok hs → type = UNKNOWN ∨ type = REPLY →
  let nl := MsgProtocol.preferred_newline p in
  blen (head_text (reply_line p st r) nl hs) ≤ 0xFFFF →
  blen (message_text (reply_line p st r) nl hs body) < 2 ^ 64 →
  ∃ out v,
    compose (msg := msg) p (startReply st r;; write_headers hs;; writeBody body) = Ret (Some out)
    ∧ parse type (msg_body out) = Ret v
    ∧ msgType v = REPLY ∧ protocol v = Ret p ∧ status v = Ret st ∧ View.reason v = Ret r
    ∧ reads v hs body.
Proof. apply composed_reply. Qed.

Lemma report_elements p u st r nl hs body pb :
  MsgProtocol.valid p = true → 1 ≤ st ≤ 999 → blen r ≤ 128 → blen (report_line p u st r) ≤ 65535 →
  let line := report_line p u st r in
  let v := mkView (message_text line nl hs body)
             (mkLayout pb (blen line) 0 (blen (MsgProtocol.toString p) + blen r + 5)
                (blen r + 4) (blen nl)) in
  msgType v = REPORT ∧ uriString v = Ret u ∧ protocol v = Ret p ∧ status v = Ret st
  ∧ View.reason v = Ret r.
Proof.
  intros Hp Hst Hr Hsize line v. set (ps := MsgProtocol.toString p) in *. set (ss := Status.toString st) in *.
  assert (blen ss = 3) as Hss by (by apply status_text).
  assert (blen line = blen u + blen ps + blen r + 6) as Hline.
  { unfold line, report_line. rewrite !blen_app, blen_cons, blen_app, blen_cons, blen_app, blen_cons. fold ps ss. lia. }
  fold line in Hsize.
  pose proof (blen_nonneg r). pose proof (blen_nonneg u). pose proof (protocol_short p) as Hpl. fold ps in Hpl.
  assert (1 ≤ blen ps) as Hps by (unfold ps; by destruct p).
  assert (uriString v = Ret u) as E0.
  { element ([] : bytes) u (SP :: ps ++ SP :: ss ++ SP :: r); [done|].
    replace (_ <? blen line) with true by lia. replace (_ =? 0) with false by lia.
    simpl. rewrite u64_small; lia. }
  assert (protocolString v = Ret ps) as E1.
  { element (u ++ [SP]) ps (SP :: ss ++ SP :: r).
    - rewrite u64_small by lia. rewrite blen_app, Hline. replace (blen [SP]) with 1 by done. lia.
    - replace (blen ps + blen r + 5 =? 0) with false by lia. replace (blen r + 4 =? 0) with false by lia.
      simpl. rewrite u64_small; lia. }
  assert (statusString v = Ret ss) as E2.
  { element (u ++ SP :: ps ++ [SP]) ss (SP :: r).
    - rewrite u64_small by lia. rewrite blen_app, blen_cons, blen_app, Hline.
      replace (blen [SP]) with 1 by done. lia.
    - by replace (blen r + 4 =? 0) with false by lia. }
  assert (View.reason v = Ret r) as E3.
  { element (u ++ SP :: ps ++ SP :: ss ++ [SP]) r ([] : bytes).
    - rewrite u64_small by lia. rewrite blen_app, blen_cons, blen_app, blen_cons, blen_app, Hline.
      replace (blen [SP]) with 1 by done. lia.
    - destruct (Z.ltb_spec 4 (blen r + 4)); rewrite u64_small; lia. }
  split_and!; [|done|unfold protocol; rewrite E1|unfold status; rewrite E2|done].
  - unfold msgType, _type, _has_method, _has_uri. simpl. by replace (_ <? blen line) with true by lia.
  - unfold mbind, result_bind, ps. by rewrite MsgProtocolFacts.protocol_Parse_toString.
  - unfold mbind, result_bind, ss. by rewrite StatusFacts.status_Parse_toString.
Qed.

(** The shape of the property below, shared by the components that compose such
    messages. *)
Lemma composed_report p u st r hs body type :
  MsgProtocol.valid p = true → ContainsWhitespace u = false → 1 ≤ st ≤ 999 →
  ContainsNewline r = false → blen r ≤ 128 →
  headers_ok hs → type = UNKNOWN ∨ type = REPORT →
  let nl := MsgProtocol.preferred_newline p in
  blen (head_text (report_line p u st r) nl hs) ≤ 0xFFFF →
  blen (message_text (report_line p u st r) nl hs body) < 2 ^ 64 →
  ∃ out v,
    compose (msg := msg) p (startReport u st r;; write_headers hs;; writeBody body) = Ret (Some out)
    ∧ parse type (msg_body out) = Ret v
    ∧ msgType v = REPORT ∧ uriString v = Ret u ∧ protocol v = Ret p ∧ status v = Ret st
    ∧ View.reason v = Ret r ∧ reads v hs body.
Proof.
  intros Hp Hu Hst Hr Hrl Hh Ht nl Hs1 Hs2.
  pose proof (MsgProtocolFacts.newline_cases p) as Hnl.
  pose proof (report_parses p u st r hs Hp Hu Hst Hr Hrl Hh Hs1) as Hparse.
  destruct (compose_ok p (startReport u st r) (report_line p u st r) hs body
              _ (startReport_ok p u st r Hu Hr) Hh (Hparse UNKNOWN [] (or_introl eq_refl)))
    as (out & Hout & Hbody); [by apply head_text_pos|].
  exists out. eexists. split; [done|]. rewrite Hbody. split; [apply parse_ret, Hparse, Ht|].
  edestruct report_elements as (? & ? & ? & ? & ?); [exact Hp | exact Hst | exact Hrl | by eapply head_line |].
  split_and!; [done..|]. by apply reads_ok.
Qed.

(** C8. Reports. *)
Theorem report_roundtrip p u st r hs body type :
  MsgProtocol.valid p = true → ContainsWhitespace u = false → 1 ≤ st ≤ 999 →
  ContainsNewline r = false → blen r ≤ 128 →
  headers_ok hs → type = UNKNOWN ∨ type = REPORT →
  let nl := MsgProtocol.preferred_newline p in
  blen (head_text (report_line p u st r) nl hs) ≤ 0xFFFF →
  blen (message_text (report_line p u st r) nl hs body) < 2 ^ 64 →
  ∃ out v,
    compose (msg := msg) p (startReport u st r;; write_headers hs;; writeBody body) = Ret (Some out)
    ∧ parse type (msg_body out) = Ret v
    ∧ msgType v = REPORT ∧ uriString v = Ret u ∧ protocol v = Ret p ∧ status v = Ret st
    ∧ View.reason v = Ret r ∧ reads v hs body.
Proof. apply composed_report. Qed.

End Writer.

(** ** Witnesses *)

Lemma request_roundtrip_witness :
  ∃ (out : flat_msg) v,
    compose Http_1_1 (startRequest (lit "/a/b") GET;; write_headers [(lit "Host", lit " x ")];;
                      writeBody (lit "hello")) = Ret (Some out)
    ∧ parse UNKNOWN (msg_body out) = Ret v
    ∧ msgType v = REQUEST ∧ method v = Ret GET ∧ uriString v = Ret (lit "/a/b")
    ∧ protocol v = Ret Http_1_1 ∧ reads v [(lit "Host", lit " x ")] (lit "hello").
Proof.
  apply request_roundtrip; try reflexivity; try (vm_compute; discriminate); [|by left].
  repeat constructor; discriminate.
Defined.

Lemma reply_roundtrip_witness :
  ∃ (out : flat_msg) v,
    compose Telling (startReply 404 (lit "Not Found");; write_headers [(lit "Host", lit " x ")];;
                      writeBody (lit "hello")) = Ret (Some out)
    ∧ parse REPLY (msg_body out) = Ret v
    ∧ msgType v = REPLY ∧ protocol v = Ret Telling ∧ status v = Ret 404
    ∧ View.reason v = Ret (lit "Not Found") ∧ reads v [(lit "Host", lit " x ")] (lit "hello").
Proof.
  apply reply_roundtrip; try reflexivity; try (vm_compute; discriminate); [lia| |by right].
  repeat constructor; discriminate.
Defined.

Lemma report_roundtrip_witness :
  ∃ (out : flat_msg) v,
    compose Telling (startReport (lit "/a") 200 (lit "OK");; write_headers [];;
                      writeBody (lit "hello")) = Ret (Some out)
    ∧ parse UNKNOWN (msg_body out) = Ret v
    ∧ msgType v = REPORT ∧ uriString v = Ret (lit "/a") ∧ protocol v = Ret Telling
    ∧ status v = Ret 200 ∧ View.reason v = Ret (lit "OK") ∧ reads v [] (lit "hello").
Proof.
  apply report_roundtrip; try reflexivity; try (vm_compute; discriminate); [lia|by constructor|by left].
Defined.

End RoundTrip.
