(* ===== verification/MsgLength.v ===== *)
(** * The Content-Length header

    [MsgWriter::writeHeader_Length] leaves room for a number, and
    [MsgWriter::release] fills it in once the body is known.  A reader of the
    message finds it complete, with the length of its body. *)
From S2P Require Import Prelude.
From S2P Require Import Nng.
From S2P Require Import MsgUtil.
From S2P Require Import MsgProtocol.
From S2P Require Import Method.
From S2P Require Import Status.
From S2P Require Import MsgHeaders.
From S2P Require Import MsgLayout.
From S2P Require Import MsgView.
From S2P Require Import MsgParse.
From S2P Require Import MsgWriter.
From S2P Require Import MsgRoundTrip.

Module ContentLength.
Import Layout View HeaderFacts ParseFacts RoundTrip.

(** Concatenations in normal form. *)
Ltac flatten := repeat first [rewrite <- app_assoc | rewrite <- app_comm_cons].

(** ** Digits *)

Lemma num_digits_length fuel d v :
  0 ≤ d → d + Z.of_nat fuel < 256 →
  num_digits_loop fuel d v = d + blen (digits_le fuel v).
Proof.
  revert d v. induction fuel as [|fuel IH]; intros d v Hd Hf; simpl; [rewrite blen_nil; lia|].
  rewrite u8_small by lia. rewrite blen_cons. destruct (_ =? 0); [rewrite blen_nil; lia|].
  rewrite IH by lia. lia.
Qed.

Lemma NumDigits_length v : NumDigits v = blen (digits_le 20 v).
Proof. apply num_digits_length; lia. Qed.

(** More fuel than digits changes nothing. *)
Lemma digits_le_mono fuel v w :
  0 ≤ v ≤ w → (length (digits_le fuel v) ≤ length (digits_le fuel w))%nat.
Proof.
  revert v w. induction fuel as [|fuel IH]; intros v w Hv; simpl; [lia|].
  destruct (Z.eqb_spec (v / 10) 0) as [E|E]; [simpl; lia|].
  assert (v / 10 ≤ w / 10) by (apply Z.div_le_mono; lia).
  assert (0 ≤ v / 10) by (apply Z.div_pos; lia).
  destruct (Z.eqb_spec (w / 10) 0); [lia|]. apply le_n_S, IH. lia.
Qed.

Section Fill.
Context {msg : Type} `{NngMsgLaws msg}.

Lemma fill_digits_S fuel pos v (m : msg) :
  fill_digits (S fuel) pos v m =
    if (0 <=? pos - 1) && (pos - 1 <? blen (msg_body m)) then
      let m' := body_poke m (Z.to_nat (pos - 1)) (digit (v mod 10)) in
      if v / 10 =? 0 then Ret m' else fill_digits fuel (pos - 1) (v / 10) m'
    else Fault OutOfBounds.
Proof. reflexivity. Qed.

(** One turn of the loop: the character before the position is replaced. *)
Lemma fill_digits_step fuel v m a x c :
  msg_body m = a ++ x :: c →
  ∃ m', msg_body m' = a ++ digit (v mod 10) :: c ∧
    fill_digits (S fuel) (blen a + 1) v m =
      if v / 10 =? 0 then Ret m' else fill_digits fuel (blen a) (v / 10) m'.
Proof.
  intros Hm. exists (body_poke m (length a) (digit (v mod 10))). split.
  - rewrite body_of_poke, Hm, insert_app_r_alt, Nat.sub_diag by (rewrite ?Hm, ?length_app; simpl; lia).
    done.
  - rewrite fill_digits_S. replace (blen a + 1 - 1) with (blen a) by lia.
    replace ((0 <=? blen a) && (blen a <? blen (msg_body m))) with true
      by (rewrite Hm, blen_app, blen_cons; pose proof (blen_nonneg a); pose proof (blen_nonneg c); lia).
    replace (Z.to_nat (blen a)) with (length a) by (unfold blen; lia). done.
Qed.

Lemma digits_le_S fuel v :
  digits_le (S fuel) v = digit (v mod 10) :: (if v / 10 =? 0 then [] else digits_le fuel (v / 10)).
Proof. reflexivity. Qed.

(** The loop that stores the digits replaces as many characters before its
    position as the number has digits. *)
Lemma fill_digits_ok fuel v m a b c :
  0 ≤ v < 10 ^ Z.of_nat (S fuel) →
  msg_body m = a ++ b ++ c → length b = length (digits_le (S fuel) v) →
  ∃ m', fill_digits (S fuel) (blen (a ++ b)) v m = Ret m'
        ∧ msg_body m' = a ++ reverse (digits_le (S fuel) v) ++ c.
Proof.
  revert v m b c. induction fuel as [|fuel IH]; intros v m b c Hv Hm Hb;
    destruct b as [|x b _] using rev_ind; try done;
    rewrite app_assoc, blen_app; replace (blen [x]) with 1 by done;
    rewrite (digits_le_S _ v) in *; rewrite length_app in Hb; simpl in Hb.
  - destruct (fill_digits_step 0 v m (a ++ b) x c) as (m' & Hm' & ->); [by rewrite Hm, <- !app_assoc|].
    assert (v / 10 = 0) as E by (apply Z.div_small; lia). rewrite E in *. simpl in *.
    exists m'. split; [done|]. rewrite Hm'. destruct b; [|simpl in Hb; lia]. by rewrite app_nil_r.
  - destruct (fill_digits_step (S fuel) v m (a ++ b) x c) as (m' & Hm' & ->); [by rewrite Hm, <- !app_assoc|].
    destruct (Z.eqb_spec (v / 10) 0) as [E|E].
    { exists m'. split; [done|]. rewrite Hm'. destruct b; [|simpl in Hb; lia]. by rewrite app_nil_r. }
    destruct (IH (v / 10) m' b (digit (v mod 10) :: c)) as (m'' & E1 & E2).
    + rewrite (Nat2Z.inj_succ (S fuel)), Z.pow_succ_r in Hv by lia.
      split; [apply Z.div_pos; lia | apply Z.div_lt_upper_bound; lia].
    + by rewrite Hm', <- app_assoc.
    + simpl in *. lia.
    + exists m''. split; [exact E1|]. rewrite E2, reverse_cons, <- !app_assoc. done.
Qed.

End Fill.

(** ** The three forms of message at once *)

Inductive form : Type :=
| Request (m : MethodCode) (uri : bytes)
| Reply (status : Z) (reason : bytes)
| Report (uri : bytes) (status : Z) (reason : bytes).

Definition form_line (p : MsgProtocolCode) (f : form) : bytes :=
  match f with
  | Request m u => request_line p m u
  | Reply st r => reply_line p st r
  | Report u st r => report_line p u st r
  end.

(** The start-lines that the writer accepts and the parser takes for what
    they are. *)
Definition form_ok (f : form) : Prop :=
  match f with
  | Request m u => Method.valid m = true ∧ ContainsWhitespace u = false
  | Reply st r => 1 ≤ st ≤ 999 ∧ ContainsNewline r = false ∧ blen r ≤ 128
                  ∧ MsgProtocol.valid (MsgProtocol.Parse (first_word r)) = false
  | Report u st r => ContainsWhitespace u = false ∧ 1 ≤ st ≤ 999
                     ∧ ContainsNewline r = false ∧ blen r ≤ 128
  end.

Definition form_layout (p : MsgProtocolCode) (f : form) (nl : bytes) hs : MsgLayout :=
  match f with
  | Request m u => request_layout p m (request_line p m u) nl hs
  | Reply st r => reply_layout r (reply_line p st r) nl hs
  | Report u st r => report_layout p r (report_line p u st r) nl hs
  end.

Lemma form_parses p f hs b :
  MsgProtocol.valid p = true → form_ok f → headers_ok hs →
  let nl := MsgProtocol.preferred_newline p in
  blen (head_text (form_line p f) nl hs) ≤ 0xFFFF →
  _parse_msg (message_text (form_line p f) nl hs b) UNKNOWN reset = (Ret tt, form_layout p f nl hs).
Proof.
  intros Hp Hf Hh nl Hs. destruct f; simpl in *; destruct_and?;
    [apply request_parses | apply reply_parses | apply report_parses]; auto.
Qed.

Lemma form_layout_fields p f nl hs :
  _p_body (form_layout p f nl hs) = blen (head_text (form_line p f) nl hs) ∧
  _sl_len (form_layout p f nl hs) = blen (form_line p f) ∧ _sl_nl (form_layout p f nl hs) = blen nl.
Proof. by destruct f. Qed.

Lemma form_protocol p f nl hs b :
  MsgProtocol.valid p = true → form_ok f → blen (form_line p f) ≤ 65535 →
  protocol (mkView (message_text (form_line p f) nl hs b) (form_layout p f nl hs)) = Ret p.
Proof.
  intros Hp Hf Hs. destruct f; simpl in *; destruct_and?.
  - by apply request_elements.
  - by apply reply_elements.
  - by apply report_elements.
Qed.

Section Theorems.
Context {msg : Type} `{NngMsgLaws msg}.

Definition start_form (f : form) : M exn (MsgWriter msg) unit :=
  match f with
  | Request m u => startRequest u m
  | Reply st r => startReply st r
  | Report u st r => startReport u st r
  end.

Lemma start_form_ok p f :
  form_ok f →
  wp (start_form f) (λ _, open_writer p (form_line p f ++ MsgProtocol.preferred_newline p))
    (λ _ _, False) (new_writer p).
Proof.
  intros Hf. destruct f; simpl in *; destruct_and?;
    [apply startRequest_ok | apply startReply_ok | apply startReport_ok]; done.
Qed.

(** ** Reserving and filling *)

Lemma writeHeader_Length_ok p text n (w : MsgWriter msg) :
  open_writer p text w →
  wp (writeHeader_Length n)
    (λ _ w', ∃ m, w' = mkWriter reset (Some m) p (u16 (blen (text ++ lit "Content-Length:"))) (NumDigits n)
       ∧ msg_body m = text ++ lit "Content-Length" ++ ":"%char ::
                        replicate (Z.to_nat (NumDigits n)) SP ++ MsgProtocol.preferred_newline p)
    (λ _ _, False) w.
Proof.
  intros (m & -> & Hm). unfold writeHeader_Length, append. autorewrite with wp. cbn [w_msg w_lengthSize].
  simpl negb. autorewrite with wp. unfold set_msg, set_length.
  cbn [w_msg w_layout w_protocol w_lengthOffset w_lengthSize]. autorewrite with wp.
  cbn [w_msg w_layout w_protocol w_lengthOffset w_lengthSize]. autorewrite with wp.
  cbn [w_msg w_layout w_protocol w_lengthOffset w_lengthSize]. autorewrite with wp.
  eexists. split; [by rewrite body_of_append, Hm|].
  rewrite !body_of_append, Hm, <- !app_assoc. done.
Qed.

(** The number that [release] writes, and the blanks left after it. *)
Definition length_value (room n : Z) : bytes :=
  reverse (digits_le 20 n) ++ replicate (Z.to_nat (NumDigits room - NumDigits n)) SP.

Lemma length_room room n :
  0 ≤ n ≤ room →
  replicate (Z.to_nat (NumDigits room)) SP
  = replicate (length (digits_le 20 n)) SP ++ replicate (Z.to_nat (NumDigits room - NumDigits n)) SP.
Proof.
  intros Hn. rewrite <- replicate_add. f_equal. rewrite !NumDigits_length. unfold blen.
  pose proof (digits_le_mono 20 n room Hn). lia.
Qed.

Lemma release_length l (m : msg) p a c room n :
  _p_body l ≠ 0 → 0 ≤ n ≤ room → n < 2 ^ 63 →
  msg_body m = a ++ replicate (Z.to_nat (NumDigits room)) SP ++ c →
  u64 (blen (msg_body m) - _p_body l) = n →
  ∃ m', fst (release (mkWriter l (Some m) p (blen a) (NumDigits room))) = Ret (Some m')
        ∧ msg_body m' = a ++ length_value room n ++ c.
Proof.
  intros Hl Hn Hbig Hm Hsize. unfold release, _autoCloseHeaders, fill_length, mbind, M_bind, get, lift.
  cbn [w_layout]. rewrite (proj2 (Z.eqb_neq _ _) Hl). unfold mret, M_ret.
  cbn [w_msg w_layout w_protocol w_lengthOffset w_lengthSize].
  assert ((NumDigits room =? 0) = false) as ->.
  { rewrite NumDigits_length. apply blen_eqb_0, digits_le_nonempty. }
  rewrite Hsize. assert ((NumDigits room <? NumDigits n) = false) as ->.
  { rewrite !NumDigits_length. unfold blen. pose proof (digits_le_mono 20 n room Hn). lia. }
  rewrite length_room with (n := n) in Hm by done. rewrite <- app_assoc in Hm.
  destruct (fill_digits_ok 19 n m a (replicate (length (digits_le 20 n)) SP) _ ltac:(lia) Hm)
    as (m' & E & Hm'); [apply length_replicate|].
  replace (blen a + NumDigits n) with (blen (a ++ replicate (length (digits_le 20 n)) SP)).
  2: { rewrite blen_app, NumDigits_length. unfold blen at 2. by rewrite length_replicate. }
  rewrite E. exists m'. split; [done|]. unfold length_value. by rewrite <- app_assoc.
Qed.

(** The header as it is while the body is written, and as it is released. *)
Definition reserved (hs : list (bytes * bytes)) (room : Z) : list (bytes * bytes) :=
  hs ++ [(lit "Content-Length", replicate (Z.to_nat (NumDigits room)) SP)].
Definition filled (hs : list (bytes * bytes)) (room n : Z) : list (bytes * bytes) :=
  hs ++ [(lit "Content-Length", length_value room n)].

Lemma header_text_snoc nl hs n v :
  header_text nl (hs ++ [(n, v)]) = header_text nl hs ++ n ++ ":"%char :: v ++ nl.
Proof. unfold header_text. rewrite map_app, concat_app. simpl. by rewrite app_nil_r. Qed.

Lemma blen_length_value room n :
  0 ≤ n ≤ room → blen (length_value room n) = NumDigits room.
Proof.
  intros Hn. unfold length_value. rewrite blen_app, !NumDigits_length. unfold blen.
  rewrite length_reverse, length_replicate. pose proof (digits_le_mono 20 n room Hn). lia.
Qed.

Lemma NumDigits_nonneg n : 0 ≤ NumDigits n.
Proof. rewrite NumDigits_length. apply blen_nonneg. Qed.

Lemma reserved_ok hs room : headers_ok hs → headers_ok (reserved hs room).
Proof.
  intros Hh. apply Forall_app. split; [done|]. constructor; [|constructor]. split.
  - repeat constructor; discriminate.
  - by apply Forall_replicate.
Qed.

Lemma length_value_ok room n : MsgUtilFacts.no_newline (length_value room n).
Proof.
  apply Forall_app. split; [|by apply Forall_replicate]. apply Forall_reverse.
  eapply Forall_impl; [apply digits_le_digits|]. intros c Hc. split; by intros ->.
Qed.

Lemma filled_ok hs room n : headers_ok hs → headers_ok (filled hs room n).
Proof.
  intros Hh. apply Forall_app. split; [done|]. constructor; [|constructor]. split.
  - repeat constructor; discriminate.
  - apply length_value_ok.
Qed.

Lemma trim_length_value room n : trim (length_value room n) = reverse (digits_le 20 n).
Proof.
  unfold length_value, trim. pose proof (digits_le_digits 20 n) as Hd.
  apply Forall_reverse in Hd.
  destruct (reverse (digits_le 20 n)) as [|c s] eqn:E.
  { exfalso. by apply (f_equal reverse) in E; rewrite reverse_involutive in E. }
  assert (∀ c, is_digit c = true → Header.is_blank c = false) as Hb.
  { intros d Hc. unfold Header.is_blank.
    rewrite !eqb_char_neq; [done | by intros ->..]. }
  inversion Hd; subst. simpl. rewrite Hb by done. simpl.
  destruct (exists_last (l := c :: s)) as (s' & d & Es); [done|].
  rewrite app_comm_cons, Es, <- app_assoc. simpl. apply rtrim_app_stop.
  - apply Hb. rewrite Es in Hd. apply Forall_app in Hd as [_ Hd]. by inversion Hd.
  - by apply Forall_replicate.
Qed.

Lemma head_filled line nl hs room n :
  0 ≤ n ≤ room →
  blen (head_text line nl (filled hs room n)) = blen (head_text line nl (reserved hs room)).
Proof.
  intros Hn. unfold filled, reserved. rewrite !header_text_snoc. autorewrite with blen.
  rewrite blen_length_value by done. pose proof (NumDigits_nonneg room).
  replace (blen (replicate (Z.to_nat (NumDigits room)) SP)) with (NumDigits room); [lia|].
  unfold blen. rewrite length_replicate. lia.
Qed.

(** What a reader makes of the header. *)
Lemma completion_length v hs (n : Z) p :
  View.headers v = Ret (hs ++ [mkHeader (lit "Content-Length") (reverse (digits_le 20 n))]) →
  protocol v = Ret p → 0 ≤ n < 2 ^ 63 → bodySize v = n →
  ∃ c, completion v = Ret c ∧ complete c = true ∧ length_header c = true ∧ message_length c = n.
Proof.
  intros Hh Hp Hn Hb. unfold completion. rewrite Hh, Hp, Hb. unfold mbind, result_bind.
  rewrite fold_left_app. cbn [fold_left]. set (c := fold_left completion_step hs no_completion).
  unfold completion_step.
  replace (Header.is_named _ (lit "Content-Length")) with true by reflexivity.
  rewrite value_dec_digits.
  - rewrite dec_value_digits by lia. rewrite u64_small by lia. cbn [length_header message_length].
    replace (n <=? n) with true by lia. simpl. unfold implicit. simpl. rewrite andb_false_r. simpl. eauto.
  - apply Forall_reverse, digits_le_digits.
  - intros E. by apply (f_equal reverse) in E; rewrite reverse_involutive in E.
  - rewrite dec_value_digits by lia. lia.
Qed.

Lemma compose_length p f hs body room :
  MsgProtocol.valid p = true → form_ok f → headers_ok hs → blen body ≤ room → blen body < 2 ^ 63 →
  let nl := MsgProtocol.preferred_newline p in
  blen (head_text (form_line p f) nl (reserved hs room)) ≤ 0xFFFF →
  ∃ out, compose (msg := msg) p (start_form f;; write_headers hs;; writeHeader_Length room;; writeBody body)
           = Ret (Some out)
         ∧ msg_body out = message_text (form_line p f) nl (filled hs room (blen body)) body.
Proof.
  intros Hp Hf Hh Hroom Hbig nl Hs. set (line := form_line p f) in *.
  pose proof (MsgProtocolFacts.newline_cases p) as Hnl.
  set (pre := line ++ nl ++ header_text nl hs ++ lit "Content-Length:").
  assert (wp (start_form f;; write_headers hs;; writeHeader_Length room;; writeBody body)
    (λ _ w, ∃ m, w = mkWriter (form_layout p f nl (reserved hs room)) (Some m) p (blen pre) (NumDigits room)
       ∧ msg_body m = pre ++ replicate (Z.to_nat (NumDigits room)) SP ++ nl ++ nl ++ body)
    (λ _ _, False) (new_writer (msg := msg) p)) as Hwp.
  { autorewrite with wp. eapply wp_mono; [by apply start_form_ok | | done]. intros [] w Hw.
    autorewrite with wp. eapply wp_mono; [by apply write_headers_ok | | done]. intros [] w' Hw'.
    autorewrite with wp. eapply wp_mono; [by apply writeHeader_Length_ok | | done].
    intros [] ? (m & -> & Hm). unfold writeBody. autorewrite with wp.
    eapply wp_mono;
      [apply noexcept_wp, (autoClose_ok _ _ _ _ (form_layout p f nl (reserved hs room))) | | done].
    { eapply eq_trans; [|exact (form_parses p f (reserved hs room) [] Hp Hf (reserved_ok _ _ Hh) Hs)].
      rewrite Hm. unfold message_text, reserved. rewrite header_text_snoc.
      f_equal. flatten. by rewrite app_nil_r. }
    intros [] ? (m' & -> & Hm'). unfold append. autorewrite with wp. cbn [w_msg]. autorewrite with wp.
    eexists. split.
    - unfold set_msg. cbn [w_layout w_protocol w_lengthOffset w_lengthSize]. f_equal.
      rewrite u16_small.
      + unfold pre. by rewrite <- !app_assoc.
      + unfold reserved in Hs. rewrite header_text_snoc in Hs. autorewrite with blen in *.
        pose proof (blen_nonneg line). pose proof (blen_nonneg nl). pose proof (blen_nonneg (header_text nl hs)).
        pose proof (blen_nonneg (replicate (Z.to_nat (NumDigits room)) SP)).
        replace (blen (lit "Content-Length:")) with 15 by done.
        replace (blen (lit "Content-Length")) with 14 in Hs by done. fold nl line. lia.
    - rewrite body_of_append, Hm', Hm. unfold pre. by flatten. }
  unfold compose. unfold wp in Hwp. unfold mbind at 1, M_bind at 1.
  destruct ((start_form f;; write_headers hs;; writeHeader_Length room;; writeBody body) (new_writer p))
    as [[r|e|f'] w]; [|done|done].
  destruct Hwp as (m & -> & Hm).
  destruct (form_layout_fields p f nl (reserved hs room)) as (Hpb & _).
  edestruct (release_length (form_layout p f nl (reserved hs room)) m p pre (nl ++ nl ++ body) room (blen body))
    as (m' & E & Hm'); [rewrite Hpb; by apply head_text_pos | pose proof (blen_nonneg body); lia | done | done | |].
  { rewrite Hpb, Hm. unfold reserved, pre. rewrite header_text_snoc. fold line. autorewrite with blen.
    replace (blen (lit "Content-Length:")) with 15 by done.
    replace (blen (lit "Content-Length")) with 14 by done.
    pose proof (blen_nonneg body). rewrite u64_small; lia. }
  exists m'. rewrite E. split; [done|]. rewrite Hm'. unfold message_text, filled, pre.
  rewrite header_text_snoc. by flatten.
Qed.

(** C9. A message written with [writeHeader_Length] and released carries the
    length of its body: a reader of it, whatever its kind and protocol, finds
    it complete, with exactly the body that was written. *)
Theorem content_length_complete p f hs body room :
  MsgProtocol.valid p = true → form_ok f → headers_ok hs →
  blen body ≤ room → blen body < 2 ^ 63 →
  let nl := MsgProtocol.preferred_newline p in
  blen (head_text (form_line p f) nl (reserved hs room)) ≤ 0xFFFF →
  ∃ out v c,
    compose (msg := msg) p (start_form f;; write_headers hs;; writeHeader_Length room;; writeBody body)
      = Ret (Some out)
    ∧ parse UNKNOWN (msg_body out) = Ret v ∧ bodyString v = Ret body
    ∧ completion v = Ret c ∧ complete c = true ∧ length_header c = true ∧ message_length c = blen body.
Proof.
  intros Hp Hf Hh Hroom Hbig nl Hs. pose proof (blen_nonneg body) as Hb0.
  destruct (compose_length p f hs body room) as (out & Hout & Hbody); [done..|].
  exists out, (mkView (msg_body out) (form_layout p f nl (filled hs room (blen body)))).
  pose proof (MsgProtocolFacts.newline_cases p) as Hnl.
  assert (headers_ok (filled hs room (blen body))) as Hh' by (by apply filled_ok).
  pose proof (head_filled (form_line p f) nl hs room (blen body) (conj Hb0 Hroom)) as Hhead.
  destruct (form_layout_fields p f nl (filled hs room (blen body))) as (F1 & F2 & F3).
  assert (blen (message_text (form_line p f) nl (filled hs room (blen body)) body)
          = blen (head_text (form_line p f) nl (filled hs room (blen body))) + blen body) as Hsum.
  { unfold message_text. autorewrite with blen. lia. }
  rewrite Hbody. fold nl.
  destruct (reads_ok (form_layout p f nl (filled hs room (blen body))) (form_line p f) nl
    (filled hs room (blen body)) body) as [R1 R2]; try done; [lia | lia |].
  destruct (completion_length (mkView (message_text (form_line p f) nl (filled hs room (blen body)) body)
    (form_layout p f nl (filled hs room (blen body)))) (read_headers hs) (blen body) p)
    as (c & C1 & C2 & C3 & C4).
  - rewrite R1. unfold read_headers, filled. rewrite map_app. cbn [map fst snd]. by rewrite trim_length_value.
  - apply form_protocol; [done | done |]. eapply (head_line _ nl). by rewrite Hhead in *.
  - done.
  - unfold bodySize. cbn [v_raw v_layout]. rewrite F1, Hsum. rewrite u64_small; lia.
  - exists c. split_and!; [done | | done..]. apply parse_ret, form_parses; [done.. |]. fold nl. lia.
Qed.

End Theorems.

Lemma content_length_complete_witness :
  ∃ (out : flat_msg) v c,
    compose Http_1_1 (start_form (Reply 200 (lit "OK"));; write_headers [];;
                      writeHeader_Length 9999;; writeBody (lit "twelve bytes")) = Ret (Some out)
    ∧ parse UNKNOWN (msg_body out) = Ret v ∧ bodyString v = Ret (lit "twelve bytes")
    ∧ completion v = Ret c ∧ complete c = true ∧ length_header c = true
    ∧ message_length c = blen (lit "twelve bytes").
Proof.
  apply content_length_complete; try reflexivity; try (vm_compute; discriminate); [|by constructor].
  split_and!; try reflexivity; try lia; vm_compute; discriminate.
Defined.

End ContentLength.
