(* ===== verification/IoQueue.v ===== *)
(** * Message queues

    [include/telling/io_queue.h]: the mutexed queues [RecvQueueMtx_] and
    [SendQueueMtx_] and the receiver [QueuedRecv_].  Each member function of
    the queues holds the mutex throughout, so it is one atomic step. *)
From S2P Require Import Prelude.
From S2P Require Import Nng.

(** ** [RecvQueueMtx_]

    The only member besides the mutex is the deque. *)
Module RecvQueue.

Definition push {T} (msg : T) (deq : list T) : list T := deq ++ [msg].

(** The message moved out of the queue; [None] when [pull] returns false. *)
Definition pull {T} (deq : list T) : option T * list T :=
  match deq with
  | [] => (None, [])
  | msg :: deq => (Some msg, deq)
  end.

Definition clear {T} (_ : list T) : list T := [].
Definition empty {T} (deq : list T) : bool := match deq with [] => true | _ => false end.

End RecvQueue.

(** ** [SendQueueMtx_] *)

Record SendQueue (T : Type) : Type := mkSendQueue { sq_deq : list T; _busy : bool }.
Arguments mkSendQueue {T} _ _.
Arguments sq_deq {T} _.
Arguments _busy {T} _.

Module SendQueueMtx.

Definition new {T} : SendQueue T := mkSendQueue [] false.

(** Whether the message was queued; if not, the caller keeps it. *)
Definition produce {T} (msg : T) (q : SendQueue T) : bool * SendQueue T :=
  if _busy q then (true, mkSendQueue (sq_deq q ++ [msg]) true)
  else (false, mkSendQueue (sq_deq q) true).

Definition consume {T} (q : SendQueue T) : option T * SendQueue T :=
  match sq_deq q with
  | [] => (None, mkSendQueue [] false)
  | msg :: deq => (Some msg, mkSendQueue deq (_busy q))
  end.

Definition clear {T} (q : SendQueue T) : SendQueue T := mkSendQueue [] (_busy q).
Definition busy {T} (q : SendQueue T) : bool := _busy q.
Definition empty {T} (q : SendQueue T) : bool := match sq_deq q with [] => true | _ => false end.

End SendQueueMtx.

(** ** [QueuedRecv_]

    The receive aio, null until [open]; whether a receive is in progress on
    it; the context, null until [open]; and the queue.  [ctx] stands for the
    context or socket view. *)
Record QueuedRecv (ctx msg : Type) : Type := mkQueuedRecv {
  qr_aio : bool;
  qr_receiving : bool;
  qr_ctx : option ctx;
  qr_queue : list msg;
}.
Arguments mkQueuedRecv {ctx msg} _ _ _ _.
Arguments qr_aio {ctx msg} _.
Arguments qr_receiving {ctx msg} _.
Arguments qr_ctx {ctx msg} _.
Arguments qr_queue {ctx msg} _.

Module QueuedRecvOps.
Section Ops.
Context {ctx msg : Type}.

Definition new : QueuedRecv ctx msg := mkQueuedRecv false false None [].

(** [aio.stop()] ends the receive in progress; its callback finds a result
    other than success and returns. *)
Definition close (s : QueuedRecv ctx msg) : QueuedRecv ctx msg :=
  mkQueuedRecv false false None (qr_queue s).

Definition open (c : ctx) (s : QueuedRecv ctx msg) : QueuedRecv ctx msg :=
  let s := if qr_aio s then close s else s in
  mkQueuedRecv true true (Some c) (qr_queue s).

Definition pull (s : QueuedRecv ctx msg) : option msg * QueuedRecv ctx msg :=
  let '(m, q) := RecvQueue.pull (qr_queue s) in
  (m, mkQueuedRecv (qr_aio s) (qr_receiving s) (qr_ctx s) q).

(** The callback, with the result of the receive and its message. *)
Definition _aioReceived (result : nng_error) (m : msg) (s : QueuedRecv ctx msg) : QueuedRecv ctx msg :=
  match result with
  | success =>
      mkQueuedRecv (qr_aio s) true (qr_ctx s) (RecvQueue.push m (qr_queue s))
  | _ => mkQueuedRecv (qr_aio s) false (qr_ctx s) (qr_queue s)
  end.

(** A run: what the program and the network do to a receiver. *)
Inductive event : Type :=
| Open (c : ctx) | Close | Pull
| Received (result : nng_error) (m : msg).

(** A completion happens only while a receive is in progress. *)
Definition step (s : QueuedRecv ctx msg) (e : event) : option (list msg * QueuedRecv ctx msg) :=
  match e with
  | Open c => Some ([], open c s)
  | Close => Some ([], close s)
  | Pull => let '(m, s') := pull s in Some (option_list m, s')
  | Received r m => if qr_receiving s then Some ([], _aioReceived r m s) else None
  end.

(** Run a sequence of events, collecting the messages pulled. *)
Fixpoint run (s : QueuedRecv ctx msg) (es : list event) : option (list msg * QueuedRecv ctx msg) :=
  match es with
  | [] => Some ([], s)
  | e :: es =>
      '(out, s) ← step s e;
      '(out', s) ← run s es;
      Some (out ++ out', s)
  end.

(** The messages that arrived, in order. *)
Definition arrived (es : list event) : list msg :=
  omap (λ e, match e with Received success m => Some m | _ => None end) es.

End Ops.
End QueuedRecvOps.

(** * Theorems *)
Module IoQueueFacts.
Import QueuedRecvOps.

Section QueuedRecv.
Context {ctx msg : Type}.
Implicit Types s : QueuedRecv ctx msg.

Lemma run_conservation s es out s' :
  run s es = Some (out, s') → out ++ qr_queue s' = qr_queue s ++ arrived es.
Proof.
  revert s out. induction es as [|e es IH]; intros s out; simpl.
  { intros [= <- <-]. by rewrite app_nil_r. }
  destruct (step s e) as [[o s1]|] eqn:E; [|done]. simpl.
  destruct (run s1 es) as [[o' s2]|] eqn:E2; [|done]. simpl. intros [= <- <-].
  apply IH in E2. rewrite <- app_assoc, E2.
  destruct e as [c| | |r m]; simpl in *.
  - injection E as <- <-. unfold open, close. by destruct (qr_aio s).
  - by injection E as <- <-.
  - unfold pull in E. destruct (qr_queue s); simpl in *; by injection E as <- <-.
  - destruct (qr_receiving s); [|done]. injection E as <- <-.
    unfold _aioReceived, RecvQueue.push. destruct r; simpl; try done. by rewrite <- app_assoc.
Qed.

(** Every message that arrives at a [QueuedRecv] is pulled exactly once and in
    the order of arrival, whatever the order of arrivals, pulls, closing and
    opening: what was pulled, followed by what is still queued, is what
    arrived; and a receive is in progress after every success. *)
Theorem queued_recv_fifo (es : list event) out s :
  run (ctx := ctx) (msg := msg) new es = Some (out, s) →
  out ++ qr_queue s = arrived es
  ∧ (∀ m s', step s (Received success m) = Some ([], s') → qr_receiving s' = true).
Proof.
  intros Hr. split; [by rewrite (run_conservation _ _ _ _ Hr)|].
  intros m s'. simpl. destruct (qr_receiving s); [|done]. by intros [= <-].
Qed.

End QueuedRecv.

Lemma queued_recv_fifo_witness :
  let es := [Open tt; Received success 1; Pull; Received success 2; Received timedout 3; Pull] in
  ∃ out s, run new es = Some (out, s) ∧ out ++ qr_queue s = [1; 2].
Proof.
  eexists _, _. split; [reflexivity|].
  refine (proj1 (queued_recv_fifo
    [Open tt; Received success 1; Pull; Received success 2; Received timedout 3; Pull] _ _ _)).
  reflexivity.
Defined.

End IoQueueFacts.
