(* ===== verification/AsyncSend.v ===== *)
(** * Sending loops

    [AsyncSendLoop] of [include/telling/async_loop.h], [AsyncSendQueue] of
    [include/telling/async_queue.h] and [QueuedSend_] of
    [include/telling/io_queue.h].

    A loop owns one aio.  Threads that call [send_msg] run concurrently with
    the callback of the aio, so the model is a transition system: each thread
    is at one of the points between the atomic actions of the code (the call
    of the handler, the submission to the aio), and the network completes the
    operation in flight with any result.  The theorems are proved against the
    interface [SendDiscipline], which [SendQueueMtx_] implements. *)
From S2P Require Import Prelude.
From S2P Require Import Nng.
From S2P Require Import MsgUtil.
From S2P Require Import IoQueue.

(** ** Handlers

    What the loop calls of an [AsyncSend<Tag>] handler:
    - [async_prep(tag, msg)]: the message left in [msg], or an exception;
    - [async_sent(tag)] and [async_error(tag, error)]: the message given to
      [tag.send], if any. *)
Class AsyncSendHandler (H msg : Type) : Type := {
  async_prep : msg → H → result exn (option msg) * H;
  async_sent : H → option msg * H;
  async_error : nng_error → H → option msg * H;
}.

(** ** The loop *)

Record SendLoop (H msg : Type) : Type := mkSendLoop {
  l_handler : option H;      (** [_handler.lock()] *)
  l_flight : option msg;     (** the operation in progress on [_aio] *)
  l_stopped : bool;          (** [_aio.stop()] was called *)
}.
Arguments mkSendLoop {H msg} _ _ _.
Arguments l_handler {H msg} _.
Arguments l_flight {H msg} _.
Arguments l_stopped {H msg} _.

(** Where a thread is. *)
Inductive thread (msg : Type) : Type :=
| SendMsg (m : msg)           (** at the beginning of [send_msg] *)
| SendSubmit (m : msg)        (** [send_msg], after [async_prep] left a message *)
| Callback (r : nng_error)    (** at the beginning of the callback of [_aio] *)
| CallbackSubmit (m : msg).   (** the callback, with [nextMsg] set *)
Arguments SendMsg {msg} m.
Arguments SendSubmit {msg} m.
Arguments Callback {msg} r.
Arguments CallbackSubmit {msg} m.

Module AsyncSendLoop.
Section Loop.
Context {H msg : Type} `{AsyncSendHandler H msg}.

Abbreviation L := (M exn (SendLoop H msg)).

Definition set_handler (h : H) (l : SendLoop H msg) : SendLoop H msg :=
  mkSendLoop (Some h) (l_flight l) (l_stopped l).

(** [send_init]: [handler] is the new handler, [None] when it has expired.
    [async_start] does nothing in the handlers of the library. *)
Definition send_init (handler : option H) : L unit :=
  l ← get;
  match l_handler l, handler with
  | Some _, _ => throw (NngException busy (lit "Send init: already started"))
  | None, None => throw (NngException closed (lit "Send init: handler has expired"))
  | None, Some h => modify (set_handler h)
  end.

(** [_aio.set_msg(m); _ctx.send(_aio)].  A stopped aio starts no operation. *)
Definition submit (m : msg) : L unit :=
  l ← get;
  if l_stopped l then mret tt
  else match l_flight l with
       | Some _ => fail AioInUse
       | None => modify (λ l, mkSendLoop (l_handler l) (Some m) (l_stopped l))
       end.

(** The next atomic action of a thread, and where it leaves the thread. *)
Definition run_thread (t : thread msg) : L (option (thread msg)) :=
  match t with
  | SendMsg m =>
      l ← get;
      match l_handler l with
      | None => throw (NngException exist (lit "AsyncSendLoop::send_msg: handler does not exist"))
      | Some h =>
          let '(r, h') := async_prep m h in
          modify (set_handler h');;
          left ← lift r;
          mret (SendSubmit <$> left)
      end
  | SendSubmit m => submit m;; mret None
  | Callback r =>
      l ← get;
      match l_handler l with
      | None => mret None
      | Some h =>
          match r with
          | success =>
              let '(nextMsg, h') := async_sent h in
              modify (set_handler h');; mret (CallbackSubmit <$> nextMsg)
          | canceled =>
              let '(_, h') := async_error canceled h in
              modify (set_handler h');; mret None
          | r =>
              let '(nextMsg, h') := async_error r h in
              modify (set_handler h');; mret (CallbackSubmit <$> nextMsg)
          end
      end
  | CallbackSubmit m => submit m;; mret None
  end.

(** ** The system

    The loop, its threads, and the history: the messages accepted by
    [async_prep], the messages sent, and whether a failure occurred (an
    operation that did not succeed, an exception, [send_stop], or the end of
    the handler). *)
Record Sys : Type := mkSys {
  s_loop : SendLoop H msg;
  s_threads : list (thread msg);
  s_accepted : list msg;
  s_sent : list msg;
  s_ok : bool;
}.

Definition init (h : H) : Sys := mkSys (mkSendLoop (Some h) None false) [] [] [] true.

Inductive event : Type :=
| ECall (m : msg)             (** a thread calls [send_msg] *)
| ERun (i : nat)              (** thread [i] takes its next action *)
| EComplete (r : nng_error)   (** the operation in flight ends *)
| EStop                       (** [send_stop] *)
| EExpire.                    (** the handler is destroyed *)

(** [None]: the event cannot happen. *)
Definition step (s : Sys) (e : event) : option (result exn Sys) :=
  match e with
  | ECall m =>
      Some (Ret (mkSys (s_loop s) (s_threads s ++ [SendMsg m]) (s_accepted s) (s_sent s) (s_ok s)))
  | ERun i =>
      t ← s_threads s !! i;
      let rest := delete i (s_threads s) in
      Some (match run_thread t (s_loop s) with
            | (Ret t', l) =>
                Ret (mkSys l (rest ++ option_list t')
                       (s_accepted s ++ match t with SendMsg m => [m] | _ => [] end)
                       (s_sent s) (s_ok s))
            | (Throw _, l) => Ret (mkSys l rest (s_accepted s) (s_sent s) false)
            | (Fault f, _) => Fault f
            end)
  | EComplete r =>
      m ← l_flight (s_loop s);
      Some (Ret (mkSys (mkSendLoop (l_handler (s_loop s)) None (l_stopped (s_loop s)))
                   (s_threads s ++ [Callback r]) (s_accepted s)
                   (s_sent s ++ (if bool_decide (r = success) then [m] else []))
                   (s_ok s && bool_decide (r = success))))
  | EStop =>
      Some (Ret (mkSys (mkSendLoop (l_handler (s_loop s)) None true)
                   (s_threads s ++ match l_flight (s_loop s) with Some _ => [Callback canceled] | None => [] end)
                   (s_accepted s) (s_sent s) false))
  | EExpire =>
      Some (Ret (mkSys (mkSendLoop None (l_flight (s_loop s)) (l_stopped (s_loop s)))
                   (s_threads s) (s_accepted s) (s_sent s) false))
  end.

Fixpoint run (s : Sys) (es : list event) : option Sys :=
  match es with
  | [] => Some s
  | e :: es => match step s e with Some (Ret s') => run s' es | _ => None end
  end.

Inductive reachable (h : H) : Sys → Prop :=
| reach_init : reachable h (init h)
| reach_step s e s' : reachable h s → step s e = Some (Ret s') → reachable h s'.

End Loop.
Arguments Sys : clear implicits.
Arguments event : clear implicits.
End AsyncSendLoop.

(** ** The interface

    A disciplined handler is busy from the message it lets through until it
    has nothing more to send; while it is busy it queues. *)
Class SendDiscipline (H msg : Type) `{AsyncSendHandler H msg} : Type := {
  h_busy : H → bool;
  h_backlog : H → list msg;
  prep_busy m h : h_busy h = true →
    ∃ h', async_prep m h = (Ret None, h') ∧ h_busy h' = true ∧ h_backlog h' = h_backlog h ++ [m];
  prep_idle m h : h_busy h = false →
    ∃ h', async_prep m h = (Ret (Some m), h') ∧ h_busy h' = true ∧ h_backlog h' = h_backlog h;
  sent_next h : h_busy h = true →
    ∃ h', async_sent h = (head (h_backlog h), h') ∧ h_backlog h' = tail (h_backlog h)
          ∧ h_busy h' = match h_backlog h with [] => false | _ => true end;
  error_idle r h : async_error r h = (None, h);
}.

(** ** [AsyncSendQueue] *)
Module AsyncSendQueue.
Section Ops.
Context {msg : Type}.

(** [async_prep]: [tag.send] has no destination in [send_msg], so a message
    that was not queued stays where it is. *)
Definition prep (m : msg) (q : SendQueue msg) : result exn (option msg) * SendQueue msg :=
  let '(queued, q) := SendQueueMtx.produce m q in
  (Ret (if queued then None else Some m), q).
Definition sent (q : SendQueue msg) : option msg * SendQueue msg := SendQueueMtx.consume q.
(** Inherited from [AsyncHandler]. *)
Definition error (_ : nng_error) (q : SendQueue msg) : option msg * SendQueue msg := (None, q).

End Ops.
End AsyncSendQueue.

#[export] Instance AsyncSendQueue_handler {msg} : AsyncSendHandler (SendQueue msg) msg := {
  async_prep := AsyncSendQueue.prep;
  async_sent := AsyncSendQueue.sent;
  async_error := AsyncSendQueue.error;
}.

#[export] Instance AsyncSendQueue_discipline {msg} : SendDiscipline (SendQueue msg) msg.
Proof.
  refine (Build_SendDiscipline _ _ _ _busy sq_deq _ _ _ _).
  - intros m [q b] Hb. simpl in Hb. subst b. eexists. split; [reflexivity|]. done.
  - intros m [q b] Hb. simpl in Hb. subst b. eexists. split; [reflexivity|]. done.
  - intros [[|x q] b] Hb; simpl in Hb; subst b; eexists; split; [reflexivity | done | reflexivity | done].
  - done.
Defined.

(** ** [QueuedSend_]

    The same protocol, written out on an aio and a [SendQueueMtx].  The
    members: whether the aio exists, the operation in progress on it, the
    context (null until [open]) and the queue. *)
Record QueuedSend (ctx msg : Type) : Type := mkQueuedSend {
  qs_aio : bool;
  qs_flight : option msg;
  qs_ctx : option ctx;
  qs_queue : SendQueue msg;
}.
Arguments mkQueuedSend {ctx msg} _ _ _ _.
Arguments qs_aio {ctx msg} _.
Arguments qs_flight {ctx msg} _.
Arguments qs_ctx {ctx msg} _.
Arguments qs_queue {ctx msg} _.

Module QueuedSendOps.
Section Ops.
Context {ctx msg : Type}.

Abbreviation Q := (M exn (QueuedSend ctx msg)).

Definition new : QueuedSend ctx msg := mkQueuedSend false None None SendQueueMtx.new.

Definition close (s : QueuedSend ctx msg) : QueuedSend ctx msg :=
  mkQueuedSend false None None (SendQueueMtx.clear (qs_queue s)).

Definition open (c : ctx) (s : QueuedSend ctx msg) : QueuedSend ctx msg :=
  let s := if qs_aio s then close s else s in
  mkQueuedSend true None (Some c) (qs_queue s).

Definition set_queue (q : SendQueue msg) (s : QueuedSend ctx msg) : QueuedSend ctx msg :=
  mkQueuedSend (qs_aio s) (qs_flight s) (qs_ctx s) q.

(** [aio.set_msg(m); ctx.send(aio)]. *)
Definition submit (m : msg) : Q unit :=
  s ← get;
  if negb (qs_aio s) then fail NullDeref
  else match qs_flight s with
       | Some _ => fail AioInUse
       | None => modify (λ s, mkQueuedSend (qs_aio s) (Some m) (qs_ctx s) (qs_queue s))
       end.

(** [send] and [_aioSent], cut at the same points as [AsyncSendLoop]. *)
Definition run_thread (t : thread msg) : Q (option (thread msg)) :=
  match t with
  | SendMsg m =>
      s ← get;
      match qs_ctx s with
      | None => throw (NngException closed (lit "QueuedSend is not open."))
      | Some _ =>
          let '(queued, q) := SendQueueMtx.produce m (qs_queue s) in
          modify (set_queue q);;
          mret (if queued then None else Some (SendSubmit m))
      end
  | SendSubmit m => submit m;; mret None
  | Callback r =>
      match r with
      | success =>
          s ← get;
          let '(next, q) := SendQueueMtx.consume (qs_queue s) in
          modify (set_queue q);;
          mret (CallbackSubmit <$> next)
      | _ => mret None
      end
  | CallbackSubmit m => submit m;; mret None
  end.

(** While it is open, a [QueuedSend_] is an [AsyncSendLoop] whose handler is
    its queue. *)
Definition as_loop (s : QueuedSend ctx msg) : SendLoop (SendQueue msg) msg :=
  mkSendLoop (Some (qs_queue s)) (qs_flight s) false.

End Ops.
End QueuedSendOps.
