(* ===== verification/AsyncSendFacts.v ===== *)
(** * Sending loops: one operation at a time, in order, nothing lost

    Theorems about [AsyncSendLoop] with any disciplined handler. *)
From S2P Require Import Prelude.
From S2P Require Import Nng.
From S2P Require Import MsgUtil.
From S2P Require Import IoQueue.
From S2P Require Import AsyncSend.

Module SendFacts.
Import AsyncSendLoop.

Section Invariant.
Context {H msg : Type} {Hops : AsyncSendHandler H msg} {Hdis : SendDiscipline H msg}.
Implicit Types (s : Sys H msg) (t : thread msg) (h : H).

(** A thread that holds the right to use the aio. *)
Definition is_owner (t : thread msg) : bool := match t with SendMsg _ => false | _ => true end.
Definition owners (ts : list (thread msg)) : list (thread msg) := filter (λ t, is_owner t = true) ts.

(** The message a thread carries to the aio. *)
Definition carried (t : thread msg) : list msg :=
  match t with SendMsg m | SendSubmit m | CallbackSubmit m => [m] | Callback _ => [] end.

(** Everyone who holds that right; an operation in flight counts as one. *)
Definition holders (s : Sys H msg) : list (thread msg) :=
  match l_flight (s_loop s) with Some m => [CallbackSubmit m] | None => [] end ++ owners (s_threads s).

(** The state of the handler when nobody, or [t], holds the right. *)
Definition idle (h : H) (s : Sys H msg) : Prop :=
  h_busy h = false ∧ h_backlog h = [] ∧ s_accepted s = s_sent s.
Definition held (h : H) (s : Sys H msg) (t : thread msg) : Prop :=
  h_busy h = true ∧ s_accepted s = s_sent s ++ carried t ++ h_backlog h
  ∧ ∀ r, t = Callback r → r = success.

Record Inv (s : Sys H msg) : Prop := {
  inv_one : (length (holders s) ≤ 1)%nat;
  inv_busy h : l_handler (s_loop s) = Some h → holders s ≠ [] → h_busy h = true;
  inv_ok : s_ok s = true →
    ∃ h, l_handler (s_loop s) = Some h ∧ l_stopped (s_loop s) = false ∧
      match holders s with [] => idle h s | t :: _ => held h s t end;
}.

Lemma owners_app ts us : owners (ts ++ us) = owners ts ++ owners us.
Proof. apply filter_app. Qed.

Lemma owners_snoc_waiting ts m : owners (ts ++ [SendMsg m]) = owners ts.
Proof. rewrite owners_app. apply app_nil_r. Qed.

(** Taking a thread out of the list. *)
Lemma owners_waiting i ts m : ts !! i = Some (SendMsg m) → owners (delete i ts) = owners ts.
Proof.
  intros Hi. rewrite <- (take_drop_middle ts i _ Hi) at 2. rewrite delete_take_drop, !owners_app.
  unfold owners at 4. rewrite filter_cons_False by done. done.
Qed.

Lemma owners_delete i ts t :
  ts !! i = Some t → is_owner t = true → (length (owners ts) ≤ 1)%nat →
  owners ts = [t] ∧ owners (delete i ts) = [].
Proof.
  intros Hi Ht. rewrite <- (take_drop_middle ts i _ Hi) at 1 2. rewrite delete_take_drop, !owners_app.
  unfold owners at 2 4. rewrite filter_cons_True by done. fold (owners (drop (S i) ts)).
  rewrite length_app. simpl. intros Hl.
  destruct (owners (take i ts)); [|simpl in Hl; lia]. destruct (owners (drop (S i) ts)); [|simpl in Hl; lia].
  done.
Qed.

(** The thread that is about to use the aio is the only holder. *)
Lemma sole_holder s i t :
  (length (holders s) ≤ 1)%nat → s_threads s !! i = Some t → is_owner t = true →
  l_flight (s_loop s) = None ∧ holders s = [t] ∧ owners (delete i (s_threads s)) = [].
Proof.
  unfold holders. rewrite length_app. intros Hl Hi Ht.
  destruct (owners_delete i (s_threads s) t Hi Ht) as [E1 E2]; [lia|]. rewrite E1 in *.
  destruct (l_flight (s_loop s)); [simpl in Hl; lia|]. done.
Qed.

Lemma Inv_init h : h_busy h = false → h_backlog h = [] → Inv (init h).
Proof. intros Hb Hq. split; [simpl; lia | done |]. intros _. by exists h. Qed.

(** *** The steps *)

Lemma Inv_call s m : Inv s → Inv (mkSys (s_loop s) (s_threads s ++ [SendMsg m]) (s_accepted s) (s_sent s) (s_ok s)).
Proof.
  intros [H1 H2 H3]. assert (holders (mkSys (s_loop s) (s_threads s ++ [SendMsg m]) (s_accepted s) (s_sent s) (s_ok s))
    = holders s) as E.
  { unfold holders. simpl. by rewrite owners_snoc_waiting. }
  split; [by rewrite E | intros h; rewrite E; apply H2 |]. intros Hok. destruct (H3 Hok) as (h & ? & ? & ?).
  exists h. rewrite E. done.
Qed.

(** A waiting thread enters [send_msg]. *)
Lemma Inv_send s i m r l :
  Inv s → s_threads s !! i = Some (SendMsg m) → run_thread (SendMsg m) (s_loop s) = (r, l) →
  match r with
  | Ret t' => Inv (mkSys l (delete i (s_threads s) ++ option_list t') (s_accepted s ++ [m]) (s_sent s) (s_ok s))
  | Throw _ => Inv (mkSys l (delete i (s_threads s)) (s_accepted s) (s_sent s) false)
  | Fault _ => False
  end.
Proof.
  intros [H1 H2 H3] Hi. unfold run_thread, mbind, M_bind, get, throw, modify, lift, mret, M_ret.
  destruct (l_handler (s_loop s)) as [h|] eqn:Eh.
  2: { intros [= <- <-]. split.
       - unfold holders. simpl. by rewrite (owners_waiting i _ m).
       - intros h. simpl. by rewrite Eh.
       - done. }
  destruct (h_busy h) eqn:Eb.
  - destruct (prep_busy m h Eb) as (h' & E & Hb & Hq). rewrite E. intros [= <- <-]. simpl. rewrite app_nil_r.
    assert (∀ a b c, holders (mkSys (set_handler h' (s_loop s)) (delete i (s_threads s)) a b c) = holders s) as Eo.
    { intros. unfold holders. simpl. by rewrite (owners_waiting i _ m). }
    split; [by rewrite Eo | intros h0 [= <-] _; done |]. simpl. intros Hok.
    destruct (H3 Hok) as (h0 & E0 & Hs & Ho). assert (h0 = h) as -> by congruence.
    exists h'. split; [done|]. split; [done|]. rewrite Eo. destruct (holders s) as [|t ts].
    + destruct Ho as (? & _). congruence.
    + destruct Ho as (_ & Ha & Hr). split; [done|]. split; [|done]. simpl. rewrite Ha, Hq.
      by rewrite <- !app_assoc.
  - destruct (prep_idle m h Eb) as (h' & E & Hb & Hq). rewrite E. intros [= <- <-]. simpl.
    assert (holders s = []) as Hn.
    { destruct (holders s) eqn:En; [done|]. rewrite (H2 h eq_refl) in Eb by done. done. }
    assert (∀ a b c, holders (mkSys (set_handler h' (s_loop s)) (delete i (s_threads s) ++ [SendSubmit m]) a b c)
            = [SendSubmit m]) as Eo.
    { intros. unfold holders in *. simpl. rewrite owners_app, (owners_waiting i _ m) by done.
      by rewrite app_assoc, Hn. }
    split; [by rewrite Eo | intros h0 [= <-] _; done |]. simpl. intros Hok.
    destruct (H3 Hok) as (h0 & E0 & Hs & Ho). assert (h0 = h) as -> by congruence.
    exists h'. split; [done|]. split; [done|]. rewrite Eo. rewrite Hn in Ho.
    destruct Ho as (_ & Hq0 & Ha). split; [done|]. split; [|done]. simpl.
    by rewrite Hq, Hq0, Ha.
Qed.

(** A thread submits its message. *)
Lemma Inv_submit s i t m r l :
  Inv s → s_threads s !! i = Some t → is_owner t = true → carried t = [m] →
  (submit m;; mret None) (s_loop s) = (r, l) →
  match r with
  | Ret t' => Inv (mkSys l (delete i (s_threads s) ++ option_list t') (s_accepted s ++ []) (s_sent s) (s_ok s))
  | _ => False
  end.
Proof.
  intros [H1 H2 H3] Hi Ht Hm. destruct (sole_holder s i t H1 Hi Ht) as (Ef & Eo & Ed).
  unfold submit, mbind, M_bind, get, modify, mret, M_ret, fail. rewrite Ef.
  destruct (l_stopped (s_loop s)) eqn:Es; intros [= <- <-]; simpl; rewrite !app_nil_r.
  - assert (∀ a b c, holders (mkSys (s_loop s) (delete i (s_threads s)) a b c) = []) as En.
    { intros. unfold holders. simpl. by rewrite Ef, Ed. }
    split; [by rewrite En; simpl; lia | intros h; by rewrite En |].
    simpl. intros Hok. destruct (H3 Hok) as (h & _ & ? & _). congruence.
  - assert (∀ st a b c, holders (mkSys (mkSendLoop (l_handler (s_loop s)) (Some m) st)
      (delete i (s_threads s)) a b c) = [CallbackSubmit m]) as En.
    { intros. unfold holders. simpl. by rewrite Ed. }
    split; [by rewrite En | intros h Hh _; apply (H2 h Hh); by rewrite Eo |].
    simpl. rewrite Eo in H3. intros Hok. destruct (H3 Hok) as (h & Hh & Hs & Hb & Ha & _).
    exists h. split; [done|]. split; [congruence|]. split; [done|]. split; [|done].
    simpl. by rewrite Ha, Hm.
Qed.

(** The callback of the aio. *)
Lemma Inv_callback s i res r l :
  Inv s → s_threads s !! i = Some (Callback res) → run_thread (Callback res) (s_loop s) = (r, l) →
  match r with
  | Ret t' => Inv (mkSys l (delete i (s_threads s) ++ option_list t') (s_accepted s ++ []) (s_sent s) (s_ok s))
  | _ => False
  end.
Proof.
  intros [H1 H2 H3] Hi. destruct (sole_holder s i _ H1 Hi eq_refl) as (Ef & Eo & Ed).
  rewrite Eo in H2, H3. unfold run_thread, mbind, M_bind, get, modify, mret, M_ret.
  assert (∀ l' (t' : option (thread msg)) a b c, l_flight l' = None →
    holders (mkSys l' (delete i (s_threads s) ++ option_list t') a b c) = owners (option_list t')) as En.
  { intros l' t' a b c Hl. unfold holders. simpl. by rewrite Hl, owners_app, Ed. }
  destruct (l_handler (s_loop s)) as [h|] eqn:Eh.
  2: { intros [= <- <-]. split.
       - rewrite En by done. simpl. lia.
       - intros h. simpl. by rewrite Eh.
       - simpl. intros Hok. destruct (H3 Hok) as (? & ? & _). congruence. }
  assert (h_busy h = true) as Hb by (by apply H2).
  destruct (decide (res = success)) as [->|Hres].
  - destruct (sent_next h Hb) as (h' & E & Hq & Hb'). rewrite E. intros [= <- <-].
    destruct (h_backlog h) as [|x q] eqn:Eq; simpl in Hq; simpl (_ <$> _); rewrite (app_nil_r (s_accepted s)).
    + split; [rewrite (En _ None) by done; simpl; lia | intros ? _; by rewrite (En _ None) |].
      simpl. intros Hok. destruct (H3 Hok) as (h0 & E0 & Hs & _ & Ha & _).
      assert (h0 = h) as -> by congruence. exists h'. split; [done|]. split; [done|].
      rewrite (En _ None) by done. simpl. split; [done|]. split; [done|]. simpl in *.
      by rewrite Ha, Eq, app_nil_r.
    + split; [by rewrite (En _ (Some (CallbackSubmit x))) | by intros ? [= <-] _ |].
      simpl. intros Hok. destruct (H3 Hok) as (h0 & E0 & Hs & _ & Ha & _).
      assert (h0 = h) as -> by congruence. exists h'. split; [done|]. split; [done|].
      rewrite (En _ (Some (CallbackSubmit x))) by done. simpl. split; [done|]. split; [|done].
      simpl in *. by rewrite Ha, Eq, Hq.
  - assert (s_ok s = false) as Hnok.
    { destruct (s_ok s); [|done]. destruct (H3 eq_refl) as (? & _ & _ & _ & _ & Hr).
      by specialize (Hr res eq_refl). }
    intros E. assert (r = Ret None ∧ l = set_handler h (s_loop s)) as [-> ->].
    { destruct res; simpl in E; rewrite ?error_idle in E; simpl in E; by simplify_eq. }
    rewrite (app_nil_r (s_accepted s)). split; [rewrite (En _ None) by done; simpl; lia | intros ? _; by rewrite (En _ None) |].
    simpl. by rewrite Hnok.
Qed.

Lemma Inv_complete s m r :
  Inv s → l_flight (s_loop s) = Some m →
  Inv (mkSys (mkSendLoop (l_handler (s_loop s)) None (l_stopped (s_loop s)))
         (s_threads s ++ [Callback r]) (s_accepted s)
         (s_sent s ++ (if bool_decide (r = success) then [m] else []))
         (s_ok s && bool_decide (r = success))).
Proof.
  intros [H1 H2 H3] Ef. assert (owners (s_threads s) = []) as Eo.
  { unfold holders in H1. rewrite Ef in H1. destruct (owners (s_threads s)); [done | simpl in H1; lia]. }
  assert (holders s = [CallbackSubmit m]) as Eh by (unfold holders; by rewrite Ef, Eo).
  rewrite Eh in H2, H3.
  assert (∀ l a b c, l_flight l = None → holders (mkSys l (s_threads s ++ [Callback r]) a b c) = [Callback r]) as En.
  { intros l a b c Hl. unfold holders. simpl. by rewrite Hl, owners_app, Eo. }
  split; [by rewrite En | intros h Hh _; by apply (H2 h) |].
  simpl. rewrite andb_true_iff, bool_decide_eq_true. intros [Hok ->].
  destruct (H3 Hok) as (h & Hh & Hs & Hb & Ha & _). exists h. split; [done|]. split; [done|].
  rewrite En by done. split; [done|]. rewrite bool_decide_true by done. simpl in *.
  split; [by rewrite <- app_assoc | by intros ? [= ->]].
Qed.

Lemma Inv_stop s :
  Inv s →
  Inv (mkSys (mkSendLoop (l_handler (s_loop s)) None true)
         (s_threads s ++ match l_flight (s_loop s) with Some _ => [Callback canceled] | None => [] end)
         (s_accepted s) (s_sent s) false).
Proof.
  intros [H1 H2 _]. unfold holders in H1, H2. split; unfold holders; simpl; [| |done].
  - rewrite owners_app. destruct (l_flight (s_loop s)); simpl in *.
    + destruct (owners (s_threads s)); simpl in *; lia.
    + by rewrite app_nil_r.
  - intros h Hh Hne. apply (H2 h Hh). destruct (l_flight (s_loop s)); [done|].
    rewrite owners_app in Hne. simpl in *. by rewrite app_nil_r in Hne.
Qed.

Lemma Inv_step s e :
  Inv s → match step s e with Some (Ret s') => Inv s' | Some _ => False | None => True end.
Proof.
  intros HI. destruct e as [m|i|r| |]; simpl.
  - by apply Inv_call.
  - destruct (s_threads s !! i) as [t|] eqn:Hi; [|done]. simpl.
    destruct (run_thread t (s_loop s)) as [r l] eqn:E.
    destruct t as [m|m|res|m].
    + pose proof (Inv_send s i m r l HI Hi E). by destruct r.
    + pose proof (Inv_submit s i _ m r l HI Hi eq_refl eq_refl E). by destruct r.
    + pose proof (Inv_callback s i res r l HI Hi E). by destruct r.
    + pose proof (Inv_submit s i _ m r l HI Hi eq_refl eq_refl E). by destruct r.
  - destruct (l_flight (s_loop s)) as [m|] eqn:Ef; [|done]. simpl. by apply Inv_complete.
  - by apply Inv_stop.
  - destruct HI as [H1 H2 _]. split; [exact H1 | done | done].
Qed.

Lemma Inv_reachable h s : h_busy h = false → h_backlog h = [] → reachable h s → Inv s.
Proof.
  intros Hb Hq. induction 1 as [|s e s' _ IH E]; [by apply Inv_init|].
  pose proof (Inv_step s e IH) as HI. by rewrite E in HI.
Qed.

(** C13. However the calls of [send_msg], the callbacks and the completions
    interleave, and whatever fails, an operation is never started on an aio
    that is in use. *)
Theorem send_loop_exclusive h s e f :
  h_busy h = false → h_backlog h = [] → reachable h s → step s e ≠ Some (Fault f).
Proof.
  intros Hb Hq Hr E. pose proof (Inv_step s e (Inv_reachable h s Hb Hq Hr)) as HI. by rewrite E in HI.
Qed.

(** C14. While nothing fails, the messages accepted are the messages sent, then the
    one on its way to the aio, then the backlog of the handler: nothing is
    lost, duplicated or reordered; and when no thread is active and nothing is
    in flight, everything accepted has been sent. *)
Theorem send_loop_fifo h s :
  h_busy h = false → h_backlog h = [] → reachable h s → s_ok s = true →
  (∃ h', l_handler (s_loop s) = Some h' ∧
     s_accepted s = s_sent s ++ concat (map carried (holders s)) ++ h_backlog h')
  ∧ (s_threads s = [] → l_flight (s_loop s) = None → s_sent s = s_accepted s).
Proof.
  intros Hb Hq Hr Hok. destruct (Inv_reachable h s Hb Hq Hr) as [H1 H2 H3].
  destruct (H3 Hok) as (h' & Hh & _ & Ho). destruct (holders s) as [|t ts] eqn:E.
  - destruct Ho as (_ & Hq' & Ha). split; [|done]. exists h'. split; [done|]. simpl. by rewrite Hq', app_nil_r.
  - destruct Ho as (_ & Ha & _). split.
    + exists h'. split; [done|]. destruct ts; [|simpl in H1; lia]. simpl. by rewrite app_nil_r.
    + intros Et Ef. unfold holders in E. by rewrite Et, Ef in E.
Qed.

(** ** Progress *)

(** How many actions are left, at most: a message waiting in [send_msg] needs
    five, one in the backlog four, one about to be submitted three, one in
    flight two, and a callback one. *)
Definition thread_work (t : thread msg) : nat :=
  match t with SendMsg _ => 5 | SendSubmit _ | CallbackSubmit _ => 3 | Callback _ => 1 end.
Definition work (s : Sys H msg) : nat :=
  sum_list_with thread_work (s_threads s)
  + match l_flight (s_loop s) with Some _ => 2 | None => 0 end
  + match l_handler (s_loop s) with Some h => 4 * length (h_backlog h) | None => 0 end.

(** The steps of the loop itself, when operations succeed. *)
Inductive internal : event msg → Prop :=
| int_run i : internal (ERun i)
| int_complete : internal (EComplete success).

Lemma work_delete i ts t :
  ts !! i = Some t → sum_list_with thread_work ts = (thread_work t + sum_list_with thread_work (delete i ts))%nat.
Proof. intros Hi. by rewrite (delete_Permutation _ _ _ Hi) at 1. Qed.

(** Every enabled internal step makes progress. *)
Lemma work_step s e :
  Inv s → s_ok s = true → internal e →
  match step s e with Some (Ret s') => s_ok s' = true ∧ (work s' < work s)%nat | Some _ => False | None => True end.
Proof.
  intros HI Hok He.  destruct HI as [H1 H2 H3].
  destruct (H3 Hok) as (h & Hh & Hs & Ho). destruct He as [i|]; simpl in *.
  2: { destruct (l_flight (s_loop s)) as [m|] eqn:Ef; [|done]. simpl. rewrite Hok.
       split; [done|]. unfold work. simpl. rewrite sum_list_with_app, Ef, Hh. simpl. lia. }
  destruct (s_threads s !! i) as [t|] eqn:Hi; [|done]. simpl in *.
  pose proof (work_delete i _ t Hi) as Hw.
  destruct t as [m|m|r|m]; simpl in *; unfold mbind, M_bind, get, modify, lift, mret, M_ret, submit; simpl.
  - rewrite Hh. destruct (h_busy h) eqn:Eb.
    + destruct (prep_busy m h Eb) as (h' & E & _ & Hq). rewrite E. simpl. split; [done|].
      unfold work. simpl. rewrite app_nil_r, Hh, Hq, Hw, length_app. simpl. lia.
    + destruct (prep_idle m h Eb) as (h' & E & _ & Hq). rewrite E. simpl. split; [done|].
      unfold work. simpl. rewrite sum_list_with_app, Hh, Hq, Hw. simpl. lia.
  - destruct (sole_holder s i _ H1 Hi eq_refl) as (Ef & _ & _). unfold mbind, M_bind, get, modify, mret, M_ret.
    rewrite Hs, Ef. simpl. split; [done|]. unfold work. simpl. rewrite app_nil_r, Ef, Hh, Hw. lia.
  - destruct (sole_holder s i _ H1 Hi eq_refl) as (Ef & Eo & _). rewrite Eo in Ho.
    destruct Ho as (Hb & _ & Hr). rewrite (Hr r eq_refl). rewrite Hh.
    destruct (sent_next h Hb) as (h' & E & Hq & _). rewrite E. simpl. split; [done|].
    unfold work. simpl. rewrite sum_list_with_app, Ef, Hh, Hq, Hw.
    destruct (h_backlog h); simpl; lia.
  - destruct (sole_holder s i _ H1 Hi eq_refl) as (Ef & _ & _). unfold mbind, M_bind, get, modify, mret, M_ret.
    rewrite Hs, Ef. simpl. split; [done|]. unfold work. simpl. rewrite app_nil_r, Ef, Hh, Hw. lia.
Qed.

Inductive drains : nat → Sys H msg → Sys H msg → Prop :=
| drains_refl s : drains 0 s s
| drains_step n s e s1 s2 :
    internal e → step s e = Some (Ret s1) → drains n s1 s2 → drains (S n) s s2.

(** A system that is not quiescent can take an internal step. *)
Lemma internal_enabled s :
  Inv s → s_threads s ≠ [] ∨ l_flight (s_loop s) ≠ None →
  ∃ e s', internal e ∧ step s e = Some (Ret s').
Proof.
  intros HI [Ht|Hf].
  - destruct (s_threads s) as [|t ts] eqn:Et; [done|].
    pose proof (Inv_step s (ERun 0) HI) as HS. simpl in *. rewrite Et in *. simpl in *.
    exists (ERun 0). simpl. rewrite Et. simpl.
    destruct (run_thread t (s_loop s)) as [[]]; [by eexists; split; [constructor|]..|done].
  - destruct (l_flight (s_loop s)) as [m|] eqn:Ef; [|done].
    exists (EComplete success). simpl. rewrite Ef. by eexists; split; [constructor|].
Qed.

Lemma drain_exists s :
  Inv s → s_ok s = true →
  ∃ n s', drains n s s' ∧ Inv s' ∧ s_ok s' = true ∧ s_threads s' = [] ∧ l_flight (s_loop s') = None.
Proof.
  remember (work s) as w eqn:Ew. revert s Ew.
  induction (lt_wf w) as [w _ IH]. intros s -> HI Hok.
  destruct (decide (s_threads s = [] ∧ l_flight (s_loop s) = None)) as [[Et Ef]|Hn].
  { exists 0%nat, s. split_and!; [constructor | done..]. }
  destruct (internal_enabled s HI) as (e & s1 & He & E).
  { destruct (decide (s_threads s = [])) as [Et|]; [right | by left]. intros Hf. by apply Hn. }
  pose proof (Inv_step s e HI) as HI1. pose proof (work_step s e HI Hok He) as Hw. rewrite E in HI1, Hw.
  destruct Hw as [Hok1 Hlt]. destruct (IH _ Hlt s1 eq_refl HI1 Hok1) as (n & s2 & Hd & HI2 & Hok2 & Et & Ef).
  exists (S n), s2. split_and!; [by econstructor | done..].
Qed.

Lemma drain_bounded n s s' : Inv s → s_ok s = true → drains n s s' → (n + work s' ≤ work s)%nat.
Proof.
  intros HI Hok Hd. revert HI Hok. induction Hd as [|n s e s1 s2 He E Hd IH]; intros HI Hok; [lia|].
  pose proof (Inv_step s e HI) as HI1. pose proof (work_step s e HI Hok He) as Hw. rewrite E in HI1, Hw.
  destruct Hw as [Hok1 Hlt]. specialize (IH HI1 Hok1). lia.
Qed.

(** C15. Without failures and new calls the loop comes to rest: from every
    reachable state it can run until no thread is active and nothing is in
    flight, every such run is bounded, and at rest every message ever given
    to [send_msg] and accepted has been sent. *)
Theorem send_loop_drains h s :
  h_busy h = false → h_backlog h = [] → reachable h s → s_ok s = true →
  (∃ n s', drains n s s' ∧ s_threads s' = [] ∧ l_flight (s_loop s') = None ∧ s_sent s' = s_accepted s')
  ∧ ∀ n s', drains n s s' → (n ≤ work s)%nat.
Proof.
  intros Hb Hq Hr Hok. pose proof (Inv_reachable h s Hb Hq Hr) as HI. split.
  - destruct (drain_exists s HI Hok) as (n & s' & Hd & [_ _ H3] & Hok' & Et & Ef).
    exists n, s'. split_and!; [done..|]. destruct (H3 Hok') as (h' & _ & _ & Ho).
    unfold holders in Ho. rewrite Et, Ef in Ho. by destruct Ho as (_ & _ & ->).
  - intros n s' Hd. pose proof (drain_bounded n s s' HI Hok Hd). lia.
Qed.

(** ** After a failure

    [AsyncSendQueue] inherits an [async_error] that does nothing, so when an
    operation fails nobody holds the right to use the aio any more while the
    queue remains busy. *)
Definition stalled (s : Sys H msg) : Prop :=
  holders s = [] ∧ ∃ h, l_handler (s_loop s) = Some h ∧ h_busy h = true.

Lemma stalled_step s e s' :
  stalled s → step s e = Some (Ret s') → e ≠ EExpire → stalled s' ∧ s_sent s' = s_sent s.
Proof.
  intros [Hn (h & Hh & Hb)] E He. unfold holders in Hn. apply app_eq_nil in Hn as [Hf Ho].
  destruct e as [m|i|r| |]; simpl in E; [| | | |done].
  - injection E as <-. split; [|done]. split; [|by exists h]. unfold holders. simpl.
    by rewrite Hf, owners_snoc_waiting.
  - destruct (s_threads s !! i) as [t|] eqn:Hi; [|done]. simpl in E.
    destruct (decide (is_owner t = true)) as [Ht|Ht].
    { pose proof (owners_delete i _ t Hi Ht) as Hd. rewrite Ho in Hd. simpl in Hd.
      destruct Hd as [Hd _]; [lia | done]. }
    destruct t as [m| | |]; try done. simpl in E. unfold mbind, M_bind, get, modify, lift, mret, M_ret in E.
    rewrite Hh in E. destruct (prep_busy m h Hb) as (h' & Ep & Hb' & _). rewrite Ep in E. injection E as <-.
    split; [|done]. split; [|by exists h']. unfold holders. simpl. rewrite app_nil_r.
    by rewrite Hf, (owners_waiting i _ m).
  - destruct (l_flight (s_loop s)); [done|]. done.
  - injection E as <-. destruct (l_flight (s_loop s)); [done|]. split; [|done]. split; [|by exists h].
    unfold holders. simpl. by rewrite app_nil_r.
Qed.

(** An operation that fails (for any reason but cancellation with the handler
    gone) stalls the loop for good: once its callback has run, no step sends
    anything, while [send_msg] goes on accepting messages. *)
Theorem send_loop_stalls h s r s1 i s2 es s3 :
  h_busy h = false → h_backlog h = [] → reachable h s → s_ok s = true → r ≠ success →
  step s (EComplete r) = Some (Ret s1) →
  s_threads s1 !! i = Some (Callback r) → step s1 (ERun i) = Some (Ret s2) →
  EExpire ∉ es →
  run s2 es = Some s3 →
  stalled s3 ∧ s_sent s3 = s_sent s.
Proof.
  intros Hb Hq Hr Hok Hres E1 Hi E2 Hes E3.
  pose proof (Inv_reachable h s Hb Hq Hr) as HI. pose proof (Inv_step s (EComplete r) HI) as HI1. rewrite E1 in HI1.
  assert (stalled s2 ∧ s_sent s2 = s_sent s) as Hst.
  { destruct HI as [H1 H2 H3]. destruct (H3 Hok) as (h0 & Hh & _). simpl in E1.
    destruct (l_flight (s_loop s)) eqn:Ef; [|done]. injection E1 as <-. simpl in *.
    destruct (sole_holder _ i _ (inv_one _ HI1) Hi eq_refl) as (_ & _ & Ed). simpl in Ed.
    assert (h_busy h0 = true) as Hb0. { apply (H2 h0 Hh). unfold holders. by rewrite Ef. }
    rewrite Hi in E2. simpl in E2. unfold mbind, M_bind, get, modify, mret, M_ret in E2. rewrite Hh in E2.
    assert (s2 = mkSys (mkSendLoop (Some h0) None (l_stopped (s_loop s)))
              (delete i (s_threads s ++ [Callback r])) (s_accepted s) (s_sent s) false) as ->.
    { rewrite (bool_decide_false (r = success) Hres), andb_false_r, !app_nil_r in E2.
      destruct r; simpl in E2; try done; rewrite ?error_idle in E2; simpl in E2;
        rewrite ?app_nil_r in E2; by injection E2. }
    split; [|done]. split; [|by exists h0]. unfold holders. simpl. done. }
  destruct Hst as [Hst Hsent]. rewrite <- Hsent. clear -Hst Hes E3.
  revert s2 Hst E3. induction es as [|e es IH]; intros s2 Hst E3; simpl in E3.
  { by injection E3 as <-. }
  destruct (step s2 e) as [[s'| |]|] eqn:E; [|done..].
  rewrite not_elem_of_cons in Hes. destruct Hes as [He Hes].
  destruct (stalled_step s2 e s' Hst E) as [Hst' Hs']; [by intros ->|].
  rewrite <- Hs'. by apply IH.
Qed.

End Invariant.

(** ** [QueuedSend_] refines [AsyncSendLoop] *)

Import QueuedSendOps.

Definition same_outcome {A} (r r' : result exn A) : Prop :=
  match r, r' with
  | Ret a, Ret a' => a = a'
  | Throw _, Throw _ => True
  | Fault f, Fault f' => f = f'
  | _, _ => False
  end.

(** C16. Every action of [send] and [_aioSent] on an open [QueuedSend_] is the
    action of the loop with an [AsyncSendQueue] handler, so that the theorems
    about the loop hold of it; [close] forgets the messages but not that the
    queue is busy, so that a [QueuedSend_] closed while it was sending and
    opened again only queues. *)
Theorem queued_send_refines {ctx msg} (t : thread msg) (q : QueuedSend ctx msg) c m :
  (qs_aio q = true → qs_ctx q = Some c →
     let '(r, q') := run_thread t q in
     let '(r', l') := AsyncSendLoop.run_thread t (as_loop q) in
     same_outcome r r' ∧ l' = as_loop q' ∧ qs_aio q' = true ∧ qs_ctx q' = Some c)
  ∧ (SendQueueMtx.busy (qs_queue q) = true →
     let q' := open c (close q) in
     run_thread (SendMsg m) q' = (Ret None, set_queue (mkSendQueue [m] true) q') ∧ qs_flight q' = None).
Proof.
  split.
  - destruct q as [a f c' [d b]]. simpl. intros -> ->.
    destruct t as [x|x|r|x]; simpl; unfold mbind, M_bind, get, submit, AsyncSendLoop.submit; simpl.
    + destruct b; done.
    + destruct f; done.
    + destruct r; simpl; try done; destruct d; done.
    + destruct f; done.
  - destruct q as [a f c' [d b]]. simpl. intros ->. done.
Qed.

(** ** Witnesses *)

Definition q0 : SendQueue Z := SendQueueMtx.new.

(** Two calls of [send_msg]; the second arrives while the first is in flight. *)
Definition two_calls : list (AsyncSendLoop.event Z) :=
  [ECall 1; ERun 0; ECall 2; ERun 0; ERun 0].

Lemma send_run_reachable es s s' : reachable q0 s → run s es = Some s' → reachable q0 s'.
Proof.
  revert s. induction es as [|e es IH]; intros s Hs E; simpl in E; [by injection E as <-|].
  destruct (step s e) as [[s1| |]|] eqn:E1; [|done..]. apply (IH s1); [by econstructor | done].
Qed.

Definition busy_state : Sys (SendQueue Z) Z :=
  mkSys (mkSendLoop (Some (mkSendQueue [2] true)) (Some 1) false) [] [1; 2] [] true.

Lemma busy_state_reachable : reachable q0 busy_state.
Proof. apply (send_run_reachable two_calls (init q0)); [constructor | reflexivity]. Qed.

Lemma send_loop_exclusive_witness : step busy_state (EComplete success) ≠ Some (Fault AioInUse).
Proof. apply (send_loop_exclusive q0); [reflexivity.. | apply busy_state_reachable]. Defined.

Lemma send_loop_fifo_witness :
  ∃ h', l_handler (s_loop busy_state) = Some h' ∧ [1; 2] = [] ++ [1] ++ sq_deq h'.
Proof. refine (proj1 (send_loop_fifo q0 busy_state _ _ busy_state_reachable _)); reflexivity. Defined.

Lemma send_loop_drains_witness :
  ∃ n s', drains n busy_state s' ∧ s_threads s' = [] ∧ l_flight (s_loop s') = None ∧ s_sent s' = s_accepted s'.
Proof. refine (proj1 (send_loop_drains q0 busy_state _ _ busy_state_reachable _)); reflexivity. Defined.

Lemma send_loop_stalls_witness :
  let s3 := mkSys (mkSendLoop (Some (mkSendQueue [2; 3] true)) None false) [] [1; 2; 3] [] false in
  stalled s3 ∧ s_sent s3 = s_sent busy_state.
Proof.
  refine (send_loop_stalls q0 busy_state timedout
    (mkSys (mkSendLoop (Some (mkSendQueue [2] true)) None false) [Callback timedout] [1; 2] [] false) 0
    (mkSys (mkSendLoop (Some (mkSendQueue [2] true)) None false) [] [1; 2] [] false)
    [ECall 3; ERun 0] _ _ _ busy_state_reachable _ _ _ _ _ _ _);
    try reflexivity; try discriminate.
  rewrite !elem_of_cons, elem_of_nil. intros [?|[?|[]]]; discriminate.
Defined.

End SendFacts.
