(* ===== verification/AsyncRecv.v ===== *)
(** * Receiving loops

    [AsyncRecvLoop] of [include/telling/async_loop.h], and the errors passed
    to handlers ([AsyncError] of [include/telling/async.h]).  The handler is
    seen from the calls it receives. *)
From S2P Require Import Prelude.
From S2P Require Import Nng.
From S2P Require Import MsgUtil.
From S2P Require Import IoQueue.

(** ** [AsyncError]

    [nng::to_string] is a parameter. *)
Record AsyncError : Type := mkAsyncError { nng_status : nng_error; error_msg : bytes }.

Module AsyncErrorOps.

Definition of_error (e : nng_error) : AsyncError := mkAsyncError e [].
Definition what (to_string : nng_error → bytes) (e : AsyncError) : bytes :=
  if negb (blen (error_msg e) =? 0) then error_msg e
  else if negb (bool_decide (nng_status e = success)) then to_string (nng_status e)
  else lit "success".

End AsyncErrorOps.

(** ** The loop *)

(** The calls a handler receives. *)
Inductive handler_call (msg : Type) : Type :=
| AsyncStart
| AsyncRecv (m : msg)
| AsyncErr (e : nng_error)
| AsyncStop (e : nng_error).
Arguments AsyncStart {msg}.
Arguments AsyncRecv {msg} m.
Arguments AsyncErr {msg} e.
Arguments AsyncStop {msg} e.

(** Whether the handler is alive ([_handler.lock()]), whether a receive is in
    progress on the aio, whether the aio was stopped; and the calls made. *)
Record RecvLoop (msg : Type) : Type := mkRecvLoop {
  rl_handler : bool;
  rl_receiving : bool;
  rl_stopped : bool;
  rl_calls : list (handler_call msg);
}.
Arguments mkRecvLoop {msg} _ _ _ _.
Arguments rl_handler {msg} _.
Arguments rl_receiving {msg} _.
Arguments rl_stopped {msg} _.
Arguments rl_calls {msg} _.

Module AsyncRecvLoop.
Section Loop.
Context {msg : Type}.

Abbreviation R := (M exn (RecvLoop msg)).

Definition new : RecvLoop msg := mkRecvLoop false false false [].

Definition call (c : handler_call msg) : R unit :=
  modify (λ s, mkRecvLoop (rl_handler s) (rl_receiving s) (rl_stopped s) (rl_calls s ++ [c])).

(** [_ctx.recv(_aio)]: a stopped aio starts no operation. *)
Definition start_recv : R unit :=
  s ← get;
  if rl_receiving s then fail AioInUse
  else modify (λ s, mkRecvLoop (rl_handler s) (negb (rl_stopped s)) (rl_stopped s) (rl_calls s)).

(** [recv_start]: [alive] when the new handler has not expired; [refusal]
    when its [async_start] throws. *)
Definition recv_start (alive : bool) (refusal : option exn) : R unit :=
  s ← get;
  if rl_handler s then throw (NngException busy (lit "Receive start: already started"))
  else if negb alive then throw (NngException closed (lit "Receive start: handler has expired"))
  else
    modify (λ s, mkRecvLoop true (rl_receiving s) (rl_stopped s) (rl_calls s));;
    call AsyncStart;;
    match refusal with Some e => throw e | None => mret tt end;;
    start_recv.

(** The callback, with the result of the operation and its message. *)
Definition AsyncRecv_Callback_Self (result : nng_error) (m : msg) : R unit :=
  s ← get;
  if negb (rl_handler s) then mret tt
  else
    match result with
    | success => call (AsyncRecv m);; start_recv
    | timedout => call (AsyncErr timedout);; start_recv
    | r => call (AsyncErr r);; call (AsyncStop r)
    end.

(** [recv_stop]: [stop()] ends the receive in progress, whose callback it
    waits for; the destructor does nothing more. *)
Definition recv_stop (m : msg) : R unit :=
  s ← get;
  modify (λ s, mkRecvLoop (rl_handler s) false true (rl_calls s));;
  (if rl_receiving s then AsyncRecv_Callback_Self canceled m else mret tt);;
  s ← get;
  (if rl_handler s then call (AsyncStop success) else mret tt).

(** What happens to a loop; a receive completes only while it is in progress,
    and [complete] takes it off the aio before its callback runs. *)
Inductive event : Type :=
| Start (alive : bool) (refusal : option exn)
| Complete (r : nng_error) (m : msg)
| Stop (m : msg)
| Expire.

Definition complete (r : nng_error) (m : msg) : R unit :=
  modify (λ s, mkRecvLoop (rl_handler s) false (rl_stopped s) (rl_calls s));;
  AsyncRecv_Callback_Self r m.

Definition step (s : RecvLoop msg) (e : event) : option (result exn unit * RecvLoop msg) :=
  match e with
  | Start alive refusal => Some (recv_start alive refusal s)
  | Complete r m => if rl_receiving s then Some (complete r m s) else None
  | Stop m => Some (recv_stop m s)
  | Expire => Some (Ret tt, mkRecvLoop false (rl_receiving s) (rl_stopped s) (rl_calls s))
  end.

(** Run events; exceptions of [recv_start] go to its caller. *)
Fixpoint run (s : RecvLoop msg) (es : list event) : option (result exn (RecvLoop msg)) :=
  match es with
  | [] => Some (Ret s)
  | e :: es =>
      '(r, s) ← step s e;
      match r with Fault f => Some (Fault f) | _ => run s es end
  end.

End Loop.
Arguments event : clear implicits.
End AsyncRecvLoop.

(** * Theorems *)
Module RecvFacts.
Import AsyncRecvLoop.

Section Recv.
Context {msg : Type}.
Implicit Types (s : RecvLoop msg) (e : event msg) (cs : list (handler_call msg)).

(** The messages delivered, and the messages that arrived. *)
Definition delivered cs : list msg := omap (λ c, match c with AsyncRecv m => Some m | _ => None end) cs.
Definition arrived (es : list (event msg)) : list msg :=
  omap (λ e, match e with Complete success m => Some m | _ => None end) es.

Definition is_stop (c : handler_call msg) : bool := match c with AsyncStop _ => true | _ => false end.

(** The calls a handler may see: [async_start] first and once, then messages
    and errors, and after an [async_stop] nothing but [async_stop]. *)
Definition bracketed cs : Prop :=
  ∃ mid stops, cs = AsyncStart :: mid ++ stops
    ∧ Forall (λ c, is_stop c = false ∧ c ≠ AsyncStart) mid ∧ Forall (λ c, is_stop c = true) stops.

(** The state of a loop whose handler has been started once. *)
Definition started s : Prop :=
  bracketed (rl_calls s) ∧
  (rl_receiving s = true → Forall (λ c, is_stop c = false) (rl_calls s) ∧ rl_stopped s = false).

Lemma bracketed_snoc cs c :
  bracketed cs → c ≠ AsyncStart → is_stop c = true ∨ Forall (λ c, is_stop c = false) cs →
  bracketed (cs ++ [c]).
Proof.
  intros (mid & stops & -> & Hm & Hs) Hc [Hst|Hn].
  - exists mid, (stops ++ [c]). split_and!; [by rewrite (app_assoc mid) | done |].
    apply Forall_app. split; [done | by constructor].
  - assert (stops = []) as ->.
    { apply Forall_cons in Hn as [_ Hn]. apply Forall_app in Hn as [_ Hn].
      destruct stops as [|x xs]; [done|]. inversion Hs; inversion Hn; congruence. }
    rewrite app_nil_r in *. destruct (is_stop c) eqn:Ec.
    + exists mid, [c]. split_and!; [done | done | by constructor].
    + exists (mid ++ [c]), []. rewrite app_nil_r. split_and!; [done | | constructor].
      apply Forall_app. split; [done | by constructor].
Qed.

Ltac run_recv := unfold complete, AsyncRecv_Callback_Self, recv_stop, start_recv, call, mbind, M_bind,
  get, modify, mret, M_ret, throw; simpl.

Lemma no_stop_snoc cs c :
  Forall (λ c, is_stop c = false) cs → is_stop c = false → Forall (λ c, is_stop c = false) (cs ++ [c]).
Proof. intros. apply Forall_app. split; [done | by constructor]. Qed.

Lemma started_step s e :
  started s → (∀ a r, e = Start a r → rl_handler s = true) →
  match step s e with
  | Some (r, s') =>
      started s' ∧ (∀ f, r ≠ Fault f) ∧ (rl_handler s' = true → rl_handler s = true) ∧
      (rl_handler s = true →
         delivered (rl_calls s') = delivered (rl_calls s) ++ arrived [e])
  | None => True
  end.
Proof.
  intros [Hb Hr] He. destruct e as [a rf|r m|m|]; simpl.
  - unfold recv_start. rewrite (He a rf eq_refl). run_recv. unfold arrived. simpl.
    rewrite (He a rf eq_refl). split_and!; [by split | done | done |]. by rewrite app_nil_r.
  - destruct (rl_receiving s) eqn:Erv; [|done]. destruct (Hr eq_refl) as [Hn Hst]. run_recv.
    destruct (rl_handler s) eqn:Eh; simpl; [|by split_and!].
    unfold delivered, arrived. destruct r; simpl; rewrite ?Hst; simpl;
      (split_and!; [split; simpl | done | done | intros _; rewrite ?omap_app; simpl; by rewrite ?app_nil_r]);
      try (intros _; split; [by apply no_stop_snoc | done]); try done;
      rewrite ?app_assoc; repeat (apply bracketed_snoc; auto using no_stop_snoc).
  - run_recv. destruct (rl_handler s) eqn:Eh; destruct (rl_receiving s) eqn:Erv; simpl;
      rewrite ?Eh; simpl; (split_and!; [split; simpl; [|done] | done | done |]); try done;
      unfold delivered, arrived; simpl; rewrite ?omap_app; simpl; rewrite ?app_nil_r; try done.
    + destruct (Hr eq_refl) as [Hn _]. repeat (apply bracketed_snoc; auto using no_stop_snoc).
    + apply bracketed_snoc; auto.
  - split_and!; [by split | done | done |]. intros _. unfold arrived. simpl. by rewrite app_nil_r.
Qed.

(** Only its end takes the handler away. *)
Lemma handler_kept s e r s' :
  e ≠ Expire → rl_handler s = true → step s e = Some (r, s') → rl_handler s' = true.
Proof.
  intros Hx Hh E. destruct e as [a rf|c m|m|]; simpl in E; [| | |done].
  - revert E. unfold recv_start. run_recv. rewrite Hh. intros E; by injection E as <- <-.
  - destruct (rl_receiving s); [|done]. revert E. run_recv. rewrite Hh. simpl.
    destruct c; simpl; intros E; by injection E as <- <-.
  - revert E. run_recv. destruct (rl_receiving s); rewrite Hh; simpl; rewrite ?Hh; intros E; by injection E as <- <-.
Qed.

Lemma run_started (es : list (event msg)) s r :
  Expire ∉ es → started s → rl_handler s = true → run s es = Some r →
  ∃ s', r = Ret s' ∧ bracketed (rl_calls s') ∧ delivered (rl_calls s') = delivered (rl_calls s) ++ arrived es.
Proof.
  revert s. induction es as [|e es IH]; intros s Hx Hst Hh.
  - simpl. intros [= <-]. exists s. unfold arrived. simpl. rewrite app_nil_r.
    split_and!; [done | apply Hst | done].
  - rewrite not_elem_of_cons in Hx. destruct Hx as [Hxe Hx].
    pose proof (started_step s e Hst) as H1. simpl.
    destruct (step s e) as [[r1 s1]|] eqn:E; [|done]. simpl.
    destruct H1 as (H1 & H2 & _ & H4); [done|].
    assert (rl_handler s1 = true) as Hh1 by (by eapply handler_kept).
    specialize (H4 Hh). destruct r1 as [[]|e1|f]; [| |by destruct (H2 f)]; intros Hr;
      destruct (IH s1 Hx H1 Hh1 Hr) as (s2 & -> & Hb & Hd); exists s2;
      (split_and!; [done | done |]); rewrite Hd, H4, <- app_assoc; f_equal;
      unfold arrived; by rewrite <- omap_app.
Qed.

(** C17. A loop started with a handler that does not expire delivers to it, in
    order, every message that arrives, whatever else happens: completions,
    stops, and further calls of [recv_start], with any handler, which change
    nothing.  The calls are bracketed: [async_start] comes first and only once,
    and after an [async_stop] come only further [async_stop]s; and a receive is
    never started while another is in progress. *)
Theorem recv_loop_protocol (es : list (event msg)) r :
  Expire ∉ es →
  run (new (msg := msg)) (Start true None :: es) = Some r →
  ∃ s, r = Ret s ∧ bracketed (rl_calls s) ∧ delivered (rl_calls s) = arrived es.
Proof.
  intros Hx Hr. apply (run_started es (mkRecvLoop true true false [AsyncStart]) r Hx); [|done|done].
  split; [|intros _; split; [by repeat constructor | done]]. exists [], [].
  split_and!; [done | constructor..].
Qed.

End Recv.

Lemma recv_loop_protocol_witness :
  ∃ s, run new [Start true None; Complete success 1; Complete timedout 0; Start true None; Complete success 2; Stop 0]
         = Some (Ret s)
       ∧ bracketed (rl_calls s) ∧ delivered (rl_calls s) = [1; 2].
Proof.
  exists (mkRecvLoop true false true [AsyncStart; AsyncRecv 1; AsyncErr timedout; AsyncRecv 2;
            AsyncErr canceled; AsyncStop canceled; AsyncStop success]).
  split; [vm_compute; reflexivity|].
  edestruct (recv_loop_protocol [Complete success 1; Complete timedout 0; Start true None; Complete success 2; Stop 0])
    as (s & E & Hb & Hd).
  - rewrite !elem_of_cons, elem_of_nil. intros [?|[?|[?|[?|[?|[]]]]]]; discriminate.
  - vm_compute. reflexivity.
  - injection E as <-. split; [exact Hb | exact Hd].
Defined.

(** Stopping a loop while it receives ends its handler twice: once from the
    callback of the canceled operation, once from [recv_stop]. *)
Lemma recv_stop_twice {msg} (s : RecvLoop msg) m :
  rl_handler s = true → rl_receiving s = true →
  rl_calls (snd (recv_stop m s))
  = rl_calls s ++ [AsyncErr canceled; AsyncStop canceled; AsyncStop success].
Proof.
  intros Hh Hr. unfold recv_stop, AsyncRecv_Callback_Self, call, mbind, M_bind, get, modify.
  destruct s as [h r st cs]. simpl in *. subst h r. simpl. by rewrite <- !app_assoc.
Qed.

End RecvFacts.
