(* ===== verification/ClientRequest.v ===== *)
(** * Requests

    [include/telling/client_request.h] and [src/telling/client_request.cpp]:
    the communicator [Request], a pool of NNG contexts each of which carries
    one query at a time, and [Request_Box], whose handler turns responses into
    futures. *)
From stdpp Require Import gmap.
From S2P Require Import Prelude.
From S2P Require Import Nng.
From S2P Require Import MsgUtil.
From S2P Require Import Draining.

(** [nng_ctx::id]; the id of an open context is not zero. *)
Abbreviation QueryID := Z.

(** ** Handlers

    What a [Request] calls of an [AsyncQuery<Requesting>]; [async_prep] may
    alter the message, drop it or throw. *)
Class AsyncQuery (H msg : Type) : Type := {
  q_prep : QueryID → msg → H → (exn + option msg) * H;
  q_sent : QueryID → H → H;
  q_recv : QueryID → msg → H → H;
  q_error : QueryID → nng_error → H → H;
}.

(** ** [Request] *)

Inductive ACTION_STATE : Set := IDLE | SEND | RECV.

#[export] Instance ACTION_STATE_eq_dec : EqDecision ACTION_STATE.
Proof. solve_decision. Defined.

(** The operation in progress on the aio of an action. *)
Inductive aio_op (msg : Type) : Type :=
| OpNone
| OpSend (m : msg)
| OpRecv.
Arguments OpNone {msg}.
Arguments OpSend {msg} m.
Arguments OpRecv {msg}.

(** [Request::Action]; the id of its context is its key. *)
Record Action (msg : Type) : Type := mkAction {
  a_state : ACTION_STATE;
  a_op : aio_op msg;
}.
Arguments mkAction {msg} _ _.
Arguments a_state {msg} _.
Arguments a_op {msg} _.

(** The calls made to the handler about a query. *)
Inductive query_call (msg : Type) : Type :=
| CPrep | CSent | CRecv (m : msg) | CError (e : nng_error).
Arguments CPrep {msg}.
Arguments CSent {msg}.
Arguments CRecv {msg} m.
Arguments CError {msg} e.

(** [Request]: whether its socket has a connector ([isReady()]), its handler,
    the actions allocated, the sets [active] and [idle]; the callbacks that
    have called the handler and not yet taken the mutex, with the value of
    [cancel || cleanup]; the calls of the handler so far: [CPrep] when
    [async_prep] accepts a message; and how many actions were allocated whose
    context or aio could not be made, to which nothing points. *)
Record Request (H msg : Type) : Type := mkRequest {
  r_ready : bool;
  r_handler : option H;
  r_actions : gmap QueryID (Action msg);
  r_active : gset QueryID;
  r_idle : list QueryID;
  r_finishing : gmap QueryID bool;
  r_calls : list (QueryID * query_call msg);
  r_lost : nat;
}.
Arguments mkRequest {H msg} _ _ _ _ _ _ _ _.
Arguments r_ready {H msg} _.
Arguments r_handler {H msg} _.
Arguments r_actions {H msg} _.
Arguments r_active {H msg} _.
Arguments r_idle {H msg} _.
Arguments r_finishing {H msg} _.
Arguments r_calls {H msg} _.
Arguments r_lost {H msg} _.

Module RequestOps.
Section Ops.
Context {H msg : Type} `{AsyncQuery H msg}.

Abbreviation R := (M exn (Request H msg)).

Definition new : Request H msg := mkRequest false None ∅ ∅ [] ∅ [] 0.

(** Assignments to the members. *)
Definition set_ready b (s : Request H msg) :=
  mkRequest b (r_handler s) (r_actions s) (r_active s) (r_idle s) (r_finishing s) (r_calls s) (r_lost s).
Definition set_handler (h : option H) (s : Request H msg) :=
  mkRequest (r_ready s) h (r_actions s) (r_active s) (r_idle s) (r_finishing s) (r_calls s) (r_lost s).
Definition set_action id (a : Action msg) (s : Request H msg) :=
  mkRequest (r_ready s) (r_handler s) (<[id := a]> (r_actions s)) (r_active s) (r_idle s)
    (r_finishing s) (r_calls s) (r_lost s).
Definition set_active x (s : Request H msg) :=
  mkRequest (r_ready s) (r_handler s) (r_actions s) x (r_idle s) (r_finishing s) (r_calls s) (r_lost s).
Definition set_idle x (s : Request H msg) :=
  mkRequest (r_ready s) (r_handler s) (r_actions s) (r_active s) x (r_finishing s) (r_calls s) (r_lost s).
Definition set_finishing x (s : Request H msg) :=
  mkRequest (r_ready s) (r_handler s) (r_actions s) (r_active s) (r_idle s) x (r_calls s) (r_lost s).
Definition log_call id (c : query_call msg) (s : Request H msg) :=
  mkRequest (r_ready s) (r_handler s) (r_actions s) (r_active s) (r_idle s) (r_finishing s)
    (r_calls s ++ [(id, c)]) (r_lost s).
Definition lose_action (s : Request H msg) :=
  mkRequest (r_ready s) (r_handler s) (r_actions s) (r_active s) (r_idle s) (r_finishing s) (r_calls s) (S (r_lost s)).

(** [action->...] for the action of a context. *)
Definition action (id : QueryID) : R (Action msg) :=
  s ← get; match r_actions s !! id with Some a => mret a | None => fail NullDeref end.

(** Start an operation on the aio of an action. *)
Definition start_op (id : QueryID) (op : aio_op msg) : R unit :=
  a ← action id;
  match a_op a with
  | OpNone => modify (set_action id (mkAction (a_state a) op))
  | _ => fail AioInUse
  end.
Definition set_state (id : QueryID) (st : ACTION_STATE) : R unit :=
  a ← action id; modify (set_action id (mkAction st (a_op a))).

(** [initialize]: [new_handler] is [None] when it has expired. *)
Definition initialize (new_handler : option H) : R unit :=
  s ← get;
  match r_handler s, new_handler with
  | Some _, _ => throw (NngException busy (lit "Request::initialize (already initialized)"))
  | None, None => throw (NngException closed (lit "Request::initialize (handler is expired)"))
  | None, Some h => modify (set_handler (Some h))
  end.

(** The allocation in [request]: [made] is what [make_ctx] and [make_aio] do
    for a new action, the id of the new context or an exception.  The action is
    allocated before them, and nothing deletes it when they throw. *)
Definition allocate (made : exn + QueryID) : R QueryID :=
  s ← get;
  match r_idle s with
  | [] =>
      match made with
      | inr fresh => modify (set_action fresh (mkAction IDLE OpNone));; mret fresh
      | inl e => modify lose_action;; throw e
      end
  | id :: rest => modify (set_idle rest);; mret id
  end.

(** [request], which holds the mutex from the allocation on. *)
Definition request (made : exn + QueryID) (m : msg) : R QueryID :=
  s ← get;
  if negb (r_ready s) then throw (NngException closed (lit "Request Communicator is not ready."))
  else match r_handler s with
       | None => throw (NngException exist (lit "Request communicator has no message handler"))
       | Some h =>
           id ← allocate made;
           let '(r, h') := q_prep id m h in
           modify (set_handler (Some h'));;
           match r with
           | inl e => throw e
           | inr None =>
               modify (λ s, set_idle (id :: r_idle s) s);;
               throw (NngException canceled (lit "AsyncQuery declined the message."))
           | inr (Some m') =>
               modify (log_call id CPrep);;
               set_state id SEND;;
               modify (λ s, set_active ({[id]} ∪ r_active s) s);;
               start_op id (OpSend m');;
               mret id
           end
       end.

(** The first part of [Action::_callback], without the mutex: the result of
    the operation, with the message it received. *)
Definition callback (id : QueryID) (result : nng_error) (m : msg) : R unit :=
  a ← action id;
  modify (set_action id (mkAction (a_state a) OpNone));;
  s ← get;
  cleanup ← match r_handler s with
            | None => mret true
            | Some h =>
                match result with
                | success =>
                    match a_state a with
                    | SEND =>
                        modify (set_handler (Some (q_sent id h)));;
                        modify (log_call id CSent);; mret false
                    | RECV =>
                        modify (set_handler (Some (q_recv id m h)));;
                        modify (log_call id (CRecv m));; mret true
                    | IDLE => mret true
                    end
                | e =>
                    modify (set_handler (Some (q_error id e h)));;
                    modify (log_call id (CError e));; mret true
                end
            end;
  modify (λ s, set_finishing (<[id := (cleanup : bool)]> (r_finishing s)) s).

(** The second part, under the mutex. *)
Definition callback_finish (id : QueryID) (cleanup : bool) : R unit :=
  modify (λ s, set_finishing (delete id (r_finishing s)) s);;
  (if cleanup then set_state id IDLE else mret tt);;
  a ← action id;
  match a_state a with
  | SEND => set_state id RECV;; start_op id OpRecv
  | _ =>
      set_state id IDLE;;
      modify (λ s, set_active (r_active s ∖ {[id]}) s);;
      modify (λ s, set_idle (r_idle s ++ [id]) s)
  end.

(** [msgStats]. *)
Record MsgStats : Type := mkStats { awaiting_send : nat; awaiting_recv : nat }.
Definition msgStats (s : Request H msg) : MsgStats :=
  let count st := length (filter (λ id, (a_state <$> r_actions s !! id) = Some st) (elements (r_active s))) in
  mkStats (count SEND) (count RECV).

(** ** The system *)

Inductive event : Type :=
| ERequest (made : exn + QueryID) (m : msg)
| EInitialize (h : option H)
| EReady (b : bool)             (** connectors come and go *)
| EExpire                       (** the handler is destroyed *)
| EComplete (id : QueryID) (r : nng_error) (m : msg)
| EFinish (id : QueryID).

(** [None]: the event cannot happen.  NNG gives a new context an id that no
    open context has. *)
Definition step (s : Request H msg) (e : event) : option (result exn unit * Request H msg) :=
  match e with
  | ERequest made m =>
      if match made with inr fresh => bool_decide (fresh = 0 ∨ is_Some (r_actions s !! fresh)) | inl _ => false end then None
      else Some (let '(r, s') := request made m s in
                 (match r with Ret _ => Ret tt | Throw e => Throw e | Fault f => Fault f end, s'))
  | EInitialize h => Some (initialize h s)
  | EReady b => Some (Ret tt, set_ready b s)
  | EExpire => Some (Ret tt, set_handler None s)
  | EComplete id r m =>
      match a_op <$> r_actions s !! id with
      | Some (OpSend _) | Some OpRecv => Some (callback id r m s)
      | _ => None
      end
  | EFinish id => c ← r_finishing s !! id; Some (callback_finish id c s)
  end.

Inductive reachable : Request H msg → Prop :=
| reach_new : reachable new
| reach_step s e r s' : reachable s → step s e = Some (r, s') → reachable s'.

(** The same without the end of the handler. *)
Inductive reachable_alive : Request H msg → Prop :=
| alive_new : reachable_alive new
| alive_step s e r s' : reachable_alive s → e ≠ EExpire → step s e = Some (r, s') → reachable_alive s'.

(** Run events that return. *)
Fixpoint run (s : Request H msg) (es : list event) : option (Request H msg) :=
  match es with
  | [] => Some s
  | e :: es => match step s e with Some (Ret _, s') => run s' es | _ => None end
  end.

(** ** The destructor

    [~Request] cancels the operations of the active actions, waits until none
    is active, and deletes those of the pool.  While it waits, NNG ends
    operations and runs callbacks. *)
Record Dying : Type := mkDying {
  dy_request : Request H msg;
  dy_cancelled : gset QueryID;    (** operations that NNG has been told to cancel *)
}.

Definition in_flight (s : Request H msg) (id : QueryID) : bool :=
  match a_op <$> r_actions s !! id with Some (OpSend _) | Some OpRecv => true | _ => false end.

(** [aio.cancel()] of each active action: without effect where no operation
    is in progress. *)
Definition cancel_active (s : Request H msg) : Dying := mkDying s (filter (λ id, in_flight s id) (r_active s)).

(** The action whose [aio.wait()] the loop calls next; [None]: the loop ends. *)
Definition waits_for (d : Dying) : option QueryID := next_of (r_active (dy_request d)).

(** What can happen meanwhile.  A cancelled operation may still end as it
    would have. *)
Definition dying_step (d : Dying) (e : event) : option (result exn unit * Dying) :=
  match e with
  | EComplete id _ _ =>
      '(r, s) ← step (dy_request d) e; Some (r, mkDying s (dy_cancelled d ∖ {[id]}))
  | EFinish _ => '(r, s) ← step (dy_request d) e; Some (r, mkDying s (dy_cancelled d))
  | _ => None
  end.
Definition dying_run : Dying → list event → option Dying := run_events dying_step.

(** The end: the actions of the pool are deleted.  The result: the actions
    that are left, those with a context and the number of those without. *)
Definition delete_idle (s : Request H msg) : result exn (gmap QueryID (Action msg) * nat) :=
  left ← delete_all (r_idle s) (r_actions s); Ret (left, r_lost s).

End Ops.
Arguments event : clear implicits.
Arguments Dying : clear implicits.
End RequestOps.

(** ** [Request_Box]

    The shared state of a [std::promise] and its [std::future]. *)
Inductive future (msg : Type) : Type :=
| FPending
| FValue (m : msg)
| FException (e : exn).
Arguments FPending {msg}.
Arguments FValue {msg} m.
Arguments FException {msg} e.

(** [Request_Box::Delegate]: the queries pending, each with whether it was
    sent and its promise; [newQueryID]; and the promises made so far, whose
    shared states are numbered in the order of creation.  A promise that is
    destroyed without a value leaves a [broken_promise] error in its future:
    here it stays pending. *)
Record Pending : Type := mkPending { p_sent : bool; p_promise : nat }.
Record Delegate (msg : Type) : Type := mkDelegate {
  d_pending : gmap QueryID Pending;
  d_newQueryID : QueryID;
  d_futures : list (future msg);
}.
Arguments mkDelegate {msg} _ _ _.
Arguments d_pending {msg} _.
Arguments d_newQueryID {msg} _.
Arguments d_futures {msg} _.

Module RequestBox.
Section Box.
Context {msg : Type}.

Definition new_delegate : Delegate msg := mkDelegate ∅ 0 [].

(** [getFuture]: the number of the shared state. *)
Definition getFuture (qid : QueryID) : M exn (Delegate msg) nat :=
  d ← get;
  match d_pending d !! qid with
  | Some p =>
      if negb (qid =? d_newQueryID d)
      then throw (NngException internal (lit "Inconsistent Query ID"))
      else modify (λ d, mkDelegate (d_pending d) 0 (d_futures d));; mret (p_promise p)
  | None => throw (NngException internal (lit "Inconsistent Query ID"))
  end.

(** [async_prep]: [emplace] keeps an entry that is already there. *)
Definition box_prep (id : QueryID) (query : msg) (d : Delegate msg) : (exn + option msg) * Delegate msg :=
  (inr (Some query),
   mkDelegate
     match d_pending d !! id with
     | Some _ => d_pending d
     | None => <[id := mkPending false (length (d_futures d))]> (d_pending d)
     end
     id (d_futures d ++ [FPending])).

(** [async_sent] does not take the mutex; it is one step here, and writes only
    the flag of its own query. *)
Definition box_sent (id : QueryID) (d : Delegate msg) : Delegate msg :=
  match d_pending d !! id with
  | Some p => mkDelegate (<[id := mkPending true (p_promise p)]> (d_pending d)) (d_newQueryID d) (d_futures d)
  | None => d
  end.

Definition box_recv (id : QueryID) (response : msg) (d : Delegate msg) : Delegate msg :=
  match d_pending d !! id with
  | Some p => mkDelegate (delete id (d_pending d)) (d_newQueryID d)
                (<[p_promise p := FValue response]> (d_futures d))
  | None => d
  end.

Definition box_error (id : QueryID) (status : nng_error) (d : Delegate msg) : Delegate msg :=
  match d_pending d !! id with
  | Some p =>
      mkDelegate (delete id (d_pending d)) (d_newQueryID d)
        (<[p_promise p := FException (NngException status
             (if p_sent p then lit "Request could not be fulfilled."
              else lit "Request could not be sent."))]> (d_futures d))
  | None => d
  end.

#[export] Instance Delegate_handler : AsyncQuery (Delegate msg) msg := {
  q_prep := box_prep;
  q_sent := box_sent;
  q_recv := box_recv;
  q_error := box_error;
}.

(** [_delegate->getFuture(qid)], the second call of [request]. *)
Definition take_future (qid : QueryID) : M exn (Request (Delegate msg) msg) nat :=
  s ← get;
  match r_handler s with
  | Some d =>
      let '(r, d') := getFuture qid d in
      modify (RequestOps.set_handler (Some d'));;
      lift r
  | None => fail NullDeref
  end.

(** [request]: between the two calls the mutexes are free, and the callback
    of the query or another [request] may run: [interleaved] is what they do. *)
Definition request (made : exn + QueryID) (m : msg)
    (interleaved : Request (Delegate msg) msg → Request (Delegate msg) msg) :
    M exn (Request (Delegate msg) msg) nat :=
  qid ← RequestOps.request made m;
  modify interleaved;;
  take_future qid.

End Box.
End RequestBox.
