(* ===== verification/ClientRequestFacts.v ===== *)
(** * Requests: one query per context, one outcome per query

    Theorems about [Request] with any handler. *)
From stdpp Require Import gmap.
From S2P Require Import Prelude.
From S2P Require Import Nng.
From S2P Require Import MsgUtil.
From S2P Require Import ClientRequest.

Module RequestFacts.
Import RequestOps.

(** ** The life of a query

    The specification: the phases a context goes through. *)
Inductive phase : Set :=
| PIdle        (** not in use *)
| PSending     (** the request is being sent *)
| PSent        (** [async_sent] was called; the receive has not started *)
| PReceiving   (** waiting for the response *)
| PDone.       (** the outcome is known; not yet back in the pool *)

#[export] Instance phase_eq_dec : EqDecision phase.
Proof. solve_decision. Defined.

(** The phase of a context, from its action, its membership of [active], and
    its callback. *)
Definition view_phase {msg} (a : option (Action msg)) (active : bool) (fin : option bool) : option phase :=
  match active, a, fin with
  | false, None, None | false, Some (mkAction IDLE OpNone), None => Some PIdle
  | true, Some (mkAction SEND (OpSend _)), None => Some PSending
  | true, Some (mkAction SEND OpNone), Some false => Some PSent
  | true, Some (mkAction RECV OpRecv), None => Some PReceiving
  | true, Some (mkAction (SEND | RECV) OpNone), Some true => Some PDone
  | _, _, _ => None
  end.

(** What the handler has been told about a context, as an automaton: a query
    accepted by [async_prep] is followed by [async_error], or by [async_sent]
    and then one of [async_recv] and [async_error]. *)
Inductive told : Set := TNothing | TPrepared | TSent.

#[export] Instance told_eq_dec : EqDecision told.
Proof. solve_decision. Defined.

Definition tell {msg} (t : told) (c : query_call msg) : option told :=
  match t, c with
  | TNothing, CPrep => Some TPrepared
  | TPrepared, CSent => Some TSent
  | TPrepared, CError _ => Some TNothing
  | TSent, (CRecv _ | CError _) => Some TNothing
  | _, _ => None
  end.

Fixpoint tell_all {msg} (t : told) (id : QueryID) (cs : list (QueryID * query_call msg)) : option told :=
  match cs with
  | [] => Some t
  | (id', c) :: cs =>
      if bool_decide (id' = id) then (t' ← tell t c; tell_all t' id cs) else tell_all t id cs
  end.

Definition told_of (p : phase) : told :=
  match p with PIdle | PDone => TNothing | PSending => TPrepared | PSent | PReceiving => TSent end.

(** How far a phase is from the pool. *)
Definition weight (p : phase) : nat :=
  match p with PIdle => 0 | PDone => 1 | PReceiving => 2 | PSent => 3 | PSending => 4 end.

Section Invariant.
Context {H msg : Type} {Hops : AsyncQuery H msg}.
Implicit Types (s : Request H msg) (id : QueryID).

Definition phase_of s id : option phase :=
  view_phase (r_actions s !! id) (bool_decide (id ∈ r_active s)) (r_finishing s !! id).

Record Inv s : Prop := {
  inv_phase id : is_Some (phase_of s id);
  inv_nodup : NoDup (r_idle s);
  inv_idle id : id ∈ r_idle s → r_actions s !! id = Some (mkAction IDLE OpNone);
}.

(** While the handler lives: the calls made agree with the phases. *)
Record Told s : Prop := {
  told_phase id p : phase_of s id = Some p → tell_all TNothing id (r_calls s) = Some (told_of p);
  told_handler : r_handler s = None → ∀ id p, phase_of s id = Some p → p = PIdle;
}.

Lemma tell_all_snoc t id cs id' (c : query_call msg) :
  tell_all t id (cs ++ [(id', c)]) =
    if bool_decide (id' = id) then t' ← tell_all t id cs; tell t' c else tell_all t id cs.
Proof.
  revert t. induction cs as [|[i d] cs IH]; intros t; simpl.
  - case_bool_decide; [|done]. by destruct (tell t c).
  - destruct (bool_decide (i = id)); [|apply IH]. destruct (tell t d) as [t'|]; simpl; [apply IH|].
    by case_bool_decide.
Qed.

(** Contexts in the pool are idle. *)
Lemma idle_phase s id : Inv s → id ∈ r_idle s → phase_of s id = Some PIdle.
Proof.
  intros [H1 H2 H3] Hid. specialize (H1 id). unfold phase_of in *. rewrite (H3 id Hid) in *.
  by destruct (bool_decide (id ∈ r_active s)), (r_finishing s !! id) as [[]|]; destruct H1.
Qed.

Lemma phase_other s s' id id' :
  r_actions s' !! id' = r_actions s !! id' → (id' ∈ r_active s' ↔ id' ∈ r_active s) →
  r_finishing s' !! id' = r_finishing s !! id' → phase_of s' id' = phase_of s id'.
Proof. intros E1 E2 E3. unfold phase_of. rewrite E1, E3. by rewrite (bool_decide_ext _ _ E2). Qed.

(** A context comes nearer to the pool. *)
Definition advances s s' id : Prop :=
  ∃ p p', phase_of s id = Some p ∧ phase_of s' id = Some p' ∧ (weight p' < weight p)%nat
    ∧ (∀ i, i ≠ id → phase_of s' i = phase_of s i) ∧ (∀ i, i ≠ id → r_actions s' !! i = r_actions s !! i)
    ∧ (∀ i, i ∈ r_idle s → i ∈ r_idle s') ∧ (p' = PIdle → id ∈ r_idle s').

(** A step that changes one context, and tells the handler of it at most. *)
Record changes s s' id (p p' : phase) (c : option (query_call msg)) : Prop := {
  ch_from : phase_of s id = Some p;
  ch_to : phase_of s' id = Some p';
  ch_other id' : id' ≠ id → phase_of s' id' = phase_of s id';
  ch_idle : r_idle s' = r_idle s ∨ (p' = PIdle ∧ r_idle s' = r_idle s ++ [id])
            ∨ (p = PIdle ∧ r_idle s = id :: r_idle s');
  ch_actions id' : id' ≠ id → r_actions s' !! id' = r_actions s !! id';
  ch_self : p' = PIdle → r_actions s' !! id = Some (mkAction IDLE OpNone);
  ch_calls : r_calls s' = r_calls s ++ match c with Some c => [(id, c)] | None => [] end;
}.

Lemma changes_Inv s s' id p p' c :
  Inv s → changes s s' id p p' c → (p ≠ PIdle ∨ p' ≠ PIdle) →
  (p' ≠ PIdle → p = PIdle → id ∉ r_idle s') → Inv s'.
Proof.
  intros HI [Hf Ht Ho Hidle Ha Hs _] Hp Hout. split.
  - intros id'. destruct (decide (id' = id)) as [->|Hne]; [by rewrite Ht|]. rewrite (Ho id' Hne). apply HI.
  - destruct Hidle as [->|[[-> ->]|[-> E]]]; [apply HI| |].
    + apply NoDup_app. split_and!; [apply HI | | apply NoDup_singleton].
      intros x Hx ->%list_elem_of_singleton. rewrite (idle_phase s id HI Hx) in Hf. by destruct Hp; simplify_eq.
    + pose proof (inv_nodup s HI) as Hn. rewrite E in Hn. by inversion Hn.
  - intros id' Hin. destruct (decide (id' = id)) as [->|Hne].
    + apply Hs. destruct (decide (p' = PIdle)) as [|Hp']; [done|]. exfalso.
      destruct (decide (p = PIdle)) as [->|Hp0]; [by apply Hout|].
      destruct Hidle as [E|[[? _]|[? _]]]; [|done..]. rewrite E in Hin.
      rewrite (idle_phase s id HI Hin) in Hf. congruence.
    + rewrite (Ha id' Hne). apply HI. destruct Hidle as [E|[[_ E]|[_ E]]].
      * by rewrite <- E.
      * rewrite E in Hin. apply elem_of_app in Hin as [?|Hin]; [done|].
        by apply list_elem_of_singleton in Hin.
      * rewrite E. by right.
Qed.

Lemma changes_Told s s' id p p' c :
  Told s → changes s s' id p p' c →
  match c with Some c => tell (told_of p) c = Some (told_of p') | None => told_of p = told_of p' end →
  (r_handler s' = None → p' = PIdle ∧ r_handler s = None) → Told s'.
Proof.
  intros [H1 H2] [Hf Ht Ho _ _ _ Hc] Htell Hh. split.
  - intros id' q Hq. rewrite Hc. destruct (decide (id' = id)) as [->|Hne].
    + rewrite Ht in Hq. injection Hq as <-. specialize (H1 id p Hf). destruct c as [c|].
      * rewrite tell_all_snoc, bool_decide_true, H1 by done. done.
      * by rewrite app_nil_r, H1, Htell.
    + rewrite (Ho id' Hne) in Hq. specialize (H1 id' q Hq). destruct c as [c|].
      * by rewrite tell_all_snoc, bool_decide_false by done.
      * by rewrite app_nil_r.
  - intros Hn id' q Hq. destruct (Hh Hn) as [-> Hn']. destruct (decide (id' = id)) as [->|Hne].
    + congruence.
    + rewrite (Ho id' Hne) in Hq. by eapply H2.
Qed.

Lemma changes_advances s s' id p p' c :
  changes s s' id p p' c → (weight p' < weight p)%nat → (p' = PIdle → id ∈ r_idle s') → advances s s' id.
Proof.
  intros [Hf Ht Ho Hidle Ha _ _] Hw Hin. exists p, p'. split_and!; try done.
  intros i Hi. destruct Hidle as [->|[[_ ->]|[-> _]]]; [done | apply elem_of_app; by left | simpl in Hw; lia].
Qed.

(** ** What a step does to the handler *)

Definition told_at s id : told := told_of (default PIdle (phase_of s id)).

Inductive effect (started : option H) s s' : Prop :=
| eff_none :
    r_handler s' = r_handler s → (∀ i, told_at s' i = told_at s i) → effect started s s'
| eff_start h :
    started = Some h →
    r_handler s = None → r_handler s' = Some h → (∀ i, told_at s' i = told_at s i) → effect started s s'
| eff_decline id m h r h' :
    r_handler s = Some h → q_prep id m h = (r, h') → (∀ m', r ≠ inr (Some m')) →
    told_at s id = TNothing → r_handler s' = Some h' → (∀ i, told_at s' i = told_at s i) → effect started s s'
| eff_tell id h h' t :
    r_handler s = Some h → r_handler s' = Some h' →
    (∀ i, i ≠ id → told_at s' i = told_at s i) → told_at s' id = t →
    match told_at s id, t with
    | TNothing, TPrepared => ∃ m m', q_prep id m h = (inr (Some m'), h')
    | TPrepared, TSent => h' = q_sent id h
    | TSent, TNothing => (∃ m, h' = q_recv id m h) ∨ (∃ e, h' = q_error id e h)
    | TPrepared, TNothing => ∃ e, h' = q_error id e h
    | _, _ => False
    end → effect started s s'.

Lemma told_same s s' : (∀ id, phase_of s' id = phase_of s id) → ∀ id, told_at s' id = told_at s id.
Proof. intros Hp id. unfold told_at. by rewrite Hp. Qed.

Lemma changes_told s s' id p p' c :
  changes s s' id p p' c →
  told_at s id = told_of p ∧ told_at s' id = told_of p' ∧ ∀ i, i ≠ id → told_at s' i = told_at s i.
Proof.
  intros [Hf Ht Ho _ _ _ _]. unfold told_at. rewrite Hf, Ht. split_and!; [done..|].
  intros i Hi. by rewrite (Ho i Hi).
Qed.

(** ** The operations *)

Lemma set_state_eq s id st a :
  r_actions s !! id = Some a → set_state id st s = (Ret tt, set_action id (mkAction st (a_op a)) s).
Proof. intros E. unfold set_state, action, mbind, M_bind, get, modify. by rewrite E. Qed.

Lemma start_op_eq s id op st :
  r_actions s !! id = Some (mkAction st OpNone) → start_op id op s = (Ret tt, set_action id (mkAction st op) s).
Proof. intros E. unfold start_op, action, mbind, M_bind, get, modify. by rewrite E. Qed.

Lemma request_Inv_same s s' :
  Inv s → (∀ id, phase_of s' id = phase_of s id) → NoDup (r_idle s') →
  (∀ id, id ∈ r_idle s' → r_actions s' !! id = Some (mkAction IDLE OpNone)) → Inv s'.
Proof. intros HI Hp Hn Hi. split; [intros id; rewrite Hp; apply HI | done | done]. Qed.

Lemma Told_same s s' :
  Told s → (∀ id, phase_of s' id = phase_of s id) → r_calls s' = r_calls s →
  (r_handler s' = None → r_handler s = None) → Told s'.
Proof.
  intros [H1 H2] Hp Hc Hh. split.
  - intros id p. rewrite Hp, Hc. apply H1.
  - intros Hn id p. rewrite Hp. by apply H2, Hh.
Qed.

(** What is made for a new action has no id that is in use. *)
Definition fresh_made (made : exn + QueryID) s : Prop :=
  match made with inr fresh => r_actions s !! fresh = None | inl _ => True end.

(** A context is taken from the pool or created, unless it cannot be created. *)
Lemma allocate_ok made s :
  Inv s → fresh_made made s → (∀ e, made = inl e → r_idle s ≠ []) →
  ∃ id s1, allocate made s = (Ret id, s1) ∧ Inv s1 ∧ (∀ i, phase_of s1 i = phase_of s i)
    ∧ r_actions s1 !! id = Some (mkAction IDLE OpNone) ∧ (id ∉ r_idle s1) ∧ phase_of s1 id = Some PIdle
    ∧ r_calls s1 = r_calls s ∧ r_handler s1 = r_handler s
    ∧ r_active s1 = r_active s ∧ r_finishing s1 = r_finishing s
    ∧ r_lost s1 = r_lost s.
Proof.
  intros HI Hf Hm. unfold allocate, mbind, M_bind, get, modify, mret, M_ret.
  destruct (r_idle s) as [|id rest] eqn:Ei.
  - destruct made as [e|fresh]; [by destruct (Hm e)|]. simpl in Hf. exists fresh, (set_action fresh (mkAction IDLE OpNone) s).
    assert (phase_of s fresh = Some PIdle) as Hp.
    { destruct (inv_phase s HI fresh) as [p Hp]. unfold phase_of in *. rewrite Hf in *.
      by destruct (bool_decide _), (r_finishing s !! fresh) as [[]|]. }
    assert (∀ i, phase_of (set_action fresh (mkAction IDLE OpNone) s) i = phase_of s i) as Hs.
    { intros i. destruct (decide (i = fresh)) as [->|Hne].
      - rewrite Hp. unfold phase_of in *. simpl. rewrite Hf in Hp. rewrite lookup_insert_eq.
        by destruct (bool_decide _), (r_finishing s !! fresh) as [[]|].
      - apply (phase_other _ _ fresh); simpl; [by rewrite lookup_insert_ne | done | done]. }
    split_and!; try done; simpl; [|by rewrite lookup_insert_eq|by rewrite Ei; apply not_elem_of_nil|by rewrite Hs].
    apply (request_Inv_same s); [done | done | by simpl; rewrite Ei; constructor |].
    simpl. rewrite Ei. intros i Hin. by apply elem_of_nil in Hin.
  - exists id, (set_idle rest s). pose proof (inv_nodup s HI) as Hn. rewrite Ei in Hn.
    inversion Hn; subst. assert (id ∈ r_idle s) as Hin by (rewrite Ei; left).
    split_and!; try done; simpl.
    + apply (request_Inv_same s); [done | done | done |]. simpl. intros i Hi. apply HI. rewrite Ei. by right.
    + by apply HI.
    + exact (idle_phase s id HI Hin).
Qed.

(** The context of an accepted request begins to send. *)
Definition sending id (m : msg) s : Request H msg :=
  set_action id (mkAction SEND (OpSend m))
    (set_active ({[id]} ∪ r_active s) (set_action id (mkAction SEND OpNone) (log_call id CPrep s))).

Lemma sending_changes s id m :
  r_actions s !! id = Some (mkAction IDLE OpNone) → phase_of s id = Some PIdle →
  changes s (sending id m s) id PIdle PSending (Some CPrep).
Proof.
  intros Ha Hph. split; [done | | | by left | | done | done].
  - unfold phase_of in *. simpl. rewrite lookup_insert_eq, bool_decide_true by (apply elem_of_union_l, elem_of_singleton_2; done).
    rewrite Ha in Hph. by destruct (bool_decide _), (r_finishing s !! id) as [[]|].
  - intros i Hne. apply (phase_other _ _ id); simpl; [by rewrite !lookup_insert_ne | by rewrite elem_of_union, elem_of_singleton; tauto | done].
  - intros i Hne. simpl. by rewrite !lookup_insert_ne.
Qed.

Lemma request_ok made m s :
  Inv s → fresh_made made s →
  (∃ e s', request made m s = (Throw e, s') ∧ Inv s' ∧ (Told s → Told s') ∧ effect None s s') ∨
  (∃ id s', request made m s = (Ret id, s') ∧ phase_of s id = Some PIdle
     ∧ phase_of s' id = Some PSending ∧ Inv s' ∧ (Told s → Told s') ∧ effect None s s'
     ∧ ∃ m', r_actions s' !! id = Some (mkAction SEND (OpSend m'))).
Proof.
  intros HI Hf. unfold request. erewrite bind_run by reflexivity. cbv beta.
  assert (effect None s s) as Hself by (by apply eff_none).
  destruct (r_ready s); [|left; by eexists _, _]. cbv beta iota delta [negb].
  destruct (r_handler s) as [h|] eqn:Eh; [|left; by eexists _, _].
  assert ((∃ e, made = inl e ∧ r_idle s = []) ∨ ∀ e, made = inl e → r_idle s ≠ []) as [(e & -> & Ei)|Hm].
  { destruct made as [e|]; [|by right]. destruct (r_idle s); [left; by exists e | by right]. }
  { left. exists e, (lose_action s). split_and!; [|by apply (request_Inv_same s); try done; apply HI | intros HT; by apply (Told_same s) | by apply eff_none].
    unfold allocate, mbind, M_bind, get, modify, throw. by rewrite Ei. }
  destruct (allocate_ok made s HI Hf Hm) as (id & s1 & E & HI1 & Hp & Ha & Hni & Hph & Hc & Hh & Hact & Hfin & _).
  rewrite (bind_run _ _ _ _ _ E). cbv beta.
  destruct (q_prep id m h) as [r h'] eqn:Eq. rewrite modify_run.
  set (s2 := set_handler (Some h') s1).
  assert (∀ i, phase_of s2 i = phase_of s i) as Hp2 by done.
  assert (Inv s2) as HI2 by (apply (request_Inv_same s1); [done | done | apply HI1 | apply HI1]).
  destruct r as [e|[m'|]].
  - left. eexists _, _. split; [reflexivity|]. split_and!; [done | |].
    + intros HT. apply (Told_same s); done.
    + eapply (eff_decline _ s s2 id m h); [done | exact Eq | done | | done | by apply told_same].
      unfold told_at. by rewrite <- Hp, Hph.
  - right. pose proof (sending_changes s2 id m' Ha ltac:(by rewrite Hp2, <- Hp)) as Hch.
    exists id, (sending id m' s2). split_and!.
    + rewrite modify_run.
      erewrite bind_run by (by apply (set_state_eq _ id SEND (mkAction IDLE OpNone))).
      rewrite modify_run.
      erewrite bind_run by (apply (start_op_eq _ id (OpSend m') SEND); simpl; apply lookup_insert_eq).
      done.
    + by rewrite <- Hp.
    + apply Hch.
    + eapply changes_Inv; [exact HI2 | exact Hch | by right |]. by intros _ _.
    + intros HT. eapply (changes_Told s2); [|exact Hch | done | done]. by apply (Told_same s).
    + destruct (changes_told _ _ _ _ _ _ Hch) as (T1 & T2 & T3). pose proof (told_same s s2 Hp2) as Ts. rewrite Ts in T1.
      apply (eff_tell _ s _ id h h' TPrepared); [done | done | | exact T2 |].
      * intros i Hi. by rewrite (T3 i Hi), Ts.
      * rewrite T1. simpl. by exists m, m'.
    + exists m'. simpl. apply lookup_insert_eq.
  - left. eexists _, _. split; [reflexivity|]. split.
    + apply (request_Inv_same s2); [done | done | |].
      * simpl. constructor; [done | apply HI1].
      * simpl. intros i [->|Hi]%elem_of_cons; [done | by apply HI1].
    + split; [intros HT; by apply (Told_same s)|].
      eapply (eff_decline _ s _ id m h); [done | exact Eq | done | | done | by apply told_same].
      unfold told_at. by rewrite <- Hp, Hph.
Qed.

(** ** The callback *)

(** The two contexts of [active] on which an operation is in progress. *)
Lemma op_phase s id a :
  Inv s → r_actions s !! id = Some a → a_op a ≠ OpNone →
  (a_state a = SEND ∧ phase_of s id = Some PSending ∨ a_state a = RECV ∧ phase_of s id = Some PReceiving)
  ∧ id ∈ r_active s ∧ r_finishing s !! id = None ∧ (id ∉ r_idle s).
Proof.
  intros HI Ha Hop. destruct (inv_phase s HI id) as [p Hp]. unfold phase_of in *. rewrite Ha in *.
  assert (id ∉ r_idle s) as Hni.
  { intros Hin. rewrite (inv_idle s HI id Hin) in Ha. injection Ha as <-. done. }
  destruct a as [st op]. simpl in *.
  destruct (bool_decide (id ∈ r_active s)) eqn:Eb.
  - apply bool_decide_eq_true in Eb.
    destruct st, op, (r_finishing s !! id) as [[]|]; simpl in Hp; try done; split_and!; auto.
  - by destruct st, op, (r_finishing s !! id) as [[]|].
Qed.

(** The states after the first part of the callback. *)
Lemma callback_changes s id a (c : bool) h cc :
  Inv s → r_actions s !! id = Some a → a_op a ≠ OpNone → (c = false → a_state a = SEND) →
  let s' := mkRequest (r_ready s) h (<[id := mkAction (a_state a) OpNone]> (r_actions s)) (r_active s)
              (r_idle s) (<[id := c]> (r_finishing s))
              (r_calls s ++ match cc with Some x => [(id, x)] | None => [] end) (r_lost s) in
  let p := if decide (a_state a = SEND) then PSending else PReceiving in
  changes s s' id p (if c then PDone else PSent) cc ∧ Inv s'.
Proof.
  intros HI Ha Hop Hc s' p. destruct (op_phase s id a HI Ha Hop) as (Hph & Hact & Hfin & Hni).
  assert (p ≠ PIdle) as Hp by (unfold p; by case_decide).
  assert (changes s s' id p (if c then PDone else PSent) cc) as Hch.
  { split.
    - unfold p. destruct Hph as [[E ->]|[E ->]]; by rewrite E.
    - unfold phase_of. simpl. rewrite !lookup_insert_eq, bool_decide_true by done.
      destruct a as [st op]. destruct Hph as [[E _]|[E _]]; simpl in *; subst st; destruct c; try done.
      by specialize (Hc eq_refl).
    - intros i Hne. apply (phase_other _ _ id); simpl; [by rewrite lookup_insert_ne | done | by rewrite lookup_insert_ne].
    - by left.
    - intros i Hne. simpl. by rewrite lookup_insert_ne.
    - by destruct c.
    - done. }
  split; [done|]. eapply changes_Inv; [exact HI | exact Hch | by left |]. intros _ E. done.
Qed.

Lemma callback_ok s id r m a :
  Inv s → r_actions s !! id = Some a → a_op a ≠ OpNone →
  ∃ s', callback id r m s = (Ret tt, s') ∧ Inv s' ∧ advances s s' id ∧ (Told s → Told s' ∧ effect None s s').
Proof.
  intros HI Ha Hop. destruct (op_phase s id a HI Ha Hop) as (Hph & Hact & Hfin & Hni).
  unfold callback, action. erewrite bind_run by (unfold mbind, M_bind, get; rewrite Ha; reflexivity).
  rewrite modify_run. erewrite bind_run by reflexivity. cbv beta.
  cbn [r_handler set_action].
  destruct (r_handler s) as [h|] eqn:Eh.
  2: { destruct (callback_changes s id a true None None HI Ha Hop) as [Hch HI']; [done|].
       eexists. split; [unfold mbind, M_bind, mret, M_ret, modify, set_finishing; simpl; rewrite Eh; reflexivity|].
       rewrite app_nil_r in *. split; [done|]. split; [eapply changes_advances; [exact Hch | case_decide; simpl; lia | done]|].
       intros [_ Hd]. exfalso.
       destruct Hph as [[_ Hp]|[_ Hp]]; by specialize (Hd Eh id _ Hp). }
  destruct (decide (r = success)) as [->|Hr].
  - destruct (a_state a) eqn:Est.
    + destruct Hph as [[? _]|[? _]]; done.
    + destruct (callback_changes s id a false (Some (q_sent id h)) (Some CSent) HI Ha Hop) as [Hch HI']; [done|].
      rewrite Est in *. eexists. split; [reflexivity|]. split; [exact HI'|].
      split; [eapply changes_advances; [exact Hch | simpl; lia | done]|]. intros HT. split; [eapply changes_Told; [exact HT | exact Hch | done | done]|].
      destruct (changes_told _ _ _ _ _ _ Hch) as (T1 & T2 & T3).
      eapply eff_tell; [exact Eh | reflexivity | exact T3 | exact T2 | by rewrite T1].
    + destruct (callback_changes s id a true (Some (q_recv id m h)) (Some (CRecv m)) HI Ha Hop) as [Hch HI']; [done|].
      rewrite Est in *. eexists. split; [reflexivity|]. split; [exact HI'|].
      split; [eapply changes_advances; [exact Hch | simpl; lia | done]|]. intros HT. split; [eapply changes_Told; [exact HT | exact Hch | done | done]|].
      destruct (changes_told _ _ _ _ _ _ Hch) as (T1 & T2 & T3).
      eapply eff_tell; [exact Eh | reflexivity | exact T3 | exact T2 | rewrite T1; simpl; eauto].
  - destruct (callback_changes s id a true (Some (q_error id r h)) (Some (CError r)) HI Ha Hop) as [Hch HI']; [done|].
    eexists. split; [destruct r; by try reflexivity|]. split; [exact HI'|].
    split; [eapply changes_advances; [exact Hch | case_decide; simpl; lia | done]|]. intros HT. split; [eapply changes_Told; [exact HT | exact Hch | by case_decide | done]|].
    destruct (changes_told _ _ _ _ _ _ Hch) as (T1 & T2 & T3).
    eapply eff_tell; [exact Eh | reflexivity | exact T3 | exact T2 | rewrite T1; case_decide; simpl; eauto].
Qed.

(** A change that tells the handler nothing. *)
Lemma silent_ok s s' id p p' :
  Inv s → changes s s' id p p' None → p ≠ PIdle → told_of p = told_of p' → r_handler s' = r_handler s →
  (weight p' < weight p)%nat → (p' = PIdle → id ∈ r_idle s') →
  Inv s' ∧ advances s s' id ∧ (Told s → Told s') ∧ effect None s s'.
Proof.
  intros HI Hch Hp Ht Hh Hw Hin. split_and!.
  - eapply changes_Inv; [exact HI | exact Hch | by left | done].
  - by eapply changes_advances.
  - intros HT. eapply changes_Told; [exact HT | exact Hch | done |]. rewrite Hh. intros Hn.
    destruct HT as [_ Hd]. by specialize (Hd Hn id _ (ch_from _ _ _ _ _ _ Hch)).
  - destruct (changes_told _ _ _ _ _ _ Hch) as (T1 & T2 & T3). apply eff_none; [done|].
    intros i. destruct (decide (i = id)) as [->|Hne]; [by rewrite T1, T2 | by apply T3].
Qed.

(** The second part: the context goes back to the pool. *)
Lemma finish_pool s id :
  Inv s → r_finishing s !! id = Some true → phase_of s id = Some PDone →
  ∃ s', callback_finish id true s = (Ret tt, s') ∧ Inv s' ∧ advances s s' id ∧ (Told s → Told s') ∧ effect None s s'.
Proof.
  intros HI Hfin Hp. pose proof Hp as Hp0. unfold phase_of in Hp. rewrite Hfin in Hp.
  destruct (r_actions s !! id) as [a|] eqn:Ha; [|by destruct (bool_decide _)].
  assert (a_op a = OpNone) as Hop by (by destruct (bool_decide _), a as [[] []]).
  unfold callback_finish. rewrite modify_run.
  erewrite bind_run by (by apply (set_state_eq _ id IDLE a)). rewrite Hop.
  unfold action at 1. erewrite bind_run
    by (unfold mbind, M_bind, get; simpl; rewrite lookup_insert_eq; reflexivity). cbn [a_state].
  erewrite bind_run by (apply (set_state_eq _ id IDLE (mkAction IDLE OpNone)); simpl; apply lookup_insert_eq).
  rewrite modify_run. eexists. split; [reflexivity|].
  apply (silent_ok s _ id PDone PIdle); simpl; [done | | done | done | done | lia |].
  2: { intros _. apply elem_of_app. right. by apply list_elem_of_singleton. }
  split; simpl; [done | | | right; by left | | intros _; apply lookup_insert_eq | by rewrite app_nil_r].
  - unfold phase_of. simpl. rewrite lookup_insert_eq, lookup_delete_eq, bool_decide_false; [done|].
    rewrite elem_of_difference, elem_of_singleton. tauto.
  - intros i Hne. apply (phase_other _ _ id); simpl; [by rewrite !lookup_insert_ne | | by rewrite lookup_delete_ne].
    rewrite elem_of_difference, elem_of_singleton. tauto.
  - intros i Hne. by rewrite !lookup_insert_ne.
Qed.

(** It waits for the response. *)
Lemma finish_waits s id :
  Inv s → r_finishing s !! id = Some false → phase_of s id = Some PSent →
  ∃ s', callback_finish id false s = (Ret tt, s') ∧ Inv s' ∧ advances s s' id ∧ (Told s → Told s') ∧ effect None s s'.
Proof.
  intros HI Hfin Hp. pose proof Hp as Hp0. unfold phase_of in Hp. rewrite Hfin in Hp.
  destruct (r_actions s !! id) as [a|] eqn:Ha; [|by destruct (bool_decide _)].
  assert (id ∈ r_active s ∧ a = mkAction SEND OpNone) as [Hact ->].
  { destruct (bool_decide (id ∈ r_active s)) eqn:Eb; [apply bool_decide_eq_true in Eb|]; by destruct a as [[] []]. }
  unfold callback_finish. rewrite modify_run. erewrite bind_run by reflexivity. unfold action at 1.
  erewrite bind_run by (unfold mbind, M_bind, get; simpl; rewrite Ha; reflexivity). cbn [a_state].
  erewrite bind_run by (by apply (set_state_eq _ id RECV (mkAction SEND OpNone))).
  rewrite (start_op_eq _ id OpRecv RECV) by (simpl; apply lookup_insert_eq).
  eexists. split; [reflexivity|].
  apply (silent_ok s _ id PSent PReceiving); simpl; [done | | done | done | done | lia | done].
  split; simpl; [done | | | by left | | done | by rewrite app_nil_r].
  - unfold phase_of. simpl. by rewrite lookup_insert_eq, lookup_delete_eq, bool_decide_true.
  - intros i Hne. apply (phase_other _ _ id); simpl; [by rewrite !lookup_insert_ne | done | by rewrite lookup_delete_ne].
  - intros i Hne. by rewrite !lookup_insert_ne.
Qed.

Lemma finish_ok s id c :
  Inv s → r_finishing s !! id = Some c →
  ∃ s', callback_finish id c s = (Ret tt, s') ∧ Inv s' ∧ advances s s' id ∧ (Told s → Told s') ∧ effect None s s'.
Proof.
  intros HI Hfin. assert (phase_of s id = Some (if c then PDone else PSent)) as Hp.
  { destruct (inv_phase s HI id) as [p Hp]. rewrite Hp. unfold phase_of in Hp. rewrite Hfin in Hp.
    destruct (bool_decide _), (r_actions s !! id) as [[[] []]|], c; simpl in Hp; congruence. }
  destruct c; [by apply finish_pool | by apply finish_waits].
Qed.

(** ** Every step *)

Lemma request_Inv_new : Inv (new : Request H msg).
Proof. split; [intros id; unfold phase_of; simpl; by rewrite !lookup_empty | constructor |]. intros id Hin. by apply elem_of_nil in Hin. Qed.

Lemma Told_new : Told (new : Request H msg).
Proof.
  assert (∀ id, phase_of (new : Request H msg) id = Some PIdle) as E by (intros id; unfold phase_of; simpl; by rewrite !lookup_empty).
  split; [intros id p | intros _ id p]; rewrite E; by intros [= <-].
Qed.

Lemma made_fresh made m s x : step s (ERequest made m) = Some x → fresh_made made s.
Proof.
  simpl. destruct made as [e|fresh]; simpl; [done|]. case_bool_decide as Hf; [done|]. intros _.
  destruct (r_actions s !! fresh) eqn:Ef; [|done]. exfalso. apply Hf. by right.
Qed.

Lemma request_step_ok s e r s' :
  Inv s → step s e = Some (r, s') →
  (∀ f, r ≠ Fault f) ∧ Inv s' ∧ (e ≠ EExpire → Told s → Told s' ∧ effect (match e with EInitialize h => h | _ => None end) s s').
Proof.
  intros HI E. destruct e as [made m|h|b| |id res m|id]; simpl in E.
  - assert (fresh_made made s) as Hn by (by eapply made_fresh, E).
    destruct (match made with inr _ => _ | inl _ => _ end); [done|].
    destruct (request_ok made m s HI Hn) as [(e & s1 & E1 & HI1 & HT & He)|(id & s1 & E1 & _ & _ & HI1 & HT & He & _)];
      rewrite E1 in E; injection E as <- <-; split_and!; auto; done.
  - unfold initialize, mbind, M_bind, get, throw, modify in E.
    destruct (r_handler s) eqn:Eh, h; injection E as <- <-; (split_and!;
      [done | apply (request_Inv_same s); [done | done | apply HI | apply HI] |]).
    all: intros _ HT; split; [by apply (Told_same s)|].
    all: first [by apply eff_none | by eapply eff_start].
  - injection E as <- <-. assert (Inv (set_ready b s)) as HI1.
    { apply (request_Inv_same s); [done | done | apply HI | apply HI]. }
    split_and!; [done | done |]. intros _ HT. split; [by apply (Told_same s) | by apply eff_none].
  - injection E as <- <-. split_and!; [done | | done].
    apply (request_Inv_same s); [done | done | apply HI | apply HI].
  - destruct (r_actions s !! id) as [a|] eqn:Ha; simpl in E; [|done].
    assert (a_op a ≠ OpNone) as Hop by (by destruct (a_op a)).
    destruct (callback_ok s id res m a HI Ha Hop) as (s1 & E1 & HI1 & _ & HT).
    destruct (a_op a); [done|..]; rewrite E1 in E; injection E as <- <-; split_and!; auto; done.
  - destruct (r_finishing s !! id) as [c|] eqn:Hc; simpl in E; [|done].
    destruct (finish_ok s id c HI Hc) as (s1 & E1 & HI1 & _ & HT & He).
    rewrite E1 in E. injection E as <- <-. split_and!; auto; done.
Qed.

Lemma request_reachable_Inv s : reachable s → Inv s.
Proof.
  induction 1 as [|s e r s' _ IH E]; [apply request_Inv_new|]. by destruct (request_step_ok s e r s' IH E) as (_ & ? & _).
Qed.

Lemma alive_told s : reachable_alive s → Inv s ∧ Told s.
Proof.
  induction 1 as [|s e r s' _ [HI HT] He E]; [split; [apply request_Inv_new | apply Told_new]|].
  destruct (request_step_ok s e r s' HI E) as (_ & HI' & HT'). split; [done|]. by apply HT'.
Qed.

(** C18. However requests, completions and callbacks interleave, and whatever the
    handler does: no step faults (an aio is never used twice at once, an
    action is never missing), every context is in one phase of its life, the
    pool holds no context twice and none that is active, and the two counts of
    [msgStats] add up to the number of active contexts. *)
Theorem request_pool_safe s e r s' :
  reachable s → step s e = Some (r, s') →
  (∀ f, r ≠ Fault f) ∧ NoDup (r_idle s') ∧ (∀ id, id ∈ r_idle s' → id ∉ r_active s')
  ∧ (∀ id, is_Some (phase_of s' id))
  ∧ (awaiting_send (msgStats s') + awaiting_recv (msgStats s') = size (r_active s'))%nat.
Proof.
  intros Hr E. destruct (request_step_ok s e r s' (request_reachable_Inv s Hr) E) as (Hf & HI & _).
  split_and!; [done | apply HI | | apply HI |].
  - intros id Hin Hact. pose proof (idle_phase s' id HI Hin) as Hp. unfold phase_of in Hp.
    rewrite (inv_idle s' HI id Hin), bool_decide_true in Hp by done. done.
  - unfold msgStats. simpl. unfold size, set_size. simpl.
    assert (∀ id, id ∈ elements (r_active s') → (a_state <$> r_actions s' !! id) = Some SEND
              ∨ (a_state <$> r_actions s' !! id) = Some RECV) as Hst.
    { intros id Hin%elem_of_elements. destruct (inv_phase s' HI id) as [p Hp]. unfold phase_of in Hp.
      rewrite bool_decide_true in Hp by done.
      destruct (r_actions s' !! id) as [[[] []]|]; simpl in *; auto; done. }
    induction (elements (r_active s')) as [|id l IH]; [done|].
    assert (∀ i, i ∈ l → (a_state <$> r_actions s' !! i) = Some SEND ∨ (a_state <$> r_actions s' !! i) = Some RECV)
      as Hl by (intros i Hi; apply Hst; by right).
    specialize (IH Hl). rewrite !filter_cons.
    destruct (Hst id) as [E1|E1]; [left|..]; rewrite E1; repeat case_decide; simpl; try done; lia.
Qed.

(** C19. While the handler lives, the calls it receives about each context are, in
    order, those of queries one after another: [async_prep] accepted, then
    [async_error], or [async_sent] and then exactly one of [async_recv] and
    [async_error]; a context is in the pool, or between its outcome and the
    pool, exactly when its last query has had its outcome. *)
Theorem request_one_outcome s id :
  reachable_alive s →
  ∃ p, phase_of s id = Some p ∧ tell_all TNothing id (r_calls s) = Some (told_of p).
Proof.
  intros Hr. destruct (alive_told s Hr) as [HI HT]. destruct (inv_phase s HI id) as [p Hp].
  exists p. split; [done|]. by apply HT.
Qed.

Lemma callback_handler s id r m a h :
  r_actions s !! id = Some a → r_handler s = Some h →
  r_handler (snd (callback id r m s)) =
    Some (match r, a_state a with
          | success, SEND => q_sent id h
          | success, RECV => q_recv id m h
          | success, IDLE => h
          | e, _ => q_error id e h
          end).
Proof.
  intros Ha Hh. unfold callback, action. erewrite bind_run by (unfold mbind, M_bind, get; rewrite Ha; reflexivity).
  rewrite modify_run. erewrite bind_run by reflexivity. cbv beta. cbn [r_handler set_action]. rewrite Hh.
  destruct r; simpl; try done. by destruct (a_state a).
Qed.

(** *** Invariants of the handler *)

Section HandlerInvariant.
Context (I : H → Prop) (J : (QueryID → told) → H → Prop).
Context (J_ext : ∀ f g h, (∀ i, f i = g i) → J f h → J g h).
Context (J_init : ∀ f h, I h → (∀ i, f i = TNothing) → J f h).
Context (J_prep : ∀ f g id m h r h',
  J f h → f id = TNothing → q_prep id m h = (r, h') →
  (∀ i, i ≠ id → g i = f i) → (g id = match r with inr (Some _) => TPrepared | _ => TNothing end) → J g h').
Context (J_sent : ∀ f g id h,
  J f h → f id = TPrepared → (∀ i, i ≠ id → g i = f i) → g id = TSent → J g (q_sent id h)).
Context (J_recv : ∀ f g id m h,
  J f h → f id = TSent → (∀ i, i ≠ id → g i = f i) → g id = TNothing → J g (q_recv id m h)).
Context (J_error : ∀ f g id e h,
  J f h → f id ≠ TNothing → (∀ i, i ≠ id → g i = f i) → g id = TNothing → J g (q_error id e h)).

(** The states reached when every handler installed satisfies [I]. *)
Inductive reachable_with : Request H msg → Prop :=
| with_new : reachable_with new
| with_step s e r s' :
    reachable_with s → e ≠ EExpire → (∀ h, e = EInitialize (Some h) → I h) →
    step s e = Some (r, s') → reachable_with s'.

Lemma effect_J e s s' :
  (∀ h, e = Some h → I h) → effect e s s' → Told s → (∀ i, is_Some (phase_of s i)) →
  (∀ h, r_handler s = Some h → J (told_at s) h) → ∀ h, r_handler s' = Some h → J (told_at s') h.
Proof.
  intros HI [Eh Et|h0 He Hn Hs Et|id m h0 r h1 Eh Eq Hr Hid Eh' Et|id h0 h1 t Eh Eh' Eo Ei Hm] HT Hp HJ h Hh.
  - apply (J_ext (told_at s)); [done|]. apply HJ. congruence.
  - apply J_init; [apply HI; congruence|]. intros i. rewrite Et. unfold told_at.
    destruct (Hp i) as [p Ep]. rewrite Ep. simpl. by rewrite (told_handler s HT Hn i p Ep).
  - assert (h = h1) as -> by congruence. apply (J_prep (told_at s) _ id m h0 r); auto.
    rewrite Et, Hid. destruct r as [|[m'|]]; try done. by destruct (Hr m').
  - assert (h = h1) as -> by congruence. specialize (HJ h0 Eh).
    destruct (told_at s id) eqn:E1, t; try done.
    + destruct Hm as (m & m' & Eq). by apply (J_prep (told_at s) _ id m h0 (inr (Some m'))).
    + destruct Hm as (e' & ->). apply (J_error (told_at s)); [done | by rewrite E1 | done | done].
    + rewrite Hm. by apply (J_sent (told_at s)).
    + destruct Hm as [(m & ->)|(e' & ->)]; [by apply (J_recv (told_at s))|].
      apply (J_error (told_at s)); [done | by rewrite E1 | done | done].
Qed.

Lemma handler_step s e r s' :
  Inv s → Told s → (∀ h, r_handler s = Some h → J (told_at s) h) →
  e ≠ EExpire → (∀ h, e = EInitialize (Some h) → I h) → step s e = Some (r, s') →
  Inv s' ∧ Told s' ∧ ∀ h, r_handler s' = Some h → J (told_at s') h.
Proof.
  intros HI HT HJ He Hi E. destruct (request_step_ok s e r s' HI E) as (_ & HI' & HT'). destruct (HT' He HT) as [HT1 Heff].
  split_and!; [done | done |]. eapply effect_J; [|exact Heff | done | apply HI | done].
  intros h Eh. apply Hi. destruct e; try done. by rewrite Eh.
Qed.

End HandlerInvariant.

End Invariant.

(** ** [Request_Box] *)

Section Box.
Context {msg : Type}.
Import RequestBox.
Implicit Types d : Delegate msg.

(** Exactly the queries whose outcome is not known are pending, each with a
    promise of its own that has no value yet. *)
Record box_ok (f : QueryID → told) d : Prop := {
  box_pending id : is_Some (d_pending d !! id) ↔ f id ≠ TNothing;
  box_unset id p : d_pending d !! id = Some p → d_futures d !! p_promise p = Some FPending;
  box_own id id' p p' : d_pending d !! id = Some p → d_pending d !! id' = Some p' →
    p_promise p = p_promise p' → id = id';
}.

Lemma box_ok_done f g d id p v :
  box_ok f d → d_pending d !! id = Some p → (∀ i, i ≠ id → g i = f i) → g id = TNothing →
  box_ok g (mkDelegate (delete id (d_pending d)) (d_newQueryID d) (<[p_promise p := v]> (d_futures d))).
Proof.
  intros [H1 H2 H3] Hp Ho Hi. split; simpl.
  - intros i. destruct (decide (i = id)) as [->|Hne].
    + rewrite lookup_delete_eq, Hi. split; [by intros [] | done].
    + by rewrite lookup_delete_ne, Ho.
  - intros i q Hq. destruct (decide (i = id)) as [->|Hne]; [by rewrite lookup_delete_eq in Hq|].
    rewrite lookup_delete_ne in Hq by done. rewrite list_lookup_insert_ne; [by eapply H2|].
    intros E. by apply Hne, (H3 i id q p).
  - intros i i' q q' Hq Hq'. apply lookup_delete_Some in Hq as [_ Hq]. apply lookup_delete_Some in Hq' as [_ Hq'].
    by apply H3.
Qed.

(** A requester whose handler is the delegate of a box. *)
Definition boxed (s : Request (Delegate msg) msg) : Prop :=
  Inv s ∧ Told s ∧ ∀ d, r_handler s = Some d → box_ok (told_at s) d.

Lemma box_ok_prep f g d id :
  box_ok f d → f id = TNothing → (∀ i, i ≠ id → g i = f i) → g id ≠ TNothing →
  box_ok g (mkDelegate (<[id := mkPending false (length (d_futures d))]> (d_pending d)) id (d_futures d ++ [FPending])).
Proof.
  intros [H1 H2 H3] Hid Ho Hg.
  assert (∀ i q, d_pending d !! i = Some q → (p_promise q < length (d_futures d))%nat) as Hlt.
  { intros i q Hq. eapply lookup_lt_Some, (H2 i q Hq). }
  split; simpl.
  - intros i. destruct (decide (i = id)) as [->|Hne]; [by rewrite lookup_insert_eq|]. by rewrite lookup_insert_ne, Ho.
  - intros i q [[<- <-]|[Hne Hq]]%lookup_insert_Some; simpl; [by rewrite lookup_app_r, Nat.sub_diag|].
    rewrite lookup_app_l; [by eapply H2 | by eapply Hlt].
  - intros i i' q q' [[<- <-]|[Hne Hq]]%lookup_insert_Some [[<- <-]|[Hne' Hq']]%lookup_insert_Some E; simpl in E;
      [done | specialize (Hlt _ _ Hq'); lia | specialize (Hlt _ _ Hq); lia | by eapply H3].
Qed.

Lemma box_ok_sent f g d id p :
  box_ok f d → d_pending d !! id = Some p → (∀ i, i ≠ id → g i = f i) → g id ≠ TNothing →
  box_ok g (mkDelegate (<[id := mkPending true (p_promise p)]> (d_pending d)) (d_newQueryID d) (d_futures d)).
Proof.
  intros [H1 H2 H3] Hp Ho Hg.
  assert (∀ i q, <[id := mkPending true (p_promise p)]> (d_pending d) !! i = Some q →
    ∃ q', d_pending d !! i = Some q' ∧ p_promise q' = p_promise q) as Hold.
  { intros i q [[<- <-]|[_ Hq]]%lookup_insert_Some; [by exists p | by exists q]. }
  split; simpl.
  - intros i. destruct (decide (i = id)) as [->|Hne]; [by rewrite lookup_insert_eq|]. by rewrite lookup_insert_ne, Ho.
  - intros i q (q' & Hq & <-)%Hold. by eapply H2.
  - intros i i' q q' (x & Hx & <-)%Hold (x' & Hx' & <-)%Hold. by apply H3.
Qed.

Lemma box_has f d id : box_ok f d → f id ≠ TNothing → ∃ p, d_pending d !! id = Some p.
Proof. intros Hb Hid. by apply (box_pending f d Hb) in Hid as [p Hp]; exists p. Qed.

Lemma box_step s ev o s' :
  boxed s → ev ≠ EExpire → (∀ d, ev = EInitialize (Some d) → d = new_delegate) → step s ev = Some (o, s') → boxed s'.
Proof.
  intros (HI & HT & HJ). revert HI HT HJ. unfold boxed.
  apply (handler_step (λ d, d = new_delegate) (λ f d, box_ok f d)).
  - intros f g d E [H1 H2 H3]. split; [intros id; by rewrite <- E | done | done].
  - intros f d -> E. split; simpl.
    + intros id. rewrite lookup_empty, E. split; [by intros [] | done].
    + intros id p. by rewrite lookup_empty.
    + intros id id' p p'. by rewrite lookup_empty.
  - intros f g id m d r d' Hb Hid Eq Ho Hg. simpl in Eq. unfold box_prep in Eq. injection Eq as <- <-.
    destruct (d_pending d !! id) eqn:Ep; [|apply (box_ok_prep f); [done..|congruence]].
    destruct (proj1 (box_pending f d Hb id)); [by rewrite Ep | done].
  - intros f g id d Hb Hid Ho Hg. simpl. unfold box_sent.
    destruct (box_has f d id Hb ltac:(congruence)) as [p Ep]. rewrite Ep. apply (box_ok_sent f); [done..|congruence].
  - intros f g id m d Hb Hid Ho Hg. simpl. unfold box_recv.
    destruct (box_has f d id Hb ltac:(congruence)) as [p Ep]. rewrite Ep. by eapply box_ok_done.
  - intros f g id e d Hb Hid Ho Hg. simpl. unfold box_error.
    destruct (box_has f d id Hb ltac:(congruence)) as [p Ep]. rewrite Ep. by eapply box_ok_done.
Qed.

Lemma box_invariant s : reachable_with (λ d, d = new_delegate) s → boxed s.
Proof.
  induction 1 as [|s e r s' _ IH He Hi E]; [|by eapply box_step].
  split_and!; [apply request_Inv_new | apply Told_new | done].
Qed.

(** Once it has a value, a future keeps it. *)
Definition keeps d d' : Prop :=
  ∀ n v, d_futures d !! n = Some v → v ≠ FPending → d_futures d' !! n = Some v.

Lemma keeps_insert d d' n v :
  d_futures d !! n = Some FPending → d_futures d' = <[n := v]> (d_futures d) → keeps d d'.
Proof.
  intros Hn E k w Hk Hw. rewrite E. rewrite list_lookup_insert_ne; [done|]. intros ->. congruence.
Qed.

Lemma effect_keeps f e s s' d :
  effect e s s' → r_handler s = Some d → box_ok f d → ∃ d', r_handler s' = Some d' ∧ keeps d d'.
Proof.
  intros [Eh _|h0 _ Hn _ _|id m h0 r h1 Eh Eq _ _ Eh' _|id h0 h1 t Eh Eh' _ _ Hm] Hd Hb.
  - exists d. split; [congruence|]. by intros ?.
  - congruence.
  - assert (h0 = d) as -> by congruence. exists h1. split; [done|]. simpl in Eq. unfold box_prep in Eq.
    injection Eq as _ <-. intros n v Hn _. simpl. by apply lookup_app_l_Some.
  - assert (h0 = d) as -> by congruence. exists h1. split; [done|].
    assert (∀ m, keeps d (box_recv id m d)) as Kr.
    { intros m. unfold box_recv. destruct (d_pending d !! id) as [p|] eqn:Ep; [|by intros ?].
      eapply keeps_insert; [by eapply (box_unset f d Hb) | done]. }
    assert (∀ e, keeps d (box_error id e d)) as Ke.
    { intros e'. unfold box_error. destruct (d_pending d !! id) as [p|] eqn:Ep; [|by intros ?].
      eapply keeps_insert; [by eapply (box_unset f d Hb) | done]. }
    destruct (told_at s id), t; try done.
    + destruct Hm as (m & m' & Eq). simpl in Eq. unfold box_prep in Eq. injection Eq as _ <-.
      intros n v Hn _. simpl. by apply lookup_app_l_Some.
    + destruct Hm as (e' & ->). apply Ke.
    + rewrite Hm. simpl. unfold box_sent. destruct (d_pending d !! id); by intros ?.
    + destruct Hm as [(m & ->)|(e' & ->)]; [apply Kr | apply Ke].
Qed.

(** C21. [Request_Box]: each future is resolved at most once, and by the outcome of
    its own query: the response of the query whose receive completes, or the
    error of the query whose operation fails; and as long as the outcome of a
    query is not known its future is pending. *)
Theorem box_futures s d e r s' :
  reachable_with (λ d, d = new_delegate) s → r_handler s = Some d →
  e ≠ EExpire → (∀ h, e = EInitialize (Some h) → h = new_delegate) → step s e = Some (r, s') →
  ∃ d', r_handler s' = Some d' ∧ keeps d d' ∧
    (∀ id, phase_of s id ∈ [Some PSending; Some PSent; Some PReceiving] →
       ∃ p, d_pending d !! id = Some p ∧ d_futures d !! p_promise p = Some FPending ∧
       (∀ m, e = EComplete id success m → phase_of s id = Some PReceiving →
          d_futures d' !! p_promise p = Some (FValue m)) ∧
       (∀ err m, e = EComplete id err m → err ≠ success →
          ∃ what, d_futures d' !! p_promise p = Some (FException (NngException err what)))).
Proof.
  intros Hr Hd He Hi E. destruct (box_invariant s Hr) as (HI & HT & Hb). specialize (Hb d Hd).
  destruct (request_step_ok s e r s' HI E) as (_ & _ & HT'). destruct (HT' He HT) as [_ Heff].
  destruct (effect_keeps _ _ _ _ _ Heff Hd Hb) as (d' & Hd' & Hk).
  exists d'. split_and!; [done | done |]. intros id Hph.
  assert (told_at s id ≠ TNothing) as Htold.
  { unfold told_at. rewrite !elem_of_cons, elem_of_nil in Hph. destruct Hph as [E0|[E0|[E0|[]]]]; by rewrite E0. }
  apply (box_pending _ d Hb) in Htold as [p Hp]. pose proof (box_unset _ d Hb id p Hp) as Hu.
  assert (∀ v, <[p_promise p := v]> (d_futures d) !! p_promise p = Some v) as Hins.
  { intros v. apply list_lookup_insert_eq. by eapply lookup_lt_Some. }
  exists p. split_and!; [done | done | |].
  - intros m -> Hrecv. simpl in E. destruct (r_actions s !! id) as [a|] eqn:Ha; [|done]. simpl in E.
    pose proof (callback_handler s id success m a d Ha Hd) as Hh.
    assert (a_state a = RECV) as Est.
    { unfold phase_of in Hrecv. rewrite Ha in Hrecv.
      by destruct (bool_decide _), a as [[] []], (r_finishing s !! id) as [[]|]. }
    rewrite Est in Hh. assert (s' = snd (callback id success m s)) as ->.
    { destruct (a_op a); [done|..]; injection E as E; by rewrite E. }
    rewrite Hd' in Hh. injection Hh as ->. simpl. unfold box_recv. rewrite Hp. simpl. apply Hins.
  - intros err m -> Herr. simpl in E. destruct (r_actions s !! id) as [a|] eqn:Ha; [|done]. simpl in E.
    pose proof (callback_handler s id err m a d Ha Hd) as Hh.
    assert (s' = snd (callback id err m s)) as ->.
    { destruct (a_op a); [done|..]; injection E as E; by rewrite E. }
    rewrite Hd' in Hh.
    assert (d' = box_error id err d) as ->.
    { destruct err; simpl in Hh; try done; by injection Hh. }
    unfold box_error. rewrite Hp. simpl. eexists. apply Hins.
Qed.

(** [Request_Box::request] returns the future of its query when nothing runs
    between its two parts; but once the outcome of a query is known, or after
    another [async_prep], [getFuture] throws although the query was made. *)
Theorem box_get_future s fresh (m : msg) d :
  reachable_with (λ d, d = new_delegate) s → r_handler s = Some d →
  r_ready s = true → r_idle s = [] → r_actions s !! fresh = None →
  (∃ s', RequestBox.request (inr fresh) m id s = (Ret (length (d_futures d)), s')) ∧
  ∀ qid, told_at s qid = TNothing ∨ qid ≠ d_newQueryID d →
    fst (getFuture qid d) = Throw (NngException internal (lit "Inconsistent Query ID")).
Proof.
  intros Hr Hd Hready Hidle Hfresh. destruct (box_invariant s Hr) as (HI & HT & Hb). specialize (Hb d Hd).
  assert (∀ qid, told_at s qid = TNothing → d_pending d !! qid = None) as Hnone.
  { intros qid Hq. destruct (d_pending d !! qid) eqn:Ep; [|done]. exfalso.
    by apply (box_pending _ d Hb qid); [rewrite Ep|]. }
  split.
  - assert (d_pending d !! fresh = None) as Hnp.
    { apply Hnone. unfold told_at. destruct (inv_phase s HI fresh) as [ph Hp]. rewrite Hp.
      unfold phase_of in Hp. rewrite Hfresh in Hp.
      destruct (bool_decide _), (r_finishing s !! fresh) as [[]|]; simpl in Hp; simplify_eq; done. }
    destruct s as [rd hd acts act idl fin cls lost]. simpl in *. subst rd hd idl.
    unfold RequestBox.request, RequestBox.take_future, RequestOps.request, allocate, set_state, start_op, action,
      mbind, M_bind, get, modify, mret, M_ret. simpl.
    unfold box_prep. rewrite Hnp. simpl. repeat (rewrite lookup_insert_eq; simpl).
    unfold getFuture, mbind, M_bind, get. simpl. rewrite lookup_insert_eq, Z.eqb_refl. simpl. eauto.
  - intros qid Hq. unfold getFuture, mbind, M_bind, get. destruct (d_pending d !! qid) as [p|] eqn:Ep; [|done].
    destruct Hq as [Hq|Hq]; [by rewrite (Hnone qid Hq) in Ep|].
    by rewrite (proj2 (Z.eqb_neq _ _) Hq).
Qed.

End Box.

(** ** Witnesses *)

Import RequestBox.

(** A box that has made a request on context 7 and is waiting for the
    response. *)
Definition box_events : list (event (Delegate Z) Z) :=
  [EInitialize (Some new_delegate); EReady true; ERequest (inr 7) 10; EComplete 7 success 0; EFinish 7].

Lemma run_with es (s s' : Request (Delegate Z) Z) :
  Forall (λ e, e ≠ EExpire ∧ ∀ h, e = EInitialize (Some h) → h = new_delegate) es →
  reachable_with (λ d : Delegate Z, d = new_delegate) s → run s es = Some s' →
  reachable_with (λ d : Delegate Z, d = new_delegate) s'.
Proof.
  intros He. revert s. induction He as [|e es [H1 H2] _ IH]; intros s Hs E; simpl in E; [by injection E as <-|].
  destruct (step s e) as [[[] s1]|] eqn:E1; [|done..]. apply (IH s1); [by eapply with_step | done].
Qed.

Definition waiting_delegate : Delegate Z := mkDelegate {[7 := mkPending true 0]} 7 [FPending].
Definition waiting : Request (Delegate Z) Z :=
  mkRequest true (Some waiting_delegate) {[7 := mkAction RECV OpRecv]} {[7]} [] ∅
    [(7, CPrep); (7, CSent)] 0.

Lemma waiting_run : run (new (H := Delegate Z) (msg := Z)) box_events = Some waiting.
Proof. vm_compute. reflexivity. Qed.

Lemma waiting_reachable : reachable_with (λ d : Delegate Z, d = new_delegate) waiting.
Proof.
  apply (run_with box_events new); [| constructor | apply waiting_run].
  repeat constructor; try discriminate. by intros h [= <-].
Qed.

Lemma waiting_alive : reachable_alive waiting.
Proof.
  assert (∀ es s s', Forall (λ e, e ≠ EExpire) es → reachable_alive s → run s es = Some s' →
    reachable_alive (H := Delegate Z) (msg := Z) s') as Hrun.
  { intros es s s' He. revert s. induction He as [|e es He _ IH]; intros s Hs E; simpl in E; [by injection E as <-|].
    destruct (step s e) as [[[] s1]|] eqn:E1; [|done..]. apply (IH s1); [by eapply alive_step | done]. }
  apply (Hrun box_events new); [by repeat constructor | constructor | apply waiting_run].
Qed.

Lemma alive_reachable (s : Request (Delegate Z) Z) : reachable_alive s → reachable s.
Proof. induction 1 as [|s e r s' _ IH _ E]; [constructor | by eapply reach_step]. Qed.

Lemma request_pool_safe_witness :
  ∃ s', step waiting (EComplete 7 success 99) = Some (Ret tt, s') ∧ NoDup (r_idle s').
Proof.
  eexists. split; [vm_compute; reflexivity|].
  eapply (request_pool_safe waiting (EComplete 7 success 99));
    [apply alive_reachable, waiting_alive | reflexivity].
Defined.

Lemma request_one_outcome_witness :
  ∃ p, phase_of waiting 7 = Some p ∧ tell_all TNothing 7 (r_calls waiting) = Some (told_of p).
Proof. apply request_one_outcome, waiting_alive. Defined.

Lemma box_futures_witness :
  ∃ d', r_handler (snd (callback 7 success 99 waiting)) = Some d' ∧ keeps waiting_delegate d'.
Proof.
  edestruct (box_futures waiting waiting_delegate (EComplete 7 success 99)) as (d' & H1 & H2 & _);
    [apply waiting_reachable | reflexivity | discriminate | discriminate | reflexivity |].
  exists d'. split; [exact H1 | exact H2].
Defined.

Lemma box_get_future_witness :
  ∃ s', RequestBox.request (inr 7) 10 id (mkRequest true (Some new_delegate) ∅ ∅ [] ∅ [] 0) = (Ret 0%nat, s').
Proof.
  refine (proj1 (box_get_future (mkRequest true (Some new_delegate) ∅ ∅ [] ∅ [] 0) 7 10 new_delegate _ _ _ _ _));
    try reflexivity.
  apply (run_with [EInitialize (Some new_delegate); EReady true] new);
    [ repeat constructor; try discriminate; by intros h [= <-] | constructor | reflexivity].
Defined.

End RequestFacts.
