(* ===== verification/RequestShutdown.v ===== *)
(** * Requests: the destructor

    [~Request] waits until no action is active.  The theorem bounds what can
    happen meanwhile, says what it may wait for, and what it deletes. *)
From stdpp Require Import gmap.
From S2P Require Import Prelude.
From S2P Require Import Nng.
From S2P Require Import MsgUtil.
From S2P Require Import Draining.
From S2P Require Import ClientRequest.
From S2P Require Import ClientRequestFacts.

Module ShutdownFacts.
Import RequestOps.
Import RequestFacts.

Section Facts.
Context {H msg : Type} {Hops : AsyncQuery H msg}.
Implicit Types (s : Request H msg) (d : Dying H msg) (id : QueryID).

Lemma active_phase s id p : phase_of s id = Some p → id ∈ r_active s ↔ p ≠ PIdle.
Proof.
  unfold phase_of. case_bool_decide as Ha.
  - intros Hp. split; [|done]. intros _ ->. by destruct (r_actions s !! id) as [[[] []]|], (r_finishing s !! id) as [[]|].
  - intros Hp. split; [done|]. intros Hn. exfalso. apply Hn.
    destruct (r_actions s !! id) as [[[] []]|], (r_finishing s !! id) as [[]|]; simpl in Hp; congruence.
Qed.

(** What an operation or a callback does while the destructor waits. *)
Lemma dying_advances d e r d' :
  Inv (dy_request d) → dying_step d e = Some (r, d') →
  r = Ret tt ∧ Inv (dy_request d') ∧
  match e with
  | EComplete id _ _ => advances (dy_request d) (dy_request d') id ∧ dy_cancelled d' = dy_cancelled d ∖ {[id]}
  | EFinish id => advances (dy_request d) (dy_request d') id ∧ dy_cancelled d' = dy_cancelled d
  | _ => False
  end.
Proof.
  intros HI E. destruct e as [| | | |id res m|id]; try done; simpl in E.
  - destruct (r_actions (dy_request d) !! id) as [a|] eqn:Ha; [|done]. simpl in E.
    assert (a_op a ≠ OpNone) as Hop by (by destruct (a_op a)).
    destruct (callback_ok (dy_request d) id res m a HI Ha Hop) as (s1 & E1 & HI1 & Had & _).
    destruct (a_op a); [done|..]; rewrite E1 in E; by injection E as <- <-.
  - destruct (r_finishing (dy_request d) !! id) as [c|] eqn:Hc; [|done]. simpl in E.
    destruct (finish_ok (dy_request d) id c HI Hc) as (s1 & E1 & HI1 & Had & _). rewrite E1 in E. by injection E as <- <-.
Qed.

(** An active action has an operation that may end or a callback to run. *)
Lemma dying_progress d id :
  Inv (dy_request d) → id ∈ r_active (dy_request d) →
  in_flight (dy_request d) id = true ∨ is_Some (r_finishing (dy_request d) !! id).
Proof.
  intros HI Hid. destruct (inv_phase _ HI id) as [p Hp]. unfold phase_of in Hp. rewrite bool_decide_true in Hp by done.
  unfold in_flight. destruct (r_actions (dy_request d) !! id) as [[[] []]|], (r_finishing (dy_request d) !! id) as [[]|]; simpl in *;
    try done; eauto.
Qed.

Lemma dying_can_step (m : msg) d id :
  Inv (dy_request d) → id ∈ r_active (dy_request d) →
  ∃ e d', (e = EComplete id canceled m ∨ e = EFinish id) ∧ dying_step d e = Some (Ret tt, d').
Proof.
  intros HI Hid. destruct (dying_progress d id HI Hid) as [Hf|[c Hc]].
  - destruct (dying_step d (EComplete id canceled m)) as [[r d']|] eqn:E.
    + destruct (dying_advances d _ r d' HI E) as (-> & _). exists (EComplete id canceled m), d'. auto.
    + exfalso. unfold in_flight in Hf. simpl in E. destruct (a_op <$> r_actions (dy_request d) !! id) as [[]|]; try done;
        by destruct (callback id canceled m (dy_request d)).
  - destruct (dying_step d (EFinish id)) as [[r d']|] eqn:E.
    + destruct (dying_advances d _ r d' HI E) as (-> & _). exists (EFinish id), d'. auto.
    + exfalso. simpl in E. rewrite Hc in E. simpl in E. by destruct (callback_finish id c (dy_request d)).
Qed.

(** The wait of [~Request] as a wait: a context has as many events before it as
    phases. *)
#[local] Instance request_draining : Draining (Dying H msg) (event H msg) QueryID := {
  dr_step := dying_step;
  dr_active d := r_active (dy_request d);
  dr_weight d id := weight (default PIdle (phase_of (dy_request d) id));
  dr_inv d := Inv (dy_request d);
  dr_max := 4;
}.

Lemma request_draining_laws : msg → DrainingLaws (Dying H msg) (event H msg) QueryID.
Proof.
  intros m. split; simpl.
  - intros d id. destruct (phase_of (dy_request d) id) as [[]|]; simpl; lia.
  - intros d id HI. destruct (inv_phase _ HI id) as [p Hp]. rewrite (active_phase _ _ _ Hp), Hp.
    by destruct p.
  - intros d e r d' HI E. destruct (dying_advances d e r d' HI E) as (-> & HI' & Hstep). split; [done|]. split; [done|].
    assert (∃ id, advances (dy_request d) (dy_request d') id) as (id & p & p' & Hp & Hp' & Hw & Ho & _)
      by (destruct e; try done; destruct Hstep; eauto).
    exists id. rewrite Hp, Hp'. split; [done|]. intros j Hj. by rewrite (Ho j Hj).
  - intros d id HI Hid. destruct (dying_can_step m d id HI Hid) as (e & d' & _ & E). eauto.
Qed.

(** A context whose operation is in flight and not cancelled waits for an
    answer. *)
Definition answer_awaited s id : Prop := r_actions s !! id = Some (mkAction RECV OpRecv).

Definition Cancelled d : Prop :=
  ∀ id, in_flight (dy_request d) id = true → id ∈ dy_cancelled d ∨ answer_awaited (dy_request d) id.

Lemma in_flight_phase s id :
  Inv s → in_flight s id = true → id ∈ r_active s ∧ (phase_of s id = Some PSending ∨ answer_awaited s id).
Proof.
  intros HI Hf. unfold in_flight in Hf. destruct (r_actions s !! id) as [a|] eqn:Ha; [|done]. simpl in Hf.
  assert (a_op a ≠ OpNone) as Hop by (by destruct (a_op a)).
  destruct (op_phase s id a HI Ha Hop) as ([[_ Hp]|[E Hp]] & Hact & _); (split; [done|]); [by left|].
  right. unfold answer_awaited. rewrite Ha. destruct a as [st op]. simpl in *. subst st. f_equal. f_equal.
  unfold phase_of in Hp. rewrite Ha in Hp. by destruct op, (bool_decide _), (r_finishing s !! id) as [[]|].
Qed.

Lemma Cancelled_start s : Inv s → Cancelled (cancel_active s).
Proof. intros HI id Hf. simpl in *. left. apply elem_of_filter. split; [by rewrite Hf|]. by apply in_flight_phase. Qed.

Lemma Cancelled_step d e r d' : Inv (dy_request d) → Cancelled d → dying_step d e = Some (r, d') → Cancelled d'.
Proof.
  intros HI HC E. destruct (dying_advances d e r d' HI E) as (_ & HI' & Hstep).
  assert (∃ id, advances (dy_request d) (dy_request d') id ∧ ∀ i, i ≠ id → i ∈ dy_cancelled d → i ∈ dy_cancelled d')
    as (id & (p & p' & Hp & Hp' & Hw & _ & Ho & _) & Hsub).
  { destruct e; try done; destruct Hstep as [Had E']; eexists; (split; [exact Had|]); intros i Hi; rewrite E'; [|done].
    intros Hin. apply elem_of_difference. split; [done|]. by intros ?%elem_of_singleton. }
  intros i Hf. destruct (decide (i = id)) as [->|Hne].
  - destruct (in_flight_phase _ id HI' Hf) as [_ [Hs|Ha]]; [|by right]. rewrite Hs in Hp'. injection Hp' as <-.
    destruct p; simpl in Hw; lia.
  - unfold in_flight, answer_awaited in *. rewrite (Ho i Hne) in *. destruct (HC i Hf) as [?|?]; [left | by right]. by apply Hsub.
Qed.

(** *** No action is lost, unless [async_prep] throws *)
Definition prep_total : Prop := ∀ id m (h : H) e, (q_prep id m h).1 ≠ inl e.
Definition Accounted s : Prop := ∀ id, is_Some (r_actions s !! id) → id ∈ r_active s ∨ id ∈ r_idle s.

Lemma Accounted_advances s s' id : Inv s' → advances s s' id → Accounted s → Accounted s'.
Proof.
  intros HI (p & p' & Hp & Hp' & Hw & Hph & Ha & Hidle & Hin) Hs i Hi. destruct (decide (i = id)) as [->|Hne].
  - destruct (decide (p' = PIdle)) as [->|Hp0]; [right; by apply Hin|]. left. by apply (active_phase s' id p' Hp').
  - rewrite (Ha i Hne) in Hi. destruct (Hs i Hi) as [Hact|?]; [left | by right; apply Hidle].
    destruct (inv_phase s' HI i) as [q Hq]. apply (active_phase s' i q Hq). rewrite (Hph i Hne) in Hq.
    by apply (active_phase s i q Hq).
Qed.

Lemma Accounted_request made m s : prep_total → Inv s → Accounted s → fresh_made made s → Accounted (request made m s).2.
Proof.
  intros Hprep HI Hs Hf. unfold request. erewrite bind_run by reflexivity. cbv beta.
  destruct (r_ready s); [|done]. cbv beta iota delta [negb]. destruct (r_handler s) as [h|]; [|done].
  assert ((∃ e, allocate made s = (Throw e, lose_action s)) ∨ ∃ id s1, allocate made s = (Ret id, s1) ∧ r_active s1 = r_active s
    ∧ (∀ i, is_Some (r_actions s1 !! i) → i = id ∨ i ∈ r_active s ∨ i ∈ r_idle s1) ∧ r_actions s1 !! id = Some (mkAction IDLE OpNone))
    as [[e E]|(id & s1 & E & Hact & Hacc & Ha)].
  { unfold allocate, mbind, M_bind, get, modify, mret, M_ret, throw. destruct (r_idle s) as [|id rest] eqn:Ei.
    - destruct made as [e|fresh]; [left; by exists e | right]. eexists _, _. split; [reflexivity|]. split_and!; [done | | apply lookup_insert_eq]. simpl. rewrite Ei. intros i.
      destruct (decide (i = fresh)) as [->|Hne]; [by left|]. rewrite lookup_insert_ne by done.
      intros Hi. right. rewrite <- Ei. by apply Hs.
    - right. eexists _, _. split; [reflexivity|]. split_and!; [done | | apply HI; rewrite Ei; left]. simpl. intros i Hi.
      destruct (Hs i Hi) as [?|Hin]; [tauto|]. rewrite Ei in Hin. apply elem_of_cons in Hin. tauto. }
  { unfold mbind, M_bind. by rewrite E. }
  rewrite (bind_run _ _ _ _ _ E). cbv beta. pose proof (Hprep id m h) as Hnt. destruct (q_prep id m h) as [[e|[m'|]] h'];
    [by destruct (Hnt e)|..]; clear Hnt; rewrite modify_run.
  - rewrite modify_run. erewrite bind_run by (by apply (set_state_eq _ id SEND (mkAction IDLE OpNone))).
    rewrite modify_run. erewrite bind_run by (apply (start_op_eq _ id (OpSend m') SEND); simpl; apply lookup_insert_eq).
    simpl. intros i. simpl. destruct (decide (i = id)) as [->|Hne].
    + intros _. left. apply elem_of_union. left. by apply elem_of_singleton.
    + rewrite !lookup_insert_ne by done. intros Hi. destruct (Hacc i Hi) as [?|[?|?]]; [done | left; apply elem_of_union; right; by rewrite Hact | by right].
  - rewrite modify_run. unfold throw. intros i Hi. simpl in Hi |- *. destruct (Hacc i Hi) as [->|[?|?]]; [right; left | left; simpl; by rewrite Hact | right; by right].
Qed.

Lemma reachable_Accounted s : prep_total → reachable s → Accounted s.
Proof.
  intros Hprep. induction 1 as [|s e r s' Hr IH E]; [by intros id [? ?]|]. pose proof (request_reachable_Inv s Hr) as HI.
  destruct e as [made m|h|b| |id res m|id].
  - pose proof (Accounted_request made m s Hprep HI IH (made_fresh made m s _ E)) as Ha. simpl in E.
    destruct (match made with inr _ => _ | inl _ => _ end); [done|]. destruct (request made m s) as [r1 s1]. by injection E as _ <-.
  - simpl in E. unfold initialize, mbind, M_bind, get, throw, modify in E. by destruct (r_handler s), h; injection E as _ <-.
  - by injection E as _ <-.
  - by injection E as _ <-.
  - destruct (dying_advances (mkDying s ∅) (EComplete id res m) r (mkDying s' (∅ ∖ {[id]})) HI) as (_ & HI' & Had & _).
    { unfold dying_step. cbn [dy_request dy_cancelled]. by rewrite E. }
    by eapply Accounted_advances.
  - destruct (dying_advances (mkDying s ∅) (EFinish id) r (mkDying s' ∅) HI) as (_ & HI' & Had & _).
    { unfold dying_step. cbn [dy_request dy_cancelled]. by rewrite E. }
    by eapply Accounted_advances.
Qed.

(** *** Actions that are lost as they are allocated *)
Definition loses_none {A} (m : M exn (Request H msg) A) : Prop := ∀ s, r_lost (m s).2 = r_lost s.

Lemma loses_none_bind {A B} (m : M exn (Request H msg) A) (f : A → M exn (Request H msg) B) :
  loses_none m → (∀ a, loses_none (f a)) → loses_none (a ← m; f a).
Proof.
  intros Hm Hf s. unfold mbind, M_bind. pose proof (Hm s) as E. destruct (m s) as [[a| |] s1]; simpl in *; [|done..].
  by rewrite (Hf a s1).
Qed.
Lemma loses_none_modify f : (∀ s, r_lost (f s) = r_lost s) → loses_none (modify f).
Proof. intros Hf s. exact (Hf s). Qed.

Ltac none_lost := repeat first
  [ apply loses_none_bind; [|intros ?] | apply loses_none_modify; intros; reflexivity | by intros ?
  | match goal with |- loses_none (match ?x with _ => _ end) => destruct x end ].

Lemma callback_lost id res m : loses_none (callback id res m).
Proof. unfold callback, action. none_lost. Qed.
Lemma finish_lost id c : loses_none (callback_finish id c).
Proof. unfold callback_finish, set_state, start_op, action. none_lost. Qed.

(** None while the destructor waits. *)
Lemma dying_lost d e r d' : dying_step d e = Some (r, d') → r_lost (dy_request d') = r_lost (dy_request d).
Proof.
  destruct e as [| | | |id res m|id]; try done; simpl.
  - pose proof (callback_lost id res m (dy_request d)) as Hc.
    destruct (a_op <$> _) as [[]|]; try done; destruct (callback id res m (dy_request d)); intros [= _ <-]; exact Hc.
  - destruct (r_finishing (dy_request d) !! id) as [c|]; [|done]. simpl. pose proof (finish_lost id c (dy_request d)) as Hc.
    destruct (callback_finish id c (dy_request d)). intros [= _ <-]. exact Hc.
Qed.

(** One by each request that has to allocate an action and cannot make its
    context or its aio. *)
Lemma request_loses made m s :
  r_lost (request made m s).2 =
    match made, r_ready s, r_handler s, r_idle s with inl _, true, Some _, [] => S (r_lost s) | _, _, _, _ => r_lost s end.
Proof.
  unfold request. erewrite bind_run by reflexivity. cbv beta. destruct (r_ready s); simpl; [|by destruct made].
  destruct (r_handler s) as [h|]; simpl; [|by destruct made].
  assert (∀ id s1, r_lost ((let '(r, h') := q_prep id m h in
    modify (set_handler (Some h'));;
    match r with
    | inl e => throw e
    | inr None => modify (λ s, set_idle (id :: r_idle s) s);; throw (NngException canceled (lit "AsyncQuery declined the message."))
    | inr (Some m') => modify (log_call id CPrep);; set_state id SEND;; modify (λ s, set_active ({[id]} ∪ r_active s) s);;
        start_op id (OpSend m');; mret id
    end) s1).2 = r_lost s1) as Hrest.
  { intros id s1. destruct (q_prep id m h) as [r h']. revert s1. fold (loses_none (A := QueryID)).
    unfold set_state, start_op, action. none_lost. }
  unfold allocate. unfold mbind at 1, M_bind at 1. unfold mbind at 1, M_bind at 1, get at 1.
  destruct (r_idle s), made; try done; exact (Hrest _ _).
Qed.

Lemma idle_deleted s : Inv s → (∀ id, id ∉ r_active s) →
  ∃ left, delete_idle s = Ret (left, r_lost s) ∧ (Accounted s → left = ∅).
Proof.
  intros HI Hno. destruct (delete_all_ok (r_idle s) (r_actions s)) as (rest & E & Hr); [apply HI | |].
  { intros id Hid. rewrite (inv_idle s HI id Hid). by eexists. }
  exists rest. split; [unfold delete_idle; by rewrite E|]. intros Ha. apply map_eq. intros id. rewrite lookup_empty. destruct (Hr id) as [Hin Hout].
  destruct (decide (id ∈ r_idle s)) as [Hid|Hid]; [by apply Hin|]. rewrite (Hout Hid).
  destruct (r_actions s !! id) eqn:E1; [|done]. by destruct (Ha id) as [?%Hno|?]; [rewrite E1; by eexists|..].
Qed.

(** C20. The destructor of a [Request].  Whatever ends and calls back while it
    waits: there are at most four such events per active action; every active
    action has a callback to run or an operation that was cancelled or awaits
    an answer, the last because its request was sent before the cancellation
    and the receive was started after it; the wait can come to its end; and
    when it does, each action of the pool is deleted once.  When [async_prep]
    never throws, this leaves none but the actions that were lost as they were
    allocated, because their context or their aio could not be made. *)
Theorem request_shutdown s es d (m : msg) :
  reachable s → dying_run (cancel_active s) es = Some d →
  (length es ≤ 4 * size (r_active s))%nat
  ∧ (∀ id, id ∈ r_active (dy_request d) → is_Some (r_finishing (dy_request d) !! id)
       ∨ in_flight (dy_request d) id = true ∧ (id ∈ dy_cancelled d ∨ answer_awaited (dy_request d) id))
  ∧ (∃ es' d', dying_run d es' = Some d' ∧ waits_for d' = None)
  ∧ (waits_for d = None → ∃ left, delete_idle (dy_request d) = Ret (left, r_lost s) ∧ (prep_total → left = ∅)).
Proof.
  intros Hr E. pose proof (request_draining_laws m) as HL. assert (dr_inv (E := event H msg) (cancel_active s)) as HI by exact (request_reachable_Inv s Hr).
  destruct (drain_counts (I := QueryID) es (cancel_active s) d HI E) as [HI' _].
  assert (Cancelled d) as HC.
  { refine (drain_keeps (I := QueryID) Cancelled es _ d _ HI (Cancelled_start s (request_reachable_Inv s Hr)) E).
    intros d1 e d2 HI1 _ HC1 E1. exact (Cancelled_step d1 e _ d2 HI1 HC1 E1). }
  split_and!.
  - exact (drain_bound (I := QueryID) es (cancel_active s) d HI E).
  - intros id Hid. destruct (dying_progress d id HI' Hid) as [Hf|Hf]; [right | by left]. split; [done|]. by apply HC.
  - exact (drain_ends (I := QueryID) d HI').
  - intros Hw. destruct (idle_deleted (dy_request d) HI') as (rest & E1 & Hl); [intros id; by apply next_of_None|].
    exists rest. split.
    { rewrite E1. do 2 f_equal. refine (drain_keeps (I := QueryID) (λ d, r_lost (dy_request d) = r_lost s) es (cancel_active s) d _ HI eq_refl E).
      intros d1 e d2 _ _ <- E2. exact (dying_lost d1 e _ d2 E2). }
    intros Hprep. apply Hl.
    refine (drain_keeps (I := QueryID) (λ d, Accounted (dy_request d)) es (cancel_active s) d _ HI (reachable_Accounted s Hprep Hr) E).
    intros d1 e d2 HI1 HI2 Ha E2. destruct (dying_advances d1 e _ d2 HI1 E2) as (_ & _ & Hstep).
    destruct e; try done; destruct Hstep as [Had _]; by eapply Accounted_advances.
Qed.

End Facts.

(** ** Witnesses *)
Import RequestBox.

(** A request that waits for its answer is cancelled, and the pool deleted. *)
Lemma request_shutdown_witness :
  ∃ d, dying_run (cancel_active waiting) [EComplete 7 canceled 0; EFinish 7] = Some d ∧ waits_for d = None
    ∧ delete_idle (dy_request d) = Ret (∅, 0%nat).
Proof.
  destruct (dying_run (cancel_active waiting) [EComplete 7 canceled 0; EFinish 7]) as [d|] eqn:E; [|by vm_compute in E].
  exists d. split; [done|].
  assert (waits_for d = None) as Hw by (vm_compute in E; injection E as <-; by vm_compute). split; [done|].
  destruct (request_shutdown waiting _ d 0 (alive_reachable _ waiting_alive) E) as (_ & _ & _ & Hd).
  destruct (Hd Hw) as (rest & E1 & Hl). rewrite Hl in E1; [exact E1 | discriminate].
Defined.

(** A request that was sent, whose callback has not yet started the receive:
    the destructor cancels nothing and then waits for the answer. *)
Example answer_awaited_uncancelled :
  ∃ s d, run (new (H := Delegate Z) (msg := Z)) [EInitialize (Some new_delegate); EReady true; ERequest (inr 7) 10; EComplete 7 success 0] = Some s
    ∧ dying_run (cancel_active s) [EFinish 7] = Some d ∧ dy_cancelled d = ∅ ∧ answer_awaited (dy_request d) 7.
Proof. eexists _, _. split; [vm_compute; reflexivity|]. split; [vm_compute; reflexivity|]. by vm_compute. Qed.

End ShutdownFacts.
