(* ===== verification/HttpClient.v ===== *)
(** * The HTTP client

    [include/telling/http_client.h] and [src/telling/http_client.cpp]: a pool
    of actions, each of which connects to the host, writes one request to the
    connection and reads the reply from it until it is complete; and
    [HttpClient_Box], whose handler turns replies into futures. *)
From stdpp Require Import gmap.
From S2P Require Import Prelude.
From S2P Require Import Nng.
From S2P Require Import MsgUtil.
From S2P Require Import Draining.
From S2P Require Import MsgLayout.
From S2P Require Import MsgView.
From S2P Require Import ClientRequest.

(** ** What the client uses of NNG messages, in addition

    [sized n]: [nng::make_msg(n)]; [realloc m n]: [m.realloc(n)], which cuts
    the body or extends it with bytes of any value; [store m i data]: a write
    to the memory of the body by an operation of NNG. *)
Class NngBuffer (msg : Type) `{NngMsg msg} : Type := {
  sized : nat → msg;
  realloc : msg → nat → msg;
  store : msg → nat → bytes → msg;
}.

Class NngBufferLaws (msg : Type) `{NngBuffer msg} : Prop := {
  sized_length n : length (msg_body (sized n)) = n;
  realloc_cut m n : (n ≤ length (msg_body m))%nat → msg_body (realloc m n) = take n (msg_body m);
  realloc_grow m n : (length (msg_body m) ≤ n)%nat →
    take (length (msg_body m)) (msg_body (realloc m n)) = msg_body m ∧ length (msg_body (realloc m n)) = n;
  store_body m i data : (i + length data ≤ length (msg_body m))%nat →
    msg_body (store m i data) = take i (msg_body m) ++ data ++ drop (i + length data) (msg_body m);
}.

#[export] Instance flat_NngBuffer : NngBuffer flat_msg := {
  sized n := mkFlat [] (replicate n "000"%char);
  realloc m n := mkFlat (flat_header m) (take n (flat_body m) ++ replicate (n - length (flat_body m)) "000"%char);
  store m i data := mkFlat (flat_header m) (take i (flat_body m) ++ data ++ drop (i + length data) (flat_body m));
}.

#[export] Instance flat_NngBufferLaws : NngBufferLaws flat_msg.
Proof.
  split; simpl.
  - intros n. apply length_replicate.
  - intros m n Hn. replace (n - length (flat_body m))%nat with 0%nat by lia. apply app_nil_r.
  - intros m n Hn. rewrite (take_ge (flat_body m)) by done. split; [apply take_app_length|].
    rewrite length_app, length_replicate. lia.
  - done.
Qed.

Module Http.

Inductive ACTION_STATE : Set := IDLE | CONNECT | SEND | RECV.

#[export] Instance ACTION_STATE_eq_dec : EqDecision ACTION_STATE.
Proof. solve_decision. Defined.

(** A connection of NNG. *)
Abbreviation conn := Z.

(** The operation in progress on the aio of an action: with the bytes that
    the vector of a write points at, and the place in the reply and the size
    that the vector of a read points at. *)
Inductive aio_op : Type :=
| OpNone
| OpConnect
| OpWrite (c : conn) (data : bytes)
| OpRead (c : conn) (at_ size : nat).

(** What an operation ends with: a write and a read may end with a part of
    their vector. *)
Inductive outcome : Type :=
| Failed (e : nng_error)
| Connected (c : conn)
| Wrote (n : nat)
| Read (data : bytes).

(** [aio.result()], [aio.get_output(0)] and [aio.count()]. *)
Definition aio_result (o : outcome) : nng_error := match o with Failed e => e | _ => success end.
Definition get_output (o : outcome) : option conn := match o with Connected c => Some c | _ => None end.
Definition count (o : outcome) : nat :=
  match o with Wrote n => n | Read data => length data | _ => 0%nat end.

(** [HttpClient::Action].  [a_callback] is not a member: [Some disconnect]
    while the callback has called the handler and not yet taken the mutex. *)
Record Action (msg : Type) : Type := mkAction {
  a_queryID : QueryID;
  a_op : aio_op;
  a_req : option msg;
  a_res : option msg;
  a_conn : option conn;
  a_state : ACTION_STATE;
  a_completion : MsgCompletion;
  a_count : nat;
  a_callback : option bool;
}.
Arguments mkAction {msg} _ _ _ _ _ _ _ _ _.
Arguments a_queryID {msg} _.
Arguments a_op {msg} _.
Arguments a_req {msg} _.
Arguments a_res {msg} _.
Arguments a_conn {msg} _.
Arguments a_state {msg} _.
Arguments a_completion {msg} _.
Arguments a_count {msg} _.
Arguments a_callback {msg} _.

(** The calls made to the handler.  The message given to [async_recv] may be
    null. *)
Inductive http_call (msg : Type) : Type :=
| HPrep
| HOpen (c : conn)
| HSent
| HProgress (p : MsgCompletion)
| HRecv (m : option msg)
| HError (e : nng_error)
| HClose (c : conn).
Arguments HPrep {msg}.
Arguments HOpen {msg} c.
Arguments HSent {msg}.
Arguments HProgress {msg} p.
Arguments HRecv {msg} m.
Arguments HError {msg} e.
Arguments HClose {msg} c.

End Http.

(** ** [HttpClient::Handler] *)
Class HttpHandler (H msg : Type) : Type := {
  h_prep : QueryID → msg → H → (exn + option msg) * H;
  h_sent : QueryID → H → H;
  h_progress : QueryID → MsgCompletion → MsgView → H → H;
  h_recv : QueryID → option msg → H → H;
  h_error : QueryID → nng_error → H → H;
  httpConn_open : Z → H → H;
  httpConn_close : Z → H → H;
}.

(** What the callbacks share: the handler, the connections that NNG has open,
    the bytes written to connections so far, and the calls of the handler so
    far, each with the query of the action that made it. *)
Record HttpWorld (H msg : Type) : Type := mkWorld {
  w_handler : option H;
  w_conns : gset Z;
  w_written : list (Z * bytes);
  w_calls : list (QueryID * Http.http_call msg);
}.
Arguments mkWorld {H msg} _ _ _ _.
Arguments w_handler {H msg} _.
Arguments w_conns {H msg} _.
Arguments w_written {H msg} _.
Arguments w_calls {H msg} _.

(** [HttpClient]: an action is known by the address it is allocated at. *)
Record HttpClient (H msg : Type) : Type := mkHttp {
  c_world : HttpWorld H msg;
  c_nextQueryID : QueryID;
  c_actions : gmap nat (Http.Action msg);
  c_active : gset nat;
  c_idle : list nat;
}.
Arguments mkHttp {H msg} _ _ _ _ _.
Arguments c_world {H msg} _.
Arguments c_nextQueryID {H msg} _.
Arguments c_actions {H msg} _.
Arguments c_active {H msg} _.
Arguments c_idle {H msg} _.

Module HttpOps.
Import Http.
Section Ops.
Context {H msg : Type} `{NngBuffer msg} `{!HttpHandler H msg}.

(** A callback works on one action and on the shared state. *)
Abbreviation A := (Action msg).
Abbreviation W := (HttpWorld H msg).
Abbreviation C := (M exn (W * A)).

(** Assignments to the members of an action. *)
Definition set_queryID x (a : A) := mkAction x (a_op a) (a_req a) (a_res a) (a_conn a) (a_state a) (a_completion a) (a_count a) (a_callback a).
Definition set_op x (a : A) := mkAction (a_queryID a) x (a_req a) (a_res a) (a_conn a) (a_state a) (a_completion a) (a_count a) (a_callback a).
Definition set_req x (a : A) := mkAction (a_queryID a) (a_op a) x (a_res a) (a_conn a) (a_state a) (a_completion a) (a_count a) (a_callback a).
Definition set_res x (a : A) := mkAction (a_queryID a) (a_op a) (a_req a) x (a_conn a) (a_state a) (a_completion a) (a_count a) (a_callback a).
Definition set_conn x (a : A) := mkAction (a_queryID a) (a_op a) (a_req a) (a_res a) x (a_state a) (a_completion a) (a_count a) (a_callback a).
Definition set_state x (a : A) := mkAction (a_queryID a) (a_op a) (a_req a) (a_res a) (a_conn a) x (a_completion a) (a_count a) (a_callback a).
Definition set_completion x (a : A) := mkAction (a_queryID a) (a_op a) (a_req a) (a_res a) (a_conn a) (a_state a) x (a_count a) (a_callback a).
Definition set_count x (a : A) := mkAction (a_queryID a) (a_op a) (a_req a) (a_res a) (a_conn a) (a_state a) (a_completion a) x (a_callback a).
Definition set_callback x (a : A) := mkAction (a_queryID a) (a_op a) (a_req a) (a_res a) (a_conn a) (a_state a) (a_completion a) (a_count a) x.

Definition upd (f : A → A) : C unit := modify (λ s, (s.1, f s.2)).

(** A pointer that must not be null. *)
Definition deref {B} (x : option B) : C B := match x with Some b => mret b | None => fail NullDeref end.

(** A call of the handler [h] held by the callback. *)
Definition call (f : H → H) (c : http_call msg) : C unit :=
  modify (λ s, let '(w, a) := s in
    (mkWorld (f <$> w_handler w) (w_conns w) (w_written w) (w_calls w ++ [(a_queryID a, c)]), a)).

Definition start_op (op : aio_op) : C unit :=
  s ← get;
  match a_op s.2 with OpNone => upd (set_op op) | _ => fail AioInUse end.

(** The end of an operation, before the callback: NNG has opened the
    connection, taken the bytes or stored those it received. *)
Definition operated (o : outcome) : C unit := modify (λ s, let '(w, a) := s in
  match a_op a, o with
  | OpConnect, Connected c =>
      (mkWorld (w_handler w) ({[c]} ∪ w_conns w) (w_written w) (w_calls w), set_op OpNone a)
  | OpWrite c data, Wrote n =>
      (mkWorld (w_handler w) (w_conns w) (w_written w ++ [(c, take n data)]) (w_calls w), set_op OpNone a)
  | OpRead _ i _, Read data => (w, set_op OpNone (set_res ((λ m, store m i data) <$> a_res a) a))
  | _, _ => (w, set_op OpNone a)
  end).

(** The case [RECV] of a success.  The exceptions of the parser are
    dropped; [completion] is [noexcept]. *)
Definition on_read (o : outcome) : C unit :=
  upd (λ a, set_count (a_count a + count o)%nat a);;
  s ← get;
  res ← deref (a_res s.2);
  let res := realloc res (a_count s.2) in
  upd (set_res (Some res));;
  match View.parse REPLY (msg_body res) with
  | Ret v =>
      c ← noexcept (lift (View.completion v));
      upd (set_completion c);;
      call (h_progress (a_queryID s.2) c v) (HProgress c)
  | Throw _ => mret tt
  | Fault f => fail f
  end.

(** The errors after which a reply without an explicit length may be whole. *)
Definition is_lost (e : nng_error) : bool :=
  match e with connaborted | connreset | connshut | closed => true | _ => false end.

(** The first [switch] of [_callback]: the value of [disconnect]. *)
Definition dispatch (o : outcome) : C bool :=
  s ← get;
  let a := s.2 in
  match w_handler s.1 with
  | None => mret true
  | Some _ =>
      match aio_result o with
      | success =>
          match a_state a with
          | CONNECT =>
              c ← deref (get_output o);
              upd (set_conn (Some c));;
              call (httpConn_open c) (HOpen c);;
              mret false
          | SEND =>
              call (h_sent (a_queryID a)) HSent;;
              upd (set_req None);;
              mret false
          | RECV => on_read o;; mret false
          | IDLE => mret true
          end
      | e =>
          if is_lost e && View.implicit (a_completion a) then mret false
          else
            upd (set_completion View.no_completion);;
            call (h_error (a_queryID a) e) (HError e);;
            mret true
      end
  end.

(** [if (disconnect || action->res_completion.complete)]: the connection is
    closed by its destructor. *)
Definition hang_up : C unit :=
  s ← get;
  let a := s.2 in
  let alive := bool_decide (w_handler s.1 ≠ None) in
  (if (complete (a_completion a) || View.implicit (a_completion a)) && alive
   then call (h_recv (a_queryID a) (a_res a)) (HRecv (a_res a)) else mret tt);;
  match a_conn a with
  | Some c =>
      (if alive then call (httpConn_close c) (HClose c) else mret tt);;
      modify (λ s, let '(w, a) := s in
        (mkWorld (w_handler w) (w_conns w ∖ {[c]}) (w_written w) (w_calls w), set_conn None a))
  | None => mret tt
  end;;
  upd (λ a, set_res None (set_req None a)).

(** [_callback] without the mutex. *)
Definition callback (o : outcome) : C unit :=
  operated o;;
  disconnect ← dispatch o;
  s ← get;
  let disconnect := disconnect || complete (a_completion s.2) in
  (if disconnect then hang_up else mret tt);;
  upd (set_callback (Some disconnect)).

(** [_callback] under the mutex, but for the lists of the client: whether
    the action goes on. *)
Definition proceed (disconnect : bool) : C bool :=
  upd (set_callback None);;
  (if disconnect then upd (set_state IDLE) else mret tt);;
  s ← get;
  let a := s.2 in
  match a_state a with
  | CONNECT =>
      upd (set_state SEND);;
      req ← deref (a_req a);
      c ← deref (a_conn a);
      start_op (OpWrite c (msg_body req));;
      mret true
  | SEND =>
      upd (λ a, set_res (Some (sized 4096)) (set_completion View.no_completion (set_count 0%nat (set_state RECV a))));;
      c ← deref (a_conn a);
      start_op (OpRead c 0%nat 4096%nat);;
      mret true
  | RECV =>
      res ← deref (a_res a);
      upd (set_res (Some (realloc res (a_count a + 4096)%nat)));;
      c ← deref (a_conn a);
      start_op (OpRead c (a_count a) 4096%nat);;
      mret true
  | IDLE => mret false
  end.

(** *** The client *)
Abbreviation S := (HttpClient H msg).
Abbreviation HC := (M exn S).

Definition new_action : A := mkAction 0 OpNone None None None IDLE View.no_completion 0%nat None.
Definition new : S := mkHttp (mkWorld None ∅ [] []) 0 ∅ ∅ [].

Definition set_world (w : W) (s : S) := mkHttp w (c_nextQueryID s) (c_actions s) (c_active s) (c_idle s).
Definition set_nextQueryID n (s : S) : S := mkHttp (c_world s) n (c_actions s) (c_active s) (c_idle s).
Definition set_actions x (s : S) : S := mkHttp (c_world s) (c_nextQueryID s) x (c_active s) (c_idle s).
Definition set_active x (s : S) : S := mkHttp (c_world s) (c_nextQueryID s) (c_actions s) x (c_idle s).
Definition set_idle x (s : S) : S := mkHttp (c_world s) (c_nextQueryID s) (c_actions s) (c_active s) x.
Definition set_handler (h : option H) (s : S) :=
  set_world (mkWorld h (w_conns (c_world s)) (w_written (c_world s)) (w_calls (c_world s))) s.

(** A computation on one action. *)
Definition on_action {B} (p : nat) (m : C B) : HC B := λ s,
  match c_actions s !! p with
  | None => (Fault NullDeref, s)
  | Some a => let '(r, (w, a')) := m (c_world s, a) in (r, set_actions (<[p := a']> (c_actions s)) (set_world w s))
  end.

(** [initialize]: [None] is an expired handler. *)
Definition initialize (new_handler : option H) : HC unit :=
  s ← get;
  match w_handler (c_world s), new_handler with
  | Some _, _ => throw (NngException busy (lit "HttpClient::initialize (already initialized)"))
  | None, Some h => modify (set_handler (Some h))
  | None, None => mret tt
  end.

(** The allocation in [request]: [fresh] is the address that [new] returns. *)
Definition allocate (fresh : nat) : HC nat :=
  s ← get;
  match c_idle s with
  | [] => modify (set_actions (<[fresh := new_action]> (c_actions s)));; mret fresh
  | p :: rest => modify (set_idle rest);; mret p
  end.

Definition request (fresh : nat) (req : msg) : HC QueryID :=
  s ← get;
  match w_handler (c_world s) with
  | None => throw (NngException exist (lit "Request communicator has no message handler"))
  | Some h =>
      p ← allocate fresh;
      s ← get;
      let q := c_nextQueryID s in
      on_action p (upd (set_queryID q));;
      modify (set_nextQueryID (u32 (q + 1)));;
      let '(r, h') := h_prep q req h in
      modify (set_handler (Some h'));;
      match r with
      | inl e => throw e
      | inr None =>
          modify (λ s, set_idle (p :: c_idle s) s);;
          throw (NngException canceled (lit "AsyncQuery declined the message."))
      | inr (Some req) =>
          on_action p (call id HPrep;; upd (set_state CONNECT));;
          modify (λ s, set_active ({[p]} ∪ c_active s) s);;
          on_action p (upd (set_req (Some req));; start_op OpConnect);;
          mret q
      end
  end.

(** The second part of [_callback]. *)
Definition finish (p : nat) (disconnect : bool) : HC unit :=
  on ← on_action p (proceed disconnect);
  if (on : bool) then mret tt
  else
    modify (λ s, set_active (c_active s ∖ {[p]}) s);;
    modify (λ s, set_idle (c_idle s ++ [p]) s).

(** [msgStats]. *)
Definition awaiting (st : ACTION_STATE) (s : S) : nat :=
  length (filter (λ p, (a_state <$> c_actions s !! p) = Some st) (elements (c_active s))).
Definition msgStats (s : S) : RequestOps.MsgStats := RequestOps.mkStats (awaiting SEND s) (awaiting RECV s).

(** ** The system *)
Inductive event : Type :=
| ERequest (fresh : nat) (m : msg)
| EInitialize (h : option H)
| EExpire                              (** the handler is destroyed *)
| EComplete (p : nat) (o : outcome)
| EFinish (p : nat).

(** What NNG may do to an operation: give an open connection a new handle,
    write at most the data, read at most the space. *)
Definition may_end (conns : gset conn) (op : aio_op) (o : outcome) : bool :=
  match op, o with
  | (OpConnect | OpWrite _ _ | OpRead _ _ _), Failed e => negb (bool_decide (e = success))
  | OpConnect, Connected c => negb (bool_decide (c ∈ conns))
  | OpWrite _ data, Wrote n => (n <=? length data)%nat
  | OpRead _ _ size, Read data => (length data <=? size)%nat
  | _, _ => false
  end.

(** [None]: the event cannot happen. *)
Definition step (s : S) (e : event) : option (result exn unit * S) :=
  match e with
  | ERequest fresh m =>
      if bool_decide (is_Some (c_actions s !! fresh)) then None
      else Some (let '(r, s') := request fresh m s in
                 (match r with Ret _ => Ret tt | Throw e => Throw e | Fault f => Fault f end, s'))
  | EInitialize h => Some (initialize h s)
  | EExpire => Some (Ret tt, set_handler None s)
  | EComplete p o =>
      a ← c_actions s !! p;
      if may_end (w_conns (c_world s)) (a_op a) o then Some (on_action p (callback o) s) else None
  | EFinish p =>
      a ← c_actions s !! p; d ← a_callback a; Some (finish p d s)
  end.

Inductive reachable : S → Prop :=
| reach_new : reachable new
| reach_step s e r s' :
    reachable s → step s e = Some (r, s') → (∀ f, r ≠ Fault f) → reachable s'.

(** The same without the end of the handler. *)
Inductive reachable_alive : S → Prop :=
| alive_new : reachable_alive new
| alive_step s e r s' :
    reachable_alive s → e ≠ EExpire → step s e = Some (r, s') → (∀ f, r ≠ Fault f) → reachable_alive s'.

(** Run events that return. *)
Fixpoint run (s : S) (es : list event) : option S :=
  match es with
  | [] => Some s
  | e :: es => match step s e with Some (Ret _, s') => run s' es | _ => None end
  end.

(** ** The destructor

    [~HttpClient] cancels the operations of the active actions, waits until
    none is active, and deletes those of the pool. *)
Record Dying : Type := mkDying {
  dy_client : S;
  dy_cancelled : gset nat;    (** operations that NNG has been told to cancel *)
}.

Definition in_flight (s : S) (p : nat) : bool :=
  match a_op <$> c_actions s !! p with Some OpNone | None => false | _ => true end.

(** [aio.cancel()] of each active action: without effect where no operation
    is in progress. *)
Definition cancel_active (s : S) : Dying := mkDying s (filter (λ p, in_flight s p) (c_active s)).

(** The action whose [aio.wait()] the loop calls next; [None]: the loop ends. *)
Definition waits_for (d : Dying) : option nat := next_of (c_active (dy_client d)).

(** What can happen meanwhile.  A cancelled operation may still end as it
    would have. *)
Definition dying_step (d : Dying) (e : event) : option (result exn unit * Dying) :=
  match e with
  | EComplete p _ => '(r, s) ← step (dy_client d) e; Some (r, mkDying s (dy_cancelled d ∖ {[p]}))
  | EFinish _ => '(r, s) ← step (dy_client d) e; Some (r, mkDying s (dy_cancelled d))
  | _ => None
  end.
Definition dying_run : Dying → list event → option Dying := run_events dying_step.

(** The end: the idle actions are deleted. *)
Definition delete_idle (s : S) : result exn (gmap nat A) := delete_all (c_idle s) (c_actions s).

End Ops.
Arguments event : clear implicits.
Arguments Dying : clear implicits.
End HttpOps.

(** ** [HttpClient_Box]

    [HttpClient_Box::Delegate]: the queries pending, with whether they were
    sent and their promises; [newQueryID]; whether any connection was ever
    made; and the shared states of the promises, in the order of creation. *)
Record HttpDelegate (msg : Type) : Type := mkHttpDelegate {
  hd_pending : gmap QueryID Pending;
  hd_newQueryID : QueryID;
  hd_connected : bool;
  hd_futures : list (future (option msg));
}.
Arguments mkHttpDelegate {msg} _ _ _ _.
Arguments hd_pending {msg} _.
Arguments hd_newQueryID {msg} _.
Arguments hd_connected {msg} _.
Arguments hd_futures {msg} _.

Module HttpBox.
Section Box.
Context {msg : Type}.
Abbreviation D := (HttpDelegate msg).

Definition new_delegate : D := mkHttpDelegate ∅ 0 false [].

(** [getFuture]: the number of the shared state. *)
Definition getFuture (qid : QueryID) : M exn D nat :=
  d ← get;
  match hd_pending d !! qid with
  | Some p =>
      if negb (qid =? hd_newQueryID d)
      then throw (NngException internal (lit "Inconsistent Query ID"))
      else modify (λ d, mkHttpDelegate (hd_pending d) 0 (hd_connected d) (hd_futures d));; mret (p_promise p)
  | None => throw (NngException internal (lit "Inconsistent Query ID"))
  end.

Definition conn_open (d : D) : D := mkHttpDelegate (hd_pending d) (hd_newQueryID d) true (hd_futures d).

(** [async_prep]: [emplace] keeps an entry that is already there. *)
Definition prep (id : QueryID) (query : msg) (d : D) : (exn + option msg) * D :=
  (inr (Some query),
   mkHttpDelegate
     match hd_pending d !! id with
     | Some _ => hd_pending d
     | None => <[id := mkPending false (length (hd_futures d))]> (hd_pending d)
     end
     id (hd_connected d) (hd_futures d ++ [FPending])).

Definition sent (id : QueryID) (d : D) : D :=
  match hd_pending d !! id with
  | Some p => mkHttpDelegate (<[id := mkPending true (p_promise p)]> (hd_pending d)) (hd_newQueryID d)
                (hd_connected d) (hd_futures d)
  | None => d
  end.

(** The promise of a query is fulfilled and the query forgotten. *)
Definition fulfil (id : QueryID) (f : Pending → future (option msg)) (d : D) : D :=
  match hd_pending d !! id with
  | Some p => mkHttpDelegate (delete id (hd_pending d)) (hd_newQueryID d) (hd_connected d)
                (<[p_promise p := f p]> (hd_futures d))
  | None => d
  end.

Definition recv (id : QueryID) (response : option msg) (d : D) : D := fulfil id (λ _, FValue response) d.

Definition stage (connected sent : bool) : bytes :=
  if connected
  then (if sent then lit "HTTP response reception" else lit "HTTP request transmission")
  else lit "HTTP connection establishment".

Definition error (id : QueryID) (status : nng_error) (d : D) : D :=
  fulfil id (λ p, FException (NngException status (stage (hd_connected d) (p_sent p)))) d.

#[export] Instance HttpDelegate_handler : HttpHandler (HttpDelegate msg) msg := {
  h_prep := prep;
  h_sent := sent;
  h_progress := λ _ _ _ d, d;
  h_recv := recv;
  h_error := error;
  httpConn_open := λ _, conn_open;
  httpConn_close := λ _ d, d;
}.

(** [request]: between the two calls the mutexes are free, and callbacks and
    other requests may run: [interleaved] is what they do. *)
Definition request `{NngBuffer msg} (fresh : nat) (m : msg)
    (interleaved : HttpClient D msg → HttpClient D msg) : M exn (HttpClient D msg) nat :=
  qid ← HttpOps.request fresh m;
  modify interleaved;;
  s ← get;
  match w_handler (c_world s) with
  | Some d =>
      let '(r, d') := getFuture qid d in
      modify (HttpOps.set_handler (Some d'));;
      lift r
  | None => fail NullDeref
  end.

(** The states of a box: requests, completions and callbacks, and futures
    asked for, from the state that the constructor leaves. *)
Inductive box_reachable `{NngBuffer msg} : HttpClient D msg → Prop :=
| box_new : box_reachable (HttpOps.set_handler (Some new_delegate) HttpOps.new)
| box_step s e r s' :
    box_reachable s → (∀ h, e ≠ HttpOps.EInitialize h) → e ≠ HttpOps.EExpire →
    HttpOps.step s e = Some (r, s') → (∀ f, r ≠ Fault f) → box_reachable s'
| box_future s d qid r d' :
    box_reachable s → w_handler (c_world s) = Some d → getFuture qid d = (r, d') →
    box_reachable (HttpOps.set_handler (Some d') s).

End Box.
End HttpBox.
