(* ===== verification/HttpConstruct.v ===== *)
(** * The HTTP client: construction

    The constructors of [HttpClient] and [HttpClient_Box]
    ([src/telling/http_client.cpp]).  What NNG does for them is a parameter:
    the parsed URL, the client of a host, and the configuration of TLS, which
    is made when the scheme of the URL is ["https"]. *)
From stdpp Require Import gmap.
From S2P Require Import Prelude.
From S2P Require Import Nng.
From S2P Require Import MsgUtil.
From S2P Require Import HttpClient.

(** - [u_scheme]: the member of an [nng_url];
    - [make_client]: [nng::http::client(host)];
    - [make_tls]: [nng::tls::config] in client mode;
    - [auth_none]: [config_auth_mode] with [none];
    - [set_tls]: [nng::http::client::set_tls]. *)
Class NngHttp (url client tls : Type) : Type := {
  u_scheme : url → bytes;
  make_client : url → result exn client;
  make_tls : result exn tls;
  auth_none : tls → result exn tls;
  set_tls : tls → client → result exn client;
}.

Module HttpNew.
Section New.
Context {url client tls H msg : Type} `{NngHttp url client tls} `{NngBuffer msg} {Hh : HttpHandler H msg}.

(** The members [client] and [tls], and the rest. *)
Record Constructed : Type := mkConstructed {
  k_client : client;
  k_tls : option tls;
  k_state : HttpClient H msg;
}.

(** [HttpClient(host, handler)]. *)
Definition new_client (host : url) (handler : option H) : result exn Constructed :=
  c ← make_client host;
  ct ← (if bool_decide (u_scheme host = lit "https")
        then t ← make_tls; t ← auth_none t; c ← set_tls t c; Ret (c, Some t)
        else Ret (c, None));
  match HttpOps.initialize handler HttpOps.new with
  | (Ret _, s) => Ret (mkConstructed (fst ct) (snd ct) s)
  | (Throw e, _) => Throw e
  | (Fault f, _) => Fault f
  end.

End New.
Arguments Constructed : clear implicits.

Section Box.
Context {url client tls msg : Type} `{NngHttp url client tls} `{NngBuffer msg}.
#[local] Existing Instance HttpBox.HttpDelegate_handler.

(** [HttpClient_Box(host)]: the base with no handler, then [_init]. *)
Definition new_box (host : url) : result exn (Constructed client tls (HttpDelegate msg) msg) :=
  k ← new_client (H := HttpDelegate msg) (msg := msg) host None;
  match HttpOps.initialize (Some HttpBox.new_delegate) (k_state k) with
  | (Ret _, s) => Ret (mkConstructed (k_client k) (k_tls k) s)
  | (Throw e, _) => Throw e
  | (Fault f, _) => Fault f
  end.

End Box.
End HttpNew.

(** * Theorems *)
Module HttpNewFacts.
Import HttpNew.

Section Facts.
Context {url client tls msg : Type} {Hn : NngHttp url client tls} {Hm : NngMsg msg} {Hb : NngBuffer msg}.
#[local] Existing Instance HttpBox.HttpDelegate_handler.

(** A box that is constructed is in the first of the states that the theorems
    about boxes start from, and uses TLS if and only if its URL says so. *)
Lemma box_constructed host (k : Constructed client tls (HttpDelegate msg) msg) :
  new_box host = Ret k →
  HttpBox.box_reachable (k_state k) ∧ (is_Some (k_tls k) ↔ u_scheme host = lit "https").
Proof.
  unfold new_box, new_client, mbind, result_bind. destruct (make_client host) as [c| |]; [|done..].
  case_bool_decide as Hs.
  - destruct make_tls as [t| |]; [|done..]. destruct (auth_none t) as [t'| |]; [|done..].
    destruct (set_tls t' c) as [c'| |]; [|done..]. simpl. intros [= <-]. split; [apply HttpBox.box_new|]. simpl. naive_solver.
  - simpl. intros [= <-]. split; [apply HttpBox.box_new|]. simpl. split; [by intros [] | done].
Qed.

(** Nothing but NNG's own errors keeps it from being constructed. *)
Lemma box_refused host e :
  new_box (msg := msg) host = Throw e →
  make_client host = Throw e ∨ u_scheme host = lit "https" ∧
    (make_tls = Throw e ∨ ∃ t, auth_none t = Throw e ∨ ∃ c, set_tls t c = Throw e).
Proof.
  unfold new_box, new_client, mbind, result_bind. destruct (make_client host) as [c|e'|]; [|intros [= <-]; by left |done].
  case_bool_decide as Hs; [|done]. destruct make_tls as [t|e'|]; [|intros [= <-]; eauto |done].
  destruct (auth_none t) as [t'|e'|] eqn:Ea; [|intros [= <-]; eauto 8 |done].
  destruct (set_tls t' c) as [c'|e'|] eqn:Es; [done |intros [= <-]; eauto 10 |done].
Qed.

End Facts.
End HttpNewFacts.
