(* ===== verification/HttpClientFacts.v ===== *)
(** * The HTTP client: its pool, its exchanges and its failures

    Theorems about [HttpClient] with any handler; their witnesses, and the
    handler of [HttpClient_Box], are in [HttpBoxFacts]. *)
From stdpp Require Import gmap.
From S2P Require Import Prelude.
From S2P Require Import Nng.
From S2P Require Import MsgUtil.
From S2P Require Import MsgLayout.
From S2P Require Import MsgView.
From S2P Require Import MsgParse.
From S2P Require Import ClientRequest.
From S2P Require Import HttpClient.

Module HttpFacts.
Import Http HttpOps.

(** Sets with an element taken out. *)
Lemma notin_removed (p : nat) (X : gset nat) : p ∉ X ∖ {[p]}.
Proof. set_solver. Qed.
Lemma in_removed (p q : nat) (X : gset nat) : q ≠ p → (q ∈ X ∖ {[p]} ↔ q ∈ X).
Proof. set_solver. Qed.
Lemma removed_subset (p : nat) (X : gset nat) : X ∖ {[p]} ⊆ X.
Proof. set_solver. Qed.

Section Facts.
Context {H msg : Type} {Hmsg : NngMsg msg} {Hbuf : NngBuffer msg} {Hlaws : NngBufferLaws msg} {Hops : HttpHandler H msg}.
Implicit Types (a : Action msg) (w : HttpWorld H msg) (s : HttpClient H msg).

(** ** The life of an action

    The states an action can be in: out of use, waiting for an operation, or
    between the two parts of its callback. *)
Definition act_ok (active : bool) (a : Action msg) : Prop :=
  match active, a_state a, a_op a, a_callback a, a_conn a, a_req a, a_res a with
  | false, IDLE, OpNone, None, None, None, None => True
  | true, CONNECT, OpConnect, None, None, Some _, None => True
  | true, CONNECT, OpNone, Some false, _, Some _, None => True
  | true, SEND, OpWrite c _, None, Some c', Some _, None => c = c'
  | true, SEND, OpNone, Some false, Some _, _, None => True
  | true, RECV, OpRead c i n, None, Some c', _, Some r =>
      c = c' ∧ i = a_count a ∧ n = 4096%nat ∧ length (msg_body r) = (a_count a + 4096)%nat
  | true, RECV, OpNone, Some false, Some _, _, Some r => (a_count a ≤ length (msg_body r) ≤ a_count a + 4096)%nat
  | true, (CONNECT | SEND | RECV), OpNone, Some true, None, None, None => True
  | _, _, _, _, _, _, _ => False
  end.

(** The connections of the others stay open and theirs; while the handler
    lives no other connection appears. *)
Record conn_step (alive : Prop) (X : gset conn) (c : option conn) (X' : gset conn) (c' : option conn) : Prop := {
  cs_held d : c' = Some d → d ∈ X';
  cs_others d : d ∈ X → c ≠ Some d → d ∈ X' ∧ c' ≠ Some d;
  cs_all : alive → ∀ d, d ∈ X' → c' ≠ Some d → d ∈ X ∧ c ≠ Some d;
}.

Definition alive w : Prop := w_handler w ≠ None.

Lemma conn_step_refl al X c : (∀ d, c = Some d → d ∈ X) → conn_step al X c X c.
Proof. by split. Qed.

Lemma conn_step_open al X d : d ∉ X → conn_step al X None ({[d]} ∪ X) (Some d).
Proof. split; set_solver. Qed.

Lemma conn_step_close al X d : conn_step al X (Some d) (X ∖ {[d]}) None.
Proof. split; set_solver. Qed.

Lemma conn_step_lost al X d : (al → False) → d ∉ X → conn_step al X None ({[d]} ∪ X) None.
Proof. split; set_solver. Qed.

Lemma conn_step_brief al X d : d ∉ X → conn_step al X None (({[d]} ∪ X) ∖ {[d]}) None.
Proof. split; set_solver. Qed.


Lemma conn_step_trans al X1 c1 X2 c2 X3 c3 :
  conn_step al X1 c1 X2 c2 → conn_step al X2 c2 X3 c3 → conn_step al X1 c1 X3 c3.
Proof.
  intros [_ B1 C1] [A2 B2 C2]. split; [done | |].
  - intros d Hd Hn. destruct (B1 d Hd Hn). by apply B2.
  - intros Hal d Hd Hn. destruct (C2 Hal d Hd Hn). by apply C1.
Qed.

(** What the handler makes of a call, progress apart. *)
Definition tell (q : QueryID) (h : H) (c : http_call msg) : H :=
  match c with
  | HOpen c => httpConn_open c h
  | HSent => h_sent q h
  | HRecv m => h_recv q m h
  | HError e => h_error q e h
  | HClose c => httpConn_close c h
  | HPrep | HProgress _ => h
  end.

(** The world after calls of the handler, with the connections [X]. *)
Definition says (q : QueryID) (cs : list (http_call msg)) (X : gset conn) w : HttpWorld H msg :=
  mkWorld ((λ h, fold_left (tell q) cs h) <$> w_handler w) X (w_written w) (w_calls w ++ map (pair q) cs).

Lemma says_nil q w : says q [] (w_conns w) w = w.
Proof. unfold says. simpl. rewrite app_nil_r. by destruct w as [[h|] ? ? ?]. Qed.

Lemma says_handler q cs X w : w_handler (says q cs X w) = None ↔ w_handler w = None.
Proof. simpl. by destruct (w_handler w). Qed.

Lemma says_says q cs cs' X X' w : says q cs' X' (says q cs X w) = says q (cs ++ cs') X' w.
Proof.
  unfold says. simpl. rewrite map_app, <- app_assoc. f_equal. destruct (w_handler w); [|done].
  simpl. by rewrite fold_left_app.
Qed.

(** What the handler hears when the connection of an action is closed. *)
Definition farewell w a : list (http_call msg) :=
  if bool_decide (w_handler w = None) then []
  else (if complete (a_completion a) || View.implicit (a_completion a) then [HRecv (a_res a)] else [])
       ++ match a_conn a with Some c => [HClose c] | None => [] end.

Definition conns_left w a : gset conn :=
  match a_conn a with Some c => w_conns w ∖ {[c]} | None => w_conns w end.

Definition cleared a : Action msg := set_res None (set_req None (set_conn None a)).

Lemma hang_up_eq w a :
  hang_up (w, a) = (Ret tt, (says (a_queryID a) (farewell w a) (conns_left w a) w, cleared a)).
Proof.
  destruct a as [q op req res c st cm n cb], w as [h X wr cs].
  unfold hang_up, farewell, conns_left, cleared, says, call, upd, mbind, M_bind, modify, get, mret, M_ret. cbn.
  destruct h as [h|], c as [c|], (complete cm || View.implicit cm); cbn; rewrite <- ?app_assoc, ?app_nil_r; reflexivity.
Qed.

Lemma conn_step_hang_up al w a :
  (∀ d, a_conn a = Some d → d ∈ w_conns w) → conn_step al (w_conns w) (a_conn a) (conns_left w a) None.
Proof. unfold conns_left. destruct (a_conn a); intros; [apply conn_step_close | by apply conn_step_refl]. Qed.

(** ** The two parts of the callback *)

Record called (o : outcome) w a w' a' : Prop := {
  cd_ok : act_ok true a';
  cd_callback : is_Some (a_callback a');
  cd_query : a_queryID a' = a_queryID a;
  cd_conns : conn_step (alive w) (w_conns w) (a_conn a) (w_conns w') (a_conn a');
  cd_alive : w_handler w' = None ↔ w_handler w = None;
}.

Lemma on_read_ok o w a r :
  a_res a = Some r → (a_count a + count o ≤ length (msg_body r))%nat → w_handler w ≠ None →
  ∃ w' c, on_read o (w, a) = (Ret tt, (w', set_completion c (set_res (Some (realloc r (a_count a + count o)))
      (set_count (a_count a + count o)%nat a))))
    ∧ w_conns w' = w_conns w ∧ w_written w' = w_written w ∧ (w_handler w' = None ↔ w_handler w = None)
    ∧ let body := take (a_count a + count o) (msg_body r) in
      match View.parse REPLY body with
      | Ret v => View.completion v = Ret c ∧ w_handler w' = h_progress (a_queryID a) c v <$> w_handler w
          ∧ w_calls w' = w_calls w ++ [(a_queryID a, HProgress c)]
      | _ => w' = w ∧ c = a_completion a
      end.
Proof.
  intros Er Hn Hw. unfold on_read, upd, call, mbind, M_bind, modify, get, deref, noexcept, lift, mret, M_ret. simpl.
  rewrite Er. simpl. rewrite realloc_cut by done.
  pose proof (ParseFacts.parse_total REPLY (take (a_count a + count o) (msg_body r))) as Ht.
  destruct (View.parse REPLY _) as [v|e|f] eqn:Ev; [| |done].
  - destruct (ParseFacts.parse_completion _ _ _ Ev) as [c Ec]. rewrite Ec. simpl.
    eexists _, c. split; [reflexivity|]. simpl. split_and!; try done. by destruct (w_handler w).
  - eexists w, (a_completion a). split_and!; try done.
Qed.

(** The rest of the first part, after the [switch]. *)
Definition conclude (d : bool) : M exn (HttpWorld H msg * Action msg) unit :=
  s ← get;
  let disconnect := d || complete (a_completion s.2) in
  (if disconnect then hang_up else mret tt);;
  upd (set_callback (Some disconnect)).

Lemma conclude_eq d w a :
  conclude d (w, a) = (Ret tt,
    if d || complete (a_completion a)
    then (says (a_queryID a) (farewell w a) (conns_left w a) w, set_callback (Some true) (cleared a))
    else (w, set_callback (Some false) a)).
Proof.
  unfold conclude. erewrite bind_run by reflexivity. simpl. destruct (d || _).
  - by erewrite bind_run by apply hang_up_eq.
  - done.
Qed.

(** An action in the middle of its callback. *)
Record dispatched d w a w1 a1 : Prop := {
  ds_op : a_op a1 = OpNone;
  ds_state : a_state a1 = a_state a;
  ds_query : a_queryID a1 = a_queryID a;
  ds_conns : conn_step (alive w) (w_conns w) (a_conn a) (w_conns w1) (a_conn a1);
  ds_alive : w_handler w1 = None ↔ w_handler w = None;
  ds_goes_on : d = false → act_ok true (set_callback (Some false) a1);
}.

Lemma conclude_ok o d w a w1 a1 :
  a_state a ≠ IDLE → dispatched d w a w1 a1 →
  ∃ w' a', conclude d (w1, a1) = (Ret tt, (w', a')) ∧ called o w a w' a'.
Proof.
  intros Hst [H1 H2 H3 H4 H5 H6]. rewrite conclude_eq. destruct (d || complete (a_completion a1)) eqn:Ed.
  - eexists _, _. split; [reflexivity|]. split; simpl.
    + rewrite H1, H2. by destruct (a_state a).
    + done.
    + done.
    + eapply conn_step_trans; [exact H4|]. apply conn_step_hang_up, H4.
    + rewrite <- H5. by destruct (w_handler w1).
  - apply orb_false_elim in Ed as [-> Ed]. eexists w1, _. split; [reflexivity|].
    split; try done. by apply H6.
Qed.

Definition operated_state o w a : HttpWorld H msg * Action msg := snd (operated o (w, a)).

(** The world and the action when the [switch] begins. *)
Lemma operated_ok o w a :
  act_ok true a → may_end (w_conns w) (a_op a) o = true → (∀ d, a_conn a = Some d → d ∈ w_conns w) →
  let '(w1, a1) := operated_state o w a in
  operated o (w, a) = (Ret tt, (w1, a1)) ∧ w_handler w1 = w_handler w ∧ w_calls w1 = w_calls w
  ∧ a_op a1 = OpNone ∧ a_state a1 = a_state a ∧ a_queryID a1 = a_queryID a ∧ a_conn a1 = a_conn a
  ∧ a_req a1 = a_req a ∧ a_completion a1 = a_completion a ∧ a_count a1 = a_count a
  ∧ w_conns w1 = match o with Connected c => {[c]} ∪ w_conns w | _ => w_conns w end.
Proof.
  intros Ha Hm Hc. unfold operated_state, operated, modify. destruct a as [q op req res c st cm n cb]; simpl in *.
  by destruct op, o.
Qed.

(** The actions on which an operation is in progress. *)
Inductive busy_action : Action msg → Prop :=
| busy_connect q req cm n : busy_action (mkAction q OpConnect (Some req) None None CONNECT cm n None)
| busy_send q c data req cm n : busy_action (mkAction q (OpWrite c data) (Some req) None (Some c) SEND cm n None)
| busy_recv q c req r cm n :
    length (msg_body r) = (n + 4096)%nat →
    busy_action (mkAction q (OpRead c n 4096%nat) req (Some r) (Some c) RECV cm n None).

Lemma act_busy X o a : act_ok true a → may_end X (a_op a) o = true → busy_action a.
Proof.
  destruct a as [q op req res c st cm n cb]. unfold act_ok, may_end; simpl. intros Ha Hm.
  destruct st, op, cb as [[]|], c, req, res; try done; simplify_eq; try constructor.
  all: destruct Ha as (-> & -> & -> & ?); by constructor.
Qed.

Lemma act_busy_ok a : busy_action a → act_ok true a.
Proof. by destruct 1. Qed.

Lemma dispatch_failed e w a :
  e ≠ success → w_handler w ≠ None →
  dispatch (Failed e) (w, a) =
    if is_lost e && View.implicit (a_completion a) then (Ret false, (w, a))
    else (Ret true, (says (a_queryID a) [HError e] (w_conns w) w, set_completion View.no_completion a)).
Proof.
  intros He Hw. destruct w as [[h|] X wr cs]; [|done].
  destruct e; try done; unfold dispatch, mbind, M_bind, get; simpl; destruct (View.implicit _); reflexivity.
Qed.

Lemma dispatch_ok o w a :
  busy_action a → may_end (w_conns w) (a_op a) o = true → (∀ d, a_conn a = Some d → d ∈ w_conns w) →
  let '(w1, a1) := operated_state o w a in
  ∃ d w2 a2, dispatch o (w1, a1) = (Ret d, (w2, a2)) ∧ dispatched d w a w2 a2.
Proof.
  intros Ha Hm Hc. destruct (w_handler w) as [h|] eqn:Eh.
  2: { destruct Ha, o; simpl in *; try done; unfold operated_state, dispatch, mbind, M_bind, get; simpl; rewrite Eh;
         eexists true, _, _; (split; [reflexivity|]); split; simpl; try done; try (by apply conn_step_refl).
       apply conn_step_lost; [unfold alive; by rewrite Eh | by apply negb_true_iff, bool_decide_eq_false in Hm]. }
  assert (w_handler w ≠ None) as Hal by (by rewrite Eh).
  assert (aio_result o = success → o = Failed success ∨ ∀ e, o ≠ Failed e) as Hok by (destruct o; naive_solver).
  destruct (decide (aio_result o = success)) as [Es|Es].
  - destruct (Hok Es) as [->|Ho]; [by destruct Ha; simpl in Hm|].
    destruct Ha as [q req cm n|q c data req cm n|q c req r cm n Hr], o as [e|d|k|data']; cbn [may_end a_op] in Hm; try done;
      try (by destruct (Ho e)); unfold operated_state; simpl.
    + eexists false, _, _. unfold dispatch, mbind, M_bind, get. simpl. rewrite Eh. split; [reflexivity|].
      split; simpl; try done.
      apply conn_step_open. by apply negb_true_iff, bool_decide_eq_false in Hm.
    + eexists false, _, _. unfold dispatch, mbind, M_bind, get. simpl. rewrite Eh. split; [reflexivity|].
      split; simpl; try done; by apply conn_step_refl.
    + apply Nat.leb_le in Hm. set (a1 := set_op OpNone _).
      assert (length (msg_body (store r n data')) = (n + 4096)%nat) as Hl.
      { rewrite store_body by lia. rewrite !length_app, length_take, length_drop. lia. }
      destruct (on_read_ok (Read data') w a1 (store r n data')) as (w' & c' & E & E1 & _ & E2 & _); [done | change (n + length data' <= length (msg_body (store r n data')))%nat; lia | done |].
      eexists false, w', _. unfold dispatch, mbind, M_bind, get. simpl. rewrite Eh. simpl in E. rewrite E.
      split; [reflexivity|]. split; simpl; try done.
      * rewrite E1. by apply conn_step_refl.
      * intros _. rewrite realloc_cut, length_take by lia. lia.
  - destruct o as [e|d|k|data']; try done. simpl in Es.
    assert (operated_state (Failed e) w a = (w, set_op OpNone a)) as -> by (by destruct Ha).
    assert (∀ a2, a_conn a2 = a_conn a → conn_step (alive w) (w_conns w) (a_conn a) (w_conns w) (a_conn a2)) as Hcs.
    { intros a2 ->. by apply conn_step_refl. }
    rewrite (dispatch_failed e w _ Es Hal). destruct (is_lost e && _) eqn:El.
    + eexists false, _, _. split; [reflexivity|]. split; [by destruct Ha.. | by apply Hcs | done |].
      intros _. destruct Ha; simpl; try done. lia.
    + eexists true, _, _. split; [reflexivity|]. split; [by destruct Ha.. | by apply Hcs | apply says_handler | done].
Qed.

Lemma http_callback_ok o w a :
  busy_action a → may_end (w_conns w) (a_op a) o = true → (∀ d, a_conn a = Some d → d ∈ w_conns w) →
  ∃ w' a', callback o (w, a) = (Ret tt, (w', a')) ∧ called o w a w' a'.
Proof.
  intros Ha Hm Hc. pose proof (operated_ok o w a (act_busy_ok a Ha) Hm Hc) as Ho.
  pose proof (dispatch_ok o w a Ha Hm Hc) as Hd. destruct (operated_state o w a) as [w1 a1].
  destruct Ho as [Ho _], Hd as (d & w2 & a2 & E & Hd).
  destruct (conclude_ok o d w a w2 a2) as (w' & a' & E' & Hcd); [by destruct Ha | done |].
  exists w', a'. split; [|done]. unfold callback. rewrite (bind_run _ _ _ _ _ Ho), (bind_run _ _ _ _ _ E). exact E'.
Qed.

(** The actions whose callback has not taken the mutex yet. *)
Inductive called_action : bool → Action msg → Prop :=
| called_done q st cm n : st ≠ IDLE → called_action true (mkAction q OpNone None None None st cm n (Some true))
| called_connect q req c cm n : called_action false (mkAction q OpNone (Some req) None c CONNECT cm n (Some false))
| called_send q req res c cm n : called_action false (mkAction q OpNone req res (Some c) SEND cm n (Some false))
| called_recv q req r c cm n :
    (n ≤ length (msg_body r) ≤ n + 4096)%nat →
    called_action false (mkAction q OpNone req (Some r) (Some c) RECV cm n (Some false)).

Lemma act_called d a : act_ok true a → a_callback a = Some d → called_action d a.
Proof.
  destruct a as [q op req res c st cm n cb]. simpl. intros Ha ->. unfold act_ok in Ha. simpl in Ha.
  destruct st, op, d; try done; destruct c; try done; destruct req, res; try done; by constructor.
Qed.

(** What follows the first part of the callback. *)
Lemma proceed_ok d w a :
  called_action d a →
  (∃ on a', proceed d (w, a) = (Ret on, (w, a')) ∧ act_ok on a' ∧ a_conn a' = a_conn a)
  ∨ (∃ a', proceed d (w, a) = (Fault NullDeref, (w, a')) ∧ a_state a = CONNECT ∧ a_conn a = None ∧ d = false).
Proof.
  unfold proceed, upd, deref, start_op, mbind, M_bind, modify, get, mret, M_ret, fail.
  destruct 1 as [q st cm n Hst|q req [c|] cm n|q req res c cm n|q req r c cm n Hr]; cbn.
  - left. by eexists false, _.
  - left. eexists true, _. split; [reflexivity|]. by split.
  - right. by eexists.
  - left. eexists true, _. split; [reflexivity|]. split; [|done]. cbn. by rewrite sized_length.
  - left. eexists true, _. split; [reflexivity|]. split; [|done]. cbn. split_and!; try done.
    destruct (Nat.le_gt_cases (n + 4096) (length (msg_body r))) as [Hle|Hlt].
    + rewrite realloc_cut, length_take by exact Hle. lia.
    + by apply realloc_grow, Nat.lt_le_incl.
Qed.

(** ** The invariant of the client *)
Record Inv s : Prop := {
  inv_act p a : c_actions s !! p = Some a → act_ok (bool_decide (p ∈ c_active s)) a;
  inv_active p : p ∈ c_active s → is_Some (c_actions s !! p);
  inv_nodup : NoDup (c_idle s);
  inv_idle p : p ∈ c_idle s → is_Some (c_actions s !! p) ∧ p ∉ c_active s;
  inv_conn p a c : c_actions s !! p = Some a → a_conn a = Some c → c ∈ w_conns (c_world s);
  inv_owner p p' a a' c :
    c_actions s !! p = Some a → c_actions s !! p' = Some a' → a_conn a = Some c → a_conn a' = Some c → p = p';
}.

(** One action and the world change. *)
Lemma Inv_change al s p a w' a' active' idle' n' :
  Inv s → c_actions s !! p = Some a →
  conn_step al (w_conns (c_world s)) (a_conn a) (w_conns w') (a_conn a') →
  act_ok (bool_decide (p ∈ active')) a' →
  (∀ q, q ≠ p → (q ∈ active' ↔ q ∈ c_active s)) →
  NoDup idle' → (∀ q, q ∈ idle' → q ∉ active' ∧ (q = p ∨ q ∈ c_idle s)) →
  Inv (mkHttp w' n' (<[p := a']> (c_actions s)) active' idle').
Proof.
  intros HI Ha [C1 C2 _] Hok Hact Hnd Hidle. split; simpl.
  - intros q b. destruct (decide (q = p)) as [->|Hne].
    + rewrite lookup_insert_eq. by intros [= <-].
    + rewrite lookup_insert_ne by done. intros Hb. rewrite (bool_decide_ext _ _ (Hact q Hne)). by apply HI.
  - intros q Hq. destruct (decide (q = p)) as [->|Hne]; [by rewrite lookup_insert_eq|].
    rewrite lookup_insert_ne by done. by apply HI, Hact.
  - done.
  - intros q Hq. destruct (Hidle q Hq) as [Hna Hi]. split; [|exact Hna].
    destruct (decide (q = p)) as [->|Hne]; [by rewrite lookup_insert_eq|].
    rewrite lookup_insert_ne by done. destruct Hi as [|Hi]; [done | apply (inv_idle s HI q Hi)].
  - intros q b c Hb Hc. destruct (decide (q = p)) as [->|Hne].
    + rewrite lookup_insert_eq in Hb. injection Hb as <-. by apply C1.
    + rewrite lookup_insert_ne in Hb by done. apply C2; [by eapply HI|].
      intros Hc'. apply Hne. by eapply (inv_owner s HI).
  - assert (∀ q b c, q ≠ p → c_actions s !! q = Some b → a_conn b = Some c → a_conn a' ≠ Some c) as Hother.
    { intros q b c Hne Hb Hc. apply C2; [by eapply HI|]. intros Hc'. apply Hne. by eapply (inv_owner s HI). }
    intros q q' b b' c Hb Hb' Hc Hc'. destruct (decide (q = p)) as [->|Hne], (decide (q' = p)) as [->|Hne']; try done;
      rewrite ?lookup_insert_eq, ?lookup_insert_ne in * by done; simplify_eq.
    + by destruct (Hother q' b' c Hne' Hb' Hc').
    + by destruct (Hother q b c Hne Hb Hc).
    + by eapply (inv_owner s HI).
Qed.

Lemma Inv_new : Inv new.
Proof. split; simpl; try set_solver. constructor. Qed.

Lemma Inv_world s w : Inv s → w_conns w = w_conns (c_world s) → Inv (set_world w s).
Proof. intros [] E. split; simpl; rewrite ?E; done. Qed.

Lemma on_action_eq {B} p (m : M exn (HttpWorld H msg * Action msg) B) s a r w a' :
  c_actions s !! p = Some a → m (c_world s, a) = (r, (w, a')) →
  on_action p m s = (r, set_actions (<[p := a']> (c_actions s)) (set_world w s)).
Proof. intros E1 E2. unfold on_action. by rewrite E1, E2. Qed.

Lemma idle_ok s p a : Inv s → p ∉ c_active s → c_actions s !! p = Some a → act_ok false a.
Proof. intros HI Hp Ha. pose proof (inv_act s HI p a Ha) as Hok. by rewrite bool_decide_false in Hok. Qed.

Lemma act_idle a : act_ok false a → ∃ q cm n, a = mkAction q OpNone None None None IDLE cm n None.
Proof.
  destruct a as [q op req res c st cm n cb]. unfold act_ok. simpl.
  destruct st, op, cb, c, req, res; try done. by exists q, cm, n.
Qed.

(** An action is taken from the pool or created. *)
Lemma http_allocate_ok fresh s :
  Inv s → c_actions s !! fresh = None →
  ∃ p a s1, allocate fresh s = (Ret p, s1) ∧ Inv s1 ∧ c_actions s1 !! p = Some a
    ∧ (p ∉ c_idle s1) ∧ (p ∉ c_active s1) ∧ c_world s1 = c_world s ∧ c_active s1 = c_active s
    ∧ c_nextQueryID s1 = c_nextQueryID s
    ∧ match c_idle s with [] => a = new_action ∧ c_idle s1 = [] | q :: rest => p = q ∧ c_actions s !! p = Some a ∧ c_idle s1 = rest end.
Proof.
  intros HI Hf. unfold allocate, mbind, M_bind, get, modify, mret, M_ret.
  assert (fresh ∉ c_active s) as Hna. { intros Hin. destruct (inv_active s HI fresh Hin). congruence. }
  destruct (c_idle s) as [|p rest] eqn:Ei.
  - exists fresh, new_action. eexists. split; [reflexivity|]. split.
    + split; simpl.
      * intros q b. destruct (decide (q = fresh)) as [->|Hne].
        -- rewrite lookup_insert_eq, bool_decide_false by done. by intros [= <-].
        -- rewrite lookup_insert_ne by done. by apply HI.
      * intros q Hq. rewrite lookup_insert_ne by set_solver. by apply (inv_active s HI).
      * rewrite Ei. constructor.
      * rewrite Ei. by intros q Hq%elem_of_nil.
      * intros q b c. destruct (decide (q = fresh)) as [->|Hne].
        -- rewrite lookup_insert_eq. by intros [= <-].
        -- rewrite lookup_insert_ne by done. by apply HI.
      * intros q q' b b' c Hb Hb' Hc Hc'.
        apply lookup_insert_Some in Hb as [[_ <-]|[_ Hb]]; [done|].
        apply lookup_insert_Some in Hb' as [[_ <-]|[_ Hb']]; [done|]. by eapply (inv_owner s HI).
    + simpl. rewrite lookup_insert_eq, Ei. split_and!; try done. by intros Hq%elem_of_nil.
  - destruct (inv_idle s HI p) as [[a Ha] Hp]; [rewrite Ei; left|].
    pose proof (inv_nodup s HI) as Hn. rewrite Ei in Hn. apply NoDup_cons in Hn as [Hn1 Hn2].
    exists p, a. eexists. split; [reflexivity|]. split; [|by split_and!].
    split; simpl; try apply HI; [done|]. intros q Hq. apply HI. rewrite Ei. by right.
Qed.

(** The action with its request, about to connect. *)
Definition connecting (q : QueryID) (req : msg) a : Action msg :=
  set_op OpConnect (set_req (Some req) (set_state CONNECT (set_queryID q a))).

Lemma http_request_ok fresh m s :
  Inv s → c_actions s !! fresh = None →
  ∃ r s', request fresh m s = (r, s') ∧ Inv s' ∧ w_conns (c_world s') = w_conns (c_world s)
    ∧ match r with Fault _ => False | _ => True end.
Proof.
  intros HI Hf. unfold request. erewrite bind_run by reflexivity. cbv beta.
  destruct (w_handler (c_world s)) as [h|] eqn:Eh; [|by eexists _, _].
  destruct (http_allocate_ok fresh s HI Hf) as (p & a & s1 & E & HI1 & Ha & Hi & Hact & Hw & _ & _ & _).
  rewrite (bind_run _ _ _ _ _ E). erewrite bind_run by reflexivity. cbv beta.
  set (q := c_nextQueryID s1).
  erewrite bind_run by (eapply on_action_eq; [exact Ha | reflexivity]). rewrite modify_run.
  destruct (act_idle a (idle_ok s1 p a HI1 Hact Ha)) as (qa & cm & n & ->).
  set (s2 := set_nextQueryID (u32 (q + 1)) _).
  assert (Inv s2) as HI2.
  { eapply (Inv_change True s1 p _ _ _ _ _ _ HI1 Ha); try done.
    - by rewrite bool_decide_false.
    - apply HI1.
    - intros q' Hq'. split; [by apply (inv_idle s1 HI1) | by right]. }
  assert (c_actions s2 !! p = Some (mkAction q OpNone None None None IDLE cm n None)) as Ha2 by (simpl; apply lookup_insert_eq).
  destruct (h_prep q m h) as [r h'] eqn:Ep. rewrite modify_run.
  set (s3 := set_handler (Some h') s2).
  assert (Inv s3) as HI3 by (apply Inv_world; done).
  destruct r as [e|[req|]].
  - eexists _, s3. split; [reflexivity|]. by rewrite <- Hw.
  - assert (c_actions s3 !! p = Some (mkAction q OpNone None None None IDLE cm n None)) as Ha3 by exact Ha2.
    erewrite bind_run by (eapply on_action_eq; [exact Ha3 | reflexivity]). rewrite modify_run.
    erewrite bind_run.
    2: { eapply on_action_eq; [simpl; apply lookup_insert_eq|].
         unfold start_op, upd, mbind, M_bind, modify, get. simpl. reflexivity. }
    eexists _, _. split; [reflexivity|]. split; [|by rewrite <- Hw].
    unfold set_actions, set_world, set_active. simpl. rewrite !insert_insert_eq.
    eapply (Inv_change True s1 p _ _ _ _ _ _ HI1 Ha); simpl; try done.
    + rewrite bool_decide_true by set_solver. done.
    + set_solver.
    + apply HI1.
    + intros q' Hq'. split; [|by right]. pose proof (inv_idle s1 HI1 q' Hq'). set_solver.
  - eexists _, _. split; [reflexivity|]. split; [|by rewrite <- Hw].
    destruct HI3 as [H1 H2 H3 H4 H5 H6]. split; simpl; try done.
    + by constructor.
    + intros q' [->|Hq']%elem_of_cons; [by rewrite lookup_insert_eq | by apply H4].
Qed.

(** A callback and what follows it, on the client. *)
Lemma complete_ok s p a o :
  Inv s → c_actions s !! p = Some a → may_end (w_conns (c_world s)) (a_op a) o = true →
  ∃ w' a', on_action p (callback o) s = (Ret tt, set_actions (<[p := a']> (c_actions s)) (set_world w' s))
    ∧ called o (c_world s) a w' a' ∧ p ∈ c_active s
    ∧ Inv (set_actions (<[p := a']> (c_actions s)) (set_world w' s)).
Proof.
  intros HI Ha Hm.
  assert (p ∈ c_active s) as Hp.
  { destruct (decide (p ∈ c_active s)) as [|Hn]; [done|].
    destruct (act_idle a (idle_ok s p a HI Hn Ha)) as (q & cm & n & ->). by destruct o. }
  pose proof (inv_act s HI p a Ha) as Hok. rewrite bool_decide_true in Hok by done.
  destruct (http_callback_ok o (c_world s) a) as (w' & a' & E & Hcd); [by eapply act_busy | done | intros d; by apply (inv_conn s HI p a d) |].
  exists w', a'. split; [by eapply on_action_eq|]. split; [done|]. split; [done|].
  eapply (Inv_change _ s p a _ _ _ _ _ HI Ha); [apply Hcd | | done | apply HI |].
  - rewrite bool_decide_true by done. apply Hcd.
  - intros q Hq. split; [by apply (inv_idle s HI) | by right].
Qed.

Lemma http_finish_ok s p a d :
  Inv s → c_actions s !! p = Some a → a_callback a = Some d →
  (∃ s', finish p d s = (Ret tt, s') ∧ Inv s' ∧ c_world s' = c_world s
     ∧ (∀ q, a_conn <$> c_actions s' !! q = a_conn <$> c_actions s !! q) ∧ c_active s' ⊆ c_active s)
  ∨ (∃ s', finish p d s = (Fault NullDeref, s') ∧ a_state a = CONNECT ∧ a_conn a = None ∧ d = false).
Proof.
  intros HI Ha Hd.
  assert (p ∈ c_active s) as Hp.
  { destruct (decide (p ∈ c_active s)) as [|Hn]; [done|].
    destruct (act_idle a (idle_ok s p a HI Hn Ha)) as (q & cm & n & ->). done. }
  pose proof (inv_act s HI p a Ha) as Hok. rewrite bool_decide_true in Hok by done.
  destruct (proceed_ok d (c_world s) a (act_called d a Hok Hd)) as [(on & a' & E & Ha' & Hc)|(a' & E & ? & ? & ?)].
  2: { right. eexists. split; [|done]. unfold finish, mbind, M_bind. by rewrite (on_action_eq _ _ _ _ _ _ _ Ha E). }
  left. unfold finish. erewrite bind_run by (by eapply on_action_eq).
  assert (conn_step True (w_conns (c_world s)) (a_conn a) (w_conns (c_world s)) (a_conn a')) as Hcs.
  { rewrite Hc. apply conn_step_refl. intros x. by apply (inv_conn s HI p a x). }
  assert (∀ q, a_conn <$> <[p := a']> (c_actions s) !! q = a_conn <$> c_actions s !! q) as Hconns.
  { intros q. destruct (decide (q = p)) as [->|Hne]; [|by rewrite lookup_insert_ne].
    by rewrite lookup_insert_eq, Ha; simpl; rewrite Hc. }
  destruct on; eexists; (split; [reflexivity|]); (split; [|split; [reflexivity|split; [exact Hconns|first [reflexivity | apply removed_subset]]]]);
    eapply (Inv_change True s p a _ _ _ _ _ HI Ha Hcs); simpl.
  - by rewrite bool_decide_true.
  - done.
  - apply HI.
  - intros q Hq. split; [by apply (inv_idle s HI) | by right].
  - by rewrite bool_decide_false by apply notin_removed.
  - intros q. apply in_removed.
  - apply NoDup_app. split_and!; [apply HI | | apply NoDup_singleton].
    intros q Hq ->%list_elem_of_singleton. by apply (inv_idle s HI) in Hq as [_ ?].
  - intros q [Hq|Hq]%elem_of_app; [|apply list_elem_of_singleton in Hq as ->; split; [apply notin_removed | by left]].
    apply (inv_idle s HI) in Hq as Hq'. split; [|by right]. intros Hin%removed_subset. by destruct Hq'.
Qed.

Lemma step_ok_http s e r s' :
  Inv s → step s e = Some (r, s') →
  match r with
  | Fault f => f = NullDeref ∧ ∃ p a, e = EFinish p ∧ c_actions s !! p = Some a ∧ a_state a = CONNECT ∧ a_conn a = None
  | _ => Inv s'
  end.
Proof.
  intros HI. destruct e as [fresh m|h| |p o|p]; cbn [step].
  - case_bool_decide as Hf; [done|]. apply eq_None_not_Some in Hf.
    destruct (http_request_ok fresh m s HI Hf) as (r0 & s1 & -> & HI1 & _ & Hr). intros [= <- <-]. by destruct r0.
  - intros [= E]. unfold initialize, mbind, M_bind, get in E.
    destruct (w_handler (c_world s)), h; injection E as <- <-; try done. by apply Inv_world.
  - intros [= <- <-]. by apply Inv_world.
  - destruct (c_actions s !! p) as [a|] eqn:Ha; [|done]. simpl. destruct (may_end _ _ _) eqn:Hm; [|done].
    intros [= E]. destruct (complete_ok s p a o HI Ha Hm) as (w' & a' & E' & _ & _ & HI').
    rewrite E' in E. by injection E as <- <-.
  - destruct (c_actions s !! p) as [a|] eqn:Ha; [|done]. simpl. destruct (a_callback a) as [d|] eqn:Hd; [|done].
    simpl. intros [= E]. destruct (http_finish_ok s p a d HI Ha Hd) as [(s1 & E1 & HI1 & _)|(s1 & E1 & H1 & H2 & _)];
      rewrite E1 in E; injection E as <- <-; [done|]. split; [done|]. by exists p, a.
Qed.

Lemma reachable_Inv_http s : reachable s → Inv s.
Proof.
  induction 1 as [|s e r s' _ IH Hs Hr]; [apply Inv_new|]. pose proof (step_ok_http s e r s' IH Hs) as Hok.
  destruct r as [| |f]; [done | done | by destruct (Hr f)].
Qed.

(** C22. Whatever the interleaving of requests, completions and callbacks: an
    action in the pool is there once, is out of use and holds no connection;
    two actions never hold the same connection, and each connection held is
    open; no operation is started on an aio in use; and the only fault is the
    write on no connection after an attempt to connect that ended without one. *)
Theorem http_pool_safe s e r s' :
  reachable s → step s e = Some (r, s') →
  NoDup (c_idle s)
  ∧ (∀ p, p ∈ c_idle s → p ∉ c_active s ∧ ∃ q cm n, c_actions s !! p = Some (mkAction q OpNone None None None IDLE cm n None))
  ∧ (∀ p a c, c_actions s !! p = Some a → a_conn a = Some c → c ∈ w_conns (c_world s) ∧ p ∈ c_active s
      ∧ ∀ p' a', c_actions s !! p' = Some a' → a_conn a' = Some c → p' = p)
  ∧ (∀ f, r = Fault f → f = NullDeref ∧ ∃ p a, e = EFinish p ∧ c_actions s !! p = Some a
      ∧ a_state a = CONNECT ∧ a_conn a = None).
Proof.
  intros Hr Hs. pose proof (reachable_Inv_http s Hr) as HI. split_and!.
  - apply HI.
  - intros p Hp. destruct (inv_idle s HI p Hp) as [[a Ha] Hna]. split; [done|].
    destruct (act_idle a (idle_ok s p a HI Hna Ha)) as (q & cm & n & ->). by exists q, cm, n.
  - intros p a c Ha Hc. split; [by eapply (inv_conn s HI)|]. split.
    + destruct (decide (p ∈ c_active s)) as [|Hn]; [done|].
      destruct (act_idle a (idle_ok s p a HI Hn Ha)) as (q & cm & n & ->). done.
    + intros p' a' Ha' Hc'. by eapply (inv_owner s HI).
  - intros f ->. exact (step_ok_http s e _ s' HI Hs).
Qed.

(** ** No connection is lost while the handler lives *)
Record Tracked s : Prop := {
  trk_owned c : c ∈ w_conns (c_world s) → ∃ p a, c_actions s !! p = Some a ∧ a_conn a = Some c;
  trk_asleep : w_handler (c_world s) = None → c_active s = ∅;
}.

(** Everything owned stays owned when the owners do not change. *)
Lemma Tracked_same s s' :
  Tracked s → w_conns (c_world s') = w_conns (c_world s) →
  (∀ p a c, c_actions s !! p = Some a → a_conn a = Some c → ∃ a', c_actions s' !! p = Some a' ∧ a_conn a' = Some c) →
  (w_handler (c_world s') = None → c_active s' = ∅) → Tracked s'.
Proof.
  intros [H1 _] Hc Ha Hn. split; [|done]. intros c. rewrite Hc. intros (p & a & E1 & E2)%H1.
  destruct (Ha p a c E1 E2) as (a' & ? & ?). by exists p, a'.
Qed.

Lemma request_tracked fresh m s r s' :
  Inv s → Tracked s → c_actions s !! fresh = None → request fresh m s = (r, s') → Tracked s'.
Proof.
  intros HI HT Hf E. destruct (w_handler (c_world s)) as [h|] eqn:Eh.
  2: { unfold request, mbind, M_bind, get in E. rewrite Eh in E. by injection E as <- <-. }
  assert (∀ p a c, c_actions s !! p = Some a → a_conn a = Some c → p ∈ c_active s) as Hown.
  { intros p a c Ha Hc. destruct (decide (p ∈ c_active s)) as [|Hn]; [done|].
    by destruct (act_idle a (idle_ok s p a HI Hn Ha)) as (? & ? & ? & ->). }
  destruct (http_allocate_ok fresh s HI Hf) as (p & a & s1 & E1 & HI1 & Ha & Hi & Hact & Hw & Hact1 & _ & Hp).
  assert (∀ q, q ≠ p → c_actions s1 !! q = c_actions s !! q) as Hsame.
  { intros q Hq. unfold allocate, mbind, M_bind, get, modify, mret, M_ret in E1.
    destruct (c_idle s) as [|i rest]; injection E1 as <- <-; [|done]. simpl. by rewrite lookup_insert_ne. }
  assert (∀ q b c, c_actions s !! q = Some b → a_conn b = Some c → q ≠ p) as Hne.
  { intros q b c Hb Hc ->. apply Hact. rewrite Hact1. by eapply Hown. }
  unfold request in E. erewrite bind_run in E by reflexivity. cbv beta in E. rewrite Eh in E.
  rewrite (bind_run _ _ _ _ _ E1) in E. erewrite bind_run in E by reflexivity. cbv beta in E.
  erewrite bind_run in E by (eapply on_action_eq; [exact Ha | reflexivity]). rewrite modify_run in E.
  destruct (h_prep _ m h) as [rr h'] eqn:Ep. rewrite modify_run in E.
  destruct rr as [e|[req|]].
  - injection E as <- <-. apply (Tracked_same s); [done | by rewrite <- Hw | | done].
    intros q b c Hb Hc. exists b. split; [|done]. simpl. rewrite lookup_insert_ne by (intros ->; by eapply Hne).
    by rewrite Hsame by (by eapply Hne).
  - destruct (act_idle a (idle_ok s1 p a HI1 Hact Ha)) as (qa & cm & n & ->).
    erewrite bind_run in E by (eapply on_action_eq; [simpl; apply lookup_insert_eq | reflexivity]).
    rewrite modify_run in E.
    erewrite bind_run in E by (eapply on_action_eq; [simpl; apply lookup_insert_eq | reflexivity]).
    injection E as <- <-. apply (Tracked_same s); [done | by rewrite <- Hw | | done].
    intros q b c Hb Hc. exists b. split; [|done]. simpl. rewrite !lookup_insert_ne by (intros ->; by eapply Hne).
    by rewrite Hsame by (by eapply Hne).
  - injection E as <- <-. apply (Tracked_same s); [done | by rewrite <- Hw | | done].
    intros q b c Hb Hc. exists b. split; [|done]. simpl. rewrite lookup_insert_ne by (intros ->; by eapply Hne).
    by rewrite Hsame by (by eapply Hne).
Qed.

Lemma step_tracked s e r s' :
  Inv s → Tracked s → e ≠ EExpire → step s e = Some (r, s') → (∀ f, r ≠ Fault f) → Tracked s'.
Proof.
  intros HI HT He. destruct e as [fresh m|h| |p o|p]; cbn [step]; [| |done| |].
  - case_bool_decide as Hf; [done|]. apply eq_None_not_Some in Hf. intros [= E] _.
    destruct (request fresh m s) as [r0 s1] eqn:E1. injection E as _ <-. by eapply request_tracked.
  - intros [= E] _. unfold initialize, mbind, M_bind, get in E.
    destruct (w_handler (c_world s)) eqn:Eh, h; injection E as <- <-; try done.
    apply (Tracked_same s); [done | done | | done]. intros p a c Ha Hc. by exists a.
  - destruct (c_actions s !! p) as [a|] eqn:Ha; [|done]. simpl. destruct (may_end _ _ _) eqn:Hm; [|done].
    intros [= E] _. destruct (complete_ok s p a o HI Ha Hm) as (w' & a' & E' & Hcd & Hp & _).
    rewrite E' in E. injection E as <- <-. destruct HT as [H1 H2].
    assert (w_handler (c_world s) ≠ None) as Hal. { intros Hn. rewrite (H2 Hn) in Hp. set_solver. }
    split; simpl; [|by rewrite (cd_alive _ _ _ _ _ Hcd)].
    intros c Hc. destruct (decide (a_conn a' = Some c)) as [Hc'|Hc'].
    { exists p, a'. by rewrite lookup_insert_eq. }
    destruct (cs_all _ _ _ _ _ (cd_conns _ _ _ _ _ Hcd) Hal c Hc Hc') as [Hin Hna].
    destruct (H1 c Hin) as (q & b & Hb & Hcb). exists q, b. split; [|done].
    rewrite lookup_insert_ne; [done|]. intros ->. rewrite Ha in Hb. by injection Hb as ->.
  - destruct (c_actions s !! p) as [a|] eqn:Ha; [|done]. simpl. destruct (a_callback a) as [d|] eqn:Hd; [|done].
    simpl. intros [= E] Hr. destruct (http_finish_ok s p a d HI Ha Hd) as [(s1 & E1 & HI1 & Hw & Hc & Hact)|(s1 & E1 & _)];
      rewrite E1 in E; injection E as <- <-; [|by destruct (Hr NullDeref)].
    apply (Tracked_same s); [done | by rewrite Hw | |].
    + intros q b c Hb Hcb. specialize (Hc q). rewrite Hb in Hc. simpl in Hc. rewrite Hcb in Hc.
      destruct (c_actions s1 !! q) as [b'|]; [|done]. exists b'. split; [done|]. by injection Hc.
    + rewrite Hw. intros Hn. rewrite (trk_asleep s HT Hn) in Hact. set_solver.
Qed.

Lemma alive_Tracked s : reachable_alive s → Inv s ∧ Tracked s.
Proof.
  induction 1 as [|s e r s' _ [HI HT] He Hs Hr].
  - split; [apply Inv_new|]. split; simpl; set_solver.
  - split; [|by eapply step_tracked]. pose proof (step_ok_http s e r s' HI Hs) as Hok.
    destruct r as [| |f]; [done | done | by destruct (Hr f)].
Qed.

(** While the handler lives, the connections that NNG has open are those
    of the active actions: none is leaked, whatever fails. *)
Theorem http_connections_owned s c :
  reachable_alive s →
  (c ∈ w_conns (c_world s) ↔ ∃ p a, p ∈ c_active s ∧ c_actions s !! p = Some a ∧ a_conn a = Some c).
Proof.
  intros Hr. destruct (alive_Tracked s Hr) as [HI HT]. split.
  - intros (p & a & Ha & Hc)%(trk_owned s HT). exists p, a. split; [|done].
    destruct (decide (p ∈ c_active s)) as [|Hn]; [done|].
    by destruct (act_idle a (idle_ok s p a HI Hn Ha)) as (? & ? & ? & ->).
  - intros (p & a & _ & Ha & Hc). by eapply (inv_conn s HI).
Qed.

(** ** Exchanges *)

(** An operation ends and both parts of its callback run. *)
Definition turn (p : nat) (o : outcome) : list (event H msg) := [EComplete p o; EFinish p].

Lemma run_app s es es' : run s (es ++ es') = s' ← run s es; run s' es'.
Proof.
  revert s. induction es as [|e es IH]; intros s; simpl; [done|].
  destruct (step s e) as [[[[]| |] s']|]; simpl; done.
Qed.

Lemma run_turn s p a o w a1 d on a2 :
  c_actions s !! p = Some a → may_end (w_conns (c_world s)) (a_op a) o = true →
  callback o (c_world s, a) = (Ret tt, (w, a1)) → a_callback a1 = Some d →
  proceed d (w, a1) = (Ret on, (w, a2)) →
  run s (turn p o) = Some (mkHttp w (c_nextQueryID s) (<[p := a2]> (c_actions s))
    (if on then c_active s else c_active s ∖ {[p]}) (if on then c_idle s else c_idle s ++ [p])).
Proof.
  intros Ha Hm Hc Hd Hp. unfold turn. cbn [run step]. rewrite Ha. simpl. rewrite Hm.
  rewrite (on_action_eq _ _ _ _ _ _ _ Ha Hc). simpl. rewrite lookup_insert_eq. simpl. rewrite Hd. simpl.
  unfold finish. erewrite bind_run by (eapply on_action_eq; [simpl; apply lookup_insert_eq | exact Hp]).
  simpl. rewrite insert_insert_eq. by destruct on.
Qed.

Definition unfinished (text : bytes) : Prop :=
  match View.parse REPLY text with Ret v => ∀ c, View.completion v = Ret c → complete c = false | _ => True end.
Definition finished (text : bytes) : Prop :=
  ∃ v c, View.parse REPLY text = Ret v ∧ View.completion v = Ret c ∧ complete c = true.

(** An action that has read [text] of its reply and waits for more. *)
Definition reading (q : QueryID) (c : conn) (text : bytes) a : Prop :=
  ∃ req r cm, a = mkAction q (OpRead c (length text) 4096%nat) req (Some r) (Some c) RECV cm (length text) None
    ∧ complete cm = false ∧ take (length text) (msg_body r) = text ∧ length (msg_body r) = (length text + 4096)%nat.

Lemma callback_run o w a w1 a1 d w2 a2 :
  operated o (w, a) = (Ret tt, (w1, a1)) → dispatch o (w1, a1) = (Ret d, (w2, a2)) →
  callback o (w, a) = (Ret tt,
    if d || complete (a_completion a2)
    then (says (a_queryID a2) (farewell w2 a2) (conns_left w2 a2) w2, set_callback (Some true) (cleared a2))
    else (w2, set_callback (Some false) a2)).
Proof.
  intros E1 E2. unfold callback. rewrite (bind_run _ _ _ _ _ E1), (bind_run _ _ _ _ _ E2). apply conclude_eq.
Qed.

(** The calls of one read. *)
Definition progress (cs : list (http_call msg)) : Prop := Forall (λ c, ∃ p, c = HProgress p) cs.

Lemma read_dispatch w q c text a data :
  reading q c text a → w_handler w ≠ None → (length data ≤ 4096)%nat →
  ∃ w1 a1 w2 cm cs r req,
    operated (Read data) (w, a) = (Ret tt, (w1, a1))
    ∧ dispatch (Read data) (w1, a1) = (Ret false, (w2,
        mkAction q OpNone req (Some r) (Some c) RECV cm (length (text ++ data)) None))
    ∧ msg_body r = text ++ data
    ∧ w_conns w2 = w_conns w ∧ w_written w2 = w_written w ∧ w_calls w2 = w_calls w ++ map (pair q) cs
    ∧ progress cs ∧ (w_handler w2 = None ↔ w_handler w = None)
    ∧ (unfinished (text ++ data) → complete cm = false) ∧ (finished (text ++ data) → complete cm = true).
Proof.
  intros (req & r & cm & -> & Hcm & Ht & Hl) Hal Hd.
  set (r1 := store r (length text) data).
  assert (msg_body r1 = (text ++ data) ++ drop (length text + length data) (msg_body r)) as Hb.
  { unfold r1. rewrite store_body, Ht, app_assoc; [done|]. rewrite Hl. by apply Nat.add_le_mono_l. }
  assert (length (msg_body r1) = (length text + 4096)%nat) as Hl1.
  { rewrite Hb, !length_app, length_drop, Hl. lia. }
  set (a1 := mkAction q OpNone req (Some r1) (Some c) RECV cm (length text) None).
  destruct (on_read_ok (Read data) w a1 r1 eq_refl) as (w2 & cm2 & E & C1 & C2 & C3 & C4).
  { rewrite Hl1. by apply Nat.add_le_mono_l. }
  { done. }
  change (a_count a1 + count (Read data))%nat with (length text + length data)%nat in *.
  assert (take (length text + length data) (msg_body r1) = text ++ data) as Htake.
  { rewrite Hb, <- length_app. apply take_app_length. }
  rewrite Htake in C4. cbv zeta in C4.
  exists w, a1, w2, cm2, (match View.parse REPLY (text ++ data) with Ret _ => [HProgress cm2] | _ => [] end).
  exists (realloc r1 (length text + length data)), req. split; [reflexivity|]. split.
  { unfold dispatch. erewrite bind_run by reflexivity. cbn [fst snd aio_result].
    destruct (w_handler w) eqn:Eh; [|done]. change (a_state a1) with RECV. cbn iota.
    rewrite (bind_run _ _ _ _ _ E). rewrite length_app. reflexivity. }
  assert (msg_body (realloc r1 (length text + length data)) = text ++ data) as Hbody.
  { rewrite realloc_cut; [done|]. rewrite Hl1. by apply Nat.add_le_mono_l. }
  split; [done|]. split; [done|]. split; [done|]. unfold unfinished, finished.
  destruct (View.parse REPLY (text ++ data)) as [v|e|f] eqn:Ev.
  - destruct C4 as (Ec & _ & ->). split; [done|]. split; [by repeat constructor; eexists|]. split; [done|].
    split; [auto|]. intros (v' & c' & [= <-] & E1 & E2). congruence.
  - destruct C4 as [-> ->]. split_and!; try done; [by rewrite app_nil_r | by constructor |].
    by intros (v' & c' & ? & _).
  - pose proof (ParseFacts.parse_total REPLY (text ++ data)) as Hp. by rewrite Ev in Hp.
Qed.

(** The handler has only been told of progress. *)
Record told_progress q s s' : Prop := {
  tp_conns : w_conns (c_world s') = w_conns (c_world s);
  tp_written : w_written (c_world s') = w_written (c_world s);
  tp_calls : ∃ cs, progress cs ∧ w_calls (c_world s') = w_calls (c_world s) ++ map (pair q) cs;
  tp_alive : w_handler (c_world s') = None ↔ w_handler (c_world s) = None;
  tp_active : c_active s' = c_active s;
  tp_idle : c_idle s' = c_idle s;
}.

Lemma read_more s p q c text a data :
  c_actions s !! p = Some a → reading q c text a → w_handler (c_world s) ≠ None →
  (length data ≤ 4096)%nat → unfinished (text ++ data) →
  ∃ s' a', run s (turn p (Read data)) = Some s' ∧ c_actions s' !! p = Some a' ∧ reading q c (text ++ data) a'
    ∧ told_progress q s s'.
Proof.
  intros Ha Hr Hal Hd Hu.
  destruct (read_dispatch (c_world s) q c text a data Hr Hal Hd)
    as (w1 & a1 & w2 & cm & cs & r & req & E1 & E2 & Hb & C1 & C2 & C3 & C4 & C5 & C6 & _).
  pose proof (callback_run _ _ _ _ _ _ _ _ E1 E2) as Ec. cbn [orb a_completion] in Ec. rewrite (C6 Hu) in Ec.
  set (a3 := mkAction q (OpRead c (length (text ++ data)) 4096%nat) req (Some (realloc r (length (text ++ data) + 4096)))
               (Some c) RECV cm (length (text ++ data)) None).
  eexists _, a3. split.
  { eapply (run_turn s p a (Read data) w2 _ false true a3 Ha); [ | exact Ec | reflexivity | reflexivity].
    destruct Hr as (? & ? & ? & -> & _). by apply Nat.leb_le. }
  simpl. split; [apply lookup_insert_eq|]. split.
  { exists req, (realloc r (length (text ++ data) + 4096)), cm. split; [done|]. split; [by apply C6|].
    destruct (realloc_grow r (length (text ++ data) + 4096)) as [G1 G2]; rewrite Hb in *; [apply Nat.le_add_r | by split]. }
  split; simpl; try done. by exists cs.
Qed.

Lemma told_progress_trans q s1 s2 s3 : told_progress q s1 s2 → told_progress q s2 s3 → told_progress q s1 s3.
Proof.
  intros [A1 A2 (cs & A3 & A4) A5 A6 A7] [B1 B2 (cs' & B3 & B4) B5 B6 B7].
  split; try congruence; [|by rewrite B5]. exists (cs ++ cs'). split; [by apply Forall_app|].
  by rewrite B4, A4, map_app, <- app_assoc.
Qed.

Lemma read_all ds s p q c text a :
  c_actions s !! p = Some a → reading q c text a → w_handler (c_world s) ≠ None →
  Forall (λ d : bytes, (length d ≤ 4096)%nat) ds →
  (∀ ds1 ds2, ds = ds1 ++ ds2 → ds1 ≠ [] → unfinished (text ++ concat ds1)) →
  ∃ s' a', run s (flat_map (λ d, turn p (Read d)) ds) = Some s' ∧ c_actions s' !! p = Some a'
    ∧ reading q c (text ++ concat ds) a' ∧ told_progress q s s'.
Proof.
  revert s text a. induction ds as [|d ds IH]; intros s text a Ha Hr Hal Hds Hu.
  - exists s, a. rewrite app_nil_r. split_and!; try done. split; try done. exists []. split; [constructor | by rewrite app_nil_r].
  - apply Forall_cons in Hds as [Hd Hds].
    destruct (read_more s p q c text a d Ha Hr Hal Hd) as (s1 & a1 & E1 & Ha1 & Hr1 & Ht1).
    { specialize (Hu [d] ds eq_refl). simpl in Hu. rewrite app_nil_r in Hu. by apply Hu. }
    destruct (IH s1 (text ++ d) a1 Ha1 Hr1) as (s2 & a2 & E2 & Ha2 & Hr2 & Ht2); [| done | |].
    { by rewrite (tp_alive _ _ _ Ht1). }
    { intros ds1 ds2 -> Hne. rewrite <- app_assoc. by apply (Hu (d :: ds1) ds2). }
    exists s2, a2. split.
    { cbn [flat_map]. rewrite run_app, E1. exact E2. }
    split; [done|]. split; [|by eapply told_progress_trans]. by rewrite <- app_assoc in Hr2.
Qed.

(** The last read: the reply is handed over and the connection closed. *)
Lemma read_last s p q c text a data :
  c_actions s !! p = Some a → reading q c text a → w_handler (c_world s) ≠ None →
  (length data ≤ 4096)%nat → finished (text ++ data) →
  ∃ s' r cs cm n, run s (turn p (Read data)) = Some s' ∧ msg_body r = text ++ data ∧ progress cs
    ∧ w_calls (c_world s') = w_calls (c_world s) ++ map (pair q) (cs ++ [HRecv (Some r); HClose c])
    ∧ w_written (c_world s') = w_written (c_world s) ∧ w_conns (c_world s') = w_conns (c_world s) ∖ {[c]}
    ∧ c_active s' = c_active s ∖ {[p]} ∧ c_idle s' = c_idle s ++ [p]
    ∧ c_actions s' !! p = Some (mkAction q OpNone None None None IDLE cm n None) ∧ complete cm = true.
Proof.
  intros Ha Hr Hal Hd Hf.
  destruct (read_dispatch (c_world s) q c text a data Hr Hal Hd)
    as (w1 & a1 & w2 & cm & cs & r & req & E1 & E2 & Hb & C1 & C2 & C3 & C4 & C5 & _ & C6).
  pose proof (callback_run _ _ _ _ _ _ _ _ E1 E2) as Ec. cbn [orb a_completion] in Ec. rewrite (C6 Hf) in Ec.
  eexists _, r, cs, cm, _. split.
  { eapply (run_turn s p a (Read data) _ _ true false _ Ha); [ | exact Ec | reflexivity | reflexivity].
    destruct Hr as (? & ? & ? & -> & _). by apply Nat.leb_le. }
  split; [done|]. split; [done|]. simpl. rewrite lookup_insert_eq.
  unfold farewell, conns_left. simpl. rewrite bool_decide_false by (by rewrite C5). rewrite (C6 Hf). simpl.
  rewrite C3, map_app, <- app_assoc, C1. by split_and!.
Qed.

Lemma dispatch_connected w a c :
  w_handler w ≠ None → a_state a = CONNECT →
  dispatch (Connected c) (w, a) = (Ret false, (says (a_queryID a) [HOpen c] (w_conns w) w, set_conn (Some c) a)).
Proof. destruct w as [[h|] X wr cl], a as [? ? ? ? ? st ? ? ?]; [|done]. simpl. by intros _ ->. Qed.

Lemma dispatch_wrote w a k :
  w_handler w ≠ None → a_state a = SEND →
  dispatch (Wrote k) (w, a) = (Ret false, (says (a_queryID a) [HSent] (w_conns w) w, set_req None a)).
Proof. destruct w as [[h|] X wr cl], a as [? ? ? ? ? st ? ? ?]; [|done]. simpl. by intros _ ->. Qed.

(** The turns of an action that do not fail and go on. *)
Lemma turn_connected s p q req cm n c :
  w_handler (c_world s) ≠ None →
  c_actions s !! p = Some (mkAction q OpConnect (Some req) None None CONNECT cm n None) → c ∉ w_conns (c_world s) →
  run s (turn p (Connected c)) = Some (
    if complete cm
    then mkHttp (says q [HOpen c; HRecv None; HClose c] (({[c]} ∪ w_conns (c_world s)) ∖ {[c]}) (c_world s)) (c_nextQueryID s)
      (<[p := mkAction q OpNone None None None IDLE cm n None]> (c_actions s)) (c_active s ∖ {[p]}) (c_idle s ++ [p])
    else mkHttp (says q [HOpen c] ({[c]} ∪ w_conns (c_world s)) (c_world s)) (c_nextQueryID s)
      (<[p := mkAction q (OpWrite c (msg_body req)) (Some req) None (Some c) SEND cm n None]> (c_actions s))
      (c_active s) (c_idle s)).
Proof.
  intros Hal Ha Hc. set (w1 := mkWorld (w_handler (c_world s)) ({[c]} ∪ w_conns (c_world s)) (w_written (c_world s)) (w_calls (c_world s))).
  set (a1 := mkAction q OpNone (Some req) None None CONNECT cm n None).
  assert (operated (Connected c) (c_world s, mkAction q OpConnect (Some req) None None CONNECT cm n None) = (Ret tt, (w1, a1))) as E1 by done.
  pose proof (callback_run _ _ _ _ _ _ _ _ E1 (dispatch_connected w1 a1 c Hal eq_refl)) as Ec.
  cbn [orb a_completion set_conn a1] in Ec.
  assert (may_end (w_conns (c_world s)) OpConnect (Connected c) = true) as Hm by (simpl; by rewrite bool_decide_false).
  destruct (complete cm) eqn:Ecm.
  - rewrite (run_turn s p _ _ _ _ true false _ Ha Hm Ec eq_refl eq_refl). do 2 f_equal.
    unfold farewell, conns_left. cbn [a_conn set_conn a1 a_completion a_res]. rewrite bool_decide_false, Ecm by (by destruct (c_world s) as [[]]).
    cbn [orb]. unfold a1. cbn [set_conn a_queryID]. rewrite says_says. done.
  - by rewrite (run_turn s p _ _ _ _ false true _ Ha Hm Ec eq_refl eq_refl).
Qed.

Lemma turn_wrote s p q req cm n c k :
  w_handler (c_world s) ≠ None →
  c_actions s !! p = Some (mkAction q (OpWrite c (msg_body req)) (Some req) None (Some c) SEND cm n None) →
  complete cm = false → (k ≤ length (msg_body req))%nat →
  ∃ w', run s (turn p (Wrote k)) = Some (mkHttp w' (c_nextQueryID s)
      (<[p := mkAction q (OpRead c 0%nat 4096%nat) None (Some (sized 4096)) (Some c) RECV View.no_completion 0%nat None]> (c_actions s))
      (c_active s) (c_idle s))
    ∧ w_handler w' ≠ None ∧ w_conns w' = w_conns (c_world s) ∧ w_written w' = w_written (c_world s) ++ [(c, take k (msg_body req))]
    ∧ w_calls w' = w_calls (c_world s) ++ [(q, HSent)].
Proof.
  intros Hal Ha Hcm Hk. set (w1 := mkWorld (w_handler (c_world s)) (w_conns (c_world s))
    (w_written (c_world s) ++ [(c, take k (msg_body req))]) (w_calls (c_world s))).
  set (a1 := mkAction q OpNone (Some req) None (Some c) SEND cm n None).
  assert (operated (Wrote k) (c_world s, mkAction q (OpWrite c (msg_body req)) (Some req) None (Some c) SEND cm n None)
    = (Ret tt, (w1, a1))) as E1 by done.
  pose proof (callback_run _ _ _ _ _ _ _ _ E1 (dispatch_wrote w1 a1 k Hal eq_refl)) as Ec.
  cbn [orb a_completion set_req a1] in Ec. rewrite Hcm in Ec.
  assert (may_end (w_conns (c_world s)) (OpWrite c (msg_body req)) (Wrote k) = true) as Hm by (by apply Nat.leb_le).
  eexists. split; [|split].
  - rewrite (run_turn s p _ _ _ _ false true _ Ha Hm Ec eq_refl eq_refl). reflexivity.
  - simpl. by destruct (w_handler (c_world s)).
  - done.
Qed.

(** The request of a connection has been written, as far as the write took it. *)
Lemma connect_and_send s p q req cm n c k :
  w_handler (c_world s) ≠ None →
  c_actions s !! p = Some (mkAction q OpConnect (Some req) None None CONNECT cm n None) → complete cm = false →
  c ∉ w_conns (c_world s) → (k ≤ length (msg_body req))%nat →
  ∃ s' a', run s (turn p (Connected c) ++ turn p (Wrote k)) = Some s'
    ∧ c_actions s' !! p = Some a' ∧ reading q c [] a' ∧ w_handler (c_world s') ≠ None
    ∧ w_conns (c_world s') = {[c]} ∪ w_conns (c_world s)
    ∧ w_written (c_world s') = w_written (c_world s) ++ [(c, take k (msg_body req))]
    ∧ w_calls (c_world s') = w_calls (c_world s) ++ map (pair q) [HOpen c; HSent]
    ∧ c_active s' = c_active s ∧ c_idle s' = c_idle s.
Proof.
  intros Hal Ha Hcm Hc Hk. pose proof (turn_connected s p q req cm n c Hal Ha Hc) as E1. rewrite Hcm in E1.
  set (s1 := mkHttp _ _ _ _ _) in E1.
  destruct (turn_wrote s1 p q req cm n c k) as (w' & E2 & Hal' & X2 & W2 & L2); [| apply lookup_insert_eq | done | done |].
  { simpl. by destruct (w_handler (c_world s)). }
  eexists _, _. split; [rewrite run_app, E1; exact E2|]. split; [apply lookup_insert_eq|]. split.
  { exists None, (sized 4096), View.no_completion. split_and!; try done. apply sized_length. }
  simpl. split_and!; try done. rewrite L2. simpl. by rewrite <- app_assoc.
Qed.

(** C23. An exchange on a connection of its own, by an action whose stored
    completion is not that of a complete reply, as when it is used for the
    first time: once connected, the client writes what one write takes of the
    request, reads until the bytes received are a complete reply, in pieces
    however cut, and gives the handler exactly those bytes; then it closes the
    connection and the action is idle again, with a completion that is complete.
    An action that is used again does not meet the condition: what it does is
    [http_reuse_answers_empty]. *)
Theorem http_exchange s p q req cm n c k ds d :
  w_handler (c_world s) ≠ None →
  c_actions s !! p = Some (mkAction q OpConnect (Some req) None None CONNECT cm n None) → complete cm = false →
  c ∉ w_conns (c_world s) → (k ≤ length (msg_body req))%nat →
  Forall (λ d : bytes, (length d ≤ 4096)%nat) (ds ++ [d]) →
  (∀ ds1 ds2, ds = ds1 ++ ds2 → ds1 ≠ [] → unfinished (concat ds1)) → finished (concat ds ++ d) →
  ∃ s' r cs cm' n',
    run s (turn p (Connected c) ++ turn p (Wrote k) ++ flat_map (λ d, turn p (Read d)) ds ++ turn p (Read d)) = Some s'
    ∧ msg_body r = concat ds ++ d
    ∧ w_calls (c_world s') = w_calls (c_world s) ++ map (pair q) ([HOpen c; HSent] ++ cs ++ [HRecv (Some r); HClose c])
    ∧ progress cs
    ∧ w_written (c_world s') = w_written (c_world s) ++ [(c, take k (msg_body req))]
    ∧ w_conns (c_world s') = w_conns (c_world s)
    ∧ c_active s' = c_active s ∖ {[p]} ∧ c_idle s' = c_idle s ++ [p]
    ∧ c_actions s' !! p = Some (mkAction q OpNone None None None IDLE cm' n' None) ∧ complete cm' = true.
Proof.
  intros Hal Ha Hcm Hc Hk Hds Hu Hf. apply Forall_app in Hds as [Hds [Hd _]%Forall_cons].
  destruct (connect_and_send s p q req cm n c k Hal Ha Hcm Hc Hk)
    as (s1 & a1 & E1 & Ha1 & Hr1 & Hal1 & X1 & W1 & L1 & A1 & I1).
  destruct (read_all ds s1 p q c [] a1 Ha1 Hr1 Hal1 Hds Hu) as (s2 & a2 & E2 & Ha2 & Hr2 & [X2 W2 (cs & P2 & L2) Hal2 A2 I2]).
  destruct (read_last s2 p q c (concat ds) a2 d Ha2 Hr2) as (s3 & r & cs' & cm' & n' & E3 & Hb & P3 & L3 & W3 & X3 & A3 & I3 & Ha3 & Hc3);
    [by rewrite Hal2 | exact Hd | exact Hf |].
  exists s3, r, (cs ++ cs'), cm', n'. split.
  { rewrite app_assoc, run_app, E1. simpl. by rewrite run_app, E2. }
  split; [done|]. split.
  { rewrite L3, L2, L1, !map_app. rewrite <- !app_assoc. reflexivity. }
  split; [by apply Forall_app|]. rewrite W3, W2, W1, X3, X2, X1, A3, A2, A1, I3, I2, I1. split_and!; try done.
  apply leibniz_equiv. set_solver.
Qed.

(** The action of an exchange that is complete keeps its [res_completion]
    when it is used again: as soon as the next query is connected, the handler
    is given a null message as its reply, and the connection is closed without
    anything having been written to it. *)
Theorem http_reuse_answers_empty s p rest q0 cm n fresh m m' h h' c :
  c_idle s = p :: rest → c_actions s !! p = Some (mkAction q0 OpNone None None None IDLE cm n None) → complete cm = true →
  w_handler (c_world s) = Some h → h_prep (c_nextQueryID s) m h = (inr (Some m'), h') →
  c_actions s !! fresh = None → c ∉ w_conns (c_world s) →
  ∃ s', run s (ERequest fresh m :: turn p (Connected c)) = Some s'
    ∧ w_calls (c_world s') = w_calls (c_world s) ++ map (pair (c_nextQueryID s)) [HPrep; HOpen c; HRecv None; HClose c]
    ∧ w_written (c_world s') = w_written (c_world s) ∧ w_conns (c_world s') = w_conns (c_world s)
    ∧ c_idle s' = rest ++ [p].
Proof.
  intros Hi Ha Hcm Hh Hp Hf Hc. destruct s as [[hh X wr cl] nq acts act idl].
  simpl in Hi, Ha, Hh, Hp, Hf, Hc. subst hh idl.
  set (s1 := mkHttp (mkWorld (Some (id h')) X wr (cl ++ [(nq, HPrep)])) (u32 (nq + 1))
    (<[p := mkAction nq OpConnect (Some m') None None CONNECT cm n None]> acts) ({[p]} ∪ act) rest).
  assert (step (mkHttp (mkWorld (Some h) X wr cl) nq acts act (p :: rest)) (ERequest fresh m) = Some (Ret tt, s1)) as E1.
  { cbn [step]. rewrite bool_decide_false by (simpl; rewrite Hf; by intros []).
    unfold request. erewrite bind_run by reflexivity. simpl.
    erewrite bind_run by reflexivity. erewrite bind_run by reflexivity. cbv beta.
    erewrite bind_run by (eapply on_action_eq; [exact Ha | reflexivity]). rewrite modify_run. simpl.
    rewrite Hp, modify_run.
    erewrite bind_run by (eapply on_action_eq; [simpl; apply lookup_insert_eq | reflexivity]). rewrite modify_run.
    erewrite bind_run by (eapply on_action_eq; [simpl; apply lookup_insert_eq | reflexivity]).
    simpl. unfold s1, set_actions, set_world. simpl. by rewrite !insert_insert_eq. }
  pose proof (turn_connected s1 p nq m' cm n c ltac:(done) (lookup_insert_eq _ _ _) Hc) as E2. rewrite Hcm in E2.
  eexists. split.
  { cbn [run]. rewrite E1. exact E2. }
  simpl. rewrite <- !app_assoc. split_and!; try done. apply leibniz_equiv. set_solver.
Qed.

Lemma http_run_reachable s es s' : reachable s → run s es = Some s' → reachable s'.
Proof.
  revert s. induction es as [|e es IH]; intros s Hr; simpl; [by intros [= <-]|].
  destruct (step s e) as [[[[]| |] s1]|] eqn:E; try done. apply IH. by eapply reach_step.
Qed.

(** ** Failures *)

(** A failure that is told to the handler. *)
Lemma turn_failed s p a e :
  c_actions s !! p = Some a → busy_action a → e ≠ success → w_handler (c_world s) ≠ None →
  is_lost e && View.implicit (a_completion a) = false →
  ∃ cm n, run s (turn p (Failed e)) = Some (
    mkHttp (says (a_queryID a) ([HError e; HRecv (a_res a)] ++ match a_conn a with Some c => [HClose c] | None => [] end)
        (match a_conn a with Some c => w_conns (c_world s) ∖ {[c]} | None => w_conns (c_world s) end) (c_world s))
      (c_nextQueryID s) (<[p := mkAction (a_queryID a) OpNone None None None IDLE cm n None]> (c_actions s))
      (c_active s ∖ {[p]}) (c_idle s ++ [p])).
Proof.
  intros Ha Hb He Hal Hl. set (w := c_world s) in *.
  assert (operated (Failed e) (w, a) = (Ret tt, (w, set_op OpNone a))) as E1 by (by destruct Hb).
  pose proof (dispatch_failed e w (set_op OpNone a) He Hal) as E2. change (a_completion (set_op OpNone a)) with (a_completion a) in E2.
  rewrite Hl in E2. pose proof (callback_run _ _ _ _ _ _ _ _ E1 E2) as Ec. cbn [orb] in Ec.
  assert (may_end (w_conns w) (a_op a) (Failed e) = true) as Hm.
  { destruct Hb; simpl; by rewrite bool_decide_false. }
  eexists _, _. rewrite (run_turn s p a _ _ _ true false
    (mkAction (a_queryID a) OpNone None None None IDLE View.no_completion (a_count a) None) Ha Hm Ec eq_refl).
  - unfold farewell, conns_left. rewrite bool_decide_false by (by rewrite says_handler).
    rewrite says_says. by destruct Hb.
  - by destruct Hb.
Qed.

(** When an operation fails, but for the errors of the next theorem, the
    handler hears of the error and then is given what was received so far as
    if it were the reply, or a null message; the connection is closed and the
    action idle. *)
Theorem http_failure_reported s p a e :
  reachable s → c_actions s !! p = Some a → may_end (w_conns (c_world s)) (a_op a) (Failed e) = true →
  w_handler (c_world s) ≠ None → is_lost e && View.implicit (a_completion a) = false →
  ∃ s', run s (turn p (Failed e)) = Some s'
    ∧ w_calls (c_world s') = w_calls (c_world s)
        ++ map (pair (a_queryID a)) ([HError e; HRecv (a_res a)] ++ match a_conn a with Some c => [HClose c] | None => [] end)
    ∧ w_written (c_world s') = w_written (c_world s)
    ∧ c_active s' = c_active s ∖ {[p]} ∧ c_idle s' = c_idle s ++ [p]
    ∧ (∀ c, a_conn a = Some c → c ∉ w_conns (c_world s')).
Proof.
  intros Hr Ha Hm Hal Hl. pose proof (reachable_Inv_http s Hr) as HI.
  assert (p ∈ c_active s) as Hp.
  { destruct (decide (p ∈ c_active s)) as [|Hn]; [done|].
    by destruct (act_idle a (idle_ok s p a HI Hn Ha)) as (? & ? & ? & ->). }
  pose proof (inv_act s HI p a Ha) as Hok. rewrite bool_decide_true in Hok by done.
  pose proof (act_busy _ _ a Hok Hm) as Hb.
  assert (e ≠ success) as He. { intros ->. by destruct Hb. }
  destruct (turn_failed s p a e Ha Hb He Hal Hl) as (cm & n & E).
  eexists. split; [exact E|]. simpl. split_and!; try done. intros c -> [_ Hn]%elem_of_difference. by apply Hn, elem_of_singleton.
Qed.

(** A connection that ends while the reply could be whole without it, that
    is, while no explicit length was seen, is not noticed.  While reading, the
    client reads again, however often the read fails, and the handler hears
    nothing; while connecting, it goes on to write to a connection that does
    not exist. *)
Theorem http_lost_unnoticed s p q e :
  is_lost e = true → w_handler (c_world s) ≠ None →
  (∀ c (text : bytes) req r cm k, c_actions s !! p = Some (mkAction q (OpRead c (length text) 4096%nat) req (Some r) (Some c) RECV cm (length text) None) →
     complete cm = false → View.implicit cm = true → length (msg_body r) = (length text + 4096)%nat →
     ∃ s' r', run s (concat (replicate k (turn p (Failed e)))) = Some s'
       ∧ c_actions s' !! p = Some (mkAction q (OpRead c (length text) 4096%nat) req (Some r') (Some c) RECV cm (length text) None)
       ∧ msg_body r' = msg_body r ∧ c_world s' = c_world s ∧ c_active s' = c_active s)
  ∧ (∀ req cm n, c_actions s !! p = Some (mkAction q OpConnect (Some req) None None CONNECT cm n None) →
     complete cm = false → View.implicit cm = true →
     ∃ s1 s2, step s (EComplete p (Failed e)) = Some (Ret tt, s1) ∧ c_world s1 = c_world s
       ∧ step s1 (EFinish p) = Some (Fault NullDeref, s2)).
Proof.
  intros He Hal. assert (e ≠ success) as Hne by (by intros ->).
  assert (∀ w a, w_handler w ≠ None → complete (a_completion a) = false → View.implicit (a_completion a) = true →
    operated (Failed e) (w, a) = (Ret tt, (w, set_op OpNone a)) →
    callback (Failed e) (w, a) = (Ret tt, (w, set_callback (Some false) (set_op OpNone a)))) as Hcb.
  { intros w a Hw Hc Hi Ho. pose proof (dispatch_failed e w (set_op OpNone a) Hne Hw) as E2.
    change (a_completion (set_op OpNone a)) with (a_completion a) in E2. rewrite He, Hi in E2.
    rewrite (callback_run _ _ _ _ _ _ _ _ Ho E2). change (a_completion (set_op OpNone a)) with (a_completion a).
    by rewrite Hc. }
  split.
  - intros c text req r cm k Ha Hc Hi Hl. revert s r Ha Hl Hal. induction k as [|k IH]; intros s r Ha Hl Hal.
    { exists s, r. by split_and!. }
    set (a := mkAction _ _ _ _ _ _ _ _ _) in Ha.
    pose proof (Hcb (c_world s) a Hal Hc Hi eq_refl) as E1.
    assert (may_end (w_conns (c_world s)) (a_op a) (Failed e) = true) as Hm by (simpl; by rewrite bool_decide_false).
    pose proof (run_turn s p a _ _ _ false true _ Ha Hm E1 eq_refl eq_refl) as E2.
    set (s1 := mkHttp _ _ _ _ _) in E2. cbn [a set_callback set_op a_count a_queryID a_req a_conn a_completion] in s1.
    assert (msg_body (realloc r (length text + 4096)) = msg_body r) as Hb.
    { rewrite <- Hl, realloc_cut by done. by apply take_ge. }
    destruct (IH s1 (realloc r (length text + 4096))) as (s' & r' & E3 & H1 & H2 & H3 & H4);
      [apply lookup_insert_eq | by rewrite Hb | done |].
    exists s', r'. split; [|by rewrite H2]. cbn [replicate concat]. by rewrite run_app, E2.
  - intros req cm n Ha Hc Hi. set (a := mkAction _ _ _ _ _ _ _ _ _) in Ha.
    pose proof (Hcb (c_world s) a Hal Hc Hi eq_refl) as E1.
    assert (may_end (w_conns (c_world s)) (a_op a) (Failed e) = true) as Hm by (simpl; by rewrite bool_decide_false).
    eexists _, _. split; [|split].
    + cbn [step]. rewrite Ha. cbn [mbind option_bind]. rewrite Hm. by rewrite (on_action_eq _ _ _ _ _ _ _ Ha E1).
    + done.
    + cbn [step set_actions c_actions]. rewrite lookup_insert_eq. cbn [mbind option_bind a_callback set_callback].
      unfold finish, mbind at 1, M_bind at 1, on_action. cbn [set_actions c_actions]. by rewrite lookup_insert_eq.
Qed.

End Facts.
End HttpFacts.
