(* ===== verification/HttpBoxFacts.v ===== *)
(** * The HTTP client with futures

    Theorems about [HttpClient_Box], and examples of its exchanges. *)
From stdpp Require Import gmap.
From S2P Require Import Prelude.
From S2P Require Import Nng.
From S2P Require Import MsgUtil.
From S2P Require Import MsgLayout.
From S2P Require Import MsgView.
From S2P Require Import ClientRequest.
From S2P Require Import HttpClient.
From S2P Require Import HttpClientFacts.

Module HttpBoxFacts.
Import Http HttpOps HttpFacts.

(** ** What the callbacks do to a handler

    [carries m]: whatever [m] does, the handler it leaves is related by [R] to
    the one it found, given that every virtual function does so. *)
Section Carried.
Context {H msg : Type} {Hmsg : NngMsg msg} {Hbuf : NngBuffer msg} {Hops : HttpHandler H msg}.
Context (R : relation H) {HR : PreOrder R}.

Record handler_ok : Prop := {
  ok_prep q m h : R h (snd (h_prep q m h));
  ok_sent q h : R h (h_sent q h);
  ok_progress q c v h : R h (h_progress q c v h);
  ok_recv q m h : R h (h_recv q m h);
  ok_error q e h : R h (h_error q e h);
  ok_open c h : R h (httpConn_open c h);
  ok_close c h : R h (httpConn_close c h);
}.
Context (Hok : handler_ok).

Abbreviation related := (option_Forall2 R).

Lemma related_refl o : related o o.
Proof. destruct o; constructor. reflexivity. Qed.

Definition carries {B} (m : M exn (HttpWorld H msg * Action msg) B) : Prop :=
  ∀ st r st', m st = (r, st') → related (w_handler st.1) (w_handler st'.1).

Lemma carries_same {B} (m : M exn (HttpWorld H msg * Action msg) B) :
  (∀ st, w_handler (m st).2.1 = w_handler st.1) → carries m.
Proof. intros Hm st r st' E. specialize (Hm st). rewrite E in Hm. simpl in Hm. rewrite Hm. apply related_refl. Qed.

Lemma carries_bind {B B'} (m : M exn (HttpWorld H msg * Action msg) B) (k : B → M exn _ B') :
  carries m → (∀ b, carries (k b)) → carries (m ≫= k).
Proof.
  intros Hm Hk st r st'. unfold mbind, M_bind. destruct (m st) as [[b|e|f] st1] eqn:E1.
  - intros E2. specialize (Hm _ _ _ E1). specialize (Hk b _ _ _ E2).
    destruct Hm as [h h1 H1|]; [|done]. inversion Hk; subst. constructor. by etransitivity.
  - intros [= <- <-]. by eapply Hm.
  - intros [= <- <-]. by eapply Hm.
Qed.

Lemma carries_call f c : (∀ h, R h (f h)) → carries (call f c).
Proof.
  intros Hf [w a] r st' [= <- <-]. simpl. destruct (w_handler w); constructor. apply Hf.
Qed.

(** Follow the structure of a computation. *)
Ltac carries_run :=
  repeat first
    [ apply carries_call; intros ?; apply Hok
    | apply carries_bind; [|intros ?]
    | apply carries_same; by intros [? ?]
    | match goal with
      | |- carries (match ?x with _ => _ end) => destruct x
      | |- carries (deref _) => unfold deref
      end ].

Lemma operated_carries o : carries (operated o).
Proof. apply carries_same. intros [w a]. simpl. by destruct (a_op a), o. Qed.

Lemma hang_up_carries : carries hang_up.
Proof. unfold hang_up. carries_run. Qed.

Lemma dispatch_carries o : carries (dispatch o).
Proof.
  unfold dispatch, on_read. carries_run.
  all: try (apply carries_same; intros [? ?]; unfold noexcept, lift; by destruct (View.completion _)).
Qed.

Lemma callback_carries o : carries (callback o).
Proof.
  unfold callback. apply carries_bind; [apply operated_carries|intros _].
  apply carries_bind; [apply dispatch_carries|intros d]. apply carries_bind; [by apply carries_same|intros st].
  apply carries_bind; [destruct (d || _); [apply hang_up_carries | by apply carries_same]|intros _]. by apply carries_same.
Qed.

Lemma proceed_carries d : carries (proceed d).
Proof.
  assert (∀ op, carries (start_op op)) as Hop.
  { intros op. apply carries_same. intros [w a]. unfold start_op, mbind, M_bind, get. simpl. by destruct (a_op a). }
  unfold proceed. carries_run; apply Hop.
Qed.

Lemma on_action_carries {B} p (m : M exn (HttpWorld H msg * Action msg) B) s r s' :
  carries m → on_action p m s = (r, s') → related (w_handler (c_world s)) (w_handler (c_world s')).
Proof.
  intros Hm. unfold on_action. destruct (c_actions s !! p) as [a|]; [|intros [= <- <-]; apply related_refl].
  destruct (m (c_world s, a)) as [r0 [w a']] eqn:E. intros [= <- <-]. exact (Hm _ _ _ E).
Qed.

Lemma finish_carries p d s r s' :
  finish p d s = (r, s') → related (w_handler (c_world s)) (w_handler (c_world s')).
Proof.
  unfold finish, mbind at 1, M_bind at 1. destruct (on_action p (proceed d) s) as [[[]|e|f] s1] eqn:E;
    intros [= <- <-]; exact (on_action_carries p _ s _ _ (proceed_carries d) E).
Qed.

(** The same for the operations of the client. *)
Definition client_carries {B} (m : M exn (HttpClient H msg) B) : Prop :=
  ∀ s r s', m s = (r, s') → related (w_handler (c_world s)) (w_handler (c_world s')).

Lemma client_bind {B B'} (m : M exn (HttpClient H msg) B) (k : B → M exn _ B') :
  client_carries m → (∀ b, client_carries (k b)) → client_carries (m ≫= k).
Proof.
  intros Hm Hk s r s'. unfold mbind, M_bind. destruct (m s) as [[b|e|f] s1] eqn:E1.
  - intros E2. specialize (Hm _ _ _ E1). specialize (Hk b _ _ _ E2).
    destruct Hm as [h h1 H1|]; [|done]. inversion Hk; subst. constructor. by etransitivity.
  - intros [= <- <-]. by eapply Hm.
  - intros [= <- <-]. by eapply Hm.
Qed.

Lemma client_same {B} (m : M exn (HttpClient H msg) B) :
  (∀ s, w_handler (c_world (m s).2) = w_handler (c_world s)) → client_carries m.
Proof. intros Hm s r s' E. specialize (Hm s). rewrite E in Hm. simpl in Hm. rewrite Hm. apply related_refl. Qed.

(** [request] calls [async_prep] at most. *)
Lemma request_carries fresh m : client_carries (request fresh m).
Proof.
  intros s r s'. unfold request. erewrite bind_run by reflexivity. cbv beta.
  destruct (w_handler (c_world s)) as [h|] eqn:Eh; [|intros [= <- <-]; rewrite Eh; constructor].
  assert (∃ p s1, allocate fresh s = (Ret p, s1) ∧ c_world s1 = c_world s) as (p & s1 & E1 & Ew).
  { unfold allocate, mbind, M_bind, get, modify, mret, M_ret. destruct (c_idle s); by eexists _, _. }
  rewrite (bind_run _ _ _ _ _ E1). erewrite bind_run by reflexivity. cbv beta.
  set (q := c_nextQueryID s1). destruct (c_actions s1 !! p) as [a|] eqn:Ea.
  2: { unfold mbind at 1, M_bind at 1, on_action at 1. rewrite Ea. intros [= <- <-]. rewrite Ew, Eh. constructor. reflexivity. }
  erewrite bind_run by (eapply on_action_eq; [exact Ea | reflexivity]). rewrite modify_run.
  pose proof (ok_prep Hok q m h) as Hp. destruct (h_prep q m h) as [r0 h']. rewrite modify_run.
  match goal with |- ?k ?s2 = _ → _ =>
    intros E; assert (client_carries k) as Hk; [|specialize (Hk s2 r s' E)] end.
  - destruct r0 as [e|[req|]].
    + by apply client_same.
    + apply client_bind; [|intros _; apply client_bind; [by apply client_same|intros _; apply client_bind; [|intros _; by apply client_same]]].
      * intros s2 r2 s3. apply on_action_carries, carries_bind; [|intros _; by apply carries_same].
        apply carries_call. intros x. reflexivity.
      * intros s2 r2 s3. apply on_action_carries. carries_run.
    + apply client_bind; [by apply client_same | intros _; by apply client_same].
  - simpl in Hk. inversion Hk; subst. constructor. by etransitivity.
Qed.

(** The handler that is kept while nothing but the callbacks and requests run. *)
Lemma step_carries s e r s' :
  (∀ h, e ≠ EInitialize h) → e ≠ EExpire → step s e = Some (r, s') →
  related (w_handler (c_world s)) (w_handler (c_world s')).
Proof.
  intros Hi He. destruct e as [fresh m|h| |p o|p]; cbn [step]; [| by destruct (Hi h) | done | |].
  - case_bool_decide; [done|]. destruct (request fresh m s) as [r1 s1] eqn:E. intros [= _ <-]. by eapply request_carries.
  - destruct (c_actions s !! p) as [a|]; [|done]. cbn [mbind option_bind]. destruct (may_end _ _ _); [|done].
    intros [= E]. exact (on_action_carries p _ s _ _ (callback_carries o) E).
  - destruct (c_actions s !! p) as [a|]; [|done]. cbn [mbind option_bind]. destruct (a_callback a) as [d|]; [|done].
    intros [= E]. by eapply finish_carries.
Qed.

End Carried.

(** ** Promises *)
Section Box.
Context {msg : Type} {Hmsg : NngMsg msg} {Hbuf : NngBuffer msg} {Hlaws : NngBufferLaws msg}.
#[local] Existing Instance HttpBox.HttpDelegate_handler.
Implicit Types (d : HttpDelegate msg).

(** The promises of the pending queries are distinct and not yet fulfilled. *)
Record BoxInv d : Prop := {
  bx_open id p : hd_pending d !! id = Some p → hd_futures d !! p_promise p = Some FPending;
  bx_inj id id' p p' : hd_pending d !! id = Some p → hd_pending d !! id' = Some p' →
    p_promise p = p_promise p' → id = id';
}.

(** What was fulfilled stays as it is. *)
Definition settled d d' : Prop :=
  ∀ i f, hd_futures d !! i = Some f → f ≠ FPending → hd_futures d' !! i = Some f.

Definition evolves d d' : Prop := BoxInv d → BoxInv d' ∧ settled d d'.

Lemma settled_refl d : settled d d.
Proof. by intros i f Hi _. Qed.

#[local] Instance evolves_preorder : PreOrder evolves.
Proof.
  split.
  - intros d Hd. split; [done | apply settled_refl].
  - intros d1 d2 d3 H12 H23 H1. destruct (H12 H1) as [H2 S12]. destruct (H23 H2) as [H3 S23].
    split; [done|]. intros i f Hi Hf. apply S23; [by apply S12 | done].
Qed.

Lemma fulfil_evolves id f d : evolves d (HttpBox.fulfil id f d).
Proof.
  intros [H1 H2]. unfold HttpBox.fulfil. destruct (hd_pending d !! id) as [p|] eqn:Ep; [|split; [by split | apply settled_refl]].
  pose proof (H1 id p Ep) as Hp. split; [split|]; simpl.
  - intros i q [Hne Hq]%lookup_delete_Some. rewrite list_lookup_insert_ne; [by eapply H1|].
    intros E. apply Hne. by eapply H2.
  - intros i i' q q' [_ Hq]%lookup_delete_Some [_ Hq']%lookup_delete_Some. by eapply H2.
  - intros i g Hi Hg. simpl. rewrite list_lookup_insert_ne; [done|]. intros E. congruence.
Qed.

Lemma box_handler_ok : handler_ok (H := HttpDelegate msg) (msg := msg) evolves.
Proof.
  split; simpl; try (intros; by apply fulfil_evolves); try (intros; reflexivity).
  - intros q m d [H1 H2]. split; [split|]; simpl.
    + intros id p. destruct (hd_pending d !! q) as [p0|] eqn:Eq.
      * intros Hp. rewrite lookup_app_l; [by eapply H1 | eapply lookup_lt_Some, H1, Hp].
      * intros [[<- <-]|[Hne Hp]]%lookup_insert_Some; simpl.
        -- by rewrite lookup_app_r, Nat.sub_diag.
        -- rewrite lookup_app_l; [by eapply H1 | eapply lookup_lt_Some, H1, Hp].
    + destruct (hd_pending d !! q) as [p0|] eqn:Eq; [apply H2|].
      assert (∀ id p, hd_pending d !! id = Some p → p_promise p ≠ length (hd_futures d)) as Hlt.
      { intros id p Hp E. apply H1, lookup_lt_Some in Hp. rewrite E in Hp. by apply Nat.lt_irrefl in Hp. }
      intros id id' p p' [[<- <-]|[Hne Hp]]%lookup_insert_Some [[<- <-]|[Hne' Hp']]%lookup_insert_Some E; simpl in *;
        [done | by destruct (Hlt _ _ Hp') | by destruct (Hlt _ _ Hp) | by eapply H2].
    + intros i f Hi _. simpl. by apply lookup_app_l_Some.
  - intros q d [H1 H2]. unfold HttpBox.sent. destruct (hd_pending d !! q) as [p0|] eqn:Eq; [|split; [by split | apply settled_refl]].
    split; [split|]; simpl.
    + intros id p [[<- <-]|[Hne Hp]]%lookup_insert_Some; simpl; by eapply H1.
    + intros id id' p p' [[<- <-]|[Hne Hp]]%lookup_insert_Some [[<- <-]|[Hne' Hp']]%lookup_insert_Some E; simpl in *;
        [done | by eapply H2 | by eapply H2 | by eapply H2].
    + by intros i f Hi _.
  - intros c d [H1 H2]. split; [by split | by intros i f Hi _].
Qed.

Lemma box_reachable_ok s :
  HttpBox.box_reachable s → ∃ d, w_handler (c_world s) = Some d ∧ BoxInv d.
Proof.
  induction 1 as [|s e r s' _ (d & Ed & Hd) Hi He Hs Hf|s d qid r d' _ (d0 & E0 & Hd) Ed Eg].
  - eexists. split; [reflexivity|]. by split.
  - pose proof (step_carries evolves box_handler_ok s e r s' Hi He Hs) as Hr. rewrite Ed in Hr.
    inversion Hr as [? d' Hev|]; subst. exists d'. split; [done|]. by apply Hev.
  - eexists. split; [reflexivity|]. rewrite Ed in E0. injection E0 as <-.
    unfold HttpBox.getFuture, mbind, M_bind, get, modify, mret, M_ret in Eg.
    destruct (hd_pending d !! qid); [destruct (negb _)|]; injection Eg as <- <-; by destruct Hd.
Qed.

(** The futures of a box: distinct queries wait on distinct promises, which
    are not fulfilled; and whatever happens next, a promise that was fulfilled
    keeps its value or exception. *)
Theorem http_box_futures s e r s' :
  HttpBox.box_reachable s → (∀ h, e ≠ EInitialize h) → e ≠ EExpire → step s e = Some (r, s') →
  ∃ d d', w_handler (c_world s) = Some d ∧ w_handler (c_world s') = Some d' ∧ BoxInv d ∧ BoxInv d' ∧ settled d d'.
Proof.
  intros Hr Hi He Hs. destruct (box_reachable_ok s Hr) as (d & Ed & Hd).
  pose proof (step_carries evolves box_handler_ok s e r s' Hi He Hs) as Hrel. rewrite Ed in Hrel.
  inversion Hrel as [? d' Hev|]; subst. destruct (Hev Hd) as [Hd' Hset]. by exists d, d'.
Qed.

End Box.

(** ** Examples and witnesses: a box asks for a page twice *)
#[local] Existing Instance HttpBox.HttpDelegate_handler.

Abbreviation box := (HttpClient (HttpDelegate flat_msg) flat_msg).

Definition page_request : flat_msg := mkFlat [] (lit "GET / HTTP/1.1" ++ [CR; LF; CR; LF]).
Definition page_start : bytes := lit "HTTP/1.1 200 OK" ++ [CR; LF] ++ lit "Content-Le".
Definition page_end : bytes := lit "ngth: 2" ++ [CR; LF; CR; LF] ++ lit "hi".

Definition opened : box := set_handler (Some HttpBox.new_delegate) new.
Definition after (es : list (event (HttpDelegate flat_msg) flat_msg)) : box := default opened (run opened es).
Definition asked : box := after [ERequest 0 page_request].
Definition answered : box :=
  after (ERequest 0%nat page_request :: turn 0%nat (Connected 7) ++ turn 0%nat (Wrote 18)
         ++ turn 0%nat (Read page_start) ++ turn 0%nat (Read page_end)).

Lemma opened_reachable_http : reachable opened.
Proof. by apply (reach_step new (EInitialize (Some HttpBox.new_delegate)) (Ret tt)); [constructor | |]. Qed.
Lemma opened_alive : reachable_alive opened.
Proof. by apply (alive_step new (EInitialize (Some HttpBox.new_delegate)) (Ret tt)); [constructor | | |]. Qed.
Lemma asked_reachable : reachable asked.
Proof. by apply (http_run_reachable opened [ERequest 0%nat page_request]); [apply opened_reachable_http | vm_compute]. Qed.
Lemma asked_step : step opened (ERequest 0%nat page_request) = Some (Ret tt, asked).
Proof. by vm_compute. Qed.

(** The bytes of the page, once they are all there, are a complete reply. *)
Lemma page_finished : finished (page_start ++ page_end).
Proof. eexists _, _. split_and!; [vm_compute; reflexivity..|]. done. Qed.
Lemma page_unfinished : unfinished page_start.
Proof. by vm_compute. Qed.

Lemma http_pool_safe_witness :
  reachable asked ∧ ∃ r s', step asked (EComplete 0%nat (Connected 7)) = Some (r, s') ∧ NoDup (c_idle asked).
Proof.
  split; [apply asked_reachable|].
  destruct (step asked (EComplete 0%nat (Connected 7))) as [[r s']|] eqn:E; [|by vm_compute in E].
  exists r, s'. split; [done|]. by destruct (http_pool_safe asked _ r s' asked_reachable E).
Defined.

Lemma http_connections_owned_witness :
  reachable_alive asked
  ∧ (7 ∈ w_conns (c_world asked) ↔ ∃ p a, p ∈ c_active asked ∧ c_actions asked !! p = Some a ∧ a_conn a = Some 7).
Proof.
  assert (reachable_alive asked) as Hr.
  { eapply alive_step; [apply opened_alive | | apply asked_step |]; done. }
  split; [done|]. by apply http_connections_owned.
Defined.

Lemma http_exchange_witness :
  ∃ s' r, run asked (turn 0%nat (Connected 7) ++ turn 0%nat (Wrote 18) ++ turn 0%nat (Read page_start)
                     ++ turn 0%nat (Read page_end)) = Some s'
    ∧ msg_body r = page_start ++ page_end ∧ c_idle s' = [0%nat].
Proof.
  destruct (http_exchange asked 0%nat 0 page_request View.no_completion 0%nat 7 18%nat [page_start] page_end)
    as (s' & r & cs & cm & n & E1 & E2 & _ & _ & _ & _ & _ & E3 & _).
  - done.
  - by vm_compute.
  - done.
  - apply (bool_decide_unpack _). by vm_compute.
  - apply (bool_decide_unpack _). by vm_compute.
  - apply (bool_decide_unpack _). by vm_compute.
  - intros [|d ds1] ds2 E Hne; [done|]. injection E as <- [-> ->]%eq_sym%app_nil.
    cbn [concat]. rewrite app_nil_r. apply page_unfinished.
  - cbn [concat]. rewrite app_nil_r. apply page_finished.
  - exists s', r. cbn [flat_map] in E1. rewrite app_nil_r in E1. cbn [concat] in E2. rewrite app_nil_r in E2.
    split; [exact E1|]. split; [exact E2|]. rewrite E3. by vm_compute.
Defined.

Lemma http_reuse_answers_empty_witness :
  ∃ s', run answered (ERequest 1%nat page_request :: turn 0%nat (Connected 8)) = Some s'
    ∧ w_calls (c_world s') = w_calls (c_world answered) ++ map (pair 1) [HPrep; HOpen 8; HRecv None; HClose 8]
    ∧ w_written (c_world s') = w_written (c_world answered).
Proof.
  destruct (w_handler (c_world answered)) as [d|] eqn:Ed; [|by vm_compute in Ed].
  destruct (c_actions answered !! 0%nat) as [a|] eqn:Ea; [|by vm_compute in Ea].
  destruct (http_reuse_answers_empty answered 0%nat [] 0 (a_completion a) (a_count a) 1%nat page_request page_request
    d (snd (HttpBox.prep 1 page_request d)) 8) as (s' & E1 & E2 & E3 & _).
  - by vm_compute.
  - rewrite Ea. vm_compute in Ea. by injection Ea as <-.
  - vm_compute in Ea. by injection Ea as <-.
  - exact Ed.
  - replace (c_nextQueryID answered) with 1 by (by vm_compute). reflexivity.
  - by vm_compute.
  - apply (bool_decide_unpack _). by vm_compute.
  - replace (c_nextQueryID answered) with 1 in E2 by (by vm_compute). exists s'. split; [exact E1|]. split; [exact E2 | exact E3].
Defined.

Lemma http_failure_reported_witness :
  ∃ s', run asked (turn 0%nat (Failed (other_error 6))) = Some s'
    ∧ w_calls (c_world s') = w_calls (c_world asked) ++ map (pair 0) [HError (other_error 6); HRecv None].
Proof.
  destruct (c_actions asked !! 0%nat) as [a|] eqn:Ea; [|by vm_compute in Ea].
  destruct (http_failure_reported asked 0%nat a (other_error 6)) as (s' & E1 & E2 & _).
  - apply asked_reachable.
  - exact Ea.
  - vm_compute in Ea. by injection Ea as <-.
  - done.
  - done.
  - exists s'. split; [exact E1|]. rewrite E2. vm_compute in Ea. by injection Ea as <-.
Defined.

Lemma http_lost_unnoticed_witness :
  ∃ s1 s2, step asked (EComplete 0%nat (Failed connreset)) = Some (Ret tt, s1) ∧ c_world s1 = c_world asked
    ∧ step s1 (EFinish 0%nat) = Some (Fault NullDeref, s2).
Proof.
  apply (proj2 (http_lost_unnoticed asked 0%nat 0 connreset eq_refl ltac:(done)) page_request View.no_completion 0%nat);
    by vm_compute.
Defined.

Lemma http_box_futures_witness :
  ∃ d d', w_handler (c_world opened) = Some d ∧ w_handler (c_world asked) = Some d' ∧ settled d d'.
Proof.
  destruct (http_box_futures opened (ERequest 0%nat page_request) (Ret tt) asked) as (d & d' & E1 & E2 & _ & _ & E3);
    [constructor | done | done | apply asked_step | by exists d, d'].
Defined.

End HttpBoxFacts.
