(* ===== verification/HttpShutdown.v ===== *)
(** * The HTTP client: the destructor

    [~HttpClient] waits until no action is active.  When no callback runs as it
    begins, and what it cancels ends as cancelled, the wait is short and leaves
    neither an action nor a connection behind. *)
From stdpp Require Import gmap.
From S2P Require Import Prelude.
From S2P Require Import Nng.
From S2P Require Import MsgUtil.
From S2P Require Import Draining.
From S2P Require Import MsgLayout.
From S2P Require Import MsgView.
From S2P Require Import ClientRequest.
From S2P Require Import HttpClient.
From S2P Require Import HttpClientFacts.
From S2P Require Import HttpBoxFacts.

Module HttpShutdownFacts.
Import Http HttpOps HttpFacts HttpBoxFacts.

Section Facts.
Context {H msg : Type} {Hmsg : NngMsg msg} {Hbuf : NngBuffer msg} {Hlaws : NngBufferLaws msg} {Hops : HttpHandler H msg}.
Implicit Types (s : HttpClient H msg) (d : Dying H msg) (p : nat) (a : Action msg) (w : HttpWorld H msg).

(** The first part of the callback of a cancelled operation. *)
Lemma callback_cancelled w a :
  busy_action a → ∃ w' a', callback (Failed canceled) (w, a) = (Ret tt, (w', a')) ∧ a_callback a' = Some true.
Proof.
  intros Ha. assert (operated (Failed canceled) (w, a) = (Ret tt, (w, set_op OpNone a))) as Eo by (by destruct Ha).
  assert (∃ w2 a2, dispatch (Failed canceled) (w, set_op OpNone a) = (Ret true, (w2, a2))) as (w2 & a2 & Ed).
  { destruct (w_handler w) as [h|] eqn:Eh.
    - rewrite dispatch_failed by (done || by rewrite Eh). by eexists _, _.
    - unfold dispatch, mbind, M_bind, get. simpl. rewrite Eh. by eexists _, _. }
  rewrite (callback_run _ _ _ _ _ _ _ _ Eo Ed). simpl. by eexists _, _.
Qed.

(** The second part. *)
Lemma finish_cancelled s p a :
  Inv s → c_actions s !! p = Some a → a_callback a = Some true →
  ∃ q cm n, finish p true s = (Ret tt,
    mkHttp (c_world s) (c_nextQueryID s) (<[p := mkAction q OpNone None None None IDLE cm n None]> (c_actions s))
      (c_active s ∖ {[p]}) (c_idle s ++ [p])) ∧ p ∈ c_active s.
Proof.
  intros HI Ha Hc. assert (p ∈ c_active s) as Hp.
  { destruct (decide (p ∈ c_active s)) as [|Hn]; [done|]. by destruct (act_idle a (idle_ok s p a HI Hn Ha)) as (? & ? & ? & ->). }
  pose proof (inv_act s HI p a Ha) as Hok. rewrite bool_decide_true in Hok by done.
  pose proof (act_called true a Hok Hc) as Hcalled. inversion Hcalled; subst. eexists _, _, _. split; [|done].
  unfold finish. erewrite bind_run by (eapply on_action_eq; [exact Ha | reflexivity]). reflexivity.
Qed.

(** The wait, with operations that end as cancelled. *)
Definition quiet_step d (e : event H msg) : option (result exn unit * Dying H msg) :=
  match e with EComplete _ (Failed canceled) | EFinish _ => dying_step d e | _ => None end.

Definition Quiet s : Prop := ∀ p a, c_actions s !! p = Some a → a_callback a ≠ Some false.

Definition events_left (a : option (Action msg)) : nat :=
  match a with Some a => match a_callback a, a_op a with Some _, _ => 1 | None, OpNone => 0 | None, _ => 2 end | None => 0 end.

#[local] Instance http_draining : Draining (Dying H msg) (event H msg) nat := {
  dr_step := quiet_step;
  dr_active d := c_active (dy_client d);
  dr_weight d p := events_left (c_actions (dy_client d) !! p);
  dr_inv d := Inv (dy_client d) ∧ Quiet (dy_client d);
  dr_max := 2;
}.

Lemma events_left_active s p : Inv s → p ∈ c_active s ↔ events_left (c_actions s !! p) ≠ 0%nat.
Proof.
  intros HI. destruct (c_actions s !! p) as [a|] eqn:Ha.
  - pose proof (inv_act s HI p a Ha) as Hok. unfold events_left. case_bool_decide as Hp.
    + split; [|done]. intros _. destruct a as [q op req res c st cm n [cb|]]; [done|]. simpl.
      destruct op; try done. by destruct st, c, req, res.
    + split; [done|]. destruct (act_idle a Hok) as (? & ? & ? & ->). simpl. lia.
  - split; [|done]. intros Hp. destruct (inv_active s HI p Hp) as [? Hx]. congruence.
Qed.

Lemma busy_active s p a : Inv s → p ∈ c_active s → c_actions s !! p = Some a → a_op a ≠ OpNone → busy_action a.
Proof.
  intros HI Hp Ha Hop. pose proof (inv_act s HI p a Ha) as Hok. rewrite bool_decide_true in Hok by done.
  apply (act_busy (w_conns (c_world s)) (Failed canceled) a Hok). by destruct (a_op a).
Qed.

(** The end of a cancelled operation. *)
Lemma quiet_complete s p : Inv s → Quiet s → ∀ r s', step s (EComplete p (Failed canceled)) = Some (r, s') →
  r = Ret tt ∧ Inv s' ∧ Quiet s' ∧ (events_left (c_actions s' !! p) < events_left (c_actions s !! p))%nat
  ∧ ∀ j, j ≠ p → events_left (c_actions s' !! j) = events_left (c_actions s !! j).
Proof.
  intros HI HQ r s'. cbn [step]. destruct (c_actions s !! p) as [a|] eqn:Ha; [|done]. simpl.
  destruct (may_end _ _ _) eqn:Hm; [|done]. intros [= E].
  destruct (complete_ok s p a (Failed canceled) HI Ha Hm) as (w' & a' & E' & _ & Hp & HI').
  assert (busy_action a) as Hb by (apply (busy_active s p); [done..|]; by destruct (a_op a)).
  destruct (callback_cancelled (c_world s) a Hb) as (w2 & a2 & E2 & Hcb).
  rewrite (on_action_eq _ _ _ _ _ _ _ Ha E2) in E, E'. injection E as <- <-. injection E' as <- E3.
  assert (a2 = a') as <-. { apply (f_equal (.!! p)) in E3. rewrite !lookup_insert_eq in E3. by injection E3. }
  split; [done|]. split; [|split; [|split]].
  - exact HI'.
  - intros q b. simpl. intros [[<- <-]|[_ Hb']]%lookup_insert_Some; [by rewrite Hcb | by eapply HQ].
  - simpl. rewrite lookup_insert_eq. simpl. rewrite Hcb. destruct Hb; simpl; lia.
  - intros j Hj. simpl. by rewrite lookup_insert_ne.
Qed.

(** A callback comes to its end. *)
Lemma quiet_finish s p : Inv s → Quiet s → ∀ r s', step s (EFinish p) = Some (r, s') →
  r = Ret tt ∧ Inv s' ∧ Quiet s' ∧ (events_left (c_actions s' !! p) < events_left (c_actions s !! p))%nat
  ∧ ∀ j, j ≠ p → events_left (c_actions s' !! j) = events_left (c_actions s !! j).
Proof.
  intros HI HQ r s' E. pose proof (step_ok_http s _ _ _ HI E) as Hok. cbn [step] in E.
  destruct (c_actions s !! p) as [a|] eqn:Ha; [|done]. simpl in E. destruct (a_callback a) as [[]|] eqn:Hc;
    [|by destruct (HQ p a Ha)|done]. simpl in E. injection E as E.
  destruct (finish_cancelled s p a HI Ha Hc) as (q & cm & n & E1 & _). rewrite E1 in E. injection E as <- <-.
  split; [done|]. split; [done|]. split; [|split].
  - intros x b. simpl. intros [[<- <-]|[_ Hb']]%lookup_insert_Some; [done | by eapply HQ].
  - simpl. rewrite lookup_insert_eq, Hc. simpl. lia.
  - intros j Hj. simpl. by rewrite lookup_insert_ne.
Qed.

Lemma http_draining_laws : DrainingLaws (Dying H msg) (event H msg) nat.
Proof.
  split; simpl.
  - intros d p. unfold events_left. destruct (c_actions _ !! p) as [a|]; [|lia]. destruct (a_callback a), (a_op a); lia.
  - intros d p [HI _]. by apply events_left_active.
  - intros d e r d' [HI HQ] E. destruct e as [| | |p o|p]; try done; cbn [quiet_step dying_step] in E.
    + destruct o as [[]| | |]; try done. cbn [quiet_step dying_step] in E.
      destruct (step (dy_client d) (EComplete p (Failed canceled))) as [[x s']|] eqn:Es; [|done].
      destruct (quiet_complete (dy_client d) p HI HQ x s' Es) as (-> & HI' & HQ' & Hw & Ho).
      injection E as <- <-. split; [done|]. split; [done|]. by exists p.
    + destruct (step (dy_client d) (EFinish p)) as [[x s']|] eqn:Es; [|done].
      destruct (quiet_finish (dy_client d) p HI HQ x s' Es) as (-> & HI' & HQ' & Hw & Ho).
      injection E as <- <-. split; [done|]. split; [done|]. by exists p.
  - intros d p [HI HQ] Hp. destruct (inv_active _ HI p Hp) as [a Ha].
    pose proof (proj1 (events_left_active _ p HI) Hp) as Hw. rewrite Ha in Hw. unfold events_left in Hw.
    destruct (a_callback a) as [[]|] eqn:Hc; [| by destruct (HQ p a Ha) |].
    + destruct (finish_cancelled _ p a HI Ha Hc) as (q & cm & n & E & _).
      eexists (EFinish p), _. simpl. rewrite Ha. simpl. rewrite Hc. simpl. by rewrite E.
    + assert (a_op a ≠ OpNone) as Hop by (intros Hop; by rewrite Hop in Hw).
      destruct (callback_cancelled (c_world (dy_client d)) a (busy_active _ p a HI Hp Ha Hop)) as (w' & a' & E & _).
      eexists (EComplete p (Failed canceled)), _. simpl. rewrite Ha. simpl.
      assert (may_end (w_conns (c_world (dy_client d))) (a_op a) (Failed canceled) = true) as -> by (by destruct (a_op a)).
      by rewrite (on_action_eq _ _ _ _ _ _ _ Ha E).
Qed.

(** Cancelled operations are those the wait is for. *)
Definition Cancelled d : Prop := ∀ p, events_left (c_actions (dy_client d) !! p) = 2%nat → p ∈ dy_cancelled d.

Lemma quiet_step_inv d e r d' : quiet_step d e = Some (r, d') →
  step (dy_client d) e = Some (r, dy_client d') ∧ e ≠ EExpire
  ∧ ∃ p, (e = EComplete p (Failed canceled) ∨ e = EFinish p) ∧ ∀ q, q ≠ p → q ∈ dy_cancelled d → q ∈ dy_cancelled d'.
Proof.
  destruct e as [| | |p [[]| | |]|p]; cbn [quiet_step dying_step]; try done; intros E.
  all: destruct (step (dy_client d) _) as [[x s']|]; [|done]; injection E as <- <-; split; [done|]; split; [done|].
  all: exists p; split; [auto|]; simpl; intros q Hq Hin; try done.
  apply elem_of_difference. split; [done|]. by intros ?%elem_of_singleton.
Qed.

Lemma Cancelled_quiet d e d' :
  dr_inv (E := event H msg) d → Cancelled d → quiet_step d e = Some (Ret tt, d') → Cancelled d'.
Proof.
  intros [HI HQ] HC E. destruct (quiet_step_inv d e _ d' E) as (Es & _ & p & He & Hsub).
  assert ((events_left (c_actions (dy_client d') !! p) < events_left (c_actions (dy_client d) !! p))%nat
    ∧ ∀ j, j ≠ p → events_left (c_actions (dy_client d') !! j) = events_left (c_actions (dy_client d) !! j)) as [Hw Ho].
  { destruct He as [-> | ->];
      [by destruct (quiet_complete _ p HI HQ _ _ Es) as (_ & _ & _ & ? & ?)
      | by destruct (quiet_finish _ p HI HQ _ _ Es) as (_ & _ & _ & ? & ?)]. }
  intros j Hj. destruct (decide (j = p)) as [->|Hne].
  - exfalso. pose proof (dr_bound (DrainingLaws := http_draining_laws) d p) as Hb. simpl in Hb. lia.
  - rewrite (Ho j Hne) in Hj. by apply Hsub, HC.
Qed.

Definition cancellations (es : list (event H msg)) : Prop := ∀ p o, EComplete p o ∈ es → o = Failed canceled.

Lemma quiet_or_not d e : (∀ p o, e = EComplete p o → o = Failed canceled) → quiet_step d e = dying_step d e.
Proof. intros He. destruct e as [| | |p o|]; try done. by rewrite (He p o eq_refl). Qed.

Lemma quiet_run es : ∀ d, cancellations es → run_events quiet_step d es = dying_run d es.
Proof.
  induction es as [|e es IH]; intros d He; [done|]. cbn [run_events]. unfold dying_run. cbn [run_events].
  rewrite quiet_or_not by (intros p o ->; apply (He p o); left).
  destruct (dying_step d e) as [[[]]|]; try done. apply IH. intros p o Hin. apply (He p o). by right.
Qed.

Lemma quiet_dying es : ∀ d d', run_events quiet_step d es = Some d' → dying_run d es = Some d'.
Proof.
  unfold dying_run. induction es as [|e es IH]; intros d d' E; [done|]. cbn [run_events] in *.
  destruct (quiet_step d e) as [[[]]|] eqn:Eq; [|done..].
  assert (dying_step d e = quiet_step d e) as ->.
  { destruct e as [| | |p [[]| | |]|]; done. }
  rewrite Eq. by apply IH.
Qed.

Lemma http_idle_deleted s : Inv s → ∃ left, delete_idle s = Ret left ∧ ∀ p, p ∈ c_idle s → left !! p = None.
Proof.
  intros HI. destruct (delete_all_ok (c_idle s) (c_actions s)) as (rest & E & Hr); [apply HI | intros p Hp; by apply (inv_idle s HI p Hp) |].
  exists rest. split; [done|]. intros p. apply Hr.
Qed.

(** C24. The destructor of an [HttpClient] whose handler has not expired, before
    or during it, when no callback runs as it begins and the operations it
    cancels end as cancelled: two events per active
    action at most, each of which is the end of a cancelled operation or of a
    callback; the wait can come to its end; and when it does, NNG has no
    connection of the client open, and each action of the pool is deleted once. *)
Theorem http_shutdown s es d :
  reachable_alive s → (∀ p a, c_actions s !! p = Some a → a_callback a = None) → cancellations es →
  dying_run (cancel_active s) es = Some d →
  (length es ≤ 2 * size (c_active s))%nat
  ∧ (∀ p, p ∈ c_active (dy_client d) → p ∈ dy_cancelled d ∨ ∃ a, c_actions (dy_client d) !! p = Some a ∧ a_callback a = Some true)
  ∧ (∃ es' d', dying_run d es' = Some d' ∧ waits_for d' = None)
  ∧ (waits_for d = None → w_conns (c_world (dy_client d)) = ∅
     ∧ ∃ left, delete_idle (dy_client d) = Ret left ∧ ∀ p, p ∈ c_idle (dy_client d) → left !! p = None).
Proof.
  intros Hr Hcb Hes E. pose proof http_draining_laws as HL. destruct (alive_Tracked s Hr) as [HI0 _].
  assert (dr_inv (E := event H msg) (cancel_active s)) as HI by (split; [exact HI0 | intros p a Ha; by rewrite (Hcb p a Ha)]).
  rewrite <- (quiet_run es _ Hes) in E. destruct (drain_counts (I := nat) es (cancel_active s) d HI E) as [HId _]. pose proof HId as [HI' HQ'].
  assert (Cancelled d) as HC.
  { refine (drain_keeps (I := nat) Cancelled es _ d _ HI _ E).
    - intros d1 e d2 HI1 _ HC1 E1. exact (Cancelled_quiet d1 e d2 HI1 HC1 E1).
    - intros p Hp. simpl in *. apply elem_of_filter. split; [|by apply (events_left_active s p HI0); rewrite Hp].
      unfold in_flight, events_left in *. destruct (c_actions s !! p) as [a|] eqn:Ha; [|done]. simpl.
      rewrite (Hcb p a Ha) in Hp. by destruct (a_op a). }
  assert (reachable_alive (dy_client d)) as Hr'.
  { refine (drain_keeps (I := nat) (λ d, reachable_alive (dy_client d)) es _ d _ HI Hr E).
    intros d1 e d2 _ _ Hr1 E1. destruct (quiet_step_inv d1 e _ d2 E1) as (Es & He & _). by eapply alive_step. }
  split_and!.
  - exact (drain_bound (I := nat) es (cancel_active s) d HI E).
  - intros p Hp. destruct (inv_active _ HI' p Hp) as [a Ha]. pose proof (proj1 (events_left_active _ p HI') Hp) as Hw.
    specialize (HC p). rewrite Ha in Hw, HC. unfold events_left in *. destruct (a_callback a) as [[]|] eqn:Hc.
    + right. by exists a.
    + by destruct (HQ' p a Ha).
    + left. apply HC. by destruct (a_op a).
  - destruct (drain_ends (I := nat) d HId) as (es' & d' & E1 & Hw). exists es', d'. split; [by apply quiet_dying | done].
  - intros Hw. split; [|by apply http_idle_deleted]. destruct (alive_Tracked _ Hr') as [_ HT].
    apply set_eq. intros c. split; [|by intros ?%elem_of_empty]. intros (p & a & Ha & Hc)%(trk_owned _ HT).
    destruct (act_idle a (idle_ok _ p a HI' (next_of_None _ p Hw) Ha)) as (? & ? & ? & ->). done.
Qed.

End Facts.

(** ** Witnesses *)
#[local] Existing Instance HttpBox.HttpDelegate_handler.

(** A client that is connecting. *)
Lemma http_shutdown_witness :
  ∃ d, dying_run (cancel_active asked) [EComplete 0%nat (Failed canceled); EFinish 0%nat] = Some d
    ∧ waits_for d = None ∧ ∃ left, delete_idle (dy_client d) = Ret left.
Proof.
  destruct (dying_run (cancel_active asked) [EComplete 0%nat (Failed canceled); EFinish 0%nat]) as [d|] eqn:E; [|by vm_compute in E].
  exists d. split; [done|]. assert (waits_for d = None) as Hw by (vm_compute in E; injection E as <-; by vm_compute).
  split; [done|].
  destruct (http_shutdown asked [EComplete 0%nat (Failed canceled); EFinish 0%nat] d) as (_ & _ & _ & Hd); [| | | exact E |].
  - eapply alive_step; [apply opened_alive | | apply asked_step | done]; done.
  - assert (∃ a0, c_actions asked = {[0%nat := a0]} ∧ a_callback a0 = None) as (a0 & Ea & Hc)
      by (eexists; split; [vm_compute; reflexivity | reflexivity]).
    rewrite Ea. by intros p a [_ <-]%lookup_singleton_Some.
  - intros p o [Hp|[Hp|Hp%elem_of_nil]%elem_of_cons]%elem_of_cons; [by injection Hp | done..].
  - destruct (Hd Hw) as (_ & rest & E1 & _). by exists rest.
Defined.

End HttpShutdownFacts.
