(* ===== verification/ServiceReply.v ===== *)
(** * Replies

    [include/telling/service_reply.h] and [src/telling/service_reply.cpp]: the
    communicator [Reply], which receives each request on an NNG context of its
    own and sends the replies one at a time, and [Reply_Box].

    Every context has one owner at a time: the receiver, the set [unresponded],
    a thread in [respondTo], the [outbox], or the sender.  The model keeps the
    set of open contexts to state this. *)
From stdpp Require Import gmap.
From S2P Require Import Prelude.
From S2P Require Import Nng.
From S2P Require Import MsgUtil.
From S2P Require Import IoQueue.

Abbreviation QueryID := Z.

(** ** Handlers

    What a [Reply] calls of an [AsyncRespond<Replying>]: [async_recv] may throw,
    and may respond at once through its tag; [async_prep] may alter the
    message, drop it or throw. *)
Class AsyncRespond (H msg : Type) : Type := {
  rep_recv : QueryID → msg → H → (exn + option msg) * H;
  rep_prep : QueryID → msg → H → (exn + option msg) * H;
  rep_sent : QueryID → H → H;
  rep_error : QueryID → nng_error → H → H;
}.

(** ** [Reply] *)

(** Where a thread is.  [inline] marks the part of [respondTo] that runs inside
    the receive callback. *)
Inductive rthread (msg : Type) : Type :=
| TReceived (r : nng_error) (m : msg)              (** at the beginning of [_aioReceived] *)
| TRespond (inline : bool) (id : QueryID) (m : msg) (** at the beginning of [respondTo] *)
| TSubmit (inline : bool) (id : QueryID) (m : msg)  (** [respondTo], not queued: about to send *)
| TRearm                                           (** [_aioReceived]: about to receive again *)
| TSent (r : nng_error)                            (** at the beginning of [_aioSent] *)
| TNext (id : QueryID) (m : msg).                  (** [_aioSent], with the next item *)
Arguments TReceived {msg} r m.
Arguments TRespond {msg} inline id m.
Arguments TSubmit {msg} inline id m.
Arguments TRearm {msg}.
Arguments TSent {msg} r.
Arguments TNext {msg} id m.

(** The members: whether the socket has a connector; the handler; the
    contexts whose requests have no reply yet; the outbox, whose items hold a
    context and a message; [ctx_aio_recv] (none when released) and whether
    [aio_recv] is in use; [ctx_aio_send] and the operation on [aio_send]; and
    the contexts that are open. *)
Record Reply (H msg : Type) : Type := mkReply {
  p_ready : bool;
  p_handler : option H;
  p_unresponded : gset QueryID;
  p_outbox : SendQueue (QueryID * msg);
  p_recv_ctx : option QueryID;
  p_receiving : bool;
  p_send_ctx : option QueryID;
  p_flight : option msg;
  p_open : gset QueryID;
}.
Arguments mkReply {H msg} _ _ _ _ _ _ _ _ _.
Arguments p_ready {H msg} _.
Arguments p_handler {H msg} _.
Arguments p_unresponded {H msg} _.
Arguments p_outbox {H msg} _.
Arguments p_recv_ctx {H msg} _.
Arguments p_receiving {H msg} _.
Arguments p_send_ctx {H msg} _.
Arguments p_flight {H msg} _.
Arguments p_open {H msg} _.

Module ReplyOps.
Section Ops.
Context {H msg : Type} `{AsyncRespond H msg}.

Abbreviation R := (M exn (Reply H msg)).

Definition new : Reply H msg := mkReply false None ∅ SendQueueMtx.new None false None None ∅.

(** Assignments to the members. *)
Definition set_handler (h : option H) (s : Reply H msg) :=
  mkReply (p_ready s) h (p_unresponded s) (p_outbox s) (p_recv_ctx s) (p_receiving s)
    (p_send_ctx s) (p_flight s) (p_open s).
Definition set_ready (b : bool) (s : Reply H msg) :=
  mkReply b (p_handler s) (p_unresponded s) (p_outbox s) (p_recv_ctx s) (p_receiving s)
    (p_send_ctx s) (p_flight s) (p_open s).
Definition set_unresponded (u : gset QueryID) (s : Reply H msg) :=
  mkReply (p_ready s) (p_handler s) u (p_outbox s) (p_recv_ctx s) (p_receiving s)
    (p_send_ctx s) (p_flight s) (p_open s).
Definition set_outbox (q : SendQueue (QueryID * msg)) (s : Reply H msg) :=
  mkReply (p_ready s) (p_handler s) (p_unresponded s) q (p_recv_ctx s) (p_receiving s)
    (p_send_ctx s) (p_flight s) (p_open s).
Definition set_recv (c : option QueryID) (b : bool) (s : Reply H msg) :=
  mkReply (p_ready s) (p_handler s) (p_unresponded s) (p_outbox s) c b
    (p_send_ctx s) (p_flight s) (p_open s).
Definition set_send (c : option QueryID) (m : option msg) (s : Reply H msg) :=
  mkReply (p_ready s) (p_handler s) (p_unresponded s) (p_outbox s) (p_recv_ctx s) (p_receiving s)
    c m (p_open s).
Definition set_open (o : gset QueryID) (s : Reply H msg) :=
  mkReply (p_ready s) (p_handler s) (p_unresponded s) (p_outbox s) (p_recv_ctx s) (p_receiving s)
    (p_send_ctx s) (p_flight s) o.

(** A [nng::ctx] that is assigned over, or destroyed, closes its context. *)
Definition close_ctx (c : option QueryID) : R unit :=
  modify (λ s, set_open (p_open s ∖ match c with Some id => {[id]} | None => ∅ end) s).

(** [ctx_aio_recv = make_ctx()]: [made] is the id of the new context, or an
    exception. *)
Definition renew_ctx (made : exn + QueryID) : R unit :=
  match made with
  | inl e => throw e
  | inr fresh =>
      s ← get;
      close_ctx (p_recv_ctx s);;
      modify (λ s, set_open ({[fresh]} ∪ p_open s) s);;
      modify (λ s, set_recv (Some fresh) (p_receiving s) s)
  end.

(** [ctx_aio_recv.recv(aio_recv)]. *)
Definition start_recv : R unit :=
  s ← get;
  if p_receiving s then fail AioInUse
  else modify (set_recv (p_recv_ctx s) true).

(** The end of [_aioReceived]. *)
Definition arm (made : exn + QueryID) : R unit := renew_ctx made;; start_recv.

(** [initialize]; [aios] is the exception of [make_aio], if it throws.  That
    the aios are made anew matters only when it is called again after its
    handler has expired; the theorems are about the states reached without
    that. *)
Definition initialize (new_handler : option H) (made : exn + QueryID) (aios : option exn) : R unit :=
  s ← get;
  match p_handler s, new_handler with
  | Some _, _ => throw (NngException busy (lit "Reply::initialize (already initialized)"))
  | None, None => throw (NngException closed (lit "Reply::initialize (handler is expired)"))
  | None, Some h =>
      modify (set_handler (Some h));;
      renew_ctx made;;
      match aios with Some e => throw e | None => mret tt end;;
      start_recv
  end.

(** [aio_send.set_msg(m); ctx_aio_send = std::move(ctx); ctx_aio_send.send(aio_send)]. *)
Definition submit (id : QueryID) (m : msg) : R unit :=
  s ← get;
  match p_flight s with
  | Some _ => fail AioInUse
  | None => close_ctx (p_send_ctx s);; modify (set_send (Some id) (Some m))
  end.

(** The end of [respondTo]: back to its caller, or to the receive callback. *)
Definition done_respond (inline : bool) : option (rthread msg) :=
  if inline then Some TRearm else None.

(** [respondTo] up to the submission. *)
Definition respondTo (inline : bool) (id : QueryID) (m : msg) : R (option (rthread msg)) :=
  s ← get;
  if negb (p_ready s) then throw (NngException closed (lit "Reply Communicator is not ready."))
  else match p_handler s with
       | None => mret (done_respond inline)
       | Some h =>
           let '(r, h') := rep_prep id m h in
           modify (set_handler (Some h'));;
           match r with
           | inl e => throw e
           | inr None => mret (done_respond inline)
           | inr (Some m') =>
               s ← get;
               if negb (bool_decide (id ∈ p_unresponded s))
               then throw (NngException inval
                             (lit "respondTo: no outstanding request with this queryID"))
               else
                 modify (set_unresponded (p_unresponded s ∖ {[id]}));;
                 let '(queued, q) := SendQueueMtx.produce (id, m') (p_outbox s) in
                 modify (set_outbox q);;
                 mret (if queued then done_respond inline else Some (TSubmit inline id m'))
           end
       end.

(** [respondTo] from beginning to end, as a caller outside the receive
    callback runs it. *)
Definition respond (id : QueryID) (m : msg) : R unit :=
  t ← respondTo false id m;
  match t with
  | Some (TSubmit _ i m') => submit i m'
  | _ => mret tt
  end.

(** [_aioReceived] up to the response through the tag.  The id of a released
    context is 0. *)
Definition _aioReceived (result : nng_error) (m : msg) : R (option (rthread msg)) :=
  s ← get;
  match p_handler s with
  | None => mret None
  | Some h =>
      let queryID := default 0 (p_recv_ctx s) in
      match result with
      | success =>
          modify (set_unresponded ({[queryID]} ∪ p_unresponded s));;
          modify (set_recv None (p_receiving s));;
          let '(r, h') := rep_recv queryID m h in
          modify (set_handler (Some h'));;
          match r with
          | inl e => throw e
          | inr (Some responseMsg) => mret (Some (TRespond true queryID responseMsg))
          | inr None => mret (Some TRearm)
          end
      | e => modify (set_handler (Some (rep_error queryID e h)));; mret None
      end
  end.

(** [_aioSent] up to the next submission.  [handler] is not checked. *)
Definition _aioSent (result : nng_error) : R (option (rthread msg)) :=
  match result with
  | success =>
      s ← get;
      match p_handler s with
      | Some h =>
          modify (set_handler (Some (rep_sent (default 0 (p_send_ctx s)) h)));;
          let '(next, q) := SendQueueMtx.consume (p_outbox s) in
          modify (set_outbox q);;
          mret ((λ item, TNext (fst item) (snd item)) <$> next)
      | None => fail NullDeref
      end
  | _ => mret None
  end.

(** An exception that leaves a callback of NNG, which is C, ends the program. *)
Definition in_callback {A} (m : R A) : R A := noexcept m.

(** The next action of a thread, and where it leaves the thread. *)
Definition run_thread (made : exn + QueryID) (t : rthread msg) : R (option (rthread msg)) :=
  match t with
  | TReceived r m => in_callback (_aioReceived r m)
  | TRespond inline id m =>
      if inline then in_callback (respondTo true id m) else respondTo false id m
  | TSubmit inline id m => submit id m;; mret (done_respond inline)
  | TRearm => in_callback (arm made;; mret None)
  | TSent r => _aioSent r
  | TNext id m => submit id m;; mret None
  end.

(** ** The system: the communicator and its threads *)

Record Sys : Type := mkSys { y_reply : Reply H msg; y_threads : list (rthread msg) }.

Inductive event : Type :=
| EInitialize (h : option H)
| EInitializeFails (h : option H) (ctx : bool) (e : exn)
                                        (** an aio, or not even a context, can be made for it *)
| EReady (b : bool)
| ERespond (id : QueryID) (m : msg)     (** a thread calls [respondTo] *)
| ERun (i : nat)
| ERunFails (i : nat) (e : exn)         (** and no context can be made *)
| EReceived (r : nng_error) (m : msg)   (** the receive in progress ends *)
| ESent (r : nng_error)                 (** the send in progress ends *)
| EExpire.

(** A callback holds its handler while it runs. *)
Definition holds_handler (t : rthread msg) : bool :=
  match t with TRespond true _ _ | TSubmit true _ _ | TRearm | TNext _ _ => true | _ => false end.

(** What a step of a thread leaves. *)
Definition stepped (i : nat) (ts : list (rthread msg)) (o : result exn (option (rthread msg)) * Reply H msg) : result exn Sys :=
  match o with
  | (Ret t', y') => Ret (mkSys y' (delete i ts ++ option_list t'))
  | (Throw _, y') => Ret (mkSys y' (delete i ts))
  | (Fault f, _) => Fault f
  end.

(** [fresh] is the id that NNG would give to a new context: it is not zero,
    and not the id of an open context. *)
Definition step (fresh : QueryID) (s : Sys) (e : event) : option (result exn Sys) :=
  let y := y_reply s in
  let ts := y_threads s in
  if bool_decide (fresh = 0 ∨ fresh ∈ p_open y) then None
  else match e with
  | EInitialize h =>
      Some (match initialize h (inr fresh) None y with
            | (Fault f, _) => Fault f | (_, y') => Ret (mkSys y' ts) end)
  | EInitializeFails h ctx e =>
      Some (match initialize h (if ctx then inr fresh else inl e) (Some e) y with
            | (Fault f, _) => Fault f | (_, y') => Ret (mkSys y' ts) end)
  | EReady b => Some (Ret (mkSys (set_ready b y) ts))
  | ERespond id m => Some (Ret (mkSys y (ts ++ [TRespond false id m])))
  | ERun i =>
      t ← ts !! i; Some (stepped i ts (run_thread (inr fresh) t y))
  | ERunFails i e =>
      t ← ts !! i; Some (stepped i ts (run_thread (inl e) t y))
  | EReceived r m =>
      if p_receiving y
      then Some (Ret (mkSys (set_recv (p_recv_ctx y) false y) (ts ++ [TReceived r m])))
      else None
  | ESent r =>
      match p_flight y with
      | Some _ => Some (Ret (mkSys (set_send (p_send_ctx y) None y) (ts ++ [TSent r])))
      | None => None
      end
  | EExpire => if existsb holds_handler ts then None else Some (Ret (mkSys (set_handler None y) ts))
  end.

Definition expires (e : event) : bool := match e with EExpire => true | _ => false end.
Definition initializes (e : event) : bool := match e with EInitialize _ | EInitializeFails _ _ _ => true | _ => false end.

(** The states reached, and whether the handler has not expired; [initialize]
    is not called again after it has. *)
Inductive reached : bool → Sys → Prop :=
| reached_new : reached true (mkSys new [])
| reached_step live fresh s e s' :
    reached live s → (live = false → initializes e = false) → step fresh s e = Some (Ret s') →
    reached (live && negb (expires e)) s'.

(** The states reached without the end of the handler. *)
Inductive reachable : Sys → Prop :=
| reach_new : reachable (mkSys new [])
| reach_step fresh s e s' :
    reachable s → e ≠ EExpire → step fresh s e = Some (Ret s') → reachable s'.

(** ** The destructor

    [~Reply] first closes the contexts of [unresponded].  Then it stops
    [aio_send] and [aio_recv]: until that is done operations end, and callbacks
    run and may start others.  The members are destroyed last. *)
Record Dying : Type := mkDying {
  dy_sys : Sys;
  dy_closed : gset QueryID;             (** the contexts closed by the first loop *)
}.
Definition close_unresponded (s : Sys) : Dying := mkDying s (p_unresponded (y_reply s)).

(** What can happen until the aios have stopped; NNG does not use the ids of
    contexts again that have just been closed. *)
Definition dying_step (fresh : QueryID) (d : Dying) (e : event) : option (result exn Dying) :=
  match e with
  | EReceived _ _ | ESent _ | ERun _ | ERunFails _ _ | EExpire =>
      o ← step fresh (dy_sys d) e;
      Some (s ← o; Ret (mkDying s (dy_closed d)))
  | _ => None
  end.
Fixpoint dying_run (d : Dying) (es : list (QueryID * event)) : option Dying :=
  match es with
  | [] => Some d
  | (fresh, e) :: es => match dying_step fresh d e with Some (Ret d') => dying_run d' es | _ => None end
  end.

(** Both have stopped: nothing is in progress. *)
Definition stopped (d : Dying) : bool :=
  match y_threads (dy_sys d), p_receiving (y_reply (dy_sys d)), p_flight (y_reply (dy_sys d)) with
  | [], false, None => true
  | _, _, _ => false
  end.

(** The contexts that the members close: those of [ctx_aio_recv],
    [ctx_aio_send] and the [outbox]. *)
Definition member_ctxs (y : Reply H msg) : gset QueryID :=
  list_to_set (map fst (sq_deq (p_outbox y)))
  ∪ match p_recv_ctx y with Some id => {[id]} | None => ∅ end
  ∪ match p_send_ctx y with Some id => {[id]} | None => ∅ end.

(** The contexts that are open when the object is gone. *)
Definition left_open (d : Dying) : gset QueryID :=
  p_open (y_reply (dy_sys d)) ∖ dy_closed d ∖ member_ctxs (y_reply (dy_sys d)).

End Ops.
Arguments Sys : clear implicits.
Arguments Dying : clear implicits.
Arguments event : clear implicits.
End ReplyOps.

(** ** [Reply_Box]

    The queue of [Reply_Box::Delegate], shared with the handler, and the query
    to be answered next, 0 when there is none. *)
Record ReplyBox (msg : Type) : Type := mkReplyBox {
  inbox : list (QueryID * msg);
  current_query : QueryID;
}.
Arguments mkReplyBox {msg} _ _.
Arguments inbox {msg} _.
Arguments current_query {msg} _.

Module ReplyBoxOps.
Section Box.
Context {msg S : Type}.

(** The handler of the box: queries are queued, nothing else happens. *)
#[export] Instance Delegate_handler : AsyncRespond (list (QueryID * msg)) msg := {
  rep_recv id m q := (inr None, RecvQueue.push (id, m) q);
  rep_prep id m q := (inr (Some m), q);
  rep_sent _ q := q;
  rep_error _ _ q := q;
}.

Definition new_box : ReplyBox msg := mkReplyBox [] 0.

(** The state of the box beside the state [S] of its communicator. *)
Abbreviation B := (M exn (ReplyBox msg * S)).

(** [receive]: [isReady()] is an argument. *)
Definition receive (ready : bool) : B (option msg) :=
  s ← get;
  let '(b, c) := s in
  if negb ready then throw (NngException closed (lit "Reply Communicator is not ready."))
  else if negb (current_query b =? 0)
  then throw (NngException state_ (lit "Reply: must reply before receiving a new message."))
  else match RecvQueue.pull (inbox b) with
       | (Some (id, m), q) => modify (λ _, (mkReplyBox q id, c));; mret (Some m)
       | (None, _) => mret None
       end.

(** [respond]: [respond_to] is [respondTo] on the communicator. *)
Definition respond (respond_to : QueryID → msg → M exn S unit) (ready : bool) (m : msg) : B unit :=
  s ← get;
  let '(b, c) := s in
  if negb ready then throw (NngException closed (lit "Reply Communicator is not ready."))
  else if current_query b =? 0
  then throw (NngException state_ (lit "Reply: must receive a request before replying."))
  else
    zoom snd (λ c' s', (fst s', c')) (respond_to (current_query b) m);;
    modify (λ s', (mkReplyBox (inbox (fst s')) 0, snd s')).

(** A query arrives: the handler's queue is the box's. *)
Definition deliver (id : QueryID) (m : msg) (b : ReplyBox msg) : ReplyBox msg :=
  mkReplyBox (snd (rep_recv id m (inbox b))) (current_query b).

(** What happens around one turn of the loop of [respond_all], which holds no
    mutex: the queries that arrive before it receives one, what the callbacks do
    to the communicator, and [isReady()] at its two calls. *)
Record turn : Type := mkTurn {
  t_new : list (QueryID * msg);
  t_comm : S → S;
  t_ready : bool;
  t_still : bool;
}.
Definition no_turn : turn := mkTurn [] (λ c, c) true true.

(** [respond_all]: receive and respond until the inbox is empty.  Nothing
    happens around the turns after the last of [turns]. *)
Fixpoint respond_all (respond_to : QueryID → msg → M exn S unit) (fn : msg → result exn msg)
    (turns : list turn) (fuel : nat) : B unit :=
  match fuel with
  | O => fail OutOfFuel
  | Datatypes.S fuel =>
      let t := default no_turn (head turns) in
      modify (λ s, (foldl (λ b it, deliver (fst it) (snd it) b) (fst s) (t_new t), t_comm t (snd s)));;
      req ← receive (t_ready t);
      match req with
      | Some req =>
          reply ← lift (fn req);
          respond respond_to (t_still t) reply;;
          respond_all respond_to fn (tail turns) fuel
      | None => mret tt
      end
  end.

(** As many turns as there are queries, and one more. *)
Definition turns_needed (q : list (QueryID * msg)) (turns : list turn) : nat :=
  Datatypes.S (length q + length (concat (map t_new turns))).

End Box.
Arguments turn : clear implicits.
End ReplyBoxOps.
