(* ===== verification/ServiceReplyFacts.v ===== *)
(** * Replies: every context has one owner, every query one answer

    Theorems about [Reply] with any handler, and about [Reply_Box]. *)
From stdpp Require Import gmap.
From S2P Require Import Prelude.
From S2P Require Import Nng.
From S2P Require Import MsgUtil.
From S2P Require Import IoQueue.
From S2P Require Import ServiceReply.

Module ReplyFacts.
Import ReplyOps.

Section Counting.
Context {H msg : Type}.
Implicit Types (y : Reply H msg) (ts : list (rthread msg)) (t : rthread msg) (id : QueryID).

(** ** Counting

    [owns y ts id]: how many of the places that can hold a context hold [id]. *)
Definition one (P : Prop) `{Decision P} : nat := if bool_decide P then 1 else 0.

Definition thread_owns id t : nat :=
  match t with TSubmit _ i _ | TNext i _ => one (i = id) | _ => 0 end.

Definition owns y ts id : nat :=
  (one (p_recv_ctx y = Some id) + one (id ∈ p_unresponded y)
   + sum_list_with (λ it, one (fst it = id)) (sq_deq (p_outbox y))
   + one (p_send_ctx y = Some id) + sum_list_with (thread_owns id) ts)%nat.

(** The right to use [aio_recv] and [aio_send]. *)
Definition recv_token t : nat :=
  match t with TReceived _ _ | TRespond true _ _ | TSubmit true _ _ | TRearm => 1 | _ => 0 end.
Definition received t : nat := match t with TReceived _ _ => 1 | _ => 0 end.
Definition send_token t : nat := match t with TSubmit _ _ _ | TSent _ | TNext _ _ => 1 | _ => 0 end.

Definition in_flight y : nat := match p_flight y with Some _ => 1 | None => 0 end.

(** The invariant; [live]: the handler has not expired. *)
Record Inv_ (live : bool) y ts : Prop := {
  inv_owns id : owns y ts id = one (id ∈ p_open y);
  inv_recv : (Nat.b2n (p_receiving y) + sum_list_with recv_token ts ≤ 1)%nat;
  inv_recv_ctx : p_recv_ctx y = None → (Nat.b2n (p_receiving y) + sum_list_with received ts = 0)%nat;
  inv_send : (in_flight y + sum_list_with send_token ts ≤ Nat.b2n (_busy (p_outbox y)))%nat;
  inv_new : live = true → p_handler y = None →
    (Nat.b2n (p_receiving y) + sum_list_with recv_token ts = 0
     ∧ in_flight y + sum_list_with send_token ts = 0)%nat;
}.

End Counting.

Section Invariant.
Context {H msg : Type} {Hops : AsyncRespond H msg} {live : bool}.
Implicit Types (y : Reply H msg) (ts : list (rthread msg)) (t : rthread msg) (id : QueryID).
#[local] Abbreviation Inv := (Inv_ live).

Lemma one_true (P : Prop) `{Decision P} : P → one P = 1%nat.
Proof. intros. unfold one. by rewrite bool_decide_true. Qed.

Lemma one_false (P : Prop) `{Decision P} : ¬ P → one P = 0%nat.
Proof. intros. unfold one. by rewrite bool_decide_false. Qed.

Lemma one_le (P : Prop) `{Decision P} : (one P ≤ 1)%nat.
Proof. unfold one. destruct (bool_decide P); lia. Qed.

Lemma one_iff (P Q : Prop) `{Decision P} `{Decision Q} : (P ↔ Q) → one P = one Q.
Proof. intros E. unfold one. by rewrite (bool_decide_ext _ _ E). Qed.

Lemma one_add id i (X : gset QueryID) : i ∉ X → one (id ∈ {[i]} ∪ X) = (one (i = id) + one (id ∈ X))%nat.
Proof.
  intros Hi. destruct (decide (i = id)) as [->|Hne].
  - rewrite (one_true (id = id)), one_true, one_false by (done || apply elem_of_union; left; by apply elem_of_singleton).
    done.
  - rewrite (one_false (i = id)) by done. apply one_iff. rewrite elem_of_union, elem_of_singleton.
    split; [intros [->|?]; done | by right].
Qed.

Lemma one_del id i (X : gset QueryID) : i ∈ X → one (id ∈ X) = (one (i = id) + one (id ∈ X ∖ {[i]}))%nat.
Proof.
  intros Hi. destruct (decide (i = id)) as [->|Hne].
  - rewrite (one_true (id = id)), one_true, one_false by (done || rewrite elem_of_difference, elem_of_singleton; tauto).
    done.
  - rewrite (one_false (i = id)) by done. apply one_iff. rewrite elem_of_difference, elem_of_singleton.
    split; [intros ?; split; [done | congruence] | tauto].
Qed.

Lemma one_Some id i `{Decision (Some i = Some id)} : one (Some i = Some id) = one (i = id).
Proof. apply one_iff. split; [by intros [= ->] | by intros ->]. Qed.

Lemma one_None id `{Decision (None = Some id)} : one (None = Some id) = 0%nat.
Proof. by apply one_false. Qed.

Lemma Inv_perm y ts us : ts ≡ₚ us → Inv y ts → Inv y us.
Proof.
  intros E.
  assert (∀ f : rthread msg → nat, sum_list_with f us = sum_list_with f ts) as Es.
  { intros f. induction E; simpl; lia. }
  intros [H1 H2 H3 H4 H5].
  split; intros *; unfold owns in *; rewrite ?Es; auto.
Qed.

Lemma reply_Inv_new : Inv (new : Reply H msg) [].
Proof. split; intros; simpl; done || lia. Qed.

Lemma Inv_false y ts : Inv y ts → Inv_ false y ts.
Proof. by intros [H1 H2 H3 H4 _]; split. Qed.

(** A context that one place gives up and another takes. *)
Lemma owner_open y ts id : Inv y ts → (0 < owns y ts id)%nat → id ∈ p_open y.
Proof.
  intros HI. rewrite (inv_owns _ _ _ HI). unfold one. case_bool_decide; [done | lia].
Qed.

(** ** The operations *)

(** The threads whose exceptions would leave a callback of NNG. *)
Definition may_terminate (made : exn + QueryID) t : Prop :=
  match t with
  | TReceived _ _ | TRespond true _ _ => True
  | TRearm => ∃ e, made = inl e
  | _ => False
  end.
(** The thread that calls the handler without looking whether it is there. *)
Definition handler_missing y t : Prop := live = false ∧ p_handler y = None ∧ t = TSent success.

(** What the action of thread [t] gives, beside the other threads [ts]. *)
Definition post made y t ts (o : result exn (option (rthread msg)) * Reply H msg) : Prop :=
  match o with
  | (Ret t', y') => Inv y' (option_list t' ++ ts)
  | (Throw _, y') => Inv y' ts
  | (Fault f, _) => f = NoexceptTerminate ∧ may_terminate made t ∨ f = NullDeref ∧ handler_missing y t
  end.

Ltac counts :=
  simpl in *; rewrite ?sum_list_with_app; simpl;
  repeat match goal with
  | H : context [one (Some _ = Some _)] |- _ => rewrite one_Some in H
  | H : context [one (None = Some _)] |- _ => rewrite one_None in H
  | |- _ => rewrite one_Some
  | |- _ => rewrite one_None
  end.
Ltac Inv_split HI :=
  let H1 := fresh "H1" in let H2 := fresh "H2" in let H3 := fresh "H3" in
  let H4 := fresh "H4" in let H5 := fresh "H5" in
  destruct HI as [H1 H2 H3 H4 H5]; unfold in_flight in *; simpl in *.

(** The context of a thread goes to the sender. *)
Lemma submit_Inv y t (t' : list (rthread msg)) id (m : msg) ts :
  Inv y (t :: ts) → (∀ i, thread_owns i t = one (id = i)) → send_token t = 1%nat → received t = 0%nat →
  sum_list_with recv_token t' = recv_token t →
  (∀ i, sum_list_with (thread_owns i) t' = 0%nat) → sum_list_with send_token t' = 0%nat →
  sum_list_with received t' = 0%nat →
  ∃ y', submit id m y = (Ret tt, y') ∧ Inv y' (t' ++ ts).
Proof.
  intros HI Ho Hs Hr Hr' Ho' Hs' Hr''.
  assert (p_flight y = None) as Hf.
  { pose proof (inv_send _ _ _ HI) as E. simpl in E. unfold in_flight in E.
    destruct (p_flight y); [|done]. pose proof (Nat.b2n_le_1 (_busy (p_outbox y))). lia. }
  assert (∀ j, p_send_ctx y = Some j → j ∈ p_open y) as Hj.
  { intros j Ej. apply (owner_open y (t :: ts)); [done|]. unfold owns. rewrite Ej, (one_true (Some j = Some j)) by done. lia. }
  eexists. split.
  { unfold submit, close_ctx, mbind, M_bind, get, modify. rewrite Hf. reflexivity. }
  Inv_split HI. rewrite Hf in *. split; simpl; rewrite ?sum_list_with_app; try (intros; lia).
  - intros i. specialize (H1 i). unfold owns in *. simpl. counts. rewrite Ho' in *. rewrite Ho in H1.
    destruct (p_send_ctx y) as [j|]; counts.
    + rewrite (one_del i j (p_open y)) in H1 by auto. lia.
    + rewrite difference_empty_L. lia.
  - intros E. specialize (H3 E). lia.
  - intros El E. specialize (H5 El E). lia.
Qed.

(** A new receiving context. *)
Lemma renew_Inv y ts fresh :
  Inv y ts → fresh ∉ p_open y →
  ∃ y', renew_ctx (inr fresh) y = (Ret tt, y') ∧ Inv y' ts ∧ p_receiving y' = p_receiving y
    ∧ p_handler y' = p_handler y ∧ p_recv_ctx y' = Some fresh ∧ p_unresponded y' = p_unresponded y.
Proof.
  intros HI Hfr.
  assert (∀ j, p_recv_ctx y = Some j → j ∈ p_open y) as Hj.
  { intros j Ej. apply (owner_open y ts); [done|]. unfold owns. rewrite Ej, (one_true (Some j = Some j)) by done. lia. }
  eexists. split; [reflexivity|]. split; [|by simpl].
  Inv_split HI. split; unfold in_flight; simpl; try done; try lia.
  intros i. specialize (H1 i). unfold owns in *. simpl. counts.
  destruct (p_recv_ctx y) as [j|]; counts.
  - rewrite one_add by (rewrite elem_of_difference; tauto).
    rewrite (one_del i j (p_open y)) in H1 by auto. lia.
  - rewrite difference_empty_L, one_add by done. lia.
Qed.

Lemma start_recv_Inv y ts :
  Inv y ts → (Nat.b2n (p_receiving y) + sum_list_with recv_token ts = 0)%nat → is_Some (p_recv_ctx y) →
  (live = true → p_handler y ≠ None) →
  ∃ y', start_recv y = (Ret tt, y') ∧ Inv y' ts ∧ p_recv_ctx y' = p_recv_ctx y ∧ p_unresponded y' = p_unresponded y.
Proof.
  intros HI Ht [c Hc] Hh. eexists. split.
  { unfold start_recv, mbind, M_bind, get, modify. destruct (p_receiving y); [simpl in Ht; lia|]. reflexivity. }
  split; [|done]. Inv_split HI. split; unfold in_flight; simpl; auto; try lia.
  - congruence.
  - intros El En. by destruct (Hh El).
Qed.

Lemma arm_Inv y ts fresh :
  Inv y ts → fresh ∉ p_open y →
  (Nat.b2n (p_receiving y) + sum_list_with recv_token ts = 0)%nat → (live = true → p_handler y ≠ None) →
  ∃ y', arm (inr fresh) y = (Ret tt, y') ∧ Inv y' ts ∧ p_recv_ctx y' = Some fresh ∧ p_unresponded y' = p_unresponded y.
Proof.
  intros HI Hfr Ht Hh. destruct (renew_Inv y ts fresh HI Hfr) as (y1 & E1 & HI1 & Er & Eh & Ec & Eu).
  destruct (start_recv_Inv y1 ts HI1) as (y2 & E2 & HI2 & Ec2 & Eu2); [by rewrite Er | by rewrite Ec | by rewrite Eh |].
  exists y2. split_and!; [|done | congruence..]. unfold arm. rewrite (bind_run _ _ _ _ _ E1). exact E2.
Qed.

Lemma Inv_rearm y ts : Inv y (TRearm :: ts) → Inv y ts.
Proof.
  intros HI. Inv_split HI. split; unfold in_flight; simpl; auto; try lia.
  intros El E. specialize (H5 El E). lia.
Qed.

Lemma received_le ts : (sum_list_with received ts ≤ sum_list_with recv_token ts)%nat.
Proof. induction ts as [|[] ts IH]; simpl; try destruct inline; lia. Qed.

(** Members the invariant does not mention. *)
Lemma Inv_handler y ts h : Inv y ts → Inv (set_handler (Some h) y) ts.
Proof. intros HI. Inv_split HI. split; simpl; auto. done. Qed.

Lemma done_respond_Inv y inline id m ts :
  Inv y (TRespond inline id m :: ts) → Inv y (option_list (done_respond (msg := msg) inline) ++ ts).
Proof.
  intros HI. Inv_split HI. destruct inline; split; simpl; auto.
Qed.

Lemma respondTo_post y inline id m ts :
  Inv y (TRespond inline id m :: ts) →
  match respondTo inline id m y with
  | (Ret t', y') => Inv y' (option_list t' ++ ts)
  | (Throw _, y') => Inv y' ts
  | (Fault _, _) => False
  end.
Proof.
  intros HI. assert (∀ y, Inv y (TRespond inline id m :: ts) → Inv y ts) as Hdrop.
  { intros y' HI'. Inv_split HI'. destruct inline; split; unfold in_flight; simpl in *; auto; try lia.
    intros El E. specialize (H5 El E). lia. }
  unfold respondTo, mbind, M_bind, get, throw, modify, mret, M_ret.
  destruct (p_ready y); simpl; [|by apply Hdrop].
  destruct (p_handler y) as [h|] eqn:Eh; [|by eapply done_respond_Inv].
  destruct (rep_prep id m h) as [[e|[m'|]] h']; simpl.
  - by apply Hdrop, Inv_handler.
  - case_bool_decide as Hin; simpl; [|by apply Hdrop, Inv_handler].
    apply (Inv_handler _ _ h') in HI. unfold SendQueueMtx.produce. simpl.
    Inv_split HI. destruct (_busy (p_outbox y)) eqn:Eb; simpl in *.
    + destruct inline; split; simpl; auto; try done.
      all: intros i; specialize (H1 i); unfold owns in *; counts;
        rewrite (one_del i id (p_unresponded y)) in H1 by done; lia.
    + destruct inline; split; unfold in_flight; simpl; auto; try done; try lia.
      all: intros i; specialize (H1 i); unfold owns in *; counts;
        rewrite (one_del i id (p_unresponded y)) in H1 by done; lia.
  - by eapply done_respond_Inv, Inv_handler.
Qed.

Lemma _aioReceived_post y r m ts :
  Inv y (TReceived r m :: ts) →
  match _aioReceived r m y with
  | (Ret t', y') => Inv y' (option_list t' ++ ts)
  | (Throw _, y') => Inv y' ts
  | (Fault _, _) => False
  end.
Proof.
  intros HI. assert (∀ y, Inv y (TReceived r m :: ts) → Inv y ts) as Hdrop.
  { intros y' HI'. Inv_split HI'. split; unfold in_flight; simpl; auto; try lia.
    - intros E. specialize (H3 E). lia.
    - intros El E. specialize (H5 El E). lia. }
  assert (∃ q, p_recv_ctx y = Some q) as [q Eq].
  { pose proof (inv_recv_ctx _ _ _ HI) as E. simpl in E. destruct (p_recv_ctx y) as [q|]; [by exists q|].
    specialize (E eq_refl). lia. }
  unfold _aioReceived, mbind, M_bind, get, throw, modify, mret, M_ret.
  destruct (p_handler y) as [h|] eqn:Eh; [|by apply Hdrop]. rewrite Eq. simpl.
  destruct r; try (by apply Hdrop, Inv_handler).
  assert (q ∉ p_unresponded y) as Hq.
  { intros Hin. pose proof (inv_owns _ _ _ HI q) as E. unfold owns in E. rewrite Eq in E.
    rewrite (one_true (Some q = Some q)), (one_true (q ∈ p_unresponded y)) in E by done.
    pose proof (one_le (q ∈ p_open y)). lia. }
  apply (Inv_handler _ _ (snd (rep_recv q m h))) in HI. Inv_split HI. rewrite Eq in *.
  destruct (rep_recv q m h) as [[e|[m'|]] h']; simpl in *.
  all: pose proof (received_le ts); split; unfold in_flight; simpl; try done; try lia.
  all: intros i; specialize (H1 i); unfold owns in *; simpl in *; rewrite ?Eq in H1; counts; rewrite one_add by done; lia.
Qed.

Lemma _aioSent_post y r ts :
  Inv y (TSent r :: ts) →
  match _aioSent r y with
  | (Ret t', y') => Inv y' (option_list t' ++ ts)
  | (Throw _, _) => False
  | (Fault f, _) => f = NullDeref ∧ handler_missing y (TSent r)
  end.
Proof.
  intros HI. unfold _aioSent, mbind, M_bind, get, throw, modify, mret, M_ret, fail.
  destruct r; simpl.
  2-17: Inv_split HI; split; unfold in_flight; simpl; auto; try lia; intros El E; specialize (H5 El E); lia.
  destruct (p_handler y) as [h|] eqn:Eh.
  2: { split; [done|]. split_and!; [|done | done]. pose proof (inv_new _ _ _ HI) as E. simpl in E. destruct live; [|done].
       specialize (E eq_refl Eh). lia. }
  apply (Inv_handler _ _ (rep_sent (default 0 (p_send_ctx y)) h)) in HI. Inv_split HI.
  assert (_busy (p_outbox y) = true) as Hb by (destruct (_busy (p_outbox y)); simpl in *; [done|lia]).
  unfold SendQueueMtx.consume. rewrite Hb in *. simpl in *.
  destruct (sq_deq (p_outbox y)) as [|[id m] q] eqn:Eq; simpl.
  all: split; unfold in_flight; simpl; rewrite ?Hb; auto; try done; try (simpl; lia).
  all: intros i; specialize (H1 i); unfold owns in *; simpl in *; rewrite ?Eq in *; simpl in *; lia.
Qed.

(** The system keeps the invariant, and where it can end. *)
Lemma run_thread_post y t ts made :
  Inv y (t :: ts) → match made with inr fresh => fresh ∉ p_open y | inl _ => True end → post made y t ts (run_thread made t y).
Proof.
  intros HI Hfr. destruct t as [r m|inline id m|inline id m| |r|id m]; simpl.
  - unfold in_callback, noexcept. pose proof (_aioReceived_post y r m ts HI) as E.
    destruct (_aioReceived r m y) as [[] ?]; [done | by left | destruct E].
  - pose proof (respondTo_post y inline id m ts HI) as E. destruct inline.
    + unfold in_callback, noexcept. destruct (respondTo true id m y) as [[] ?]; [done | by left | destruct E].
    + by destruct (respondTo false id m y) as [[] ?]; [| |destruct E].
  - destruct (submit_Inv y (TSubmit inline id m) (option_list (done_respond inline)) id m ts)
      as (y' & E & HI'); try done; try (by destruct inline).
    unfold mbind, M_bind. by rewrite E.
  - destruct made as [e|fresh]; [left; split; [done | by exists e]|].
    assert (Nat.b2n (p_receiving y) + sum_list_with recv_token ts = 0)%nat as Ht.
    { pose proof (inv_recv _ _ _ HI) as E. simpl in E. lia. }
    destruct (arm_Inv y ts fresh) as (y' & E & HI' & _); [by apply Inv_rearm | done | done | |].
    { intros El En. pose proof (inv_new _ _ _ HI El En) as E. simpl in E. lia. }
    unfold in_callback, noexcept, mbind, M_bind. by rewrite E.
  - pose proof (_aioSent_post y r ts HI) as E. destruct (_aioSent r y) as [[] ?]; [done | done | by right].
  - destruct (submit_Inv y (TNext id m) [] id m ts) as (y' & E & HI'); try done.
    unfold mbind, M_bind. by rewrite E.
Qed.

Lemma Inv_snoc y t ts : Inv y (t :: ts) → Inv y (ts ++ [t]).
Proof. apply Inv_perm. symmetry. apply (Permutation_app_comm ts [t]). Qed.

(** An operation of NNG ends: its right goes to the thread that runs the callback. *)
Lemma Inv_ended y y' t ts :
  Inv y ts → (∀ id, thread_owns id t = 0%nat) → p_handler y' = p_handler y → p_open y' = p_open y →
  p_recv_ctx y' = p_recv_ctx y → p_unresponded y' = p_unresponded y → p_outbox y' = p_outbox y →
  p_send_ctx y' = p_send_ctx y →
  (Nat.b2n (p_receiving y') + recv_token t = Nat.b2n (p_receiving y))%nat →
  (Nat.b2n (p_receiving y') + received t = Nat.b2n (p_receiving y))%nat →
  (in_flight y' + send_token t = in_flight y)%nat → Inv y' (t :: ts).
Proof.
  intros [H1 H2 H3 H4 H5] Ho Eh Eo Er Eu Eb Es Hr Hc Hs.
  split; unfold owns in *; simpl; intros *; rewrite ?Eh, ?Eo, ?Er, ?Eu, ?Eb, ?Es, ?Ho; try lia; auto.
  - intros E. specialize (H3 E). lia.
  - intros El E. specialize (H5 El E). lia.
Qed.

(** What a step gives, from a state where the invariant holds. *)
Definition step_post (s : Sys H msg) (e : event H msg) (o : result exn (Sys H msg)) : Prop :=
  match o with
  | Ret s' => Inv_ (live && negb (expires e)) (y_reply s') (y_threads s')
  | Throw _ => False
  | Fault f =>
      ∃ i t, y_threads s !! i = Some t ∧
        ((e = ERun i ∧ f = NoexceptTerminate ∧ ∃ fresh, may_terminate (inr fresh) t)
         ∨ (∃ x, e = ERunFails i x ∧ f = NoexceptTerminate ∧ may_terminate (inl x) t)
         ∨ ((e = ERun i ∨ ∃ x, e = ERunFails i x) ∧ f = NullDeref ∧ handler_missing (y_reply s) t))
  end.

Lemma initialize_post h made aios y ts :
  live = true → Inv y ts → match made with inr fresh => fresh ∉ p_open y | inl _ => True end →
  match initialize h made aios y with (Fault _, _) => False | (_, y') => Inv y' ts end.
Proof.
  intros El HI Hfr. unfold initialize. unfold mbind at 1, M_bind at 1, get at 1.
  destruct (p_handler y) as [h0|] eqn:Eh; [done|]. destruct h as [h|]; [|done]. rewrite modify_run.
  destruct (inv_new _ _ _ HI El Eh) as [Ht _]. pose proof (Inv_handler y ts h HI) as HI0.
  destruct made as [e|fresh]; [exact HI0|].
  destruct (renew_Inv _ ts fresh HI0 Hfr) as (y1 & E1 & HI1 & Er & Eh1 & Ec & _). rewrite (bind_run _ _ _ _ _ E1).
  destruct aios as [e|]; [done|]. unfold mbind at 1, M_bind at 1, mret, M_ret.
  destruct (start_recv_Inv y1 ts HI1) as (y2 & E2 & HI2 & _); [by rewrite Er | by rewrite Ec | by rewrite Eh1 |]. by rewrite E2.
Qed.

Lemma stepped_post y t ts i made :
  Inv y ts → ts !! i = Some t → match made with inr fresh => fresh ∉ p_open y | inl _ => True end →
  match stepped i ts (run_thread made t y) with
  | Ret s' => Inv (y_reply s') (y_threads s')
  | Throw _ => False
  | Fault f => f = NoexceptTerminate ∧ may_terminate made t ∨ f = NullDeref ∧ handler_missing y t
  end.
Proof.
  intros HI Ei Hfr. apply delete_Permutation in Ei as Ep.
  pose proof (run_thread_post y t (delete i ts) made (Inv_perm _ _ _ Ep HI) Hfr) as E.
  destruct (run_thread made t y) as [[t'|e|f] y']; simpl in *; [|done..].
  eapply Inv_perm; [|exact E]. apply Permutation_app_comm.
Qed.

Lemma reply_step_post fresh (s : Sys H msg) e o :
  Inv (y_reply s) (y_threads s) → (live = false → initializes e = false) → step fresh s e = Some o → step_post s e o.
Proof.
  destruct s as [y ts]. unfold step. intros HI Hl. simpl in *. case_bool_decide as Hf; [done|].
  assert (fresh ∉ p_open y) as Hfr by tauto.
  destruct e as [h|h ctx ex|b|id m|i|i ex|r m|r|]; simpl; rewrite ?andb_true_r.
  - assert (live = true) as El by (destruct live; [done | by discriminate Hl]).
    pose proof (initialize_post h (inr fresh) None y ts El HI Hfr) as E.
    destruct (initialize h (inr fresh) None y) as [[] ?]; [| |destruct E]; intros [= <-]; simpl; by rewrite andb_true_r.
  - assert (live = true) as El by (destruct live; [done | by discriminate Hl]).
    pose proof (initialize_post h (if ctx then inr fresh else inl ex) (Some ex) y ts El HI) as E.
    destruct (initialize h _ (Some ex) y) as [[] ?]; [| |by destruct E; destruct ctx]; intros [= <-]; simpl; rewrite andb_true_r; apply E; by destruct ctx.
  - intros [= <-]. simpl. rewrite andb_true_r. Inv_split HI. by split.
  - intros [= <-]. simpl. rewrite andb_true_r. apply Inv_snoc. Inv_split HI. by split.
  - destruct (ts !! i) as [t|] eqn:Ei; simpl; [|done]. intros [= <-].
    pose proof (stepped_post y t ts i (inr fresh) HI Ei Hfr) as E. destruct (stepped _ _ _); simpl; [by rewrite andb_true_r | done|].
    exists i, t. split; [done|]. destruct E as [[-> E]|[-> E]]; [left; eauto | right; right; auto].
  - destruct (ts !! i) as [t|] eqn:Ei; simpl; [|done]. intros [= <-].
    pose proof (stepped_post y t ts i (inl ex) HI Ei I) as E. destruct (stepped _ _ _); simpl; [by rewrite andb_true_r | done|].
    exists i, t. split; [done|]. destruct E as [[-> E]|[-> E]]; [right; left; eauto | right; right; eauto].
  - destruct (p_receiving y) eqn:Er; [|done]. intros [= <-]. simpl. rewrite andb_true_r. apply Inv_snoc.
    eapply (Inv_ended y); simpl; try done; unfold in_flight; simpl; rewrite ?Er; simpl; lia.
  - destruct (p_flight y) eqn:Ef; [|done]. intros [= <-]. simpl. rewrite andb_true_r. apply Inv_snoc.
    eapply (Inv_ended y); simpl; try done; unfold in_flight; simpl; rewrite ?Ef; simpl; lia.
  - destruct (existsb _ _); [done|]. intros [= <-]. simpl. rewrite andb_false_r. apply Inv_false in HI. by destruct HI; split.
Qed.

(** An answer to a query that waits is accepted. *)
Lemma respond_ok y ts id m h m' h' :
  Inv y ts → p_ready y = true → p_handler y = Some h → rep_prep id m h = (inr (Some m'), h') →
  id ∈ p_unresponded y →
  ∃ y', respond id m y = (Ret tt, y') ∧ Inv y' ts ∧ p_ready y' = true ∧ p_handler y' = Some h'
    ∧ p_unresponded y' = p_unresponded y ∖ {[id]}.
Proof.
  intros HI Hr Hh Hp Hid.
  assert (Inv y (TRespond false id m :: ts)) as HI1 by (Inv_split HI; by split).
  pose proof (respondTo_post y false id m ts HI1) as Hpost. revert Hpost.
  unfold respond, respondTo, mbind, M_bind, get, throw, modify, mret, M_ret.
  rewrite Hr, Hh, Hp. simpl. rewrite bool_decide_true by done. simpl.
  unfold SendQueueMtx.produce. destruct (_busy (p_outbox y)) eqn:Eb; simpl; intros HI2.
  - eexists. split; [reflexivity|]. by split_and!.
  - destruct (submit_Inv _ _ [] id m' ts HI2) as (y' & E & HI3); try done.
    exists y'. rewrite E. split_and!; [done | done |..];
      revert E; unfold submit, close_ctx, mbind, M_bind, get, modify; simpl;
      destruct (p_flight y); try done; by intros [= <-].
Qed.

(** ** Queries are answered once *)

(** What a thread does to the queries that wait for an answer. *)
Definition forgets (made : exn + QueryID) y y' : Prop :=
  (∀ id, id ∈ p_unresponded y' → id ∈ p_unresponded y ∨ p_recv_ctx y = Some id)
  ∧ (p_recv_ctx y' = p_recv_ctx y ∨ p_recv_ctx y' = None ∨ ∃ fresh, made = inr fresh ∧ p_recv_ctx y' = Some fresh).

Lemma forgets_same made y y' :
  p_unresponded y' = p_unresponded y → p_recv_ctx y' = p_recv_ctx y → forgets made y y'.
Proof. intros E1 E2. split; [rewrite E1 | left; done]. by left. Qed.

Lemma arm_forgets made y : forgets made y (snd (arm made y)).
Proof.
  unfold arm, renew_ctx. destruct made as [e|fresh]; [by apply forgets_same|].
  unfold start_recv, close_ctx, mbind, M_bind, get, modify, fail. simpl.
  destruct (p_receiving y); simpl; (split; simpl; [by left | right; right; by exists fresh]).
Qed.

Lemma run_thread_forgets y t ts made :
  Inv y (t :: ts) → forgets made y (snd (run_thread made t y)).
Proof.
  intros HI. destruct t as [r m|inline id m|inline id m| |r|id m].
  - assert (∃ q, p_recv_ctx y = Some q) as [q Eq].
    { pose proof (inv_recv_ctx _ _ _ HI) as E. simpl in E. destruct (p_recv_ctx y) as [q|]; [by exists q|].
      specialize (E eq_refl). lia. }
    assert (forgets made y (snd (_aioReceived r m y))) as E; [|unfold run_thread, in_callback, noexcept;
      by destruct (_aioReceived r m y) as [[] ?]].
    unfold _aioReceived, mbind, M_bind, get, throw, modify, mret, M_ret.
    destruct (p_handler y) as [h|]; [|by apply forgets_same]. rewrite Eq. simpl.
    destruct r; try by apply forgets_same.
    destruct (rep_recv q m h) as [[e|[m'|]] h']; simpl; (split; simpl; [|by right; left]);
      intros id [->%elem_of_singleton|?]%elem_of_union; auto.
  - assert (∀ inline, forgets made y (snd (respondTo inline id m y))) as E.
    { intros inl. unfold respondTo, mbind, M_bind, get, throw, modify, mret, M_ret.
      destruct (p_ready y); simpl; [|by apply forgets_same].
      destruct (p_handler y) as [h|]; [|by apply forgets_same].
      destruct (rep_prep id m h) as [[e|[m'|]] h']; simpl; try by apply forgets_same.
      case_bool_decide; simpl; [|by apply forgets_same].
      destruct (SendQueueMtx.produce _ _). simpl. split; simpl; [|by left].
      intros i [? _]%elem_of_difference. by left. }
    destruct inline; [|apply E]. specialize (E true). unfold run_thread, in_callback, noexcept.
    by destruct (respondTo true id m y) as [[] ?].
  - simpl. unfold submit, close_ctx, mbind, M_bind, get, modify, fail.
    destruct (p_flight y); by apply forgets_same.
  - pose proof (arm_forgets made y) as E. simpl. unfold in_callback, noexcept, mbind, M_bind.
    by destruct (arm made y) as [[] ?].
  - simpl. unfold _aioSent, mbind, M_bind, get, modify, fail.
    destruct r; try by apply forgets_same. destruct (p_handler y); [|by apply forgets_same].
    destruct (SendQueueMtx.consume _). by apply forgets_same.
  - simpl. unfold submit, close_ctx, mbind, M_bind, get, modify, fail.
    destruct (p_flight y); by apply forgets_same.
Qed.

Lemma initialize_forgets h made aios y : forgets made y (snd (initialize h made aios y)).
Proof.
  unfold initialize. unfold mbind at 1, M_bind at 1, get at 1. destruct (p_handler y); [by apply forgets_same|].
  destruct h; [|by apply forgets_same]. rewrite modify_run. unfold renew_ctx. destruct made as [e|fresh]; [by apply forgets_same|].
  unfold start_recv, close_ctx, mbind, M_bind, get, modify, fail, mret, M_ret. simpl.
  destruct aios; simpl; [|destruct (p_receiving y); simpl]; (split; simpl; [by left | right; right; by exists fresh]).
Qed.

(** A query that has been answered: its context is neither in the hands of the
    receiver nor waiting. *)
Definition answered (s : Sys H msg) id : Prop :=
  p_recv_ctx (y_reply s) ≠ Some id ∧ id ∉ p_unresponded (y_reply s).

Lemma answered_forgets id made y y' :
  forgets made y y' → made ≠ inr id → p_recv_ctx y ≠ Some id ∧ id ∉ p_unresponded y →
  p_recv_ctx y' ≠ Some id ∧ id ∉ p_unresponded y'.
Proof.
  intros [H1 H2] Hne [Hr Hu]. split.
  - destruct H2 as [->|[->|(fresh & -> & ->)]]; [done..|]. by intros [= ->].
  - intros [?|?]%H1; done.
Qed.

Lemma step_answered fresh (s s' : Sys H msg) e id :
  Inv (y_reply s) (y_threads s) → step fresh s e = Some (Ret s') → id ≠ fresh →
  answered s id → answered s' id.
Proof.
  destruct s as [y ts]. unfold step, answered. intros HI. simpl in *. case_bool_decide as Hf; [done|].
  intros Hs Hne. apply (answered_forgets id (inr fresh)); [|congruence].
  destruct e as [h|h ctx ex|b|i m|i|i ex|r m|r|]; try (injection Hs as <-; by apply forgets_same).
  - pose proof (initialize_forgets h (inr fresh) None y) as E. destruct (initialize h _ None y) as [[] ?]; try done; by injection Hs as <-.
  - pose proof (initialize_forgets h (if ctx then inr fresh else inl ex) (Some ex) y) as E.
    assert (∀ y', forgets (if ctx then inr fresh else inl ex) y y' → forgets (inr fresh) y y') as Hw.
    { intros y' [H1 H2]. split; [done|]. destruct H2 as [?|[?|(f & Ef & ?)]]; [by left | by right; left |]. destruct ctx; [|done].
      right; right. by exists f. }
    apply Hw in E. destruct (initialize h _ (Some ex) y) as [[] ?]; try done; by injection Hs as <-.
  - destruct (ts !! i) as [t|] eqn:Ei; simpl in Hs; [|done]. apply delete_Permutation in Ei as Ep.
    pose proof (run_thread_forgets y t (delete i ts) (inr fresh) (Inv_perm _ _ _ Ep HI)) as E.
    destruct (run_thread (inr fresh) t y) as [[] ?]; try done; injection Hs as <-; done.
  - destruct (ts !! i) as [t|] eqn:Ei; simpl in Hs; [|done]. apply delete_Permutation in Ei as Ep.
    pose proof (run_thread_forgets y t (delete i ts) (inl ex) (Inv_perm _ _ _ Ep HI)) as [E1 E2].
    assert (forgets (inr fresh) y (snd (run_thread (inl ex) t y))) as E.
    { split; [done|]. destruct E2 as [?|[?|(? & ? & _)]]; [by left | by right; left | done]. }
    destruct (run_thread (inl ex) t y) as [[] ?]; try done; injection Hs as <-; done.
  - destruct (p_receiving y); [|done]. injection Hs as <-. by apply forgets_same.
  - destruct (p_flight y); [|done]. injection Hs as <-. by apply forgets_same.
  - destruct (existsb _ _); [done|]. injection Hs as <-. by apply forgets_same.
Qed.

End Invariant.

(** The invariant while the handler lives. *)
Abbreviation Inv := (Inv_ true).

Section Reached.
Context {H msg : Type} {Hops : AsyncRespond H msg}.
Implicit Types (y : Reply H msg) (ts : list (rthread msg)) (t : rthread msg) (id : QueryID).

Lemma reply_step_ok fresh (s s' : Sys H msg) e :
  Inv (y_reply s) (y_threads s) → step fresh s e = Some (Ret s') → e ≠ EExpire → Inv (y_reply s') (y_threads s').
Proof.
  intros HI Hs He. pose proof (reply_step_post (live := true) fresh s e _ HI ltac:(done) Hs) as E. simpl in E.
  by replace (negb (expires e)) with true in E by (by destruct e).
Qed.

Lemma reply_reachable_Inv (s : Sys H msg) : reachable s → Inv (y_reply s) (y_threads s).
Proof.
  induction 1 as [|fresh s e s' _ IH Hne Hs]; [apply reply_Inv_new|]. by eapply reply_step_ok.
Qed.



(** The states reached from [s] while NNG does not use [id] for a new context. *)
Inductive later (id : QueryID) (s : Sys H msg) : Sys H msg → Prop :=
| later_refl : later id s s
| later_step fresh e s1 s2 :
    later id s s1 → e ≠ EExpire → fresh ≠ id → step fresh s1 e = Some (Ret s2) → later id s s2.

Lemma later_answered id (s s' : Sys H msg) :
  Inv (y_reply s) (y_threads s) → later id s s' → answered s id →
  Inv (y_reply s') (y_threads s') ∧ answered s' id.
Proof.
  intros HI. induction 1 as [|fresh e s1 s2 _ IH Hne Hf Hs]; [done|]. intros Ha.
  destruct (IH Ha) as [HI1 Ha1]. split.
  - by eapply reply_step_ok.
  - by eapply step_answered.
Qed.

Lemma respondTo_answered y inline id m :
  id ∉ p_unresponded y → p_ready y = true →
  (∃ h m' h', p_handler y = Some h ∧ rep_prep id m h = (inr (Some m'), h')) →
  ∃ y', respondTo inline id m y =
    (Throw (NngException inval (lit "respondTo: no outstanding request with this queryID")), y')
    ∧ p_outbox y' = p_outbox y ∧ p_unresponded y' = p_unresponded y.
Proof.
  intros Hu Hr (h & m' & h' & Eh & Ep). unfold respondTo, mbind, M_bind, get, throw, modify.
  rewrite Hr, Eh. simpl. rewrite Ep. simpl. rewrite bool_decide_false by done. simpl. by eexists.
Qed.

Lemma respondTo_accepted y inline id m o y' :
  respondTo inline id m y = (Ret o, y') → p_unresponded y' ≠ p_unresponded y →
  (id ∉ p_unresponded y') ∧ p_recv_ctx y' = p_recv_ctx y ∧ id ∈ p_unresponded y.
Proof.
  unfold respondTo, mbind, M_bind, get, throw, modify, mret, M_ret.
  destruct (p_ready y); simpl; [|done]. destruct (p_handler y) as [h|]; [|by intros [= _ <-]].
  destruct (rep_prep id m h) as [[e|[m'|]] h']; simpl; [done| |by intros [= _ <-]].
  case_bool_decide as Hin; simpl; [|done]. destruct (SendQueueMtx.produce _ _). simpl.
  intros [= _ <-] _. simpl. rewrite elem_of_difference, elem_of_singleton. tauto.
Qed.

(** ** The properties *)











Lemma accepted_answered fresh (s s1 : Sys H msg) i inline id m :
  reachable s → y_threads s !! i = Some (TRespond inline id m) → step fresh s (ERun i) = Some (Ret s1) →
  p_unresponded (y_reply s1) ≠ p_unresponded (y_reply s) → answered s1 id.
Proof.
  intros Hr Hi Hs Hu. apply reply_reachable_Inv in Hr. destruct s as [y ts]. simpl in *.
  unfold step in Hs. simpl in Hs. case_bool_decide; [done|]. rewrite Hi in Hs. simpl in Hs.
  assert (∀ o y', respondTo inline id m y = (Ret o, y') → p_unresponded y' ≠ p_unresponded y →
    p_recv_ctx y' ≠ Some id ∧ id ∉ p_unresponded y') as Hacc.
  { intros o y' E Hne. destruct (respondTo_accepted y inline id m o y' E Hne) as (H1 & H2 & H3).
    split; [|done]. rewrite H2. intros Eq. pose proof (inv_owns _ _ _ Hr id) as Eo. unfold owns in Eo.
    rewrite (one_true _ Eq), (one_true _ H3) in Eo. pose proof (one_le (id ∈ p_open y)). lia. }
  assert (∀ e y', respondTo inline id m y = (Throw e, y') → p_unresponded y' = p_unresponded y) as Hthr.
  { intros e y'. unfold respondTo, mbind, M_bind, get, throw, modify, mret, M_ret.
    destruct (p_ready y); simpl; [|by intros [= _ <-]]. destruct (p_handler y) as [h|]; [|done].
    destruct (rep_prep id m h) as [[e'|[m'|]] h']; simpl; [by intros [= _ <-]| |done].
    case_bool_decide; simpl; [|by intros [= _ <-]]. destruct (SendQueueMtx.produce _ _). done. }
  destruct inline; unfold in_callback, noexcept in Hs.
  - destruct (respondTo true id m y) as [[o|e|f] y']; [|done..]. injection Hs as <-. simpl in *. by apply (Hacc o).
  - destruct (respondTo false id m y) as [[o|e|f] y']; [| |done]; injection Hs as <-; simpl in *.
    + by apply (Hacc o).
    + by rewrite (Hthr e y') in Hu.
Qed.

(** Runs, for examples. *)
Fixpoint run (l : list (QueryID * event H msg)) (s : Sys H msg) : option (Sys H msg) :=
  match l with
  | [] => Some s
  | (fresh, e) :: l => match step fresh s e with Some (Ret s') => run l s' | _ => None end
  end.

Lemma reply_run_reachable l (s s' : Sys H msg) :
  Forall (λ fe, snd fe ≠ EExpire) l → reachable s → run l s = Some s' → reachable s'.
Proof.
  intros Hl. revert s. induction Hl as [|[fresh e] l He _ IH]; intros s Hr; simpl; [by intros [= <-]|].
  destruct (step fresh s e) as [[s1| |]|] eqn:E; try done. apply IH. by eapply reach_step.
Qed.

Lemma run_later id l (s0 s s' : Sys H msg) :
  Forall (λ fe, snd fe ≠ EExpire ∧ fst fe ≠ id) l → later id s0 s → run l s = Some s' → later id s0 s'.
Proof.
  intros Hl. revert s. induction Hl as [|[fresh e] l [He Hf] _ IH]; intros s Hr; simpl; [by intros [= <-]|].
  destruct (step fresh s e) as [[s1| |]|] eqn:E; try done. apply IH. by eapply later_step.
Qed.

(** C27. Once [respondTo] has accepted an answer to a query, every later answer to
    it is refused and changes nothing, until NNG gives the same id to a new
    context. *)
Theorem reply_once fresh (s s1 s' : Sys H msg) i inline inline' id m1 m2 :
  reachable s → y_threads s !! i = Some (TRespond inline id m1) →
  step fresh s (ERun i) = Some (Ret s1) → p_unresponded (y_reply s1) ≠ p_unresponded (y_reply s) →
  later id s1 s' → p_ready (y_reply s') = true →
  (∃ h m' h', p_handler (y_reply s') = Some h ∧ rep_prep id m2 h = (inr (Some m'), h')) →
  ∃ y2, respondTo inline' id m2 (y_reply s') =
    (Throw (NngException inval (lit "respondTo: no outstanding request with this queryID")), y2)
    ∧ p_outbox y2 = p_outbox (y_reply s') ∧ p_unresponded y2 = p_unresponded (y_reply s').
Proof.
  intros Hr Hi Hs Hu Hl Hready Hprep.
  assert (Inv (y_reply s1) (y_threads s1)) as HI1 by exact (reply_step_ok fresh s s1 (ERun i) (reply_reachable_Inv s Hr) Hs ltac:(done)).
  destruct (later_answered id s1 s' HI1 Hl (accepted_answered fresh s s1 i inline id m1 Hr Hi Hs Hu)) as [_ [_ Ha]].
  by apply respondTo_answered.
Qed.

End Reached.

(** ** [Reply_Box] *)

Section Box.
Import ReplyBoxOps.
Context {msg S : Type}.

(** What happens to a box: a query arrives, or its user calls it, with any
    communicator. *)
Inductive box_event : Type :=
| BDeliver (id : QueryID) (m : msg)
| BReceive (ready : bool)
| BRespond (respond_to : QueryID → msg → M exn S unit) (ready : bool) (m : msg).

(** The box, and the queries answered so far. *)
Definition box_step (e : box_event) (s : ReplyBox msg * S * list QueryID) : ReplyBox msg * S * list QueryID :=
  let '(b, c, done) := s in
  match e with
  | BDeliver id m => (deliver id m b, c, done)
  | BReceive ready => let '(_, (b', c')) := receive ready (b, c) in (b', c', done)
  | BRespond rt ready m =>
      match respond rt ready m (b, c) with
      | (Ret _, (b', c')) => (b', c', done ++ [current_query b])
      | (_, (b', c')) => (b', c', done)
      end
  end.

Definition delivered (e : box_event) : list QueryID := match e with BDeliver id _ => [id] | _ => [] end.

(** Queries in the order of their arrival: answered, being answered, waiting. *)
Definition box_order (s : ReplyBox msg * S * list QueryID) : list QueryID :=
  let '(b, _, done) := s in
  done ++ (if current_query b =? 0 then [] else [current_query b]) ++ map fst (inbox b).

Lemma box_step_order e s :
  Forall (λ id, id ≠ 0) (box_order s ++ delivered e) → box_order (box_step e s) = box_order s ++ delivered e.
Proof.
  destruct s as [[b c] done]. intros Hf. destruct e as [id m|ready|rt ready m]; simpl in *.
  - unfold RecvQueue.push. by rewrite map_app, !app_assoc.
  - rewrite app_nil_r in *. unfold receive, mbind, M_bind, get, throw, modify, mret, M_ret.
    destruct ready; simpl; [|done]. destruct (Z.eqb_spec (current_query b) 0) as [E|E]; simpl.
    + destruct (inbox b) as [|[id m] q] eqn:Eq; simpl; rewrite ?E, ?Eq; simpl; [done|].
      destruct (Z.eqb_spec id 0) as [->|]; [|done]. exfalso.
      rewrite Forall_forall in Hf. apply (Hf 0); [|done]. rewrite elem_of_app. right. by left.
    + destruct (Z.eqb_spec (current_query b) 0); done.
  - rewrite app_nil_r in *. unfold respond, zoom, mbind, M_bind, get, throw, modify, mret, M_ret.
    destruct ready; simpl; [|done]. destruct (Z.eqb_spec (current_query b) 0) as [E|E]; simpl.
    + by rewrite E.
    + destruct (rt (current_query b) m c) as [[[]|e|f] c']; simpl.
      * by rewrite <- app_assoc.
      * by destruct (Z.eqb_spec (current_query b) 0).
      * by destruct (Z.eqb_spec (current_query b) 0).
Qed.

(** C28. The box answers queries in the order in which they arrive, each once, and
    loses none: those answered, the one being answered and those that wait
    are at all times the sequence of those that arrived. *)
Theorem box_answers_in_order (es : list box_event) (c : S) :
  Forall (λ id, id ≠ 0) (concat (map delivered es)) →
  box_order (fold_left (λ s e, box_step e s) es (new_box, c, [])) = concat (map delivered es).
Proof.
  intros Hf. assert (∀ s, Forall (λ id, id ≠ 0) (box_order s ++ concat (map delivered es)) →
    box_order (fold_left (λ s e, box_step e s) es s) = box_order s ++ concat (map delivered es)) as E.
  { clear Hf. induction es as [|e es IH]; intros s Hf; simpl in *; [by rewrite app_nil_r|].
    rewrite app_assoc in Hf. rewrite IH; rewrite box_step_order; try by apply Forall_app in Hf as [? _].
    - by rewrite <- app_assoc.
    - done. }
  by rewrite E.
Qed.







End Box.

(** ** Witnesses: a box that has received one query, 5, and is answering it *)

Import ReplyBoxOps.

Definition to_query : list (QueryID * event (list (QueryID * Z)) Z) :=
  [(5, EInitialize (Some [])); (6, EReady true); (6, EReceived success 70); (6, ERun 0); (6, ERun 0);
   (8, ERespond 5 71)].
Definition at_query : Sys (list (QueryID * Z)) Z := default (mkSys new []) (run to_query (mkSys new [])).
Definition at_accept : Sys (list (QueryID * Z)) Z := default (mkSys new []) (run [(8, ERun 0)] at_query).
Definition at_sent : Sys (list (QueryID * Z)) Z := default (mkSys new []) (run [(8, ERun 0); (8, ESent success)] at_accept).

Lemma at_query_reachable : reachable at_query.
Proof.
  apply (reply_run_reachable to_query (mkSys new [])); [|constructor | vm_compute; reflexivity].
  repeat constructor; discriminate.
Qed.

Lemma at_sent_later : later 5 at_accept at_sent.
Proof.
  apply (run_later 5 [(8, ERun 0); (8, ESent success)] at_accept at_accept);
    [|constructor | vm_compute; reflexivity].
  repeat constructor; discriminate.
Qed.





Lemma reply_once_witness :
  ∃ y2, respondTo false 5 72 (y_reply at_sent) =
    (Throw (NngException inval (lit "respondTo: no outstanding request with this queryID")), y2).
Proof.
  edestruct (reply_once 8 at_query at_accept at_sent 0 false false 5 71 72) as (y2 & E & _).
  - apply at_query_reachable.
  - reflexivity.
  - vm_compute; reflexivity.
  - intros E. apply (f_equal (λ X : gset QueryID, bool_decide (5 ∈ X))) in E. vm_compute in E. discriminate.
  - apply at_sent_later.
  - reflexivity.
  - exists [(5, 70)], 72, [(5, 70)]. split; reflexivity.
  - exists y2. exact E.
Defined.

Lemma box_answers_in_order_witness :
  let es := [BDeliver 5 70; BDeliver 6 71; BReceive true; BRespond (λ _ _ c, (Ret tt, c)) true 72; BReceive true] in
  box_order (fold_left (λ s e, box_step e s) es (ReplyBoxOps.new_box, tt, [])) = [5; 6].
Proof. intros es. apply (box_answers_in_order es tt). repeat constructor; discriminate. Defined.


(** A query received between the two parts of the destructor: its context, 5,
    is not closed. *)
Definition to_idle : list (QueryID * event (list (QueryID * Z)) Z) := [(5, EInitialize (Some [])); (6, EReady true)].
Example received_while_destroyed :
  (s ← run to_idle (mkSys new []);
   d ← dying_run (close_unresponded s)
         [(6, EReceived success 70); (6, ERun 0); (6, ERun 0); (8, EReceived canceled 0); (8, ERun 0)];
   if stopped d then Some (elements (left_open d)) else None) = Some [5].
Proof. vm_compute. reflexivity. Qed.

End ReplyFacts.
