(* ===== verification/Notices.v ===== *)
(** * The messages the server writes

    Replies and reports with a standard status, as the server composes them:
    what their readers get.  The facts are instances of the round trips. *)
From S2P Require Import Prelude.
From S2P Require Import Nng.
From S2P Require Import MsgUtil.
From S2P Require Import MsgProtocol.
From S2P Require Import Method.
From S2P Require Import Status.
From S2P Require Import MsgHeaders.
From S2P Require Import MsgLayout.
From S2P Require Import MsgView.
From S2P Require Import MsgParse.
From S2P Require Import MsgWriter.
From S2P Require Import MsgRoundTrip.

Module Notices.
Import RoundTrip.

(** The reason phrases of the standard statuses are acceptable. *)
Lemma standard_reason code :
  let r := Status.reasonPhrase (HttpStatus.toInt code) in
  1 ≤ HttpStatus.toInt code ≤ 999 ∧ ContainsNewline r = false ∧ blen r ≤ 128
  ∧ MsgProtocol.valid (MsgProtocol.Parse (first_word r)) = false.
Proof. destruct code; split_and!; first [reflexivity | (by vm_compute) | simpl; lia]. Qed.

Section Written.
Context {msg : Type} `{NngMsgLaws msg}.

(** Writers that do the same write the same. *)
Lemma compose_ext p (m m' : M exn (MsgWriter msg) unit) :
  m (new_writer p) = m' (new_writer p) → compose p m = compose p m'.
Proof. intros E. unfold compose, mbind, M_bind. by rewrite E. Qed.

Lemma one_header (start : M exn (MsgWriter msg) unit) n v body w :
  (start;; writeHeader n v;; writeBody body) w = (start;; write_headers [(n, v)];; writeBody body) w.
Proof.
  unfold mbind, M_bind, mret, M_ret. simpl. destruct (start w) as [[[]| |] w1]; try done.
  unfold mbind, M_bind, mret, M_ret. by destruct (writeHeader n v w1) as [[[]| |] w2].
Qed.

Lemma no_header (start : M exn (MsgWriter msg) unit) body w :
  (start;; writeBody body) w = (start;; write_headers [];; writeBody body) w.
Proof. unfold mbind, M_bind, mret, M_ret. simpl. by destruct (start w) as [[[]| |] w1]. Qed.

Lemma bind_ext {S A B} (m m' : M exn S A) (k : A → M exn S B) w : m w = m' w → (m ≫= k) w = (m' ≫= k) w.
Proof. intros E. unfold mbind, M_bind. by rewrite E. Qed.

(** A reader of a reply gets the status and the body. *)
Definition reads_reply (m : msg) (status : Z) (body : bytes) : Prop :=
  ∃ v, View.parse REPLY (msg_body m) = Ret v ∧ View.msgType v = REPLY
    ∧ View.status v = Ret status ∧ View.bodyString v = Ret body.

Definition reads_report (m : msg) (uri : bytes) (status : Z) (body : bytes) : Prop :=
  ∃ v, View.parse REPORT (msg_body m) = Ret v ∧ View.msgType v = REPORT
    ∧ View.uriString v = Ret uri ∧ View.status v = Ret status ∧ View.bodyString v = Ret body.

Definition reads_request (m : msg) (uri : bytes) (method : MethodCode) (body : bytes) : Prop :=
  ∃ v, View.parse REQUEST (msg_body m) = Ret v ∧ View.msgType v = REQUEST
    ∧ View.uriString v = Ret uri ∧ View.method v = Ret method ∧ View.bodyString v = Ret body.

Definition text_plain : list (bytes * bytes) := [(lit "Content-Type", lit "text/plain")].

Lemma text_plain_ok : Forall (λ h, HeaderFacts.name_ok (fst h) ∧ MsgUtilFacts.no_newline (snd h)) text_plain.
Proof.
  repeat constructor; try discriminate.
Qed.

Lemma text_plain_size nl : blen nl ≤ 2 → blen (header_text nl text_plain) ≤ 64.
Proof.
  intros Hnl. unfold header_text, text_plain. cbn [map concat fst snd].
  rewrite app_nil_r, blen_app, blen_cons, blen_app.
  change (blen (lit "Content-Type")) with 12. change (blen (lit "text/plain")) with 10. lia.
Qed.

Lemma reply_line_size st r : 1 ≤ st ≤ 999 → blen r ≤ 128 → blen (reply_line Telling st r) ≤ 160.
Proof.
  intros Hst Hr. destruct (status_text st Hst) as (_ & Hs & _). unfold reply_line.
  rewrite blen_app, blen_cons, blen_app, blen_cons, Hs. pose proof (protocol_short Telling). lia.
Qed.

Lemma report_line_size u st r : 1 ≤ st ≤ 999 → blen r ≤ 128 → blen (report_line Telling u st r) ≤ 200 + blen u.
Proof.
  intros Hst Hr. destruct (status_text st Hst) as (_ & Hs & _). unfold report_line.
  rewrite blen_app, blen_cons, blen_app, blen_cons, blen_app, blen_cons, Hs.
  pose proof (protocol_short Telling). lia.
Qed.

Lemma sizes line hs body : hs = [] ∨ hs = text_plain → blen line ≤ 1000 → blen body < 2 ^ 60 →
  let nl := MsgProtocol.preferred_newline Telling in
  blen (head_text line nl hs) ≤ 0xFFFF ∧ blen (message_text line nl hs body) < 2 ^ 64.
Proof.
  intros Hh Hl Hb nl. assert (blen nl = 1) as En by reflexivity.
  assert (blen (header_text nl hs) ≤ 64) as Eh.
  { destruct Hh as [->| ->]; [vm_compute; discriminate | apply text_plain_size; lia]. }
  unfold message_text. rewrite !blen_app. lia.
Qed.

Lemma headers_fit hs : hs = [] ∨ hs = text_plain →
  Forall (λ h, HeaderFacts.name_ok (fst h) ∧ MsgUtilFacts.no_newline (snd h)) hs.
Proof. intros [->| ->]; [constructor | apply text_plain_ok]. Qed.

(** A reply with a standard status. *)
Lemma reply_written code hs body :
  hs = [] ∨ hs = text_plain → blen body < 2 ^ 60 →
  ∃ m : msg, compose Telling (WriteReply (HttpStatus.toInt code);; write_headers hs;; writeBody body) = Ret (Some m)
    ∧ reads_reply m (HttpStatus.toInt code) body.
Proof.
  intros Hh Hb. destruct (standard_reason code) as (H1 & H2 & H3 & H4).
  destruct (sizes _ hs body Hh (Z.le_trans _ _ 1000 (reply_line_size _ _ H1 H3) ltac:(lia)) Hb) as [Hs1 Hs2].
  destruct (composed_reply (msg := msg) Telling _ _ hs body REPLY eq_refl H1 H2 H3 H4 (headers_fit hs Hh)
    (or_intror eq_refl) Hs1 Hs2) as (m & v & Hm & Hp & Ht & _ & Hst & _ & _ & Hbody).
  exists m. split; [exact Hm|]. by exists v.
Qed.

(** The replies to exceptions: a status, a plain text. *)
Lemma plain_written code body :
  blen body < 2 ^ 60 →
  ∃ m : msg, compose Telling (WriteReply (HttpStatus.toInt code);; writeHeader (lit "Content-Type") (lit "text/plain");;
                              writeBody body) = Ret (Some m)
    ∧ reads_reply m (HttpStatus.toInt code) body.
Proof.
  intros Hb. destruct (reply_written code text_plain body (or_intror eq_refl) Hb) as (m & Hm & Hr).
  exists m. split; [|done]. rewrite <- Hm. apply compose_ext, one_header.
Qed.

Lemma msg_error_written err excerpt ctx :
  blen excerpt < 2 ^ 58 → blen ctx < 2 ^ 58 →
  ∃ code (m : msg) text, compose Telling (msg_replyWithError err excerpt ctx) = Ret (Some m)
    ∧ HttpStatus.toInt code = Exceptions.msg_replyStatus err ∧ reads_reply m (HttpStatus.toInt code) text.
Proof.
  intros He Hc.
  assert (∃ code, HttpStatus.toInt code = Exceptions.msg_replyStatus err) as [code Ec] by (destruct err; by eexists).
  unfold msg_replyWithError. rewrite <- Ec.
  match goal with |- context [writeBody ?b] => destruct (plain_written code b) as (m & Hm & Hr) end.
  - rewrite !blen_app. assert (blen (Exceptions.msg_what err) ≤ 64) by (destruct err; by vm_compute).
    assert (blen (match ctx with [] => [] | ctx => lit " in `" ++ ctx ++ lit "`:" ++ [CR; LF; TAB] end) ≤ blen ctx + 64).
    { destruct ctx; [by vm_compute|]. rewrite !blen_app. change (blen (lit " in `")) with 5.
      change (blen (lit "`:")) with 2. change (blen [CR; LF; TAB]) with 3. lia. }
    assert (blen (match excerpt with [] => []
             | ex => [CR; LF] ++ lit "At location:" ++ [CR; LF; TAB] ++ lit "`" ++ ex ++ lit "`" end) ≤ blen excerpt + 64).
    { destruct excerpt; [by vm_compute|]. rewrite !blen_app. change (blen [CR; LF]) with 2.
      change (blen (lit "At location:")) with 12. change (blen [CR; LF; TAB]) with 3.
      change (blen (lit "`")) with 1. lia. }
    change (blen [CR; LF]) with 2. lia.
  - eexists code, m, _. split; [exact Hm|]. split; [done | exact Hr].
Qed.

Lemma c_str_short s : blen (c_str s) ≤ blen s.
Proof.
  unfold c_str. rewrite <- (span_app (λ c, negb (Ascii.eqb c "000")) s) at 2. rewrite blen_app.
  pose proof (blen_nonneg (snd (span (λ c, negb (Ascii.eqb c "000")) s))). lia.
Qed.

Lemma status_error_written code what ctx :
  blen what < 2 ^ 58 → blen ctx < 2 ^ 58 →
  ∃ (m : msg) text, compose Telling (status_replyWithError (HttpStatus.toInt code) what ctx) = Ret (Some m)
    ∧ reads_reply m (HttpStatus.toInt code) text.
Proof.
  intros Hw Hc. unfold status_replyWithError.
  match goal with |- context [writeBody ?b] => destruct (plain_written code b) as (m & Hm & Hr) end.
  - rewrite blen_app. pose proof (c_str_short what).
    assert (blen (match ctx with [] => [] | ctx => ctx ++ lit ": " end) ≤ blen ctx + 64); [|lia].
    destruct ctx; [by vm_compute|]. rewrite !blen_app. change (blen (lit ": ")) with 2. lia.
  - by eexists m, _.
Qed.

(** *** The [Allow] header *)

Fixpoint join (sep : bytes) (l : list bytes) : bytes :=
  match l with
  | [] => []
  | [x] => x
  | x :: l => x ++ sep ++ join sep l
  end.

(** The names of the methods of a set, in the order of the enumeration. *)
Definition allow_text (mask : Z) : bytes :=
  join (lit ", ") (map Method.toString
    (List.filter (λ m, Z.testbit mask (Method.value m)) [GET; HEAD; POST; PUT; DELETE; PATCH; OPTIONS; CONNECT; TRACE])).

Lemma join_cons sep x l : join sep (x :: l) = x ++ concat (map (λ y, sep ++ y) l).
Proof.
  revert x. induction l as [|y l IH]; intros x; simpl; [by rewrite app_nil_r|].
  simpl in IH. by rewrite IH, <- app_assoc.
Qed.

(** The loop over a list of methods instead of their integers. *)
Fixpoint allow_fold (ms : list MethodCode) (mask : Z) (first : bool) (allowed : bytes) : bytes :=
  match ms with
  | [] => allowed
  | m :: ms =>
      if Z.testbit mask (Method.value m)
      then allow_fold ms mask false (allowed ++ (if first then [] else lit ", ") ++ Method.toString m)
      else allow_fold ms mask first allowed
  end.

Lemma allow_loop_step fuel x mask first allowed :
  Method.valid x = true →
  allow_loop (S fuel) (Method.value x - 1) mask first allowed =
    if Z.testbit mask (Method.value x)
    then allow_loop fuel (Method.value x) mask false (allowed ++ (if first then [] else lit ", ") ++ Method.toString x)
    else allow_loop fuel (Method.value x) mask first allowed.
Proof.
  intros Hx. unfold allow_loop at 1; fold allow_loop. rewrite Z.sub_add.
  assert ((Method.value EndOfValidMethods <=? Method.value x) = false) as ->.
  { unfold Method.valid in Hx. apply andb_prop in Hx. lia. }
  assert (method_of_value (Method.value x) = x) as -> by (by destruct x).
  rewrite MethodFacts.contains_testbit by (by destruct x).
  unfold mbind, result_bind. by destruct (Z.testbit _ _).
Qed.

Definition listed : list MethodCode := [GET; HEAD; POST; PUT; DELETE; PATCH; OPTIONS; CONNECT; TRACE].

Lemma allow_loop_fold mask : allow_loop 10 0 mask true [] = Ret (allow_fold listed mask true []).
Proof.
  assert (∀ fuel x ms first allowed, Method.valid x = true →
    (∀ first allowed, allow_loop fuel (Method.value x) mask first allowed = Ret (allow_fold ms mask first allowed)) →
    allow_loop (S fuel) (Method.value x - 1) mask first allowed = Ret (allow_fold (x :: ms) mask first allowed)) as step.
  { intros fuel x ms first allowed Hx IH. rewrite allow_loop_step by done. cbn [allow_fold].
    by destruct (Z.testbit _ _). }
  unfold listed. repeat match goal with
    | |- _ = Ret (allow_fold (?x :: _) _ _ _) => refine (step _ x _ _ _ eq_refl _); intros ? ?
    end. reflexivity.
Qed.

Lemma allow_fold_join ms mask first allowed :
  let names := map Method.toString (List.filter (λ m, Z.testbit mask (Method.value m)) ms) in
  allow_fold ms mask first allowed =
    allowed ++ (if first then join (lit ", ") names else concat (map (λ y, lit ", " ++ y) names)).
Proof.
  intros names. subst names. revert first allowed.
  induction ms as [|m ms IH]; intros first allowed; cbn [allow_fold List.filter].
  { by destruct first; rewrite app_nil_r. }
  destruct (Z.testbit _ _); [|apply IH]. rewrite IH. cbn [map concat]. destruct first.
  - by rewrite join_cons, <- app_assoc.
  - by rewrite <- !app_assoc.
Qed.

Lemma allow_loop_ok mask : allow_loop 10 0 mask true [] = Ret (allow_text mask).
Proof. rewrite allow_loop_fold, allow_fold_join. reflexivity. Qed.

(** Only the bits of the methods count, so every text can be computed. *)
Lemma allow_text_mod mask : allow_text (mask mod 2 ^ 10) = allow_text mask.
Proof.
  unfold allow_text. do 2 f_equal. cbn [List.filter Method.value].
  rewrite !Z.mod_pow2_bits_low by lia. reflexivity.
Qed.

Lemma allow_text_ok mask :
  MsgUtilFacts.no_newline (allow_text mask) ∧ blen (allow_text mask) ≤ 100 ∧ HeaderFacts.trim (allow_text mask) = allow_text mask.
Proof.
  set (ok := λ t, negb (ContainsNewline t) && (blen t <=? 100) && bool_decide (HeaderFacts.trim t = t)).
  assert (forallb (λ n, ok (allow_text (Z.of_nat n))) (List.seq 0 1024) = true) as Hall by (vm_compute; reflexivity).
  rewrite forallb_forall in Hall. specialize (Hall (Z.to_nat (mask mod 2 ^ 10))).
  pose proof (Z.mod_pos_bound mask (2 ^ 10) eq_refl) as Hm.
  assert (In (Z.to_nat (mask mod 2 ^ 10)) (List.seq 0 1024)) as Hin by (apply in_seq; lia).
  specialize (Hall Hin). rewrite Z2Nat.id, allow_text_mod in Hall by lia.
  apply andb_prop in Hall as [[H1%negb_true_iff H2]%andb_prop H3%bool_decide_eq_true_1].
  split_and!; [by apply ContainsNewline_false | lia | done].
Qed.

(** A reply without a body. *)
Lemma head_reply code hs :
  headers_ok hs → blen (header_text [LF] hs) ≤ 2000 →
  ∃ m : msg, compose Telling (WriteReply (HttpStatus.toInt code);; write_headers hs) = Ret (Some m)
    ∧ reads_reply m (HttpStatus.toInt code) []
    ∧ ∃ v, View.parse REPLY (msg_body m) = Ret v ∧ View.headers v = Ret (read_headers hs).
Proof.
  intros Hh Hl. destruct (standard_reason code) as (H1 & H2 & H3 & H4). pose proof (reply_line_size _ _ H1 H3).
  destruct (composed_head (msg := msg) Telling (HttpStatus.toInt code) (Status.reasonPhrase (HttpStatus.toInt code)) hs)
    as (m & v & Hm & Hp & Ht & _ & Hst & _ & Hhs & Hbody); try done.
  { change (MsgProtocol.preferred_newline Telling) with [LF]. autorewrite with blen. lia. }
  exists m. split; [done|]. by split; exists v.
Qed.

Lemma head_one (start : M exn (MsgWriter msg) unit) n v w :
  (start;; writeHeader n v) w = (start;; write_headers [(n, v)]) w.
Proof.
  unfold mbind, M_bind, mret, M_ret. cbn [write_headers fst snd]. destruct (start w) as [[[]| |] w1]; try done.
  unfold mbind, M_bind, mret, M_ret. by destruct (writeHeader _ _ w1) as [[[]| |] ?].
Qed.

Lemma head_written code n v :
  headers_ok [(n, v)] → blen n ≤ 100 → blen v ≤ 100 →
  ∃ m : msg, compose Telling (WriteReply (HttpStatus.toInt code);; writeHeader n v) = Ret (Some m)
    ∧ reads_reply m (HttpStatus.toInt code) []
    ∧ ∃ w, View.parse REPLY (msg_body m) = Ret w ∧ View.headers w = Ret [mkHeader n (HeaderFacts.trim v)].
Proof.
  intros Hh Hn Hv. destruct (head_reply code [(n, v)] Hh) as (m & Hm & H1 & H2).
  { unfold header_text. cbn [map concat fst snd]. autorewrite with blen. lia. }
  exists m. split; [|done]. rewrite <- Hm. apply compose_ext, head_one.
Qed.

Lemma allow_written code mask :
  ∃ m : msg, compose Telling (WriteReply (HttpStatus.toInt code);; writeHeader_Allow mask) = Ret (Some m)
    ∧ reads_reply m (HttpStatus.toInt code) []
    ∧ ∃ v, View.parse REPLY (msg_body m) = Ret v ∧ View.headers v = Ret [mkHeader (lit "Allow") (allow_text mask)].
Proof.
  destruct (allow_text_ok mask) as (T1 & T2 & T3).
  destruct (head_written code (lit "Allow") (allow_text mask)) as (m & Hm & H1 & H2); [|by vm_compute|done|].
  { constructor; [|constructor]. split; [|done]. by repeat constructor. }
  rewrite T3 in H2. exists m. split; [|done]. rewrite <- Hm. apply compose_ext.
  unfold writeHeader_Allow. by rewrite allow_loop_ok.
Qed.

(** The same with an NNG header. *)
Lemma reply_header_written code body data :
  blen body < 2 ^ 60 →
  ∃ m : msg, compose Telling ((WriteReply (HttpStatus.toInt code);; writeBody body);; setNNGHeader data) = Ret (Some m)
    ∧ reads_reply m (HttpStatus.toInt code) body ∧ msg_header m = data.
Proof.
  intros Hb. destruct (standard_reason code) as (H1 & H2 & H3 & H4).
  destruct (sizes _ [] body (or_introl eq_refl) (Z.le_trans _ _ 1000 (reply_line_size _ _ H1 H3) ltac:(lia)) Hb) as [Hs1 Hs2].
  pose proof (reply_parses Telling _ _ [] eq_refl H1 H2 H3 H4 (headers_fit [] (or_introl eq_refl)) Hs1) as Hparse.
  destruct (compose_header_ok (msg := msg) Telling _ _ [] body _ data (startReply_ok Telling _ _ H2)
    (headers_fit [] (or_introl eq_refl)) (Hparse UNKNOWN [] (or_introl eq_refl))) as (m & Hm & Hbody & Hhead).
  { by apply head_text_pos; left. }
  exists m. split; [|split; [|done]].
  - rewrite <- Hm. apply compose_ext, bind_ext, no_header.
  - eexists. rewrite Hbody. split; [apply parse_ret, (Hparse REPLY body); by right|].
    destruct (reply_elements Telling _ _ (MsgProtocol.preferred_newline Telling) [] body
      (blen (head_text (reply_line Telling (HttpStatus.toInt code) (Status.reasonPhrase (HttpStatus.toInt code)))
        (MsgProtocol.preferred_newline Telling) [])) eq_refl H1 H3) as (E1 & _ & E3 & _).
    split_and!; [exact E1 | exact E3 |].
    eapply reads_ok; try reflexivity; [by left | apply headers_fit; by left | done | done].
Qed.

(** A report of a standard status. *)
Lemma report_written uri code body :
  ContainsWhitespace uri = false → blen uri ≤ 800 → blen body < 2 ^ 60 →
  ∃ m : msg, compose Telling (WriteReport uri (HttpStatus.toInt code);; writeBody body) = Ret (Some m)
    ∧ reads_report m uri (HttpStatus.toInt code) body.
Proof.
  intros Hu Hlen Hb. destruct (standard_reason code) as (H1 & H2 & H3 & _).
  pose proof (report_line_size uri _ _ H1 H3) as Hl.
  destruct (sizes _ [] body (or_introl eq_refl) (Z.le_trans _ _ 1000 Hl ltac:(lia)) Hb) as [Hs1 Hs2].
  destruct (composed_report (msg := msg) Telling uri _ _ [] body REPORT eq_refl Hu H1 H2 H3
    (headers_fit [] (or_introl eq_refl)) (or_intror eq_refl) Hs1 Hs2)
    as (m & v & Hm & Hp & Ht & Huri & _ & Hst & _ & _ & Hbody).
  exists m. split; [|by exists v]. rewrite <- Hm. apply compose_ext, no_header.
Qed.

(** A request. *)
Lemma request_written uri method body :
  Method.valid method = true → ContainsWhitespace uri = false → blen uri ≤ 800 → blen body < 2 ^ 60 →
  ∃ m : msg, compose Telling (WriteRequest uri method;; writeBody body) = Ret (Some m)
    ∧ reads_request m uri method body.
Proof.
  intros Hmethod Hu Hlen Hb.
  assert (blen (request_line Telling method uri) ≤ 1000) as Hl.
  { unfold request_line. rewrite blen_app, blen_cons, blen_app, blen_cons.
    pose proof (protocol_short Telling). destruct (method_word method) as [_ ?]. lia. }
  destruct (sizes _ [] body (or_introl eq_refl) Hl Hb) as [Hs1 Hs2].
  destruct (composed_request (msg := msg) Telling method uri [] body REQUEST eq_refl Hmethod Hu
    (headers_fit [] (or_introl eq_refl)) (or_intror eq_refl) Hs1 Hs2)
    as (m & v & Hm & Hp & Ht & Hmeth & Huri & _ & _ & Hbody).
  exists m. split; [|by exists v]. rewrite <- Hm. apply compose_ext, no_header.
Qed.

End Written.
End Notices.
