(* ===== verification/Reactor.v ===== *)
(** * The reactor

    [Reactor] of [include/telling/service_reactor.h] and
    [src/telling/service_reactor.cpp]: a handler of a service that sorts the
    requests by method and turns exceptions into replies; and [SendPrompt] of
    [include/telling/async.h], through which it replies. *)
From S2P Require Import Prelude.
From S2P Require Import Nng.
From S2P Require Import MsgUtil.
From S2P Require Import Status.
From S2P Require Import MsgProtocol.
From S2P Require Import Method.
From S2P Require Import MsgHeaders.
From S2P Require Import MsgLayout.
From S2P Require Import MsgView.
From S2P Require Import MsgParse.
From S2P Require Import MsgWriter.
From S2P Require Import Notices.
From S2P Require Import Uri.

Abbreviation QueryID := Z.

(** The reactor [H] while it handles a query: its state, and the destination
    of the query's [SendPrompt]: none for a pushed message, otherwise the
    message variable, empty until something replies. *)
Record Reacting (H msg : Type) : Type := mkReacting { re_self : H; re_dest : option (option msg) }.
Arguments mkReacting {H msg} _ _.
Arguments re_self {H msg} _.
Arguments re_dest {H msg} _.

(** ** The virtual functions of a reactor

    Each gets the id of the query, and the request with its view. *)
Class Reactor (H msg : Type) : Type := {
  _uri_prefix : H → bytes;
  allowed : H → bytes → Z;   (** [Methods], as its bits *)
  async_get : QueryID → msg → MsgView → M exn (Reacting H msg) unit;
  async_head : QueryID → msg → MsgView → M exn (Reacting H msg) unit;
  async_trace : QueryID → msg → MsgView → M exn (Reacting H msg) unit;
  async_options : QueryID → msg → MsgView → M exn (Reacting H msg) unit;
  async_put : QueryID → msg → MsgView → M exn (Reacting H msg) unit;
  async_delete : QueryID → msg → MsgView → M exn (Reacting H msg) unit;
  async_patch : QueryID → msg → MsgView → M exn (Reacting H msg) unit;
  async_post : QueryID → msg → MsgView → M exn (Reacting H msg) unit;
  async_UNKNOWN : QueryID → msg → MsgView → M exn (Reacting H msg) unit;
}.

Module SendPrompt.
Section Prompt.
Context {H msg : Type}.

(** [operator()]: nothing happens without a destination. *)
Definition send (m : msg) : M exn (Reacting H msg) unit :=
  modify (λ s, mkReacting (re_self s) (match re_dest s with Some _ => Some (Some m) | None => None end)).

(** [explicit operator bool]. *)
Definition to_bool (s : Reacting H msg) : bool := bool_decide (re_dest s ≠ None).

End Prompt.
End SendPrompt.

Module ReactorOps.
Section Ops.
Context {H msg : Type} `{NngMsg msg}.
Context (nng_what : nng_error → bytes).   (** [nng::exception::what] *)

Abbreviation X := (M exn (Reacting H msg)).

(** A message composed by a writer; it exists, since the writer started one. *)
Definition written (steps : M exn (MsgWriter msg) unit) : result exn msg :=
  m ← compose Telling steps;
  match m with Some m => Ret m | None => Fault NullDeref end.

Definition reply_with (steps : M exn (MsgWriter msg) unit) : X unit :=
  m ← lift (written steps); SendPrompt.send m.

(** *** The default implementations *)

(** [NotImplemented]: [methods] is [allowed(uri)]. *)
Definition NotImplemented (methods : Z) : M exn (MsgWriter msg) unit :=
  WriteReply (HttpStatus.toInt HttpStatus.NotImplemented);; writeHeader_Allow methods.

(** The methods that a reactor does not override: [async_head], [async_put]
    and the like. *)
Definition not_implemented (allowed : H → bytes → Z) (v : MsgView) : X unit :=
  uri ← lift (View.uriString v);
  s ← get;
  reply_with (NotImplemented (allowed (re_self s) uri)).

Definition default_trace : X unit :=
  reply_with (WriteReply (HttpStatus.toInt HttpStatus.OK);; writeHeader (lit "Content-Type") (lit "http")).

Definition default_options (allowed : H → bytes → Z) (v : MsgView) : X unit :=
  uri ← lift (View.uriString v);
  s ← get;
  reply_with (WriteReply (HttpStatus.toInt HttpStatus.OK);; writeHeader_Allow (allowed (re_self s) uri)).

(** *** [_handle] *)
Context `{!Reactor H msg}.

(** The [switch]. *)
Definition dispatch (method : MethodCode) (id : QueryID) (m : msg) (v : MsgView) : X unit :=
  match method with
  | GET => async_get id m v
  | HEAD => async_head id m v
  | OPTIONS => async_options id m v
  | TRACE => async_trace id m v
  | PUT => async_put id m v
  | DELETE => async_delete id m v
  | PATCH => async_patch id m v
  | POST => async_post id m v
  | Unknown_ => async_UNKNOWN id m v
  | _ => mret tt   (* [default], [CONNECT] and [None] *)
  end.

(** The body of the [try] block. *)
Definition react (id : QueryID) (m : msg) : X unit :=
  request ← lift (View.parse REQUEST (msg_body m));
  method ← lift (View.method request);
  uri ← lift (View.uriString request);
  s ← get;
  (if negb (Uri.hasPrefix (Some uri) (_uri_prefix (re_self s)))
   then throw (StatusException (HttpStatus.toInt HttpStatus.BadGateway) (_uri_prefix (re_self s)))
   else mret tt);;
  dispatch method id m request.

(** The reply of the handlers of [nng::exception] and [std::exception]. *)
Definition error_500 (text : bytes) : M exn (MsgWriter msg) unit :=
  WriteReply (HttpStatus.toInt HttpStatus.InternalServerError);;
  writeHeader (lit "Content-Type") (lit "text/plain");;
  writeBody text.

(** The handlers: [ReplyableException] is [MsgException] and the exceptions
    with a status. *)
Definition exception_reply (prefix : bytes) (e : exn) : M exn (MsgWriter msg) unit :=
  match e with
  | MsgException error excerpt _ => msg_replyWithError error excerpt prefix
  | StatusException status message => status_replyWithError status message prefix
  | NngException error who =>
      error_500 (lit "NNG exception in `" ++ prefix ++ lit "`:" ++ [CR; LF; TAB]
                 ++ nng_what error ++ lit " -- " ++ who)
  | StdException what =>
      error_500 (lit "C++ exception in `" ++ prefix ++ lit "`:" ++ [CR; LF; TAB] ++ c_str what)
  end.

Definition _handle (id : QueryID) (m : msg) : X unit := λ s,
  match react id m s with
  | (Throw e, s') =>
      if SendPrompt.to_bool s' then reply_with (exception_reply (_uri_prefix (re_self s')) e) s'
      else (Ret tt, s')
  | o => o
  end.

(** [async_recv(Pulling, request)] and [async_recv(Replying, request)], with
    the message left for the reply. *)
Definition async_recv_Pulling (m : msg) (h : H) : result exn unit * H :=
  let '(r, s) := _handle 0 m (mkReacting h None) in (r, re_self s).
Definition async_recv_Replying (id : QueryID) (m : msg) (h : H) : result exn (option msg) * H :=
  match _handle id m (mkReacting h (Some None)) with
  | (Ret _, s) => (Ret (default None (re_dest s)), re_self s)
  | (Throw e, s) => (Throw e, re_self s)
  | (Fault f, s) => (Fault f, re_self s)
  end.

End Ops.
End ReactorOps.

(** * Theorems *)
Module ReactorFacts.
Import ReactorOps Notices.

Section Facts.
Context {H msg : Type} {Hmsg : NngMsg msg} {Hmsgl : NngMsgLaws msg} {Hre : Reactor H msg}.
Context (nng_what : nng_error → bytes).
Implicit Types (s : Reacting H msg) (m : msg).

#[local] Arguments HttpStatus.toInt : simpl never.

(** The texts that go into the replies are of a size a program can hold. *)
Hypothesis what_short : ∀ e, blen (nng_what e) < 2 ^ 57.
Definition short_exn (e : exn) : Prop :=
  match e with
  | MsgException _ excerpt _ => blen excerpt < 2 ^ 58
  | StatusException _ message => blen message < 2 ^ 58
  | NngException _ who => blen who < 2 ^ 57
  | StdException what => blen what < 2 ^ 57
  end.

(** The status of the reply to an exception; the statuses that the sources
    throw are those of the enumeration. *)
Definition status_of (e : exn) (code : HttpStatus.Code) : Prop :=
  match e with
  | MsgException error _ _ => Exceptions.msg_replyStatus error = HttpStatus.toInt code
  | StatusException status _ => status = HttpStatus.toInt code
  | _ => code = HttpStatus.InternalServerError
  end.

Lemma exception_replied prefix e code :
  blen prefix < 2 ^ 57 → short_exn e → status_of e code →
  ∃ r text, written (exception_reply nng_what prefix e) = Ret r ∧ reads_reply (msg := msg) r (HttpStatus.toInt code) text.
Proof.
  intros Hp He Hc. unfold written. destruct e as [err excerpt info|status message|err who|what];
    cbn [exception_reply short_exn status_of] in *.
  - destruct (msg_error_written (msg := msg) err excerpt prefix) as (c & m & text & Hm & Ec & Hr); [done | lia |].
    exists m, text. rewrite Hm. split; [done|]. by rewrite <- Hc, <- Ec.
  - subst status. destruct (status_error_written (msg := msg) code message prefix) as (m & text & Hm & Hr); [done | lia |].
    exists m, text. by rewrite Hm.
  - subst code. unfold error_500.
    match goal with |- context [writeBody ?b] => destruct (plain_written (msg := msg) HttpStatus.InternalServerError b)
      as (m & Hm & Hr) end.
    { rewrite !blen_app. specialize (what_short err). change (blen (lit "NNG exception in `")) with 18.
      change (blen (lit "`:")) with 2. change (blen [CR; LF; TAB]) with 3. change (blen (lit " -- ")) with 4. lia. }
    eexists m, _. rewrite Hm. split; [done | exact Hr].
  - subst code. unfold error_500.
    match goal with |- context [writeBody ?b] => destruct (plain_written (msg := msg) HttpStatus.InternalServerError b)
      as (m & Hm & Hr) end.
    { rewrite !blen_app. pose proof (c_str_short what). change (blen (lit "C++ exception in `")) with 18.
      change (blen (lit "`:")) with 2. change (blen [CR; LF; TAB]) with 3. lia. }
    eexists m, _. rewrite Hm. split; [done | exact Hr].
Qed.

(** [s'] is [s] with a reply of this status. *)
Definition answered s s' (code : HttpStatus.Code) : Prop :=
  re_self s' = re_self s ∧ ∃ r text, re_dest s' = Some (Some r) ∧ reads_reply r (HttpStatus.toInt code) text.

Lemma handle_caught id m s e s1 code :
  react id m s = (Throw e, s1) → re_dest s1 ≠ None → blen (_uri_prefix (re_self s1)) < 2 ^ 57 →
  short_exn e → status_of e code →
  ∃ s', _handle nng_what id m s = (Ret tt, s') ∧ answered s1 s' code.
Proof.
  intros E1 Hd Hp He Hc. destruct (exception_replied _ e code Hp He Hc) as (r & text & Er & Hr).
  unfold _handle. rewrite E1. unfold SendPrompt.to_bool. rewrite bool_decide_true by done.
  unfold reply_with, mbind, M_bind, lift. rewrite Er. unfold SendPrompt.send, modify.
  eexists. split; [reflexivity|]. split; [done|]. exists r, text. simpl. by destruct (re_dest s1).
Qed.

(** The request is read before anything else happens. *)
Lemma react_eq id m s v uri me :
  View.parse REQUEST (msg_body m) = Ret v → View.uriString v = Ret uri → View.method v = Ret me →
  react id m s =
    if Uri.hasPrefix (Some uri) (_uri_prefix (re_self s)) then dispatch me id m v s
    else (Throw (StatusException (HttpStatus.toInt HttpStatus.BadGateway) (_uri_prefix (re_self s))), s).
Proof.
  intros Ep Eu Em. unfold react, mbind, M_bind, lift, get. rewrite Ep, Em, Eu.
  by destruct (Uri.hasPrefix _ _).
Qed.

(** The virtual functions by the name of the method in the request.  A request
    with another name, [CONNECT] and the empty one apart, is for
    [async_UNKNOWN]. *)
Definition handlers : list (bytes * (QueryID → msg → MsgView → M exn (Reacting H msg) unit)) :=
  [(lit "GET", async_get); (lit "HEAD", async_head); (lit "OPTIONS", async_options); (lit "TRACE", async_trace);
   (lit "PUT", async_put); (lit "DELETE", async_delete); (lit "PATCH", async_patch); (lit "POST", async_post);
   (lit "CONNECT", λ _ _ _, mret tt); ([], λ _ _ _, mret tt)].
Fixpoint handler_in (hs : list (bytes * (QueryID → msg → MsgView → M exn (Reacting H msg) unit))) (name : bytes) :=
  match hs with
  | [] => async_UNKNOWN
  | (name', h) :: hs => if decide (name = name') then h else handler_in hs name
  end.
Definition handler_for (name : bytes) : QueryID → msg → MsgView → M exn (Reacting H msg) unit := handler_in handlers name.

Lemma dispatch_named name id m v s : dispatch (Method.Parse name) id m v s = handler_for name id m v s.
Proof.
  unfold handler_for, handlers. cbn [handler_in]. repeat case_decide; subst; try reflexivity.
  assert (Method.Parse name = Unknown_) as ->; [|done].
  pose proof (MethodFacts.method_toString_Parse name) as Hn.
  destruct (Method.Parse name) eqn:Ep; simpl in Hn; try done; try (by rewrite Hn in *).
  - exfalso. destruct name as [|a [|b w]]; [done | done |]. unfold Method.Parse in Ep.
    by apply MethodFacts.parse_switch_some in Ep as [Ep%(bool_decide_pack _) _].
  - exfalso. destruct name as [|a [|b w]]; [done | done |]. unfold Method.Parse in Ep.
    by apply MethodFacts.parse_switch_some in Ep as [Ep%(bool_decide_pack _) _].
Qed.

(** What a query becomes, with the name [me] of its method and its URI. *)
Definition reacted id m v me uri s : Prop :=
  if negb (Uri.hasPrefix (Some uri) (_uri_prefix (re_self s)))
  then ∃ s', _handle nng_what id m s = (Ret tt, s') ∧ answered s s' HttpStatus.BadGateway
  else match handler_for me id m v s with
       | (Throw e, s1) =>
           ∀ code, re_dest s1 ≠ None → blen (_uri_prefix (re_self s1)) < 2 ^ 57 → short_exn e → status_of e code →
             ∃ s', _handle nng_what id m s = (Ret tt, s') ∧ answered s1 s' code
       | o => _handle nng_what id m s = o
       end.

(** C30. A message that is not a request gets a reply with the status of the
    parser's error; a request for a URI outside the reactor's prefix a reply
    502; any other is given to the virtual function that the name of its method
    has in the table [handlers], [async_UNKNOWN] when it has none, whose reply
    stands, and whose exception becomes a reply with the exception's status, or
    500.  A request with [CONNECT] is given to none and gets no reply. *)
Theorem reactor_reacts id m s :
  blen (msg_body m) < 2 ^ 57 → blen (_uri_prefix (re_self s)) < 2 ^ 57 → re_dest s ≠ None →
  match View.parse REQUEST (msg_body m) with
  | Ret v => ∃ uri me, View.uriString v = Ret uri ∧ View.methodString v = Ret me ∧ reacted id m v me uri s
  | Throw e => ∃ s' code, status_of e code ∧ _handle nng_what id m s = (Ret tt, s') ∧ answered s s' code
  | Fault _ => False
  end.
Proof.
  intros Hb Hp Hd. pose proof (ParseFacts.parse_total REQUEST (msg_body m)) as Ht.
  destruct (View.parse REQUEST (msg_body m)) as [v|e|f] eqn:Ep; [| |done].
  - destruct (ParseFacts.parse_accessible REQUEST (msg_body m) v) as [_ Hacc]; [lia | done |].
    destruct (ParseFacts.acc_uri v Hacc) as [uri Eu]. destruct (ParseFacts.acc_method v Hacc) as [w Ew].
    assert (View.method v = Ret (Method.Parse w)) as Em by (unfold View.method; by rewrite Ew).
    exists uri, w. split_and!; [done | done |].
    pose proof (react_eq id m s v uri (Method.Parse w) Ep Eu Em) as E1. rewrite dispatch_named in E1. unfold reacted.
    destruct (Uri.hasPrefix _ _); simpl.
    + destruct (handler_for w id m v s) as [[[]|e|f] s1] eqn:E2; unfold _handle; rewrite E1; try done.
      intros code Hd1 Hp1 He Hc. pose proof (handle_caught id m s e s1 code E1 Hd1 Hp1 He Hc) as Hh.
      unfold _handle in Hh. by rewrite E1 in Hh.
    + by apply (handle_caught id m s _ _ HttpStatus.BadGateway E1); [| | simpl; lia |].
  - pose proof (ParseFacts.parse_excerpt REQUEST (msg_body m) e Ep) as Hx.
    destruct Ht as (err & text & -> & Herr). simpl in Hx.
    assert (∃ code, status_of (MsgException err text []) code) as [code Hc] by (destruct err; by eexists).
    assert (react id m s = (Throw (MsgException err text []), s)) as E1.
    { unfold react, mbind, M_bind, lift. by rewrite Ep. }
    destruct (handle_caught id m s _ s code E1 Hd Hp) as (s' & E2 & Ha); [simpl; lia | done |].
    by exists s', code.
Qed.

(** A pushed message never gets a reply and never throws: an exception of
    the parser or of the virtual function is dropped. *)
Theorem reactor_push_silent m (h : H) :
  (∀ me id v s, re_dest s = None → re_dest (snd (dispatch me id m v s)) = None) →
  blen (msg_body m) < 2 ^ 64 →
  match async_recv_Pulling nng_what m h with
  | (Throw _, _) => False
  | (Fault f, _) => ∃ v uri me, View.parse REQUEST (msg_body m) = Ret v ∧ View.uriString v = Ret uri
      ∧ View.method v = Ret me ∧ fst (dispatch me 0 m v (mkReacting h None)) = Fault f
  | (Ret _, _) => True
  end.
Proof.
  intros Hd Hb. unfold async_recv_Pulling, _handle. set (s := mkReacting h None).
  pose proof (ParseFacts.parse_total REQUEST (msg_body m)) as Ht.
  destruct (View.parse REQUEST (msg_body m)) as [v|e|f] eqn:Ep; [| |done].
  - destruct (ParseFacts.parse_accessible REQUEST (msg_body m) v) as [_ Hacc]; [done | done |].
    destruct (ParseFacts.acc_uri v Hacc) as [uri Eu]. destruct (ParseFacts.acc_method v Hacc) as [w Ew].
    assert (View.method v = Ret (Method.Parse w)) as Em by (unfold View.method; by rewrite Ew).
    rewrite (react_eq 0 m s v uri (Method.Parse w) Ep Eu Em).
    destruct (Uri.hasPrefix _ _); [|done].
    pose proof (Hd (Method.Parse w) 0 v s eq_refl) as Hn.
    destruct (dispatch (Method.Parse w) 0 m v s) as [[[]|e|f] s1] eqn:E2; simpl in *; [done| |].
    + unfold SendPrompt.to_bool. rewrite Hn. done.
    + exists v, uri, (Method.Parse w). by rewrite E2.
  - destruct Ht as (err & text & -> & _). unfold react, mbind, M_bind, lift. by rewrite Ep.
Qed.

(** A reply without a body whose only header tells the methods of a set. *)
Definition tells_allowed (r : msg) (code : HttpStatus.Code) (mask : Z) : Prop :=
  reads_reply r (HttpStatus.toInt code) []
  ∧ ∃ v, View.parse REPLY (msg_body r) = Ret v ∧ View.headers v = Ret [mkHeader (lit "Allow") (allow_text mask)].

Lemma reply_with_ok steps s (r : msg) :
  compose Telling steps = Ret (Some r) →
  reply_with steps s = (Ret tt, mkReacting (re_self s) (match re_dest s with Some _ => Some (Some r) | None => None end)).
Proof. intros E. unfold reply_with, mbind, M_bind, lift, written, SendPrompt.send, modify. by rewrite E. Qed.

(** What a reactor does not override replies by itself: 501 to a method,
    200 to [OPTIONS], both with an [Allow] header that lists the names of the
    methods allowed at the URI of the request, and 200 to [TRACE]. *)
Theorem reactor_defaults allowed v uri s :
  View.uriString v = Ret uri → re_dest s ≠ None →
  ∃ no opt tr : msg,
    not_implemented allowed v s = (Ret tt, mkReacting (re_self s) (Some (Some no)))
    ∧ tells_allowed no HttpStatus.NotImplemented (allowed (re_self s) uri)
    ∧ default_options allowed v s = (Ret tt, mkReacting (re_self s) (Some (Some opt)))
    ∧ tells_allowed opt HttpStatus.OK (allowed (re_self s) uri)
    ∧ default_trace s = (Ret tt, mkReacting (re_self s) (Some (Some tr)))
    ∧ reads_reply tr (HttpStatus.toInt HttpStatus.OK) [].
Proof.
  intros Hu Hd. destruct s as [h [d|]]; [|done]. simpl.
  destruct (allow_written (msg := msg) HttpStatus.NotImplemented (allowed h uri)) as (no & N1 & N2).
  destruct (allow_written (msg := msg) HttpStatus.OK (allowed h uri)) as (opt & O1 & O2).
  destruct (head_written (msg := msg) HttpStatus.OK (lit "Content-Type") (lit "http")) as (tr & T1 & T2).
  { by repeat constructor. }
  { by vm_compute. }
  { by vm_compute. }
  exists no, opt, tr. unfold not_implemented, default_options, default_trace, mbind, M_bind, lift, get. rewrite Hu. simpl.
  rewrite (reply_with_ok _ _ no N1), (reply_with_ok _ _ opt O1), (reply_with_ok _ _ tr T1).
  split_and!; try reflexivity; [exact N2 | exact O2 | exact (proj1 T2)].
Qed.

End Facts.

(** ** Witness: a reactor under ["/lamp"] that answers [GET] and throws at [PUT] *)
Definition lamp_uri : bytes := lit "/lamp".
#[export] Instance lamp : Reactor Z flat_msg := {|
  _uri_prefix := λ _, lamp_uri;
  allowed := λ _ _, 2;
  async_get := λ _ _ _, reply_with (WriteReply (HttpStatus.toInt HttpStatus.OK);; writeBody (lit "off"));
  async_head := λ _ _ v, not_implemented (λ _ _, 2) v;
  async_trace := λ _ _ _, default_trace;
  async_options := λ _ _ v, default_options (λ _ _, 2) v;
  async_put := λ _ _ _, throw (StdException (lit "broken"));
  async_delete := λ _ _ v, not_implemented (λ _ _, 2) v;
  async_patch := λ _ _ v, not_implemented (λ _ _, 2) v;
  async_post := λ _ _ v, not_implemented (λ _ _, 2) v;
  async_UNKNOWN := λ _ _ v, not_implemented (λ _ _, 2) v
|}.

Definition lamp_what (_ : nng_error) : bytes := lit "error".
Definition lamp_request (text : bytes) : flat_msg := mkFlat [] text.
Definition get_lamp : flat_msg := lamp_request (lit "GET /lamp Tell/0" ++ [LF; LF]).
Definition put_lamp : flat_msg := lamp_request (lit "PUT /lamp Tell/0" ++ [LF; LF]).
Definition lamp_query : Reacting Z flat_msg := mkReacting 0 (Some None).

Lemma lamp_what_short e : blen (lamp_what e) < 2 ^ 57.
Proof. by vm_compute. Qed.

Lemma reactor_reacts_witness :
  ∃ v uri me, View.parse REQUEST (msg_body get_lamp) = Ret v
    ∧ View.uriString v = Ret uri ∧ View.methodString v = Ret me ∧ me = lit "GET"
    ∧ reacted lamp_what 1 get_lamp v me uri lamp_query.
Proof.
  assert (blen (msg_body get_lamp) < 2 ^ 57) as Hb by (by vm_compute).
  assert (blen lamp_uri < 2 ^ 57) as Hp by (by vm_compute).
  pose proof (reactor_reacts (Hre := lamp) lamp_what lamp_what_short 1 get_lamp lamp_query Hb Hp ltac:(done)) as H.
  destruct (View.parse REQUEST (msg_body get_lamp)) as [v| |] eqn:E; [|by vm_compute in E..].
  destruct H as (uri & me & H1 & H2 & H3). exists v, uri, me. split_and!; try done.
  vm_compute in E. injection E as <-. vm_compute in H2. by injection H2 as <-.
Defined.

Lemma reactor_push_silent_witness :
  match async_recv_Pulling lamp_what put_lamp 0 with (Throw _, _) => False | _ => True end.
Proof.
  pose proof (reactor_push_silent (Hre := lamp) lamp_what put_lamp 0) as H.
  destruct (async_recv_Pulling lamp_what put_lamp 0) as [[| |] ?]; try done.
  apply H; [|by vm_compute]. intros me id v [h d] Hd. simpl in Hd. subst d.
  assert (∀ steps, re_dest (snd (reply_with (H := Z) (msg := flat_msg) steps (mkReacting h None))) = None) as Hr.
  { intros steps. unfold reply_with, mbind, M_bind, lift. by destruct (written steps). }
  destruct me; cbn [dispatch lamp async_get async_head async_trace async_options async_put async_delete async_patch
    async_post async_UNKNOWN]; try done; try apply Hr;
    unfold not_implemented, default_options, mbind, M_bind, lift, get; destruct (View.uriString v); try done; apply Hr.
Defined.

Lemma reactor_defaults_witness :
  ∃ v, View.parse REQUEST (msg_body put_lamp) = Ret v
    ∧ ∃ no, not_implemented (λ _ _, 2) v lamp_query = (Ret tt, mkReacting 0 (Some (Some no)))
      ∧ tells_allowed no HttpStatus.NotImplemented 2.
Proof.
  destruct (View.parse REQUEST (msg_body put_lamp)) as [v| |] eqn:E; [|by vm_compute in E..].
  exists v. split; [done|]. assert (View.uriString v = Ret lamp_uri) as Hu.
  { vm_compute in E. injection E as <-. by vm_compute. }
  destruct (reactor_defaults (msg := flat_msg) (λ _ _, 2) v lamp_uri lamp_query Hu) as (no & _ & _ & H1 & H2 & _); [done|].
  by exists no.
Defined.

End ReactorFacts.
