(* ===== verification/Socket.v ===== *)
(** * Sockets and communicators

    [include/telling/socket.h] and [src/telling/socket.cpp]: a [Socket] owns an
    NNG socket with its dialers and listeners, one for each URI, and counts its
    pipes; [Communicator] shares a [Socket]; [Dial], [Listen], [Disconnect] and
    [DisconnectAll] act on several communicators at once.

    What NNG answers is a parameter: [nng_open] opens a socket and registers
    the pipe callbacks, [make_connector] makes a dialer or a listener, whose id is
    not among those it is given. *)
From stdpp Require Import gmap.
From S2P Require Import Prelude.
From S2P Require Import Nng.
From S2P Require Import MsgUtil.
From S2P Require Import Pattern.
From S2P Require Import HostAddress.

(** ** [Socket] *)

Inductive VARIANT : Set := STANDARD | RAW | other_variant.

(** [nng::pipe_ev]. *)
Inductive pipe_ev : Set := add_pre | add_post | rem_post.

(** [Socket::PipeEventHandler]. *)
Class PipeEventHandler (P : Type) : Type := {
  pipeEvent : Z → pipe_ev → P → P;
}.

(** [Socket::ListenerOrDialer]: a dialer or a listener of NNG, by its id. *)
Record ListenerOrDialer : Set := mkConnector { isListener : bool; handle : Z }.

#[export] Instance ListenerOrDialer_eq_dec : EqDecision ListenerOrDialer.
Proof. solve_decision. Defined.

(** [_socket] is none when it is closed.  [k_live] is the set of dialers and
    listeners that NNG has open for the socket. *)
Record Socket (P : Type) : Type := mkSocket {
  k_role : ROLE;
  k_pattern : PATTERN;
  k_protocol : PROTOCOL;
  k_socket : option Z;
  k_pipe_count : Z;
  k_pipe_handler : option P;
  k_connectors : gmap bytes ListenerOrDialer;
  k_live : gset Z;
}.
Arguments mkSocket {P} _ _ _ _ _ _ _ _.
Arguments k_role {P} _.
Arguments k_pattern {P} _.
Arguments k_protocol {P} _.
Arguments k_socket {P} _.
Arguments k_pipe_count {P} _.
Arguments k_pipe_handler {P} _.
Arguments k_connectors {P} _.
Arguments k_live {P} _.

Module SocketOps.
Section Ops.
Context {P : Type} {Hpipe : PipeEventHandler P}.
Context (nng_open : bool → PROTOCOL → result exn Z).
Context (make_connector : bool → Z → bytes → gset Z → result exn Z).

(** Assignments to the members. *)
Definition set_connectors (c : gmap bytes ListenerOrDialer) (live : gset Z) (k : Socket P) :=
  mkSocket (k_role k) (k_pattern k) (k_protocol k) (k_socket k) (k_pipe_count k) (k_pipe_handler k) c live.
Definition set_pipes (n : Z) (h : option P) (k : Socket P) :=
  mkSocket (k_role k) (k_pattern k) (k_protocol k) (k_socket k) n h (k_connectors k) (k_live k).
Definition set_socket (s : option Z) (k : Socket P) :=
  mkSocket (k_role k) (k_pattern k) (k_protocol k) s (k_pipe_count k) (k_pipe_handler k)
    (k_connectors k) (k_live k).

(** The constructor without a pipe handler. *)
Definition open_socket (r : ROLE) (p : PATTERN) (v : VARIANT) : result exn (Socket P) :=
  let protocol := Protocol.Choose r p in
  let make s := mkSocket r p protocol (Some s) 0 None ∅ ∅ in
  match v with
  | STANDARD =>
      match protocol with
      | NO_PROTOCOL => Throw (NngException inval (lit "Socket: invalid role/pattern configuration"))
      | _ => s ← nng_open false protocol; Ret (make s)
      end
  | RAW =>
      match protocol with
      | NO_PROTOCOL => Throw (NngException inval (lit "Socket: invalid RAW role/pattern configuration"))
      | _ => s ← nng_open true protocol; Ret (make s)
      end
  | other_variant => Throw (NngException inval (lit "Socket: invalid variant"))
  end.

(** The constructor with a pipe handler. *)
Definition open_socket_with (h : option P) (r : ROLE) (p : PATTERN) (v : VARIANT) : result exn (Socket P) :=
  k ← open_socket r p v; Ret (set_pipes 0 h k).

Abbreviation K := (M exn (Socket P)).

Definition setPipeHandler (new_handler : option P) : K unit :=
  k ← get;
  match k_pipe_handler k with
  | Some _ => throw (NngException busy (lit "telling::Socket::setPipeHandler"))
  | None => modify (set_pipes (k_pipe_count k) new_handler)
  end.

(** Status. *)
Definition isOpen (k : Socket P) : bool := bool_decide (k_socket k ≠ None).
Definition isReady (k : Socket P) : bool := negb (Nat.eqb (size (k_connectors k)) 0).
Definition isConnected (k : Socket P) : bool := 0 <? k_pipe_count k.
Definition connectionCount (k : Socket P) : Z := k_pipe_count k.

(** [~ListenerOrDialer] closes the dialer or listener. *)
Definition close_connector (c : option ListenerOrDialer) (live : gset Z) : gset Z :=
  live ∖ match c with Some c => {[handle c]} | None => ∅ end.

Definition close_all (c : gmap bytes ListenerOrDialer) (live : gset Z) : gset Z :=
  live ∖ list_to_set (map (λ x, handle (snd x)) (map_to_list c)).

(** [_connectors.emplace(uri, make(_socket, uri, nonblock))]: when the URI has
    a connector already, the new one is destroyed. *)
Definition connect (listener : bool) (uri : bytes) : K unit :=
  k ← get;
  match k_socket k with
  | None => throw (NngException closed (lit "The socket is not open."))
  | Some s =>
      id ← lift (make_connector listener s uri (k_live k));
      let c := mkConnector listener id in
      match k_connectors k !! uri with
      | Some _ => modify (set_connectors (k_connectors k) (close_connector (Some c) ({[id]} ∪ k_live k)))
      | None => modify (set_connectors (<[uri:=c]> (k_connectors k)) ({[id]} ∪ k_live k))
      end
  end.

Definition dial (uri : bytes) : K unit := connect false uri.
Definition listen (uri : bytes) : K unit := connect true uri.

Definition disconnect (uri : bytes) : K unit :=
  k ← get;
  modify (set_connectors (delete uri (k_connectors k)) (close_connector (k_connectors k !! uri) (k_live k))).

Definition disconnectAll : K unit :=
  k ← get;
  modify (set_connectors ∅ (close_all (k_connectors k) (k_live k))).

Definition close : K unit :=
  k ← get;
  match k_socket k with
  | Some _ =>
      modify (set_connectors ∅ (close_all (k_connectors k) (k_live k)));;
      modify (set_socket None)
  | None => mret tt
  end.

(** [_pipeCallback]; [_pipe_count] is a [uint32_t]. *)
Definition _pipeCallback (pipe : Z) (event : pipe_ev) : K unit :=
  k ← get;
  let n := k_pipe_count k in
  let n' := match event with
            | add_post => u32 (n + 1)
            | rem_post => if n =? 0 then n else u32 (n - 1)
            | add_pre => n
            end in
  modify (set_pipes n' (k_pipe_handler k));;
  match k_pipe_handler k with
  | Some h => modify (set_pipes n' (Some (pipeEvent pipe event h)))
  | None => mret tt
  end.

(** The overloads for a [HostAddress] and a [HostAddress::Base]. *)
Section Addresses.
Context (pf : PLATFORM).

Definition at_address {A} (op : bytes → K A) (a : HostAddress) : K A :=
  uri ← lift (Host.toString pf a); op uri.

Definition at_base {A} (op : bytes → K A) (base : HostAddress) : K A :=
  k ← get; uri ← lift (Host.toString pf (Host.derived base (k_pattern k))); op uri.

End Addresses.
End Ops.
End SocketOps.

(** ** [Communicator]

    Sockets are shared by [std::shared_ptr]: they live in a store, and a
    communicator holds the key of its own, or none. *)
Record Communicator : Set := mkCommunicator {
  c_role : ROLE;
  c_pattern : PATTERN;
  c_protocol : PROTOCOL;
  c_socket : option Z;
}.

Module CommunicatorOps.
Section Ops.
Context {P : Type} {Hpipe : PipeEventHandler P}.
Context (nng_open : bool → PROTOCOL → result exn Z).
Context (make_connector : bool → Z → bytes → gset Z → result exn Z).
Context (pf : PLATFORM).

Abbreviation Store := (gmap Z (Socket P)).
Abbreviation W := (M exn Store).

(** A new socket under the key [fresh].  [_variant] is not passed on. *)
Definition new_communicator (fresh : Z) (r : ROLE) (p : PATTERN) (_variant : VARIANT) : W Communicator :=
  k ← lift (SocketOps.open_socket nng_open r p STANDARD);
  modify <[fresh:=k]>;;
  mret (mkCommunicator r p (Protocol.Choose r p) (Some fresh)).

(** On the socket of the pointer, which may be null. *)
Definition of_socket (socket : option Z) : W Communicator :=
  st ← get;
  match socket with
  | Some i =>
      match st !! i with
      | Some k => mret (mkCommunicator (k_role k) (k_pattern k) (Protocol.Choose (k_role k) (k_pattern k)) socket)
      | None => fail NullDeref
      end
  | None => mret (mkCommunicator NO_ROLE NO_PATTERN (Protocol.Choose NO_ROLE NO_PATTERN) None)
  end.

(** The socket of a communicator, as [_socket->] finds it. *)
Definition on_socket {A} (c : Communicator) (op : M exn (Socket P) A) : W A :=
  st ← get;
  match c_socket c ≫= (λ i, st !! i) with
  | Some k =>
      match c_socket c with
      | Some i => zoom (λ _, k) (λ k' st, <[i:=k']> st) op
      | None => fail NullDeref
      end
  | None => fail NullDeref
  end.

(** [if (_socket) _socket->close()]. *)
Definition close (c : Communicator) : W unit :=
  match c_socket c with Some _ => on_socket c SocketOps.close | None => mret tt end.

(** [bool(_socket) && _socket->...()]. *)
Definition ask {A} (default_value : A) (f : Socket P → A) (c : Communicator) (st : Store) : A :=
  match c_socket c ≫= (λ i, st !! i) with Some k => f k | None => default_value end.
Definition isOpen := ask false SocketOps.isOpen.
Definition isReady := ask false SocketOps.isReady.
Definition isConnected := ask false SocketOps.isConnected.
Definition connectionCount := ask 0 SocketOps.connectionCount.

Definition dial (base : HostAddress) (c : Communicator) : W unit :=
  on_socket c (SocketOps.at_base pf (SocketOps.dial make_connector) base).
Definition listen (base : HostAddress) (c : Communicator) : W unit :=
  on_socket c (SocketOps.at_base pf (SocketOps.listen make_connector) base).
Definition disconnect (base : HostAddress) (c : Communicator) : W unit :=
  on_socket c (SocketOps.at_base pf SocketOps.disconnect base).
Definition disconnectAll (c : Communicator) : W unit := on_socket c SocketOps.disconnectAll.

(** *** Several communicators

    [ARGS_CALL_PTR] makes the call on each pointer that is not null, as the
    arguments of a function, so in an order the language does not specify:
    the list is the arguments in the order of their evaluation. *)
Fixpoint args_call (call : Communicator → W unit) (args : list (option Communicator)) : W unit :=
  match args with
  | [] => mret tt
  | None :: args => args_call call args
  | Some c :: args => call c;; args_call call args
  end.

(** [try {...} catch (nng::exception error) {...; throw;}]. *)
Definition catch_nng {S} (m cleanup : M exn S unit) : M exn S unit := λ st,
  match m st with
  | (Throw (NngException e who), st') =>
      match cleanup st' with
      | (Ret _, st'') => (Throw (NngException e who), st'')
      | o => o
      end
  | o => o
  end.

Definition Close (args : list (option Communicator)) : W unit := args_call close args.
Definition DisconnectAll (args : list (option Communicator)) : W unit := args_call disconnectAll args.
Definition Disconnect (base : HostAddress) (args : list (option Communicator)) : W unit :=
  args_call (disconnect base) args.
Definition Dial (base : HostAddress) (args args' : list (option Communicator)) : W unit :=
  catch_nng (args_call (dial base) args) (args_call (disconnect base) args').
Definition Listen (base : HostAddress) (args args' : list (option Communicator)) : W unit :=
  catch_nng (args_call (listen base) args) (args_call (disconnect base) args').

End Ops.
End CommunicatorOps.
