(* ===== verification/SocketFacts.v ===== *)
(** * Sockets: connectors, pipes, and dialling several sockets at once *)
From stdpp Require Import gmap.
From S2P Require Import Prelude.
From S2P Require Import Nng.
From S2P Require Import MsgUtil.
From S2P Require Import Pattern.
From S2P Require Import HostAddress.
From S2P Require Import Socket.

Module SocketFacts.
Import SocketOps.

Section Socket_.
Context {P : Type} {Hpipe : PipeEventHandler P}.
Context (make_connector : bool → Z → bytes → gset Z → result exn Z).

(** What NNG documents of the ids of dialers and listeners. *)
Hypothesis connector_fresh : ∀ l s uri live id, make_connector l s uri live = Ret id → id ∉ live.

Implicit Types (k : Socket P) (uri : bytes).

(** Every connector of NNG is in the table under one URI, and every entry of
    the table is a connector that is open; a closed socket has none. *)
Record Inv k : Prop := {
  inv_entry uri c : k_connectors k !! uri = Some c → handle c ∈ k_live k;
  inv_live id : id ∈ k_live k → ∃ uri c, k_connectors k !! uri = Some c ∧ handle c = id;
  inv_one uri uri' c c' : k_connectors k !! uri = Some c → k_connectors k !! uri' = Some c' →
    handle c = handle c' → uri = uri';
  inv_closed : k_socket k = None → k_connectors k = ∅;
}.

(** The operations of a socket. *)
Inductive op : Type :=
| ODial (uri : bytes) | OListen (uri : bytes) | ODisconnect (uri : bytes) | ODisconnectAll | OClose
| OHandler (h : option P) | OPipe (pipe : Z) (e : pipe_ev).

Definition perform (o : op) : M exn (Socket P) unit :=
  match o with
  | ODial uri => dial make_connector uri
  | OListen uri => listen make_connector uri
  | ODisconnect uri => disconnect uri
  | ODisconnectAll => disconnectAll
  | OClose => close
  | OHandler h => setPipeHandler h
  | OPipe pipe e => _pipeCallback pipe e
  end.

Lemma socket_Inv_same k k' :
  Inv k → k_connectors k' = k_connectors k → k_live k' = k_live k → k_socket k' = k_socket k → Inv k'.
Proof. intros [H1 H2 H3 H4] E1 E2 E3. split; rewrite ?E1, ?E2, ?E3; auto. Qed.

Lemma close_all_empty k : Inv k → close_all (k_connectors k) (k_live k) = ∅.
Proof.
  intros HI. apply set_eq. intros id. unfold close_all. rewrite elem_of_difference, elem_of_empty.
  split; [|done]. intros [H1 H2]. destruct (inv_live k HI id H1) as (uri & c & E & <-). apply H2.
  apply elem_of_list_to_set, list_elem_of_fmap. exists (uri, c). split; [done|].
  by apply elem_of_map_to_list.
Qed.

Lemma Inv_empty k s : Inv k → Inv (set_socket s (set_connectors ∅ (close_all (k_connectors k) (k_live k)) k)).
Proof. intros HI. rewrite close_all_empty by done. by split. Qed.

Lemma Inv_close k : Inv k → Inv (set_connectors ∅ (close_all (k_connectors k) (k_live k)) k).
Proof. intros HI. rewrite close_all_empty by done. by split. Qed.

Lemma live_restore (id : Z) (live : gset Z) : id ∉ live → ({[id]} ∪ live) ∖ {[id]} = live.
Proof.
  intros Hid. apply set_eq. intros i. rewrite elem_of_difference, elem_of_union, elem_of_singleton.
  split; [tauto | intros H; split; [by right|by intros ->]].
Qed.

(** [connect]: the three outcomes. *)
Lemma connect_cases l uri k :
  Inv k →
  match connect make_connector l uri k with
  | (Ret _, k') =>
      is_Some (k_socket k) ∧
      ((is_Some (k_connectors k !! uri) ∧ k' = k) ∨
       (k_connectors k !! uri = None ∧ ∃ id, (id ∉ k_live k) ∧
          k' = set_connectors (<[uri:=mkConnector l id]> (k_connectors k)) ({[id]} ∪ k_live k) k))
  | (Throw e, k') => k' = k
  | (Fault f, k') => ∃ s, make_connector l s uri (k_live k) = Fault f
  end.
Proof.
  intros HI. unfold connect, mbind, M_bind, get, throw, lift, modify.
  destruct (k_socket k) as [s|] eqn:Es; [|done].
  destruct (make_connector l s uri (k_live k)) as [id|e|f] eqn:Em; [|done|by exists s].
  apply connector_fresh in Em. destruct (k_connectors k !! uri) as [c|] eqn:Ec; simpl.
  - split; [by eexists|]. left. split; [by eexists|].
    unfold close_connector. simpl. rewrite live_restore by done. by destruct k.
  - split; [by eexists|]. right. split; [done|]. by exists id.
Qed.

Lemma Inv_insert l uri id k :
  Inv k → is_Some (k_socket k) → k_connectors k !! uri = None → id ∉ k_live k →
  Inv (set_connectors (<[uri:=mkConnector l id]> (k_connectors k)) ({[id]} ∪ k_live k) k).
Proof.
  intros [H1 H2 H3 H4] [s Hs] Hn Hid. split; simpl.
  - intros u c. rewrite lookup_insert_Some, elem_of_union, elem_of_singleton.
    intros [[<- <-]|[_ E]]; [by left | right; by eapply H1].
  - intros i. rewrite elem_of_union, elem_of_singleton. intros [->|Hi].
    + exists uri, (mkConnector l id). by rewrite lookup_insert_eq.
    + destruct (H2 i Hi) as (u & c & E & <-). exists u, c. split; [|done].
      rewrite lookup_insert_ne; [done|]. intros <-. congruence.
  - intros u u' c c'. rewrite !lookup_insert_Some. intros [[<- <-]|[_ E]] [[<- <-]|[_ E']] Eh; simpl in *; try done.
    + destruct Hid. rewrite Eh. by eapply H1.
    + destruct Hid. rewrite <- Eh. by eapply H1.
    + by eapply H3.
  - by rewrite Hs.
Qed.

Lemma Inv_disconnect uri k :
  Inv k → Inv (set_connectors (delete uri (k_connectors k)) (close_connector (k_connectors k !! uri) (k_live k)) k).
Proof.
  intros [H1 H2 H3 H4]. split; simpl.
  - intros u c. rewrite lookup_delete_Some. intros [Hne E]. unfold close_connector.
    rewrite elem_of_difference. split; [by eapply H1|].
    destruct (k_connectors k !! uri) as [d|] eqn:Ed; [|apply not_elem_of_empty].
    rewrite elem_of_singleton. intros Eh. apply Hne. symmetry. by eapply H3.
  - intros id. unfold close_connector. rewrite elem_of_difference. intros [Hi Hn].
    destruct (H2 id Hi) as (u & c & E & <-). exists u, c. split; [|done].
    rewrite lookup_delete_ne; [done|]. intros <-. apply Hn. rewrite E. by apply elem_of_singleton.
  - intros u u' c c'. rewrite !lookup_delete_Some. intros [_ E] [_ E']. by eapply H3.
  - intros Hs. rewrite (H4 Hs). apply delete_empty.
Qed.

Lemma perform_Inv o k : Inv k → Inv (snd (perform o k)).
Proof.
  intros HI. destruct o as [uri|uri|uri| | |h|pipe e]; simpl.
  - pose proof (connect_cases false uri k HI) as E. unfold dial.
    destruct (connect make_connector false uri k) as [[[]|e|f] k'] eqn:Ec; simpl.
    + destruct E as [Hs [[_ ->]|(Hn & id & Hid & ->)]]; [done|]. by apply Inv_insert.
    + by rewrite E.
    + revert Ec. unfold connect, mbind, M_bind, get, throw, lift, modify.
      destruct (k_socket k) as [s|]; [|done].
      destruct (make_connector _ _ _ _); [by destruct (_ !! _)|done|by intros [= _ <-]].
  - pose proof (connect_cases true uri k HI) as E. unfold listen.
    destruct (connect make_connector true uri k) as [[[]|e|f] k'] eqn:Ec; simpl.
    + destruct E as [Hs [[_ ->]|(Hn & id & Hid & ->)]]; [done|]. by apply Inv_insert.
    + by rewrite E.
    + revert Ec. unfold connect, mbind, M_bind, get, throw, lift, modify.
      destruct (k_socket k) as [s|]; [|done].
      destruct (make_connector _ _ _ _); [by destruct (_ !! _)|done|by intros [= _ <-]].
  - by apply Inv_disconnect.
  - by apply Inv_close.
  - unfold close, mbind, M_bind, get, modify, mret, M_ret. destruct (k_socket k); simpl; [|done].
    by apply Inv_empty.
  - unfold setPipeHandler, mbind, M_bind, get, modify, throw. destruct (k_pipe_handler k); simpl; [done|].
    by eapply socket_Inv_same.
  - unfold _pipeCallback, mbind, M_bind, get, modify, throw, mret, M_ret.
    destruct (k_pipe_handler k); simpl; by eapply socket_Inv_same.
Qed.

(** The states of a socket that was opened. *)
Inductive reachable : Socket P → Prop :=
| reach_open r p v nng_open h k : open_socket_with nng_open h r p v = Ret k → reachable k
| reach_perform o k r k' : reachable k → perform o k = (Ret r, k') → reachable k'
| reach_throw o k e k' : reachable k → perform o k = (Throw e, k') → reachable k'.

Lemma open_socket_with_Inv r p v nng_open h k : open_socket_with nng_open h r p v = Ret k → Inv k.
Proof.
  unfold open_socket_with, open_socket, mbind, result_bind. intros E.
  assert (k_connectors k = ∅ ∧ k_live k = ∅ ∧ k_socket k ≠ None) as (E1 & E2 & E3).
  { destruct v; [| |done]; destruct (Protocol.Choose r p); try done;
      destruct (nng_open _ _); try done; by injection E as <-. }
  split; rewrite ?E1, ?E2; try done.
Qed.

Lemma socket_reachable_Inv k : reachable k → Inv k.
Proof.
  induction 1 as [r p v nng_open h k E|o k r k' _ IH E|o k e k' _ IH E].
  - by eapply open_socket_with_Inv.
  - apply (perform_Inv o) in IH. by rewrite E in IH.
  - apply (perform_Inv o) in IH. by rewrite E in IH.
Qed.

(** C37. The dialers and listeners that NNG has open for a socket are those of its
    table, one for each URI; a socket that is not open has none, so it is not
    ready; closing a socket closes them all. *)
Theorem socket_connectors k :
  reachable k →
  (∀ id, id ∈ k_live k ↔ ∃ uri c, k_connectors k !! uri = Some c ∧ handle c = id)
  ∧ (isOpen k = false → isReady k = false)
  ∧ (∃ k', close k = (Ret tt, k') ∧ isOpen k' = false ∧ k_live k' = ∅).
Proof.
  intros HI%socket_reachable_Inv. split_and!.
  - intros id. split; [apply HI|]. intros (uri & c & E & <-). by eapply inv_entry.
  - unfold isOpen, isReady. case_bool_decide as Hs; [done|]. intros _.
    rewrite (inv_closed k HI); [done|]. by destruct (k_socket k); [destruct Hs|].
  - unfold close, mbind, M_bind, get, modify, mret, M_ret. destruct (k_socket k) as [s|] eqn:Es; simpl.
    + eexists. split; [done|]. split; [done|]. by apply close_all_empty.
    + exists k. split; [done|]. unfold isOpen. rewrite Es. split; [done|].
      apply set_eq. intros id. rewrite elem_of_empty. split; [|done]. intros Hid.
      destruct (inv_live k HI id Hid) as (uri & c & E & _). by rewrite (inv_closed k HI Es) in E.
Qed.

(** Dialling or listening at a URI that has a connector changes nothing;
    otherwise the URI gets one, and the other URIs keep theirs.  After an
    exception the socket is as it was.  [disconnect] removes the connector,
    whichever it was, and is the inverse of a connection to a new URI. *)
Theorem socket_connect l uri k k' :
  reachable k → connect make_connector l uri k = (Ret tt, k') →
  is_Some (k_connectors k' !! uri)
  ∧ (∀ u, u ≠ uri → k_connectors k' !! u = k_connectors k !! u)
  ∧ (is_Some (k_connectors k !! uri) → k' = k)
  ∧ (k_connectors k !! uri = None → disconnect uri k' = (Ret tt, k)).
Proof.
  intros HI%socket_reachable_Inv Ec. pose proof (connect_cases l uri k HI) as E. rewrite Ec in E.
  destruct E as [_ [[Hs ->]|(Hn & id & Hid & ->)]]; simpl.
  - split_and!; try done. intros Hn. rewrite Hn in Hs. by destruct Hs.
  - split_and!.
    + by rewrite lookup_insert_eq.
    + intros u Hu. by rewrite lookup_insert_ne.
    + intros [c Hc]. congruence.
    + intros _. unfold disconnect, mbind, M_bind, get, modify. simpl. rewrite lookup_insert_eq. simpl.
      rewrite delete_insert_id by done. unfold set_connectors. simpl.
      unfold close_connector; simpl; rewrite live_restore by done. by destruct k.
Qed.

(** ** Pipes *)

(** A history of pipes: each is added once before it is removed. *)
Fixpoint connected (es : list (Z * pipe_ev)) (now : gset Z) : option (gset Z) :=
  match es with
  | [] => Some now
  | (pipe, add_pre) :: es => connected es now
  | (pipe, add_post) :: es =>
      if bool_decide (pipe ∈ now) then None else connected es ({[pipe]} ∪ now)
  | (pipe, rem_post) :: es =>
      if bool_decide (pipe ∈ now) then connected es (now ∖ {[pipe]}) else None
  end.

Lemma connected_size es cur now : connected es cur = Some now → (size now ≤ size cur + length es)%nat.
Proof.
  revert cur. induction es as [|[pipe e] es IH]; intros cur; simpl; [intros [= <-]; lia|].
  destruct e; [intros Hc%IH; lia | |]; case_bool_decide as Hin; try done; intros Hc%IH.
  - rewrite size_union, size_singleton in Hc by (apply disjoint_singleton_l; done). lia.
  - assert (size (cur ∖ ({[pipe]} : gset Z)) ≤ size cur)%nat; [|lia].
    apply subseteq_size. intros x [? _]%elem_of_difference. done.
Qed.

Definition pipes (es : list (Z * pipe_ev)) (k : Socket P) : Socket P :=
  fold_left (λ k pe, snd (_pipeCallback (fst pe) (snd pe) k)) es k.

Lemma pipeCallback_count pipe e k :
  k_pipe_count (snd (_pipeCallback pipe e k)) =
    match e with
    | add_post => u32 (k_pipe_count k + 1)
    | rem_post => if k_pipe_count k =? 0 then k_pipe_count k else u32 (k_pipe_count k - 1)
    | add_pre => k_pipe_count k
    end.
Proof.
  unfold _pipeCallback, mbind, M_bind, get, modify, mret, M_ret.
  by destruct (k_pipe_handler k).
Qed.

(** The count of a socket is the number of its connected pipes, as long as
    that number has fit in 32 bits. *)
Theorem pipe_count es now k :
  (∀ n es', es' `prefix_of` es → connected es' ∅ = Some n → Z.of_nat (size n) < 2 ^ 32) →
  connected es ∅ = Some now → k_pipe_count k = 0 →
  connectionCount (pipes es k) = Z.of_nat (size now) ∧ isConnected (pipes es k) = negb (bool_decide (now = ∅)).
Proof.
  intros Hsz Hc Hk.
  assert (∀ cur k, (∀ n es', es' `prefix_of` es → connected es' cur = Some n → Z.of_nat (size n) < 2 ^ 32) →
    connected es cur = Some now → k_pipe_count k = Z.of_nat (size cur) →
    k_pipe_count (pipes es k) = Z.of_nat (size now)) as E.
  { clear. induction es as [|[pipe e] es IH]; intros cur k Hsz Hc Hk; simpl in *; [congruence|].
    pose proof (pipeCallback_count pipe e k) as Ek.
    assert (Z.of_nat (size cur) < 2 ^ 32) as Hcur by (apply (Hsz cur []); [apply prefix_nil | done]).
    assert (∀ cur' n es', es' `prefix_of` es → connected es' cur' = Some n →
      connected ((pipe, e) :: es') cur = connected es' cur' → Z.of_nat (size n) < 2 ^ 32) as Hnext.
    { intros cur' n es' Hp Hn Hc'. apply (Hsz n ((pipe, e) :: es')); [by apply prefix_cons | by rewrite Hc']. }
    destruct e; simpl in Hnext.
    - apply (IH cur); [intros n es' ? ?; by eapply (Hnext cur) | done | by rewrite Ek].
    - case_bool_decide as Hin; [done|]. apply (IH ({[pipe]} ∪ cur)); [intros n es' ? ?; by eapply Hnext|done|].
      rewrite Ek, Hk, size_union, size_singleton by (apply disjoint_singleton_l; done).
      assert (Z.of_nat (size (({[pipe]} : gset Z) ∪ cur)) < 2 ^ 32) as Hs.
      { apply (Hnext ({[pipe]} ∪ cur) _ []); [apply prefix_nil | done | done]. }
      rewrite size_union, size_singleton in Hs by (apply disjoint_singleton_l; done).
      rewrite u32_small; lia.
    - case_bool_decide as Hin; [|done]. apply (IH (cur ∖ {[pipe]})); [intros n es' ? ?; by eapply Hnext|done|].
      assert (size cur = S (size (cur ∖ ({[pipe]} : gset Z)))) as Es.
      { rewrite (union_difference_singleton_L pipe cur Hin) at 1.
        rewrite size_union, size_singleton; [done|]. apply disjoint_difference_r1. done. }
      rewrite Ek, Hk. destruct (Z.eqb_spec (Z.of_nat (size cur)) 0); [lia|].
      rewrite u32_small; lia. }
  specialize (E ∅ k Hsz Hc). rewrite Hk, size_empty in E. specialize (E eq_refl).
  unfold connectionCount, isConnected. rewrite E. split; [done|].
  case_bool_decide as Hn; simpl.
  - by rewrite Hn, size_empty.
  - apply Z.ltb_lt. assert (size now ≠ 0%nat); [|lia]. intros Hz. apply Hn. by apply size_empty_inv in Hz; apply leibniz_equiv.
Qed.

End Socket_.

(** ** [Dial] and [Listen] *)

Section Dialling.
Context {P : Type} {Hpipe : PipeEventHandler P}.
Context (make_connector : bool → Z → bytes → gset Z → result exn Z).
Context (pf : PLATFORM).

(** Connecting gives an id or an [nng::exception]. *)
Hypothesis connector_throws : ∀ l s uri live,
  match make_connector l s uri live with Ret _ => True | Throw (NngException _ _) => True | _ => False end.

Implicit Types (st : gmap Z (Socket P)) (c : Communicator) (base : HostAddress).

(** What a communicator's socket has at the URI that [base] gives it. *)
Definition at_uri base c st : option ListenerOrDialer :=
  k ← (c_socket c ≫= (λ i, st !! i));
  match Host.toString (E := exn) pf (Host.derived base (k_pattern k)) with
  | Ret uri => k_connectors k !! uri
  | _ => None
  end.

Definition valid st (a : option Communicator) : Prop :=
  match a with Some c => is_Some (c_socket c ≫= (λ i, st !! i)) | None => True end.

(** The sockets of [args] and the URIs that [base] gives them. *)
Definition target base (args : list (option Communicator)) (i : Z) (p : PATTERN) (u : bytes) : Prop :=
  (∃ c, Some c ∈ args ∧ c_socket c = Some i) ∧ Host.toString (E := exn) pf (Host.derived base p) = Ret u.

(** One store follows another by changes at the targets [T]; [Q] relates what
    was at a URI and what is. *)
Definition follows (Q : option ListenerOrDialer → option ListenerOrDialer → Prop)
    (T : Z → PATTERN → bytes → Prop) st st' : Prop :=
  ∀ i k, st !! i = Some k → ∃ k', st' !! i = Some k' ∧ k_pattern k' = k_pattern k ∧
    (∀ u, Q (k_connectors k !! u) (k_connectors k' !! u)) ∧
    (∀ u, ¬ T i (k_pattern k) u → k_connectors k' !! u = k_connectors k !! u).

Definition kept (a b : option ListenerOrDialer) : Prop := is_Some a → is_Some b.
Definition gone (a b : option ListenerOrDialer) : Prop := a = None → b = None.
Definition any (a b : option ListenerOrDialer) : Prop := True.

#[export] Instance kept_preorder : PreOrder kept.
Proof. split; unfold kept; intros ?; auto. Qed.
#[export] Instance gone_preorder : PreOrder gone.
Proof. split; unfold gone; intros ?; auto. Qed.
#[export] Instance any_preorder : PreOrder any.
Proof. by split. Qed.

Lemma follows_refl Q T st `{!PreOrder Q} : follows Q T st st.
Proof. intros i k E. exists k. by split_and!. Qed.

Lemma follows_trans Q T st1 st2 st3 `{!PreOrder Q} :
  follows Q T st1 st2 → follows Q T st2 st3 → follows Q T st1 st3.
Proof.
  intros H1 H2 i k E. destruct (H1 i k E) as (k2 & E2 & P2 & Q2 & O2).
  destruct (H2 i k2 E2) as (k3 & E3 & P3 & Q3 & O3). exists k3. split_and!; [done|congruence| |].
  - intros u. etrans; [apply Q2 | apply Q3].
  - intros u Hu. rewrite O3 by (by rewrite P2). by apply O2.
Qed.

Lemma follows_weaken (Q Q' : option ListenerOrDialer → option ListenerOrDialer → Prop) T st st' :
  (∀ a b, Q a b → Q' a b) → follows Q T st st' → follows Q' T st st'.
Proof.
  intros HQ H1 i k E. destruct (H1 i k E) as (k2 & E2 & P2 & Q2 & O2). exists k2. split_and!; auto.
Qed.

Lemma follows_valid Q T st st' a : follows Q T st st' → valid st a → valid st' a.
Proof.
  intros H1. destruct a as [c|]; [|done]. unfold valid. destruct (c_socket c) as [i|]; simpl; [|done].
  intros [k E]. destruct (H1 i k E) as (k2 & E2 & _). by exists k2.
Qed.

Lemma follows_at_uri Q T base c st st' :
  follows Q T st st' → valid st (Some c) → (∀ a, Q a a) → Q (at_uri base c st) (at_uri base c st').
Proof.
  intros H1. unfold valid, at_uri. destruct (c_socket c) as [i|]; simpl; [|intros []; done].
  intros [k E] Hq. destruct (H1 i k E) as (k2 & E2 & P2 & Q2 & _). rewrite E, E2. simpl. rewrite P2.
  destruct (Host.toString _ _); auto.
Qed.

(** A call on one communicator. *)
Lemma call_at_base (op : bytes → M exn (Socket P) unit) base c st :
  valid st (Some c) →
  ∃ i k uri, c_socket c = Some i ∧ st !! i = Some k
    ∧ Host.toString (E := exn) pf (Host.derived base (k_pattern k)) = Ret uri
    ∧ CommunicatorOps.on_socket c (at_base pf op base) st
      = (fst (op uri k), <[i := snd (op uri k)]> st).
Proof.
  unfold valid. destruct (c_socket c) as [i|] eqn:Ec; simpl; [|intros []; done].
  intros [k Ek]. destruct (HostFacts.derived_uri (E := exn) pf base (k_pattern k)) as [uri Hu]. exists i, k, uri. split_and!; [done..|].
  unfold CommunicatorOps.on_socket, zoom, at_base, mbind, M_bind, get, lift. rewrite Ec. simpl. rewrite Ek, Hu.
  by destruct (op uri k).
Qed.

Lemma follows_insert Q T st i k k' uri `{!PreOrder Q} :
  st !! i = Some k → k_pattern k' = k_pattern k → T i (k_pattern k) uri →
  (∀ u, u ≠ uri → k_connectors k' !! u = k_connectors k !! u) →
  Q (k_connectors k !! uri) (k_connectors k' !! uri) → follows Q T st (<[i:=k']> st).
Proof.
  intros E Hp HT Hu Hq j k0 E0. destruct (decide (i = j)) as [<-|Hne].
  - rewrite E in E0. injection E0 as <-. exists k'. rewrite lookup_insert_eq. split_and!; [done|done| |].
    + intros u. destruct (decide (u = uri)) as [->|Hn]; [done|]. by rewrite Hu.
    + intros u Hn. apply Hu. by intros ->.
  - exists k0. rewrite lookup_insert_ne by done. by split_and!.
Qed.

Lemma call_connect l base c st T :
  valid st (Some c) → (∀ i k u, c_socket c = Some i → Host.toString (E := exn) pf (Host.derived base k) = Ret u → T i k u) →
  match CommunicatorOps.on_socket c (at_base pf (connect make_connector l) base) st with
  | (Ret _, st') => follows kept T st st' ∧ is_Some (at_uri base c st')
  | (Throw e, st') => st' = st ∧ ∃ x who, e = NngException x who
  | (Fault _, _) => False
  end.
Proof.
  intros Hv HT. destruct (call_at_base (connect make_connector l) base c st Hv) as (i & k & uri & Ec & Ek & Hu & ->).
  unfold connect, mbind, M_bind, get, throw, lift, modify.
  destruct (k_socket k) as [s|] eqn:Es; simpl.
  2: { rewrite insert_id by done. split; [done|]. by eexists _, _. }
  pose proof (connector_throws l s uri (k_live k)) as Ht.
  destruct (make_connector l s uri (k_live k)) as [id|e|f]; simpl; [| |done].
  2: { rewrite insert_id by done. split; [done|]. destruct e; try done. by eexists _, _. }
  destruct (k_connectors k !! uri) as [d|] eqn:Ed; simpl.
  - split.
    + eapply follows_insert; [apply _ | exact Ek | done | by eapply HT | done |]. simpl. by rewrite Ed.
    + unfold at_uri. rewrite Ec. simpl. rewrite lookup_insert_eq. simpl. rewrite Hu. by exists d.
  - split.
    + eapply (follows_insert _ _ _ _ _ _ uri); [exact Ek | done | by eapply HT | |].
      * intros u Hn. simpl. by rewrite lookup_insert_ne.
      * intros _. simpl. by rewrite lookup_insert_eq.
    + unfold at_uri. rewrite Ec. simpl. rewrite lookup_insert_eq. simpl. rewrite Hu, lookup_insert_eq. by eexists.
Qed.

Lemma call_disconnect base c st T :
  valid st (Some c) → (∀ i k u, c_socket c = Some i → Host.toString (E := exn) pf (Host.derived base k) = Ret u → T i k u) →
  ∃ st', CommunicatorOps.disconnect pf base c st = (Ret tt, st')
    ∧ follows gone T st st' ∧ at_uri base c st' = None.
Proof.
  intros Hv HT. destruct (call_at_base disconnect base c st Hv) as (i & k & uri & Ec & Ek & Hu & E).
  unfold CommunicatorOps.disconnect. rewrite E. eexists. split; [done|]. simpl. split.
  - eapply (follows_insert _ _ _ _ _ _ uri); [exact Ek | done | by eapply HT | |].
    + intros u Hn. simpl. by rewrite lookup_delete_ne.
    + intros _. simpl. by rewrite lookup_delete_eq.
  - unfold at_uri. rewrite Ec. simpl. rewrite lookup_insert_eq. simpl. by rewrite Hu, lookup_delete_eq.
Qed.

(** The calls on all the arguments. *)
Lemma args_connect l base args st T :
  (∀ a, a ∈ args → valid st a) →
  (∀ c i k u, Some c ∈ args → c_socket c = Some i → Host.toString (E := exn) pf (Host.derived base k) = Ret u → T i k u) →
  match CommunicatorOps.args_call (λ c, CommunicatorOps.on_socket c (at_base pf (connect make_connector l) base)) args st with
  | (Ret _, st') => follows kept T st st' ∧ ∀ c, Some c ∈ args → is_Some (at_uri base c st')
  | (Throw e, st') => follows kept T st st' ∧ ∃ x who, e = NngException x who
  | (Fault _, _) => False
  end.
Proof.
  revert st. induction args as [|[c|] args IH]; intros st Hv HT; simpl.
  - split; [apply follows_refl, _|]. intros c Hc. by apply elem_of_nil in Hc.
  - pose proof (call_connect l base c st T (Hv _ (list_elem_of_here _ _))
      (λ i k u, HT c i k u (list_elem_of_here _ _))) as E.
    unfold mbind, M_bind. destruct (CommunicatorOps.on_socket c _ st) as [[[]|e|f] st1]; [| |done].
    2: { destruct E as [-> E]. split; [apply follows_refl, _ | done]. }
    destruct E as [F1 C1].
    assert (∀ a, a ∈ args → valid st1 a) as Hv1.
    { intros a Ha. eapply follows_valid; [done|]. apply Hv. by right. }
    specialize (IH st1 Hv1 (λ c i k u Hc, HT c i k u (list_elem_of_further _ _ _ Hc))).
    destruct (CommunicatorOps.args_call _ args st1) as [[[]|e|f] st2]; [| |done].
    + destruct IH as [F2 C2]. split; [by eapply follows_trans; [apply _| |]|].
      intros c' [[= ->]|Hc]%elem_of_cons; [|by apply C2].
      eapply follows_at_uri in F2; [apply F2, C1 | | by intros ??].
      eapply follows_valid; [exact F1 |]. apply Hv. by left.
    + destruct IH as [F2 E]. split; [by eapply follows_trans; [apply _| |]|done].
  - assert (∀ a, a ∈ args → valid st a) as Hv1 by (intros a Ha; apply Hv; by right).
    specialize (IH st Hv1 (λ c i k u Hc, HT c i k u (list_elem_of_further _ _ _ Hc))).
    destruct (CommunicatorOps.args_call _ args st) as [[[]|e|f] st2]; [|done..].
    destruct IH as [F2 C2]. split; [done|]. intros c' [[=]|Hc]%elem_of_cons. by apply C2.
Qed.

Lemma args_disconnect base args st T :
  (∀ a, a ∈ args → valid st a) →
  (∀ c i k u, Some c ∈ args → c_socket c = Some i → Host.toString (E := exn) pf (Host.derived base k) = Ret u → T i k u) →
  ∃ st', CommunicatorOps.args_call (CommunicatorOps.disconnect pf base) args st = (Ret tt, st')
    ∧ follows gone T st st' ∧ ∀ c, Some c ∈ args → at_uri base c st' = None.
Proof.
  revert st. induction args as [|[c|] args IH]; intros st Hv HT; simpl.
  - exists st. split; [done|]. split; [apply follows_refl, _|]. intros c Hc. by apply elem_of_nil in Hc.
  - destruct (call_disconnect base c st T (Hv _ (list_elem_of_here _ _))
      (λ i k u, HT c i k u (list_elem_of_here _ _))) as (st1 & E & F1 & C1).
    destruct (IH st1) as (st2 & E2 & F2 & C2).
    { intros a Ha. eapply follows_valid; [done|]. apply Hv. by right. }
    { intros c' i k u Hc. eapply HT. by right. }
    exists st2. unfold mbind, M_bind. rewrite E, E2. split; [done|].
    split; [by eapply follows_trans; [apply _| |]|].
    intros c' [[= ->]|Hc]%elem_of_cons; [|by apply C2].
    eapply follows_at_uri in F2; [apply F2, C1 | | by intros ??].
    eapply follows_valid; [exact F1 |]. apply Hv. by left.
  - destruct (IH st) as (st2 & E2 & F2 & C2).
    { intros a Ha. apply Hv. by right. }
    { intros c' i k u Hc. eapply HT. by right. }
    exists st2. split; [done|]. split; [done|]. intros c' [[=]|Hc]%elem_of_cons. by apply C2.
Qed.

(** C35. [Dial] and [Listen] connect all of their arguments or leave none of them
    connected at the address, in whatever order the arguments are evaluated,
    the first time ([args]) and in the handler ([args']), and also when
    arguments share a socket.  No other connector is touched.  A connector
    that was at the address before the call goes too. *)
Theorem dial_all_or_nothing (l : bool) base args args' st :
  (∀ a, a ∈ args → valid st a) → (∀ a, a ∈ args ↔ a ∈ args') →
  match (if l then CommunicatorOps.Listen else CommunicatorOps.Dial) make_connector pf base args args' st with
  | (Ret _, st') =>
      follows kept (target base args) st st' ∧ ∀ c, Some c ∈ args → is_Some (at_uri base c st')
  | (Throw e, st') =>
      (∃ x who, e = NngException x who) ∧
      follows any (target base args) st st' ∧ ∀ c, Some c ∈ args → at_uri base c st' = None
  | (Fault _, _) => False
  end.
Proof.
  intros Hv Hargs.
  assert (∀ c i k u, Some c ∈ args → c_socket c = Some i →
    Host.toString (E := exn) pf (Host.derived base k) = Ret u → target base args i k u) as HT.
  { intros c i k u Hc Hi Hu. split; [by exists c | done]. }
  pose proof (args_connect l base args st _ Hv HT) as E.
  assert ((if l then CommunicatorOps.Listen else CommunicatorOps.Dial) make_connector pf base args args' st =
    CommunicatorOps.catch_nng
      (CommunicatorOps.args_call (λ c, CommunicatorOps.on_socket c (at_base pf (connect make_connector l) base)) args)
      (CommunicatorOps.args_call (CommunicatorOps.disconnect pf base) args') st) as -> by by destruct l.
  unfold CommunicatorOps.catch_nng.
  destruct (CommunicatorOps.args_call _ args st) as [[[]|e|f] st1]; [done| |done].
  destruct E as [F1 (x & who & ->)].
  destruct (args_disconnect base args' st1 (target base args)) as (st2 & -> & F2 & C2).
  { intros a Ha. eapply follows_valid; [done|]. apply Hv. by apply Hargs. }
  { intros c i k u Hc. apply HT. by apply Hargs. }
  split_and!; [by eexists _, _ | | intros c Hc; apply C2; by apply Hargs].
  eapply follows_trans; [apply _ | eapply follows_weaken; [|exact F1]; done | eapply follows_weaken; [|exact F2]; done].
Qed.

End Dialling.

(** ** Witnesses *)

#[export] Instance no_events : PipeEventHandler unit := { pipeEvent _ _ h := h }.

(** NNG gives an unused id, except that nothing listens at one address. *)
Definition nng_connector (l : bool) (s : Z) (uri : bytes) (live : gset Z) : result exn Z :=
  if bool_decide (uri = lit "inproc://x.push") then Throw (NngException addrinval (lit "dial"))
  else Ret (fresh live).

Lemma nng_connector_fresh l s uri live id : nng_connector l s uri live = Ret id → id ∉ live.
Proof. unfold nng_connector. case_bool_decide; [done|]. intros [= <-]. apply is_fresh. Qed.

Lemma nng_connector_throws l s uri live :
  match nng_connector l s uri live with Ret _ => True | Throw (NngException _ _) => True | _ => False end.
Proof. unfold nng_connector. by case_bool_decide. Qed.

Definition opened (p : PATTERN) : Socket unit := mkSocket CLIENT p (Protocol.Choose CLIENT p) (Some 1) 0 None ∅ ∅.
Definition dialled : Socket unit := snd (connect nng_connector false (lit "inproc://x.req") (opened REQ_REP)).

Lemma opened_reachable : reachable nng_connector (opened REQ_REP).
Proof. apply (reach_open _ CLIENT REQ_REP STANDARD (λ _ _, Ret 1) None). reflexivity. Qed.

Lemma dialled_reachable : reachable nng_connector dialled.
Proof.
  apply (reach_perform _ (ODial (lit "inproc://x.req")) (opened REQ_REP) tt); [apply opened_reachable|].
  vm_compute. reflexivity.
Qed.

Lemma socket_connectors_witness : ∃ k', close dialled = (Ret tt, k') ∧ isOpen k' = false ∧ k_live k' = ∅.
Proof. apply (socket_connectors nng_connector nng_connector_fresh dialled dialled_reachable). Defined.

Lemma socket_connect_witness : disconnect (lit "inproc://x.req") dialled = (Ret tt, opened REQ_REP).
Proof.
  apply (socket_connect nng_connector nng_connector_fresh false (lit "inproc://x.req") (opened REQ_REP) dialled
    opened_reachable); vm_compute; reflexivity.
Defined.

Lemma pipe_count_witness :
  connectionCount (pipes [(3, add_pre); (3, add_post); (4, add_post); (3, rem_post)] dialled) = 1.
Proof.
  edestruct (pipe_count [(3, add_pre); (3, add_post); (4, add_post); (3, rem_post)] {[4]} dialled) as [E _];
    [| vm_compute; reflexivity | vm_compute; reflexivity | rewrite E; vm_compute; reflexivity].
  intros n es' Hp Hc.
  pose proof (connected_size es' ∅ n Hc) as Hs. apply prefix_length in Hp. simpl in Hp.
  rewrite size_empty in Hs. lia.
Defined.

Lemma dial_all_or_nothing_witness :
  let base := Host.InProc (lit "x") in
  let c i p := mkCommunicator CLIENT p (Protocol.Choose CLIENT p) (Some i) in
  let args := [Some (c 1 REQ_REP); None; Some (c 2 PUSH_PULL)] in
  let st : gmap Z (Socket unit) := {[1 := opened REQ_REP; 2 := opened PUSH_PULL]} in
  ∃ e st', CommunicatorOps.Dial nng_connector Apple base args (rev args) st = (Throw e, st')
    ∧ at_uri Apple base (c 1 REQ_REP) st' = None.
Proof.
  intros base c args st.
  destruct (CommunicatorOps.Dial nng_connector Apple base args (rev args) st) as [r st'] eqn:E.
  pose proof (dial_all_or_nothing nng_connector Apple nng_connector_throws false base args (rev args) st) as T.
  cbn [CommunicatorOps.Dial] in T. rewrite E in T.
  assert (∃ e, r = Throw e) as [e ->].
  { vm_compute in E. injection E as <- _. by eexists. }
  exists e, st'. split; [reflexivity|]. apply T.
  - intros a Ha. subst args. repeat (apply elem_of_cons in Ha as [->|Ha]; [vm_compute; by try eexists|]).
    by apply elem_of_nil in Ha.
  - intros a. subst args. simpl. rewrite !elem_of_cons. tauto.
  - subst args. by left.
Defined.

(** ** Where NNG makes every connector *)
Section Ready.
Context {P : Type} {Hpipe : PipeEventHandler P}.
Context (make_connector : bool → Z → bytes → gset Z → result exn Z).
Context (pf : PLATFORM).
Hypothesis connectors_made : ∀ l s uri live, ∃ id, make_connector l s uri live = Ret id.

Lemma connect_ready l base (k : Socket P) s :
  k_socket k = Some s →
  ∃ k', SocketOps.at_base pf (SocketOps.connect make_connector l) base k = (Ret tt, k')
    ∧ k_socket k' = Some s ∧ SocketOps.isReady k' = true ∧ k_pattern k' = k_pattern k.
Proof.
  intros Hs. destruct (HostFacts.derived_uri (E := exn) pf base (k_pattern k)) as [u Hu].
  destruct (connectors_made l s u (k_live k)) as [id Hid].
  unfold SocketOps.at_base, SocketOps.connect, mbind, M_bind, get, lift, modify. rewrite Hu, Hs, Hid.
  assert (∀ c : gmap bytes ListenerOrDialer, c ≠ ∅ → negb (Nat.eqb (size c) 0) = true) as Hne.
  { intros c Hc. apply negb_true_iff, Nat.eqb_neq. by rewrite map_size_non_empty_iff. }
  destruct (k_connectors k !! u) as [c|] eqn:Ec; eexists; (split; [reflexivity|]); split_and!; try done; apply Hne; simpl.
  - intros E0. by rewrite E0 in Ec.
  - apply insert_non_empty.
Qed.

End Ready.

End SocketFacts.
