(* ===== verification/PrefixMap.v ===== *)
(** * Prefix maps

    The routing table is a [tsl::htrie_map], a vendored container.  It enters
    the development as an interface: the operations the server uses, their
    meaning as finite maps, and the documented meaning of [longest_prefix].
    Finite maps implement it, for the examples. *)
From stdpp Require Import gmap.
From S2P Require Import Prelude.

(** - [pm_max_key_size]: [max_key_size()], the limit on the length of a key;
    - [pm_find], [pm_emplace], [pm_erase]: [find], [emplace] (which leaves an
      existing entry as it is; [None]: it throws [std::length_error], for a key
      over the limit) and [erase];
    - [pm_update]: an assignment through the pointer that [find] returns;
    - [pm_longest]: the entry whose key is the longest prefix of the argument. *)
Class PrefixMap (PM A : Type) : Type := {
  pm_max_key_size : Z;
  pm_empty : PM;
  pm_find : bytes → PM → option A;
  pm_emplace : bytes → A → PM → option PM;
  pm_update : bytes → A → PM → PM;
  pm_erase : bytes → PM → PM;
  pm_longest : bytes → PM → option (bytes * A);
}.

(** The entries of a prefix map, and the laws. *)
Class PrefixMapLaws (PM A : Type) `{PrefixMap PM A} : Type := {
  entries : PM → gmap bytes A;
  entries_empty : entries pm_empty = ∅;
  entries_find k m : pm_find k m = entries m !! k;
  entries_emplace k a m : blen k ≤ pm_max_key_size → ∃ m', pm_emplace k a m = Some m' ∧
    entries m' = match entries m !! k with Some _ => entries m | None => <[k:=a]> (entries m) end;
  emplace_long k a m : pm_max_key_size < blen k → pm_emplace k a m = None;
  entries_update k a m : entries (pm_update k a m) = <[k:=a]> (entries m);
  entries_erase k m : entries (pm_erase k m) = delete k (entries m);
  longest_some path k a m : pm_longest path m = Some (k, a) ↔
    entries m !! k = Some a ∧ k `prefix_of` path ∧
    ∀ k', is_Some (entries m !! k') → k' `prefix_of` path → (length k' ≤ length k)%nat;
  longest_none path m : pm_longest path m = None ↔
    ∀ k, k `prefix_of` path → entries m !! k = None;
}.

(** ** Finite maps *)
Module FinitePrefixMap.
Section Finite.
Context {A : Type}.

(** Try the prefixes of [path], the longest first. *)
Fixpoint longest (n : nat) (path : bytes) (m : gmap bytes A) : option (bytes * A) :=
  match m !! take n path with
  | Some a => Some (take n path, a)
  | None => match n with O => None | S n => longest n path m end
  end.

Lemma longest_sound n path m k a :
  longest n path m = Some (k, a) →
  m !! k = Some a ∧ ∃ i, (i ≤ n)%nat ∧ k = take i path ∧
    ∀ j, (i < j ≤ n)%nat → m !! take j path = None.
Proof.
  induction n as [|n IH]; simpl.
  - destruct (m !! take 0 path) as [b|] eqn:E; [|done]. intros [= <- <-]. split; [done|].
    exists 0%nat. split_and!; [lia | done | lia].
  - destruct (m !! take (S n) path) as [b|] eqn:E.
    + intros [= <- <-]. split; [done|]. exists (S n). split_and!; [lia | done | lia].
    + intros (H1 & i & Hi & -> & Hj)%IH. split; [done|]. exists i. split_and!; [lia | done|].
      intros j Hl. destruct (decide (j = S n)) as [->|]; [done|]. apply Hj. lia.
Qed.

Lemma longest_complete n path m :
  longest n path m = None ↔ ∀ i, (i ≤ n)%nat → m !! take i path = None.
Proof.
  induction n as [|n IH]; simpl.
  - destruct (m !! take 0 path) eqn:E; split; try done.
    + intros H. specialize (H 0%nat ltac:(lia)). simpl in *. congruence.
    + intros _ i Hi. by replace i with 0%nat by lia.
  - destruct (m !! take (S n) path) eqn:E; [split; [done|]|].
    + intros H. specialize (H (S n) ltac:(lia)). simpl in *. congruence.
    + rewrite IH. split; intros H i Hi; [|apply H; lia].
      destruct (decide (i = S n)) as [->|]; [done|]. apply H. lia.
Qed.

Lemma prefix_iff_take (k path : bytes) : k `prefix_of` path ↔ k = take (length k) path ∧ (length k ≤ length path)%nat.
Proof.
  split.
  - intros [r ->]. rewrite take_app_length. split; [done|]. rewrite length_app. lia.
  - intros [E _]. rewrite E. apply prefix_take.
Qed.

#[export] Instance finite_prefix_map : PrefixMap (gmap bytes A) A := {
  pm_max_key_size := 65535;
  pm_empty := ∅;
  pm_find k m := m !! k;
  pm_emplace k a m :=
    if 65535 <? blen k then None else Some (match m !! k with Some _ => m | None => <[k:=a]> m end);
  pm_update k a m := <[k:=a]> m;
  pm_erase k m := delete k m;
  pm_longest path m := longest (length path) path m;
}.

#[export] Instance finite_prefix_map_laws : PrefixMapLaws (gmap bytes A) A.
Proof.
  refine (Build_PrefixMapLaws _ _ _ (λ m, m) _ _ _ _ _ _ _ _); try done.
  - intros k a m Hk. simpl in *. replace (65535 <? blen k) with false by lia. by eexists.
  - intros k a m Hk. simpl in *. by replace (65535 <? blen k) with true by lia.
  - intros path k a m. simpl. split.
    + intros (Hk & i & Hi & -> & Hj)%longest_sound. split; [done|]. split; [apply prefix_take|].
      intros k' [b Hb] [Ek Hl]%prefix_iff_take. rewrite length_take.
      destruct (decide (length k' ≤ i)%nat) as [|Hn]; [lia|].
      rewrite Ek, Hj in Hb by lia. done.
    + intros (Hk & Hp & Hmax). destruct (longest (length path) path m) as [[k2 a2]|] eqn:E.
      * apply longest_sound in E as (Hk2 & i & Hi & -> & Hj). apply prefix_iff_take in Hp as [Ek Hl].
        assert (length k = i) as Hlen.
        { apply Nat.le_antisymm.
          - destruct (decide (length k ≤ i)%nat) as [|Hn]; [done|]. rewrite Ek, Hj in Hk by lia. done.
          - specialize (Hmax (take i path) ltac:(by eexists) (prefix_take _ _)).
            rewrite length_take in Hmax. lia. }
        rewrite Hlen in Ek. subst k. congruence.
      * rewrite longest_complete in E. apply prefix_iff_take in Hp as [Ek Hl]. rewrite Ek, E in Hk by done. done.
  - intros path m. simpl. rewrite longest_complete. split.
    + intros H k [Ek Hl]%prefix_iff_take. rewrite Ek. by apply H.
    + intros H i Hi. apply H. apply prefix_take.
Defined.

End Finite.
End FinitePrefixMap.
