(* ===== verification/Boxes.v ===== *)
(** * Communicators with queues

    [Push], [Push_Box] ([client_push.h]), [Publish], [Publish_Box]
    ([service_publish.h]), [Pull], [Pull_Box] ([service_pull.h]), [Subscribe]
    and [Subscribe_Box] ([client_subscribe.h]): a socket with a sending loop or
    a receiving loop, and a queue as its handler. *)
From stdpp Require Import gmap.
From S2P Require Import Prelude.
From S2P Require Import Nng.
From S2P Require Import MsgUtil.
From S2P Require Import Pattern.
From S2P Require Import IoQueue.
From S2P Require Import AsyncSend.
From S2P Require Import AsyncRecv.
From S2P Require Import Socket.

(** ** [Push_Box] and [Publish_Box]

    The queue is the handler of the loop. *)
Record SendBox (P msg : Type) : Type := mkSendBox {
  sb_socket : Socket P;
  sb_loop : SendLoop (SendQueue msg) msg;
}.
Arguments mkSendBox {P msg} _ _.
Arguments sb_socket {P msg} _.
Arguments sb_loop {P msg} _.

Module SendBoxOps.
Section Ops.
Context {P msg : Type}.
Context (nng_open : bool → PROTOCOL → result exn Z).

Definition new_loop : SendLoop (SendQueue msg) msg := mkSendLoop None None false.

(** The constructors without a shared socket. *)
Definition make (r : ROLE) (p : PATTERN) : result exn (SendBox P msg) :=
  k ← SocketOps.open_socket nng_open r p STANDARD;
  match AsyncSendLoop.send_init (Some SendQueueMtx.new) new_loop with
  | (Ret _, l) => Ret (mkSendBox k l)
  | (Throw e, _) => Throw e
  | (Fault f, _) => Fault f
  end.
Definition Push_Box : result exn (SendBox P msg) := make CLIENT PUSH_PULL.
Definition Publish_Box : result exn (SendBox P msg) := make SERVICE PUB_SUB.

(** [send_msg] from beginning to end. *)
Definition send_msg {H} `{AsyncSendHandler H msg} (m : msg) : M exn (SendLoop H msg) unit :=
  t ← AsyncSendLoop.run_thread (SendMsg m);
  match t with
  | Some t => AsyncSendLoop.run_thread t;; mret tt
  | None => mret tt
  end.

Definition set_loop (l : SendLoop (SendQueue msg) msg) (b : SendBox P msg) := mkSendBox (sb_socket b) l.
Definition set_box_socket (k : Socket P) (b : SendBox P msg) := mkSendBox k (sb_loop b).

Definition when_ready (who : bytes) (m : msg) : M exn (SendBox P msg) unit :=
  b ← get;
  if negb (SocketOps.isReady (sb_socket b)) then throw (NngException closed who)
  else zoom sb_loop set_loop (send_msg m).

Definition push (m : msg) : M exn (SendBox P msg) unit :=
  when_ready (lit "Push Communicator is not ready.") m.
Definition publish (m : msg) : M exn (SendBox P msg) unit :=
  when_ready (lit "Publish Communicator is not ready.") m.

End Ops.
End SendBoxOps.

(** ** [Pull_Box] and [Subscribe_Box]

    The queue receives the messages the loop delivers. *)
Record RecvBox (P msg : Type) : Type := mkRecvBox {
  rb_socket : Socket P;
  rb_loop : RecvLoop msg;
  rb_queue : list msg;
  rb_topics : list bytes;   (** the subscriptions of the context *)
}.
Arguments mkRecvBox {P msg} _ _ _ _.
Arguments rb_socket {P msg} _.
Arguments rb_loop {P msg} _.
Arguments rb_queue {P msg} _.
Arguments rb_topics {P msg} _.

Module RecvBoxOps.
Section Ops.
Context {P msg : Type}.
Context (nng_open : bool → PROTOCOL → result exn Z).

Definition make (r : ROLE) (p : PATTERN) : result exn (RecvBox P msg) :=
  k ← SocketOps.open_socket nng_open r p STANDARD;
  match AsyncRecvLoop.recv_start true None AsyncRecvLoop.new with
  | (Ret _, l) => Ret (mkRecvBox k l [] [])
  | (Throw e, _) => Throw e
  | (Fault f, _) => Fault f
  end.
Definition Pull_Box : result exn (RecvBox P msg) := make SERVICE PUSH_PULL.
Definition Subscribe_Box : result exn (RecvBox P msg) := make CLIENT PUB_SUB.

(** A receive ends; [AsyncRecvQueue::async_recv] pushes its message. *)
Definition received (r : nng_error) (m : msg) : M exn (RecvBox P msg) unit :=
  b ← get;
  zoom rb_loop (λ l b, mkRecvBox (rb_socket b) l (rb_queue b) (rb_topics b)) (AsyncRecvLoop.complete r m);;
  if rl_handler (rb_loop b) && bool_decide (r = success)
  then modify (λ b, mkRecvBox (rb_socket b) (rb_loop b) (RecvQueue.push m (rb_queue b)) (rb_topics b))
  else mret tt.

(** [Pull_Box::pull] and [Subscribe_Box::consume]. *)
Definition pull : M exn (RecvBox P msg) (option msg) :=
  b ← get;
  let '(m, q) := RecvQueue.pull (rb_queue b) in
  modify (λ b, mkRecvBox (rb_socket b) (rb_loop b) q (rb_topics b));;
  mret m.

(** [subscribe] and [unsubscribe]: options of the context; [refused] is the
    answer of NNG, which rejects the removal of a topic that is not there. *)
Definition subscribe (topic : bytes) : M exn (RecvBox P msg) unit :=
  modify (λ b, mkRecvBox (rb_socket b) (rb_loop b) (rb_queue b) (rb_topics b ++ [topic])).
Definition unsubscribe (topic : bytes) (refused : option exn) : M exn (RecvBox P msg) unit :=
  match refused with
  | Some e => throw e
  | None => modify (λ b, mkRecvBox (rb_socket b) (rb_loop b) (rb_queue b) (filter (λ t, t ≠ topic) (rb_topics b)))
  end.

End Ops.
End RecvBoxOps.

(** * Theorems *)
Module BoxFacts.
Import SendBoxOps.

Section Send.
Context {P msg : Type}.
Implicit Types (l : SendLoop (SendQueue msg) msg).

(** A loop between the actions of its threads: alive, and busy while an
    operation is in flight. *)
Definition loop_ok l : Prop :=
  ∃ q, l_handler l = Some q ∧ l_stopped l = false ∧ (is_Some (l_flight l) → _busy q = true).

(** What the loop has accepted and not yet finished, in order. *)
Definition outgoing l : list msg :=
  option_list (l_flight l) ++ match l_handler l with Some q => sq_deq q | None => [] end.

(** When it is not busy, its queue is empty too. *)
Definition queue_ok l : Prop :=
  loop_ok l ∧ ∀ q, l_handler l = Some q → _busy q = false → sq_deq q = [].

Lemma queue_ok_new : queue_ok (mkSendLoop (Some SendQueueMtx.new) None false).
Proof. split; [|by intros q [= <-]]. exists SendQueueMtx.new. split_and!; [done..|]. by intros []. Qed.

(** A loop accepts every message, and stays in order. *)
Lemma send_msg_ok l m :
  queue_ok l → ∃ l', send_msg m l = (Ret tt, l') ∧ queue_ok l' ∧ outgoing l' = outgoing l ++ [m].
Proof.
  intros [(q & Eh & Es & Hb) Hidle]. destruct l as [h f s]. simpl in *. subst h s.
  unfold send_msg, AsyncSendLoop.run_thread, AsyncSendLoop.submit, lift, mbind, M_bind, get, modify, mret, M_ret.
  simpl. unfold AsyncSendQueue.prep, SendQueueMtx.produce. destruct (_busy q) eqn:Eb; simpl.
  - eexists. split; [reflexivity|]. split; [split; [by eexists | by intros q' [= <-]]|].
    unfold outgoing. simpl. by rewrite <- app_assoc.
  - destruct f as [m'|]; [specialize (Hb ltac:(by eexists)); congruence|].
    simpl. eexists. split; [reflexivity|]. split; [split; [by eexists | by intros q' [= <-]]|].
    unfold outgoing. simpl. by rewrite (Hidle q eq_refl Eb).
Qed.

End Send.
End BoxFacts.
