(* ===== verification/Route.v ===== *)
(** * Routes

    [Server::Route] of [include/telling/server.h] and
    [src/telling/server_services.cpp]: the server's connection to one service.
    The directory of services uses it through the interface [Routing]. *)
From stdpp Require Import gmap.
From S2P Require Import Prelude.
From S2P Require Import Nng.
From S2P Require Import MsgUtil.
From S2P Require Import Pattern.
From S2P Require Import HostAddress.
From S2P Require Import IoQueue.
From S2P Require Import AsyncSend.
From S2P Require Import AsyncRecv.
From S2P Require Import Socket.
From S2P Require Import Boxes.

(** ** The interface

    A route of type [R] is made for a path, dials the service at an address,
    and takes messages for it.  [route_throws]: [route_new] and the members
    fail by [nng::exception] only; they keep the path. *)
Class Routing (R msg : Type) : Type := {
  route_new : bytes → result exn R;
  route_path : R → bytes;
  route_dial : HostAddress → M exn R unit;
  route_sendPush : msg → M exn R unit;
  route_sendRequest : msg → M exn R unit;
}.

Definition nng_only {A} (r : result exn A) : Prop :=
  match r with Ret _ => True | Throw (NngException _ _) => True | _ => False end.

Class RoutingLaws (R msg : Type) `{Routing R msg} : Type := {
  route_ok : R → Prop;
  new_ok path : match route_new path with Ret r => route_ok r ∧ route_path r = path | r => nng_only r end;
  dial_ok host r : route_ok r → nng_only (fst (route_dial host r))
    ∧ route_ok (snd (route_dial host r)) ∧ route_path (snd (route_dial host r)) = route_path r;
  push_ok m r : route_ok r → nng_only (fst (route_sendPush m r))
    ∧ route_ok (snd (route_sendPush m r)) ∧ route_path (snd (route_sendPush m r)) = route_path r;
  request_ok m r : route_ok r → nng_only (fst (route_sendRequest m r))
    ∧ route_ok (snd (route_sendRequest m r)) ∧ route_path (snd (route_sendRequest m r)) = route_path r;
}.

(** ** [Server::Route]

    The path; the raw request socket and the push box; the loop that sends
    requests, whose handler is [req_sendQueue]; the loop that receives
    replies, whose handler is the server's [ReqRep]. *)
Record Route (P msg : Type) : Type := mkRoute {
  rt_path : bytes;
  rt_req : Socket P;
  rt_push : SendBox P msg;
  rt_req_send : SendLoop (SendQueue msg) msg;
  rt_req_recv : RecvLoop msg;
  rt_halted : bool;
}.
Arguments mkRoute {P msg} _ _ _ _ _ _.
Arguments rt_path {P msg} _.
Arguments rt_req {P msg} _.
Arguments rt_push {P msg} _.
Arguments rt_req_send {P msg} _.
Arguments rt_req_recv {P msg} _.
Arguments rt_halted {P msg} _.

Module RouteOps.
Section Ops.
Context {P msg : Type} {Hpipe : PipeEventHandler P}.
Context (nng_open : bool → PROTOCOL → result exn Z).
Context (make_connector : bool → Z → bytes → gset Z → result exn Z).
Context (pf : PLATFORM).

(** The result of a computation that runs on its own state. *)
Definition init {S A} (m : M exn S A) (s : S) : result exn S :=
  match m s with (Ret _, s') => Ret s' | (Throw e, _) => Throw e | (Fault f, _) => Fault f end.

(** The constructor. *)
Definition new_route (path : bytes) : result exn (Route P msg) :=
  req ← SocketOps.open_socket nng_open CLIENT REQ_REP RAW;
  push ← SendBoxOps.Push_Box nng_open;
  send ← init (AsyncSendLoop.send_init (Some SendQueueMtx.new)) SendBoxOps.new_loop;
  recv ← init (AsyncRecvLoop.recv_start true None) AsyncRecvLoop.new;
  Ret (mkRoute path req push send recv false).

Definition set_req (k : Socket P) (r : Route P msg) :=
  mkRoute (rt_path r) k (rt_push r) (rt_req_send r) (rt_req_recv r) (rt_halted r).
Definition set_push (b : SendBox P msg) (r : Route P msg) :=
  mkRoute (rt_path r) (rt_req r) b (rt_req_send r) (rt_req_recv r) (rt_halted r).
Definition set_send (l : SendLoop (SendQueue msg) msg) (r : Route P msg) :=
  mkRoute (rt_path r) (rt_req r) (rt_push r) l (rt_req_recv r) (rt_halted r).
Definition set_push_socket (k : Socket P) (r : Route P msg) :=
  set_push (SendBoxOps.set_box_socket k (rt_push r)) r.

Definition dial_socket (base : HostAddress) : M exn (Socket P) unit :=
  SocketOps.at_base pf (SocketOps.dial make_connector) base.

Definition dial (base : HostAddress) : M exn (Route P msg) unit :=
  zoom rt_req set_req (dial_socket base);;
  zoom (λ r, sb_socket (rt_push r)) set_push_socket (dial_socket base).

Definition sendPush (m : msg) : M exn (Route P msg) unit :=
  zoom rt_push set_push (SendBoxOps.push m).
Definition sendRequest (m : msg) : M exn (Route P msg) unit :=
  zoom rt_req_send set_send (SendBoxOps.send_msg m).

(** The destructor: the sockets are closed; [send_stop] and [recv_stop] stop
    the loops.  [m] is the message of the receive that is cancelled. *)
Definition destroy (m : msg) : M exn (Route P msg) unit :=
  modify (λ r, mkRoute (rt_path r) (rt_req r) (rt_push r) (rt_req_send r) (rt_req_recv r) true);;
  zoom rt_req set_req SocketOps.close;;
  zoom (λ r, sb_socket (rt_push r)) set_push_socket SocketOps.close;;
  modify (λ r, set_send (mkSendLoop (l_handler (rt_req_send r)) None true) r);;
  zoom rt_req_recv (λ l r, mkRoute (rt_path r) (rt_req r) (rt_push r) (rt_req_send r) l (rt_halted r))
    (AsyncRecvLoop.recv_stop m).

End Ops.
End RouteOps.

(** * Theorems *)
Module RouteFacts.
Import RouteOps.

Section Facts.
Context {P msg : Type} {Hpipe : PipeEventHandler P}.
Context (nng_open : bool → PROTOCOL → result exn Z).
Context (make_connector : bool → Z → bytes → gset Z → result exn Z).
Context (pf : PLATFORM).

(** NNG reports errors by [nng::exception]. *)
Hypothesis open_throws : ∀ raw p, nng_only (nng_open raw p).
Hypothesis connector_throws : ∀ l s uri live, nng_only (make_connector l s uri live).

Definition loops_ok (r : Route P msg) : Prop :=
  BoxFacts.queue_ok (rt_req_send r) ∧ BoxFacts.queue_ok (sb_loop (rt_push r)).

Lemma dial_socket_nng base (k : Socket P) : nng_only (fst (dial_socket make_connector pf base k)).
Proof.
  unfold dial_socket, SocketOps.at_base, SocketOps.dial, SocketOps.connect, mbind, M_bind, get, lift, throw, modify.
  destruct (HostFacts.derived_uri (E := exn) pf base (k_pattern k)) as [u ->].
  destruct (k_socket k) as [s|]; [|done].
  pose proof (connector_throws false s u (k_live k)) as Ho.
  destruct (make_connector false s u (k_live k)); simpl; [by destruct (_ !! _) | done..].
Qed.

End Facts.

(** [Server::Route] is a routing. *)
Section Instance_.
Context {P msg : Type} {Hpipe : PipeEventHandler P}.
Context (nng_open : bool → PROTOCOL → result exn Z).
Context (make_connector : bool → Z → bytes → gset Z → result exn Z).
Context (pf : PLATFORM).

Definition Route_routing : Routing (Route P msg) msg := {|
  route_new := new_route nng_open;
  route_path := rt_path;
  route_dial := dial make_connector pf;
  route_sendPush := sendPush;
  route_sendRequest := sendRequest;
|}.

Definition Route_laws (open_throws : ∀ raw p, nng_only (nng_open raw p))
    (connector_throws : ∀ l s uri live, nng_only (make_connector l s uri live)) :
  @RoutingLaws (Route P msg) msg Route_routing.
Proof.
  refine (@Build_RoutingLaws _ _ Route_routing loops_ok _ _ _ _); simpl.
  - intros path. unfold new_route, SendBoxOps.Push_Box, SendBoxOps.make, init, mbind, result_bind. simpl.
    pose proof (open_throws true REQ) as H1. pose proof (open_throws false PUSH) as H2.
    destruct (nng_open true REQ); [|exact H1..]. destruct (nng_open false PUSH); [|exact H2..].
    split; [|done]. split; apply BoxFacts.queue_ok_new.
  - intros host r Hr. unfold dial, zoom, mbind, M_bind.
    pose proof (dial_socket_nng make_connector pf connector_throws host (rt_req r)) as H1.
    destruct (dial_socket make_connector pf host (rt_req r)) as [[[]|e|f] k1]; simpl in *; [|done..].
    pose proof (dial_socket_nng make_connector pf connector_throws host (sb_socket (rt_push r))) as H2.
    destruct (dial_socket make_connector pf host (sb_socket (rt_push r))) as [[[]|e|f] k2]; simpl in *; done.
  - intros m r Hr. unfold sendPush, SendBoxOps.push, SendBoxOps.when_ready, zoom, mbind, M_bind, get, throw.
    destruct (SocketOps.isReady (sb_socket (rt_push r))); simpl; [|done].
    destruct (BoxFacts.send_msg_ok (sb_loop (rt_push r)) m (proj2 Hr)) as (l' & -> & Hl & _). simpl.
    split; [done|]. split; [|done]. by split; [apply Hr|].
  - intros m r Hr. unfold sendRequest, zoom.
    destruct (BoxFacts.send_msg_ok (rt_req_send r) m (proj1 Hr)) as (l' & -> & Hl & _). simpl.
    split; [done|]. split; [|done]. by split; [|apply Hr].
Defined.

End Instance_.

Section Properties.
Context {P msg : Type} {Hpipe : PipeEventHandler P}.
Context (nng_open : bool → PROTOCOL → result exn Z).
Context (make_connector : bool → Z → bytes → gset Z → result exn Z).
Context (pf : PLATFORM).
Hypothesis open_throws : ∀ raw p, nng_only (nng_open raw p).
Hypothesis connector_throws : ∀ l s uri live, nng_only (make_connector l s uri live).

(** The routes that the server makes: constructed, then dialled and used. *)
Inductive used : Route P msg → Prop :=
| used_new path r : new_route nng_open path = Ret r → used r
| used_dial host r : used r → used (snd (dial make_connector pf host r))
| used_push m r : used r → used (snd (sendPush m r))
| used_request m r : used r → used (snd (sendRequest m r)).

Lemma used_ok r : used r → loops_ok r.
Proof.
  set (L := Route_laws (P := P) (msg := msg) nng_open make_connector pf open_throws connector_throws).
  induction 1 as [path r E|host r _ IH|m r _ IH|m r _ IH].
  - pose proof (@new_ok _ _ _ L path) as H1. cbn [route_new Route_routing] in H1. rewrite E in H1. apply H1.
  - apply (@dial_ok _ _ _ L host r IH).
  - apply (@push_ok _ _ _ L m r IH).
  - apply (@request_ok _ _ _ L m r IH).
Qed.

(** A route accepts every request, and every push once it has been dialled
    or refuses it by an exception that leaves the route as it was; what it
    accepts goes to the end of what it is sending, and the other direction
    is not touched. *)
Theorem route_accepts (r : Route P msg) m :
  used r →
  (∃ r', sendRequest m r = (Ret tt, r')
     ∧ BoxFacts.outgoing (rt_req_send r') = BoxFacts.outgoing (rt_req_send r) ++ [m]
     ∧ rt_push r' = rt_push r)
  ∧ (if SocketOps.isReady (sb_socket (rt_push r))
     then ∃ r', sendPush m r = (Ret tt, r')
       ∧ BoxFacts.outgoing (sb_loop (rt_push r')) = BoxFacts.outgoing (sb_loop (rt_push r)) ++ [m]
       ∧ rt_req_send r' = rt_req_send r
     else sendPush m r = (Throw (NngException closed (lit "Push Communicator is not ready.")), r)).
Proof.
  intros Hr%used_ok. split.
  - destruct (BoxFacts.send_msg_ok (rt_req_send r) m (proj1 Hr)) as (l' & E & _ & Ho).
    unfold sendRequest, zoom. rewrite E. by eexists.
  - unfold sendPush, SendBoxOps.push, SendBoxOps.when_ready, zoom, mbind, M_bind, get, throw.
    destruct (SocketOps.isReady (sb_socket (rt_push r))); simpl; [|by destruct r].
    destruct (BoxFacts.send_msg_ok (sb_loop (rt_push r)) m (proj2 Hr)) as (l' & E & _ & Ho).
    rewrite E. by eexists.
Qed.

End Properties.

(** ** Witness *)

#[export] Instance ignore_pipes : PipeEventHandler unit := { pipeEvent _ _ h := h }.

Definition any_open (raw : bool) (p : PROTOCOL) : result exn Z := Ret 1.
Definition any_connector (l : bool) (s : Z) (uri : bytes) (live : gset Z) : result exn Z := Ret (fresh live).

Definition example_route : option (Route unit Z) :=
  match new_route any_open (lit "/a") with
  | Ret r => Some (snd (dial any_connector OtherPlatform (Host.InProc (lit "/a")) r))
  | _ => None
  end.

Lemma route_accepts_witness :
  ∃ r r', example_route = Some r ∧ sendPush 5 r = (Ret tt, r')
    ∧ BoxFacts.outgoing (sb_loop (rt_push r')) = [5].
Proof.
  destruct (new_route (P := unit) (msg := Z) any_open (lit "/a")) as [r0|e|f] eqn:E0; [|discriminate E0|discriminate E0].
  destruct (route_accepts (P := unit) any_open any_connector OtherPlatform (λ _ _, I) (λ _ _ _ _, I)
    (snd (dial any_connector OtherPlatform (Host.InProc (lit "/a")) r0)) 5) as [_ H].
  - apply used_dial. by eapply used_new.
  - exists (snd (dial any_connector OtherPlatform (Host.InProc (lit "/a")) r0)).
    injection E0 as <-.
    replace (SocketOps.isReady _) with true in H by (vm_compute; reflexivity).
    destruct H as (r' & E & Ho & _). exists r'. split; [reflexivity|]. split; [exact E|].
    rewrite Ho. vm_compute. reflexivity.
Defined.

End RouteFacts.
