(* ===== verification/Relays.v ===== *)
(** * The relays of the server

    [Server::PubSub], [Server::PushPull] and [Server::ReqRep] of
    [include/telling/server.h], with [src/telling/server_publish.cpp],
    [server_pull.cpp] and [server_reply.cpp]: their sockets and loops, their
    constructors and destructors, and what they do with a message that needs
    no routing.  What they do with the directory is in [Server].

    NNG's own relay between [reply_ext] and [request_dvc] ([nng::device]) runs
    on a thread of its own and is not part of the repository; the model records
    whether the thread runs.  The log is not modelled. *)
From stdpp Require Import gmap.
From S2P Require Import Prelude.
From S2P Require Import Nng.
From S2P Require Import MsgUtil.
From S2P Require Import MsgLayout.
From S2P Require Import MsgView.
From S2P Require Import Pattern.
From S2P Require Import HostAddress.
From S2P Require Import IoQueue.
From S2P Require Import AsyncSend.
From S2P Require Import AsyncRecv.
From S2P Require Import Socket.
From S2P Require Import Boxes.
From S2P Require Import Route.

(** [Server::PubSub]: the socket, subscriptions and receiving loop of
    [subscribe], whose handler is the relay itself; and [publish]. *)
Record PubSub (P msg : Type) : Type := mkPubSub {
  ps_subscribe : Socket P;
  ps_topics : list bytes;
  ps_loop : RecvLoop msg;
  ps_publish : SendBox P msg;
}.
Arguments mkPubSub {P msg} _ _ _ _.
Arguments ps_subscribe {P msg} _.
Arguments ps_topics {P msg} _.
Arguments ps_loop {P msg} _.
Arguments ps_publish {P msg} _.

(** [Server::PushPull]: the socket and receiving loop of [pull]. *)
Record PushPull (P msg : Type) : Type := mkPushPull {
  pp_socket : Socket P;
  pp_loop : RecvLoop msg;
}.
Arguments mkPushPull {P msg} _ _.
Arguments pp_socket {P msg} _.
Arguments pp_loop {P msg} _.

(** [Server::ReqRep]: the socket of the clients, the two sockets that the relay
    thread joins to it, the loop that sends replies, whose handler is
    [rep_sendQueue], the loop that receives requests, and the thread. *)
Record ReqRep (P msg : Type) : Type := mkReqRep {
  rr_reply_ext : Socket P;
  rr_request_dvc : Socket P;
  rr_reply_int : Socket P;
  rr_send : SendLoop (SendQueue msg) msg;
  rr_recv : RecvLoop msg;
  rr_device : bool;
}.
Arguments mkReqRep {P msg} _ _ _ _ _ _.
Arguments rr_reply_ext {P msg} _.
Arguments rr_request_dvc {P msg} _.
Arguments rr_reply_int {P msg} _.
Arguments rr_send {P msg} _.
Arguments rr_recv {P msg} _.
Arguments rr_device {P msg} _.

Module RelayOps.
Section Ops.
Context {P msg : Type} `{NngMsg msg} {Hpipe : PipeEventHandler P}.
Context (nng_open : bool → PROTOCOL → result exn Z).
Context (make_connector : bool → Z → bytes → gset Z → result exn Z).
Context (pf : PLATFORM).

Definition listen_socket (base : HostAddress) : M exn (Socket P) unit :=
  SocketOps.at_base pf (SocketOps.listen make_connector) base.

(** [async_lifetime.destroy()]: the weak pointer of a loop to its handler expires. *)
Definition expired (l : RecvLoop msg) : RecvLoop msg :=
  mkRecvLoop false (rl_receiving l) (rl_stopped l) (rl_calls l).

(** ** [PubSub] *)

Definition set_subscribe (k : Socket P) (r : PubSub P msg) := mkPubSub k (ps_topics r) (ps_loop r) (ps_publish r).
Definition set_pub_loop (l : RecvLoop msg) (r : PubSub P msg) := mkPubSub (ps_subscribe r) (ps_topics r) l (ps_publish r).
Definition set_publish (b : SendBox P msg) (r : PubSub P msg) := mkPubSub (ps_subscribe r) (ps_topics r) (ps_loop r) b.
Definition set_publish_socket (k : Socket P) (r : PubSub P msg) :=
  set_publish (SendBoxOps.set_box_socket k (ps_publish r)) r.

(** The constructor: the subscriber accepts all topics. *)
Definition new_PubSub (internal : HostAddress) : result exn (PubSub P msg) :=
  k ← SocketOps.open_socket nng_open CLIENT PUB_SUB STANDARD;
  publish ← SendBoxOps.Publish_Box nng_open;
  k ← RouteOps.init (listen_socket internal) k;
  l ← RouteOps.init (AsyncRecvLoop.recv_start true None) AsyncRecvLoop.new;
  Ret (mkPubSub k [[]] l publish).

(** [async_recv(Subscribing, msg)]. *)
Definition pub_async_recv (m : msg) : M exn (PubSub P msg) unit :=
  match View.parse REPORT (msg_body m) with
  | Throw (MsgException _ _ _) => mret tt
  | Throw e => throw e
  | Fault f => fail f
  | Ret _ => zoom ps_publish set_publish (SendBoxOps.publish m)
  end.

(** The callback of the receiving loop: the handler, then the next receive.  An
    exception would leave a callback of NNG, which is C. *)
Definition pub_received (r : nng_error) (m : msg) : M exn (PubSub P msg) unit :=
  noexcept (s ← get;
            (if rl_handler (ps_loop s) && bool_decide (r = success) then pub_async_recv m else mret tt);;
            zoom ps_loop set_pub_loop (AsyncRecvLoop.complete r m)).

(** The destructor. *)
Definition destroy_PubSub : M exn (PubSub P msg) unit :=
  modify (λ r, set_pub_loop (expired (ps_loop r)) r);;
  zoom ps_subscribe set_subscribe SocketOps.disconnectAll;;
  zoom (λ r, sb_socket (ps_publish r)) set_publish_socket SocketOps.disconnectAll.

(** ** [PushPull] *)

Definition new_PushPull : result exn (PushPull P msg) :=
  k ← SocketOps.open_socket nng_open SERVICE PUSH_PULL STANDARD;
  l ← RouteOps.init (AsyncRecvLoop.recv_start true None) AsyncRecvLoop.new;
  Ret (mkPushPull k l).

Definition set_pull_socket (k : Socket P) (r : PushPull P msg) := mkPushPull k (pp_loop r).
Definition set_pull_loop (l : RecvLoop msg) (r : PushPull P msg) := mkPushPull (pp_socket r) l.

Definition destroy_PushPull : M exn (PushPull P msg) unit :=
  modify (λ r, set_pull_loop (expired (pp_loop r)) r);;
  zoom pp_socket set_pull_socket SocketOps.disconnectAll.

(** ** [ReqRep] *)

(** The constructor.  The sockets are raw: a message keeps its backtrace in
    its NNG header. *)
Definition new_ReqRep (internal : HostAddress) : result exn (ReqRep P msg) :=
  reply_ext ← SocketOps.open_socket nng_open SERVICE REQ_REP RAW;
  request_dvc ← SocketOps.open_socket nng_open CLIENT REQ_REP RAW;
  reply_int ← SocketOps.open_socket nng_open SERVICE REQ_REP RAW;
  send ← RouteOps.init (AsyncSendLoop.send_init (Some SendQueueMtx.new)) SendBoxOps.new_loop;
  recv ← RouteOps.init (AsyncRecvLoop.recv_start true None) AsyncRecvLoop.new;
  reply_int ← RouteOps.init (listen_socket internal) reply_int;
  request_dvc ← RouteOps.init (RouteOps.dial_socket make_connector pf internal) request_dvc;
  Ret (mkReqRep reply_ext request_dvc reply_int send recv true).

Definition set_reply_ext (k : Socket P) (r : ReqRep P msg) :=
  mkReqRep k (rr_request_dvc r) (rr_reply_int r) (rr_send r) (rr_recv r) (rr_device r).
Definition set_request_dvc (k : Socket P) (r : ReqRep P msg) :=
  mkReqRep (rr_reply_ext r) k (rr_reply_int r) (rr_send r) (rr_recv r) (rr_device r).
Definition set_reply_int (k : Socket P) (r : ReqRep P msg) :=
  mkReqRep (rr_reply_ext r) (rr_request_dvc r) k (rr_send r) (rr_recv r) (rr_device r).
Definition set_rep_send (l : SendLoop (SendQueue msg) msg) (r : ReqRep P msg) :=
  mkReqRep (rr_reply_ext r) (rr_request_dvc r) (rr_reply_int r) l (rr_recv r) (rr_device r).
Definition set_rep_recv (l : RecvLoop msg) (r : ReqRep P msg) :=
  mkReqRep (rr_reply_ext r) (rr_request_dvc r) (rr_reply_int r) (rr_send r) l (rr_device r).
Definition set_device (b : bool) (r : ReqRep P msg) :=
  mkReqRep (rr_reply_ext r) (rr_request_dvc r) (rr_reply_int r) (rr_send r) (rr_recv r) b.

(** [async_recv(ServiceReplying, msg)]: a reply goes to its client; when it
    cannot be enqueued the failure is logged. *)
Definition service_replying (m : msg) : M exn (ReqRep P msg) unit := λ s,
  match zoom rr_send set_rep_send (SendBoxOps.send_msg m) s with
  | (Throw (NngException _ _), s') => (Ret tt, s')
  | o => o
  end.

(** The destructor joins the relay thread, which ends when its sockets close. *)
Definition destroy_ReqRep : M exn (ReqRep P msg) unit :=
  modify (λ r, set_rep_recv (expired (rr_recv r)) r);;
  zoom rr_reply_int set_reply_int SocketOps.close;;
  zoom rr_request_dvc set_request_dvc SocketOps.close;;
  zoom rr_reply_ext set_reply_ext SocketOps.close;;
  modify (set_device false).

End Ops.
End RelayOps.
