(* ===== verification/Services.v ===== *)
(** * The directory of services

    [Server::Services] of [include/telling/server.h] and
    [src/telling/server_services.cpp]: the routing table; the registrations
    that wait for the management thread; and that thread.  Every member
    function holds the mutex from its first access to its end, and the thread
    gives it up only to wait, so each is one step.  The log is not modelled. *)
From stdpp Require Import gmap.
From S2P Require Import Prelude.
From S2P Require Import Nng.
From S2P Require Import MsgUtil.
From S2P Require Import Status.
From S2P Require Import MsgProtocol.
From S2P Require Import MsgLayout.
From S2P Require Import MsgView.
From S2P Require Import MsgWriter.
From S2P Require Import HostAddress.
From S2P Require Import Socket.
From S2P Require Import PrefixMap.
From S2P Require Import Route.

Abbreviation QueryID := Z.
Abbreviation PipeID := Z.

(** [Services::NewRoute]. *)
Record NewRoute : Type := mkNewRoute {
  nr_queryID : QueryID;
  nr_pipeID : PipeID;
  nr_map_uri : bytes;
  nr_host : HostAddress;
}.

(** What the directory calls: [register_reply.respondTo],
    [publish_events.publish], and [dial] and [disconnect] of the server's
    subscriber. *)
Class ServicesEnv (E msg : Type) : Type := {
  env_respondTo : QueryID → msg → M exn E unit;
  env_publish : msg → M exn E unit;
  env_sub_dial : HostAddress → M exn E unit;
  env_sub_disconnect : bytes → M exn E unit;
}.

(** [v_routes] counts the [Route] objects that exist: [new] adds one,
    [delete] takes one away. *)
Record Services (PM R E : Type) : Type := mkServices {
  v_map : PM;
  v_route_open : list NewRoute;
  v_route_close : list R;
  v_run : bool;
  v_registrationMap : gmap PipeID bytes;
  v_routes : Z;
  v_env : E;
}.
Arguments mkServices {PM R E} _ _ _ _ _ _ _.
Arguments v_map {PM R E} _.
Arguments v_route_open {PM R E} _.
Arguments v_route_close {PM R E} _.
Arguments v_run {PM R E} _.
Arguments v_registrationMap {PM R E} _.
Arguments v_routes {PM R E} _.
Arguments v_env {PM R E} _.

Module ServicesOps.
Section Ops.
Context {PM R E msg : Type}.
Context `{NngMsg msg} {Hpm : PrefixMap PM R} {Hroute : Routing R msg} {Henv : ServicesEnv E msg}.
Context (pf : PLATFORM).

Abbreviation V := (M exn (Services PM R E)).

(** Assignments to the members. *)
Definition set_map (m : PM) (s : Services PM R E) := mkServices m (v_route_open s) (v_route_close s) (v_run s)
  (v_registrationMap s) (v_routes s) (v_env s).
Definition set_queues (o : list NewRoute) (c : list R) (s : Services PM R E) := mkServices (v_map s) o c (v_run s)
  (v_registrationMap s) (v_routes s) (v_env s).
Definition set_registrations (g : gmap PipeID bytes) (s : Services PM R E) := mkServices (v_map s) (v_route_open s)
  (v_route_close s) (v_run s) g (v_routes s) (v_env s).
Definition set_routes (n : Z) (s : Services PM R E) := mkServices (v_map s) (v_route_open s) (v_route_close s) (v_run s)
  (v_registrationMap s) n (v_env s).
Definition set_env (e : E) (s : Services PM R E) := mkServices (v_map s) (v_route_open s) (v_route_close s) (v_run s)
  (v_registrationMap s) (v_routes s) e.

Definition new_services (e : E) : Services PM R E := mkServices pm_empty [] [] true ∅ 0 e.

(** A message that a writer released. *)
Definition written (steps : M exn (MsgWriter msg) unit) : result exn msg :=
  m ← compose Telling steps;
  match m with Some m => Ret m | None => Fault NullDeref end.

(** ** Routing *)

Definition route_to (send : msg → M exn R unit) (path : bytes) (m : msg) : V (Z * option msg) :=
  s ← get;
  match pm_longest path (v_map s) with
  | None => mret (HttpStatus.toInt HttpStatus.NotFound, Some m)
  | Some (k, r) =>
      let '(o, r') := send m r in
      modify (set_map (pm_update k r' (v_map s)));;
      match o with
      | Ret _ => mret (HttpStatus.toInt HttpStatus.OK, None)
      | Throw (NngException _ _) => mret (HttpStatus.toInt HttpStatus.ServiceUnavailable, Some m)
      | Throw e => throw e
      | Fault f => fail f
      end
  end.

(** The status, and the message when it was not moved out. *)
Definition routePush : bytes → msg → V (Z * option msg) := route_to route_sendPush.
Definition routeRequest : bytes → msg → V (Z * option msg) := route_to route_sendRequest.

(** ** Registration requests *)

(** [async_recv]; [pipe] is [get_pipe()] of the message.  The result is the
    response sent through the tag.  The comparison of the URI with
    ["*services"] only affects the log. *)
Definition async_recv (id : QueryID) (pipe : PipeID) (m : msg) : V (option msg) :=
  match View.parse REQUEST (msg_body m) with
  | Throw (MsgException error excerpt _) =>
      r ← lift (written (msg_replyWithError error excerpt (lit "Service Registry"))); mret (Some r)
  | Throw e => throw e
  | Fault f => fail f
  | Ret v =>
      _ ← lift (View.uriString v);
      text ← lift (View.bodyString v);
      let '(pathPrefix, rest) := Detail.ConsumeLine text in
      let '(configLine, rest) := Detail.ConsumeLine rest in
      match rest with
      | _ :: _ =>
          r ← lift (written (WriteReply (HttpStatus.toInt HttpStatus.BadRequest);;
                             writeBody (lit "Malformed Registration Request Body.")));
          mret (Some r)
      | [] =>
          s ← get;
          modify (set_registrations (match v_registrationMap s !! pipe with
                                     | Some _ => v_registrationMap s
                                     | None => <[pipe:=pathPrefix]> (v_registrationMap s) end));;
          modify (λ s, set_queues (v_route_open s ++ [mkNewRoute id pipe pathPrefix (Host.InProc pathPrefix)])
                         (v_route_close s) s);;
          mret None
      end
  end.

(** [pipeEvent]: [erase] of an unregistered pipe is [erase(end())]. *)
Definition pipe_event (pipe : PipeID) (ev : pipe_ev) : V unit :=
  match ev with
  | rem_post =>
      s ← get;
      match v_registrationMap s !! pipe with
      | None => fail EraseEnd
      | Some path =>
          modify (set_registrations (delete pipe (v_registrationMap s)));;
          match pm_find path (v_map s) with
          | Some route =>
              modify (set_map (pm_erase path (v_map s)));;
              modify (λ s, set_queues (v_route_open s) (v_route_close s ++ [route]) s)
          | None => mret tt
          end
      end
  | _ => mret tt
  end.

(** ** The management thread *)

Definition in_env {A} (m : M exn E A) : V A := zoom v_env set_env m.

(** A route that has lost its service. *)
Definition close_one (route : R) : V unit :=
  in_env (env_sub_disconnect (route_path route));;
  report ← lift (written (WriteReport (lit "*services") (HttpStatus.toInt HttpStatus.Gone);;
                          writeBody (route_path route)));
  in_env (env_publish report);;
  modify (λ s, set_routes (v_routes s - 1) s).

Fixpoint close_loop (fuel : nat) : V unit :=
  s ← get;
  match v_route_close s, fuel with
  | [], _ => mret tt
  | _, O => fail OutOfFuel
  | route :: rest, S fuel =>
      modify (set_queues (v_route_open s) rest);;
      close_one route;;
      close_loop fuel
  end.

(** The answer to a registration request. *)
Definition notify (id : QueryID) (status : Z) (text : bytes) : V unit :=
  m ← lift (written (WriteReply status;; writeHeader (lit "Content-Type") (lit "text/plain");; writeBody text));
  in_env (env_respondTo id m).

(** [map.emplace(uri, new Route(...))]: nothing deletes the route when the
    table refuses its key. *)
Definition emplace (uri : bytes) : V unit :=
  r ← lift (route_new uri);
  modify (λ s, set_routes (v_routes s + 1) s);;
  s ← get;
  match pm_emplace uri r (v_map s) with
  | Some m => modify (set_map m)
  | None => throw (StdException (lit "Key is too long."))
  end.

(** The body of the [try] block. *)
Definition establish (spec : NewRoute) : V unit :=
  emplace (nr_map_uri spec);;
  in_env (env_sub_dial (nr_host spec));;
  s ← get;
  match pm_find (nr_map_uri spec) (v_map s) with
  | None => fail NullDeref
  | Some r =>
      let '(o, r') := route_dial (nr_host spec) r in
      modify (set_map (pm_update (nr_map_uri spec) r' (v_map s)));;
      lift o
  end.

Definition forget_pipe (spec : NewRoute) : V unit :=
  modify (λ s, set_registrations (delete (nr_pipeID spec) (v_registrationMap s)) s).

(** Its handler. *)
Definition failed_dial (spec : NewRoute) : V unit :=
  modify (λ s, set_map (pm_erase (nr_map_uri spec) (v_map s)) s);;
  forget_pipe spec;;
  host ← lift (Host.toString pf (nr_host spec));
  notify (nr_queryID spec) (HttpStatus.toInt HttpStatus.ServiceUnavailable)
    (host ++ [LF] ++ lit "Could not dial specified service URI.").

(** [try {m; ok} catch (nng::exception e) {handler}]. *)
Definition try_nng (m handler ok : V unit) : V unit := λ s,
  match m s with
  | (Ret _, s') => ok s'
  | (Throw (NngException _ _), s') => handler s'
  | o => o
  end.

Definition open_one (spec : NewRoute) : V unit :=
  s ← get;
  match pm_find (nr_map_uri spec) (v_map s) with
  | Some _ =>
      forget_pipe spec;;
      notify (nr_queryID spec) (HttpStatus.toInt HttpStatus.Conflict)
        (nr_map_uri spec ++ [LF] ++ lit "This URI is already registered.")
  | None =>
      try_nng (establish spec) (failed_dial spec)
        (notify (nr_queryID spec) (HttpStatus.toInt HttpStatus.OK)
           (nr_map_uri spec ++ [LF] ++ lit "Enrolled with this URI.");;
         report ← lift (written (WriteReport (lit "*services") (HttpStatus.toInt HttpStatus.Created);;
                                 writeBody (nr_map_uri spec)));
         in_env (env_publish report))
  end.

Fixpoint open_loop (fuel : nat) : V unit :=
  s ← get;
  match v_route_open s, fuel with
  | [], _ => mret tt
  | _, O => fail OutOfFuel
  | spec :: rest, S fuel =>
      modify (set_queues rest (v_route_close s));;
      open_one spec;;
      open_loop fuel
  end.

(** One iteration of [run_management_thread], from one wait to the next.  An
    exception would leave the function of the thread. *)
Definition management_pass : V unit :=
  noexcept (s ← get;
            close_loop (length (v_route_close s));;
            s ← get;
            open_loop (length (v_route_open s))).

(** ** The system *)

Inductive event : Type :=
| ERecv (id : QueryID) (pipe : PipeID) (m : msg)
| EPipe (pipe : PipeID) (ev : pipe_ev)
| EManage
| EPush (path : bytes) (m : msg)
| ERequest (path : bytes) (m : msg).

Definition handle (e : event) : V unit :=
  match e with
  | ERecv id pipe m => async_recv id pipe m;; mret tt
  | EPipe pipe ev => pipe_event pipe ev
  | EManage => management_pass
  | EPush path m => routePush path m;; mret tt
  | ERequest path m => routeRequest path m;; mret tt
  end.

End Ops.
Arguments event : clear implicits.
End ServicesOps.
