(* ===== verification/Server.v ===== *)
(** * The server

    [Server] of [include/telling/server.h] and [src/telling/server.cpp]: the
    relays and the directory of services put together.  [ServerEnv] holds the
    communicators that the directory calls (its own, and the publishing relay)
    and implements the interface [ServicesEnv]; the operations of the relays
    that need the directory are here. *)
From stdpp Require Import gmap.
From S2P Require Import Prelude.
From S2P Require Import Nng.
From S2P Require Import MsgUtil.
From S2P Require Import Status.
From S2P Require Import MsgLayout.
From S2P Require Import MsgView.
From S2P Require Import MsgWriter.
From S2P Require Import Pattern.
From S2P Require Import HostAddress.
From S2P Require Import AsyncSend.
From S2P Require Import AsyncRecv.
From S2P Require Import ServiceReply.
From S2P Require Import Socket.
From S2P Require Import Boxes.
From S2P Require Import PrefixMap.
From S2P Require Import Route.
From S2P Require Import Relays.
From S2P Require Import Services.

(** ** The communicators of the directory

    [register_reply], with its threads and its socket; [publish_events]; the
    relay [server.publish]; and the history: the answers and the reports that
    were accepted. *)
Record ServerEnv (P msg : Type) : Type := mkServerEnv {
  en_register : ReplyOps.Sys unit msg;
  en_register_socket : Socket P;
  en_events : SendBox P msg;
  en_publish : PubSub P msg;
  en_answers : list (QueryID * msg);
  en_announced : list msg;
}.
Arguments mkServerEnv {P msg} _ _ _ _ _ _.
Arguments en_register {P msg} _.
Arguments en_register_socket {P msg} _.
Arguments en_events {P msg} _.
Arguments en_publish {P msg} _.
Arguments en_answers {P msg} _.
Arguments en_announced {P msg} _.

(** The directory as the handler of [register_reply]: [async_prep] and
    [async_sent] do nothing, [async_error] writes to the log; [async_recv] is
    [ServicesOps.async_recv], a step of its own. *)
#[export] Instance Directory_handler {msg} : AsyncRespond unit msg := {
  rep_recv _ _ h := (inr None, h);
  rep_prep _ m h := (inr (Some m), h);
  rep_sent _ h := h;
  rep_error _ _ h := h;
}.

(** [Server]; [sv_ID] gives the addresses [address_register] and
    [address_internal]. *)
Record Server (PM R P msg : Type) : Type := mkServer {
  sv_ID : bytes;
  sv_pull : PushPull P msg;
  sv_reply : ReqRep P msg;
  sv_services : Services PM R (ServerEnv P msg);
}.
Arguments mkServer {PM R P msg} _ _ _ _.
Arguments sv_ID {PM R P msg} _.
Arguments sv_pull {PM R P msg} _.
Arguments sv_reply {PM R P msg} _.
Arguments sv_services {PM R P msg} _.

(** The hosts of a server, in the order of the arguments of [Listen]. *)
Inductive HOST : Set := REPLY_HOST | PUBLISH_HOST | PULL_HOST.

#[export] Instance HOST_eq_dec : EqDecision HOST.
Proof. solve_decision. Defined.

Module ServerOps.
Section Ops.
Context {PM R P msg : Type}.
Context `{NngMsg msg} {Hpm : PrefixMap PM R} {Hroute : Routing R msg} {Hpipe : PipeEventHandler P}.
Context (nng_open : bool → PROTOCOL → result exn Z).
Context (make_connector : bool → Z → bytes → gset Z → result exn Z).
Context (pf : PLATFORM).

(** ** What the directory calls *)

Definition respondTo (id : QueryID) (m : msg) : M exn (ServerEnv P msg) unit := λ e,
  let '(r, y) := ReplyOps.respond id m (ReplyOps.y_reply (en_register e)) in
  (r, mkServerEnv (ReplyOps.mkSys y (ReplyOps.y_threads (en_register e))) (en_register_socket e)
        (en_events e) (en_publish e)
        (match r with Ret _ => en_answers e ++ [(id, m)] | _ => en_answers e end) (en_announced e)).

Definition publish_event (m : msg) : M exn (ServerEnv P msg) unit := λ e,
  let '(r, b) := SendBoxOps.publish m (en_events e) in
  (r, mkServerEnv (en_register e) (en_register_socket e) b (en_publish e) (en_answers e)
        (match r with Ret _ => en_announced e ++ [m] | _ => en_announced e end)).

Definition set_publish_relay (p : PubSub P msg) (e : ServerEnv P msg) :=
  mkServerEnv (en_register e) (en_register_socket e) (en_events e) p (en_answers e) (en_announced e).

(** [server.publish.subscribe.dial(host)] and [.disconnect(path)]; the latter
    takes the path for a URI. *)
Definition on_subscriber (op : M exn (Socket P) unit) : M exn (ServerEnv P msg) unit :=
  zoom (λ e, ps_subscribe (en_publish e))
    (λ k e, set_publish_relay (RelayOps.set_subscribe k (en_publish e)) e) op.
Definition sub_dial (host : HostAddress) : M exn (ServerEnv P msg) unit :=
  on_subscriber (RouteOps.dial_socket make_connector pf host).
Definition sub_disconnect (path : bytes) : M exn (ServerEnv P msg) unit :=
  on_subscriber (SocketOps.disconnect path).

Definition Server_env : ServicesEnv (ServerEnv P msg) msg := {|
  env_respondTo := respondTo;
  env_publish := publish_event;
  env_sub_dial := sub_dial;
  env_sub_disconnect := sub_disconnect;
|}.

(** ** Construction *)

Definition address_register (ID : bytes) : HostAddress := Host.InProc (ID ++ lit "/register").
Definition address_internal (ID : bytes) : HostAddress := Host.InProc (ID ++ lit "/internal").

(** The constructor of the directory, up to the start of the management
    thread: [made] is what [make_ctx] gives for the first context of
    [register_reply], [aios] the exception of [make_aio], if it throws, [self]
    the directory as the handler of its pipes. *)
Definition new_directory (ID : bytes) (made : exn + QueryID) (aios : option exn) (self : P) (publish : PubSub P msg) :
    result exn (Services PM R (ServerEnv P msg)) :=
  k ← SocketOps.open_socket nng_open SERVICE REQ_REP STANDARD;
  events ← SendBoxOps.Publish_Box nng_open;
  y ← RouteOps.init (ReplyOps.initialize (Some tt) made aios) ReplyOps.new;
  k ← RouteOps.init (SocketOps.setPipeHandler (Some self)) k;
  k ← RouteOps.init (RelayOps.listen_socket make_connector pf (address_register ID)) k;
  events ← RouteOps.init (zoom sb_socket SendBoxOps.set_box_socket
             (RouteOps.dial_socket make_connector pf (address_internal ID))) events;
  Ret (ServicesOps.new_services
         (mkServerEnv (ReplyOps.mkSys (ReplyOps.set_ready (SocketOps.isReady k) y) []) k events publish [] [])).

Abbreviation S := (Server PM R P msg).
Abbreviation SV := (M exn S).

Definition set_pull (r : PushPull P msg) (s : S) := mkServer (sv_ID s) r (sv_reply s) (sv_services s).
Definition set_reply (r : ReqRep P msg) (s : S) := mkServer (sv_ID s) (sv_pull s) r (sv_services s).
Definition set_services (v : Services PM R (ServerEnv P msg)) (s : S) :=
  mkServer (sv_ID s) (sv_pull s) (sv_reply s) v.
Definition set_relay (p : PubSub P msg) (s : S) :=
  set_services (ServicesOps.set_env (set_publish_relay p (v_env (sv_services s))) (sv_services s)) s.
Definition sv_publish (s : S) : PubSub P msg := en_publish (v_env (sv_services s)).

(** An operation on [hostSocket()] of each relay. *)
Definition on_reply_host (op : M exn (Socket P) unit) : SV unit :=
  zoom (λ s, rr_reply_ext (sv_reply s)) (λ k s, set_reply (RelayOps.set_reply_ext k (sv_reply s)) s) op.
Definition on_publish_host (op : M exn (Socket P) unit) : SV unit :=
  zoom (λ s, sb_socket (ps_publish (sv_publish s)))
    (λ k s, set_relay (RelayOps.set_publish_socket k (sv_publish s)) s) op.
Definition on_pull_host (op : M exn (Socket P) unit) : SV unit :=
  zoom (λ s, pp_socket (sv_pull s)) (λ k s, set_pull (RelayOps.set_pull_socket k (sv_pull s)) s) op.

(** The arguments of [Listen] and [Disconnect]. *)
Definition on_host (op : M exn (Socket P) unit) (h : HOST) : SV unit :=
  match h with
  | REPLY_HOST => on_reply_host op
  | PUBLISH_HOST => on_publish_host op
  | PULL_HOST => on_pull_host op
  end.

(** [ARGS_CALL_REF]: the hosts in the order of the evaluation of the arguments,
    which the language does not specify. *)
Fixpoint args_call_ref (op : M exn (Socket P) unit) (order : list HOST) : SV unit :=
  match order with
  | [] => mret tt
  | h :: order => on_host op h;; args_call_ref op order
  end.

Definition open (base : HostAddress) (order order' : list HOST) : SV unit :=
  CommunicatorOps.catch_nng
    (args_call_ref (RelayOps.listen_socket make_connector pf base) order)
    (args_call_ref (SocketOps.at_base pf SocketOps.disconnect base) order').
(** [Disconnect] is [noexcept]. *)
Definition close (base : HostAddress) (order : list HOST) : SV unit :=
  noexcept (args_call_ref (SocketOps.at_base pf SocketOps.disconnect base) order).

(** The constructor.  An exception of [open] ends it, after the members have
    been destroyed. *)
Definition new_server (ID : bytes) (made : exn + QueryID) (aios : option exn) (self : P) (open_inproc : bool)
    (order order' : list HOST) : result exn S :=
  publish ← RelayOps.new_PubSub nng_open make_connector pf (address_internal ID);
  pull ← RelayOps.new_PushPull nng_open;
  reply ← RelayOps.new_ReqRep nng_open make_connector pf (address_internal ID);
  services ← new_directory ID made aios self publish;
  let s := mkServer ID pull reply services in
  if open_inproc then RouteOps.init (open (Host.InProc ID) order order') s else Ret s.

(** ** The relays and the directory *)

Definition in_services {A} (m : M exn (Services PM R (ServerEnv P msg)) A) : SV A := zoom sv_services set_services m.
Definition in_reply {A} (m : M exn (ReqRep P msg) A) : SV A := zoom sv_reply set_reply m.

(** The error reply of [ReqRep]: [kept] is the message, if it was not moved. *)
Definition error_reply (status : Z) (uri : bytes) (kept : option msg) : M exn (MsgWriter msg) unit :=
  startReply_std status;;
  (if status =? HttpStatus.toInt HttpStatus.NotFound
   then writeBody (lit "No service for URI `" ++ uri ++ lit "`")
   else if status =? HttpStatus.toInt HttpStatus.ServiceUnavailable
   then writeBody (lit "Service exists but forwarding failed.")
   else mret tt);;
  match kept with
  | Some m => setNNGHeader (msg_header m)
  | None => mret tt
  end.

(** [ReqRep::async_recv(ClientRequesting, msg)].  The view refers to the bytes
    of the message, which are still there after a failure. *)
Definition client_requesting (m : msg) : SV unit :=
  match View.parse REQUEST (msg_body m) with
  | Throw (MsgException _ _ _) => mret tt
  | Throw e => throw e
  | Fault f => fail f
  | Ret request =>
      uri ← lift (View.uriString request);
      routed ← in_services (ServicesOps.routeRequest uri m);
      let '(status, kept) := (routed : Z * option msg) in
      if HttpStatus.isSuccessful status then mret tt
      else
        reply ← lift (ServicesOps.written (error_reply status uri kept));
        in_reply (RelayOps.service_replying reply)
  end.

(** [PushPull::async_recv(Pulling, msg)]: a message that cannot be routed is
    dropped. *)
Definition pulling (m : msg) : SV unit :=
  match View.parse REQUEST (msg_body m) with
  | Throw (MsgException _ _ _) => mret tt
  | Throw e => throw e
  | Fault f => fail f
  | Ret request =>
      uri ← lift (View.uriString request);
      _ ← in_services (ServicesOps.routePush uri m);
      mret tt
  end.

(** The callbacks of the receiving loops. *)
Definition request_received (r : nng_error) (m : msg) : SV unit :=
  noexcept (s ← get;
            (if rl_handler (rr_recv (sv_reply s)) && bool_decide (r = success) then client_requesting m else mret tt);;
            in_reply (zoom rr_recv RelayOps.set_rep_recv (AsyncRecvLoop.complete r m))).

Definition push_received (r : nng_error) (m : msg) : SV unit :=
  noexcept (s ← get;
            (if rl_handler (pp_loop (sv_pull s)) && bool_decide (r = success) then pulling m else mret tt);;
            zoom sv_pull set_pull (zoom pp_loop RelayOps.set_pull_loop (AsyncRecvLoop.complete r m))).

(** ** Destruction

    [~Services]: the handler of [register_reply] expires and the management
    thread is told to end and joined.  The routes of the table are not
    deleted: [v_routes] stays as it is. *)
Definition destroy_directory : M exn (Services PM R (ServerEnv P msg)) unit :=
  modify (λ s, ServicesOps.set_env
    (let e := v_env s in
     mkServerEnv (ReplyOps.mkSys (ReplyOps.set_handler None (ReplyOps.y_reply (en_register e)))
                    (ReplyOps.y_threads (en_register e)))
       (en_register_socket e) (en_events e) (en_publish e) (en_answers e) (en_announced e)) s);;
  modify (λ s, mkServices (v_map s) (v_route_open s) (v_route_close s) false (v_registrationMap s) (v_routes s) (v_env s)).

(** [~Server]: the members, the last one first. *)
Definition destroy_server : SV unit :=
  in_services destroy_directory;;
  in_reply RelayOps.destroy_ReqRep;;
  zoom sv_pull set_pull RelayOps.destroy_PushPull;;
  zoom sv_publish set_relay RelayOps.destroy_PubSub.

End Ops.
End ServerOps.
