(* ===== verification/Registration.v ===== *)
(** * Service registration

    [Registration] of [include/telling/service_registration.h] and
    [src/telling/service_registration.cpp]: a request to the server's
    directory, and the handler of its response.  The bundles [Service_Base],
    [Service] and [Service_Box], which register with a server when they are
    constructed, are in [Bundles]. *)
From stdpp Require Import gmap.
From S2P Require Import Prelude.
From S2P Require Import Nng.
From S2P Require Import MsgUtil.
From S2P Require Import Status.
From S2P Require Import MsgProtocol.
From S2P Require Import Method.
From S2P Require Import MsgLayout.
From S2P Require Import MsgView.
From S2P Require Import MsgWriter.
From S2P Require Import HostAddress.
From S2P Require Import ClientRequest.

(** [Registration::STATUS]. *)
Inductive STATUS : Set := INITIAL | REQUESTED | ENLISTED | FAILED.

#[export] Instance STATUS_eq_dec : EqDecision STATUS.
Proof. solve_decision. Defined.

(** [Registration::Delegate]: the status and the exception, an error of NNG
    with its source. *)
Record RegDelegate : Type := mkRegDelegate { dg_status : STATUS; dg_except : nng_error * bytes }.

Module RegistrationOps.

Definition new_delegate : RegDelegate := mkRegDelegate INITIAL (success, []).

(** [Delegate::async_sent]. *)
Definition async_sent (d : RegDelegate) : RegDelegate := mkRegDelegate REQUESTED (dg_except d).

(** The source and the error of a reply that is not successful. *)
Definition reply_error (repStatus : Z) : nng_error * bytes :=
  if HttpStatus.isClientError repStatus then
    (if repStatus =? HttpStatus.toInt HttpStatus.Unauthorized then perm
     else if repStatus =? HttpStatus.toInt HttpStatus.Conflict then addrinuse
     else if repStatus =? HttpStatus.toInt HttpStatus.NotFound then exist
     else if repStatus =? HttpStatus.toInt HttpStatus.URITooLong then addrinval
     else internal, lit "Registration Request Error")
  else if HttpStatus.isServerError repStatus then (internal, lit "Registration Server Error")
  else if HttpStatus.isInformational repStatus then (internal, lit "Registration Informational Reply")
  else if HttpStatus.isRedirection repStatus then (internal, lit "Registration Redirection")
  else (internal, lit "Registration Reply Status").

(** [Delegate::async_recv], with the body of the response.  A message error of
    the parser is not caught. *)
Definition async_recv (response : bytes) (d : RegDelegate) : result exn RegDelegate :=
  reply ← View.parse REPLY response;
  repStatus ← View.status reply;
  Ret (if HttpStatus.isSuccessful repStatus then mkRegDelegate ENLISTED (dg_except d)
       else mkRegDelegate FAILED (reply_error repStatus)).

(** [Delegate::async_error]. *)
Definition async_error (error : nng_error) (d : RegDelegate) : RegDelegate :=
  mkRegDelegate FAILED (error, lit "Registration Networking Error").

Definition isWorking (d : RegDelegate) : bool :=
  bool_decide (dg_status d = INITIAL) || bool_decide (dg_status d = REQUESTED).
Definition isRegistered (d : RegDelegate) : bool := bool_decide (dg_status d = ENLISTED).

Section Requester.
Context {msg : Type} `{NngMsg msg}.

(** The delegate as the handler of [requester].  [async_recv] runs in a
    callback of NNG, so an exception there ends the program: the handler is
    then a fault. *)
#[export] Instance RegDelegate_handler : AsyncQuery (result exn RegDelegate) msg := {
  q_prep _ m d := (inr (Some m), d);
  q_sent _ d := match d with Ret d => Ret (async_sent d) | d => d end;
  q_recv _ m d :=
    match d with
    | Ret d => match async_recv (msg_body m) d with Throw _ => Fault NoexceptTerminate | o => o end
    | d => d
    end;
  q_error _ e d := match d with Ret d => Ret (async_error e d) | d => d end;
}.

(** The message of the constructor: the URI to register and the path of the
    service, a line each. *)
Definition registration_steps (servicePath servicePath_alias : bytes) : M exn (MsgWriter msg) unit :=
  let servicePath_alias := if blen servicePath_alias =? 0 then servicePath else servicePath_alias in
  WriteRequest (lit "*services") POST;;
  writeBody (servicePath_alias ++ [LF] ++ servicePath).

Definition registration_message (servicePath servicePath_alias : bytes) : result exn msg :=
  m ← compose Telling (registration_steps servicePath servicePath_alias);
  match m with Some m => Ret m | None => Fault NullDeref end.

(** The address that the constructor dials. *)
Definition register_address (serverID : bytes) : HostAddress := Host.InProc (serverID ++ lit "/register").

(** The constructor, on its communicator: [dial] connects the socket of the
    requester ([isReady()] afterwards is its result) or throws; [made] is what is
    made for the request, its context or an exception. *)
Definition new_registration (servicePath servicePath_alias serverID : bytes)
    (dial : HostAddress → result exn bool) (made : exn + QueryID) :
    result exn (Request (result exn RegDelegate) msg) :=
  ready ← dial (register_address serverID);
  m ← registration_message servicePath servicePath_alias;
  match (RequestOps.initialize (Some (Ret new_delegate));;
         modify (RequestOps.set_ready ready);;
         RequestOps.request made m) RequestOps.new with
  | (Ret _, r) => Ret r
  | (Throw e, _) => Throw e
  | (Fault f, _) => Fault f
  end.

End Requester.
End RegistrationOps.
