(* ===== verification/ServicesFacts.v ===== *)
(** * The directory of services: routing and registration

    Theorems about [Services], against the interfaces of the prefix map, the
    routes, and the communicators it calls. *)
From stdpp Require Import gmap.
From S2P Require Import Prelude.
From S2P Require Import Nng.
From S2P Require Import MsgUtil.
From S2P Require Import Status.
From S2P Require Import MsgProtocol.
From S2P Require Import MsgLayout.
From S2P Require Import MsgView.
From S2P Require Import MsgParse.
From S2P Require Import MsgWriter.
From S2P Require Import Notices.
From S2P Require Import HostAddress.
From S2P Require Import Socket.
From S2P Require Import PrefixMap.
From S2P Require Import Route.
From S2P Require Import Services.

(** What the communicators promise while they are open ([env_ok]): an answer to
    a query that is awaited, or a report, is accepted; an answered query is
    awaited no more; nothing else answers or reports. *)
Class ServicesEnvLaws (E msg : Type) `{ServicesEnv E msg} : Type := {
  env_ok : E → Prop;
  awaiting : E → gset QueryID;
  answers : E → list (QueryID * msg);
  announced : E → list msg;
  respond_law id m e : env_ok e → id ∈ awaiting e →
    ∃ e', env_respondTo id m e = (Ret tt, e') ∧ env_ok e' ∧ awaiting e' = awaiting e ∖ {[id]}
      ∧ answers e' = answers e ++ [(id, m)] ∧ announced e' = announced e;
  publish_law m e : env_ok e →
    ∃ e', env_publish m e = (Ret tt, e') ∧ env_ok e' ∧ awaiting e' = awaiting e
      ∧ answers e' = answers e ∧ announced e' = announced e ++ [m];
  sub_dial_law host e : env_ok e →
    nng_only (fst (env_sub_dial host e)) ∧ env_ok (snd (env_sub_dial host e))
    ∧ awaiting (snd (env_sub_dial host e)) = awaiting e
    ∧ answers (snd (env_sub_dial host e)) = answers e ∧ announced (snd (env_sub_dial host e)) = announced e;
  sub_disconnect_law path e : env_ok e →
    ∃ e', env_sub_disconnect path e = (Ret tt, e') ∧ env_ok e' ∧ awaiting e' = awaiting e
      ∧ answers e' = answers e ∧ announced e' = announced e;
}.

Module ServicesFacts.
Import ServicesOps Notices.

(** What the answers [cs] to the registrations [specs] say: the URIs enrolled,
    the pipes of the registrants refused, and the number of services that could
    not be dialled. *)
Fixpoint enrolled (specs : list NewRoute) (cs : list HttpStatus.Code) : list bytes :=
  match specs, cs with
  | spec :: specs, HttpStatus.OK :: cs => nr_map_uri spec :: enrolled specs cs
  | _ :: specs, _ :: cs => enrolled specs cs
  | _, _ => []
  end.
Fixpoint refused (specs : list NewRoute) (cs : list HttpStatus.Code) : list PipeID :=
  match specs, cs with
  | _ :: specs, HttpStatus.OK :: cs => refused specs cs
  | spec :: specs, _ :: cs => nr_pipeID spec :: refused specs cs
  | _, _ => []
  end.
Fixpoint unavailable (cs : list HttpStatus.Code) : Z :=
  match cs with
  | [] => 0
  | HttpStatus.ServiceUnavailable :: cs => 1 + unavailable cs
  | _ :: cs => unavailable cs
  end.
Definition forget_all (pipes : list PipeID) (regs : gmap PipeID bytes) : gmap PipeID bytes :=
  foldl (λ regs pipe, delete pipe regs) regs pipes.

Lemma forget_all_eq pipes regs pipe :
  forget_all pipes regs !! pipe = if decide (pipe ∈ pipes) then None else regs !! pipe.
Proof.
  revert regs. induction pipes as [|p pipes IH]; intros regs; [done|]. unfold forget_all in *. simpl. rewrite IH.
  destruct (decide (pipe ∈ pipes)), (decide (pipe ∈ p :: pipes)) as [Hin|Hn]; try done.
  - set_solver.
  - apply elem_of_cons in Hin as [->|?]; [by rewrite lookup_delete_eq | done].
  - rewrite lookup_delete_ne; [done|]. set_solver.
Qed.

Section Facts.
Context {PM R E msg : Type}.
Context {Hmsg : NngMsg msg} {Hmsgl : NngMsgLaws msg} {Hpm : PrefixMap PM R} {Hpml : PrefixMapLaws PM R}.
Context {Hroute : Routing R msg} {Hroutel : RoutingLaws R msg} {Henv : ServicesEnv E msg} {Henvl : ServicesEnvLaws E msg}.
Context (pf : PLATFORM).
Implicit Types (s : Services PM R E) (spec : NewRoute) (r : R).

#[local] Arguments HttpStatus.toInt : simpl never.

(** ** The specification of the management thread *)

(** A route for a service, dialled, when it can be made and the server's
    subscriber and the route can both dial the service. *)
Definition dial_service spec (e : E) : option R * E :=
  match route_new (nr_map_uri spec) with
  | Ret r =>
      let '(o, e1) := env_sub_dial (nr_host spec) e in
      (match o, route_dial (nr_host spec) r with Ret _, (Ret _, r') => Some r' | _, _ => None end, e1)
  | _ => (None, e)
  end.

(** The text of the answer to a registration. *)
Definition answer_text spec (c : HttpStatus.Code) : bytes :=
  match c with
  | HttpStatus.OK => nr_map_uri spec ++ [LF] ++ lit "Enrolled with this URI."
  | HttpStatus.Conflict => nr_map_uri spec ++ [LF] ++ lit "This URI is already registered."
  | _ => (lit "inproc://" ++ nr_map_uri spec) ++ [LF] ++ lit "Could not dial specified service URI."
  end.

(** The communicators are given the answer to a registration, and a report
    about a URI. *)
Definition answered spec (c : HttpStatus.Code) (e e' : E) : Prop :=
  ∃ m : msg, reads_reply m (HttpStatus.toInt c) (answer_text spec c)
    ∧ env_respondTo (nr_queryID spec) m e = (Ret tt, e').
Definition reported (uri : bytes) (c : HttpStatus.Code) (e e' : E) : Prop :=
  ∃ m : msg, reads_report m (lit "*services") (HttpStatus.toInt c) uri ∧ env_publish m e = (Ret tt, e').

(** Routes that lost their service: the subscriber is disconnected, then the
    loss is reported. *)
Inductive dismissed : list R → E → E → Prop :=
| dismissed_nil e : dismissed [] e e
| dismissed_cons r rs e e1 e2 e' :
    env_sub_disconnect (route_path r) e = (Ret tt, e1) → reported (route_path r) HttpStatus.Gone e1 e2 →
    dismissed rs e2 e' → dismissed (r :: rs) e e'.

(** The registrations are served in order, each with one answer: 409 when its
    URI is in the table; 503 when its service cannot be dialled; otherwise 200,
    the dialled route enters the table and the new service is reported. *)
Inductive served : gmap bytes R → E → list NewRoute → list HttpStatus.Code → gmap bytes R → E → Prop :=
| served_nil T e : served T e [] [] T e
| served_conflict T e e1 spec specs cs T' e' :
    is_Some (T !! nr_map_uri spec) → answered spec HttpStatus.Conflict e e1 →
    served T e1 specs cs T' e' → served T e (spec :: specs) (HttpStatus.Conflict :: cs) T' e'
| served_unavailable T e e1 e2 spec specs cs T' e' :
    T !! nr_map_uri spec = None → dial_service spec e = (None, e1) →
    answered spec HttpStatus.ServiceUnavailable e1 e2 →
    served T e2 specs cs T' e' → served T e (spec :: specs) (HttpStatus.ServiceUnavailable :: cs) T' e'
| served_ok T e e1 e2 e3 r spec specs cs T' e' :
    T !! nr_map_uri spec = None → dial_service spec e = (Some r, e1) →
    answered spec HttpStatus.OK e1 e2 → reported (nr_map_uri spec) HttpStatus.Created e2 e3 →
    served (<[nr_map_uri spec := r]> T) e3 specs cs T' e' →
    served T e (spec :: specs) (HttpStatus.OK :: cs) T' e'.

(** ** The invariant *)

Abbreviation table s := (entries (v_map s)).
Abbreviation short p := (blen p < 2 ^ 59).

Record Inv s : Prop := {
  inv_table k r : table s !! k = Some r → route_ok r ∧ route_path r = k ∧ short k;
  inv_close : Forall (λ r, route_ok r ∧ short (route_path r)) (v_route_close s);
  inv_open : Forall (λ spec, short (nr_map_uri spec) ∧ nr_host spec = Host.InProc (nr_map_uri spec)) (v_route_open s);
  inv_env : env_ok (v_env s);
  inv_ids : NoDup (map nr_queryID (v_route_open s));
  inv_awaiting : Forall (λ spec, nr_queryID spec ∈ awaiting (v_env s)) (v_route_open s);
}.

(** A step that only answers [as_] and announces [ps]. *)
Record says s s' (as_ : list (QueryID * msg)) (ps : list msg) : Prop := {
  says_map : v_map s' = v_map s;
  says_open : v_route_open s' = v_route_open s;
  says_close : v_route_close s' = v_route_close s;
  says_regs : v_registrationMap s' = v_registrationMap s;
  says_routes : v_routes s' = v_routes s;
  says_answers : answers (v_env s') = answers (v_env s) ++ as_;
  says_announced : announced (v_env s') = announced (v_env s) ++ ps;
  says_ok : env_ok (v_env s');
  says_awaiting : awaiting (v_env s') = awaiting (v_env s) ∖ list_to_set (map fst as_);
}.

Lemma written_eq (steps : M exn (MsgWriter msg) unit) m : compose Telling steps = Ret (Some m) → written steps = Ret m.
Proof. intros E1. unfold written, mbind, result_bind. by rewrite E1. Qed.

Lemma notify_ok id code text s :
  env_ok (v_env s) → id ∈ awaiting (v_env s) → blen text < 2 ^ 60 →
  ∃ m s', notify (PM := PM) (R := R) id (HttpStatus.toInt code) text s = (Ret tt, s')
    ∧ reads_reply m (HttpStatus.toInt code) text ∧ says s s' [(id, m)] []
    ∧ env_respondTo id m (v_env s) = (Ret tt, v_env s').
Proof.
  intros Hok Hid Hb.
  destruct (reply_written (msg := msg) code text_plain text (or_intror eq_refl) Hb) as (m & Hm & Hr).
  destruct (respond_law id m (v_env s) Hok Hid) as (e' & E1 & Hok' & Hw & E2 & E3).
  exists m, (set_env e' s). split_and!; [|done| |done].
  - unfold notify, in_env, zoom, mbind, M_bind, lift. rewrite (written_eq _ m), E1; [done|].
    rewrite <- Hm. apply compose_ext, one_header.
  - split; simpl; try done; [by rewrite app_nil_r | by rewrite Hw, union_empty_r_L].
Qed.

Lemma announce_ok code path s :
  env_ok (v_env s) → blen path < 2 ^ 60 →
  ∃ m s', (report ← lift (written (WriteReport (lit "*services") (HttpStatus.toInt code);; writeBody path));
           in_env (PM := PM) (R := R) (env_publish (msg := msg) report)) s = (Ret tt, s')
    ∧ reads_report m (lit "*services") (HttpStatus.toInt code) path ∧ says s s' [] [m]
    ∧ env_publish m (v_env s) = (Ret tt, v_env s').
Proof.
  intros Hok Hb. destruct (report_written (msg := msg) (lit "*services") code path) as (m & Hm & Hr);
    [reflexivity | by vm_compute | done |].
  destruct (publish_law m (v_env s) Hok) as (e' & E1 & Hok' & Hw & E2 & E3).
  exists m, (set_env e' s). split_and!; [|done| |done].
  - unfold in_env, zoom, mbind, M_bind, lift. by rewrite (written_eq _ m), E1.
  - split; simpl; try done; [by rewrite app_nil_r | by rewrite Hw, difference_empty_L].
Qed.

(** The queries that still wait are still awaited. *)
Lemma awaiting_rest (ids : gset QueryID) X (specs : list NewRoute) :
  Forall (λ spec, nr_queryID spec ∈ X) specs → Forall (λ spec, nr_queryID spec ∉ ids) specs →
  Forall (λ spec, nr_queryID spec ∈ X ∖ ids) specs.
Proof.
  intros H1 H2. apply Forall_forall. intros spec Hs. apply elem_of_difference.
  rewrite Forall_forall in H1, H2. auto.
Qed.

Lemma says_Inv s s' as_ ps :
  says s s' as_ ps → Forall (λ spec, nr_queryID spec ∉ map fst as_) (v_route_open s) → Inv s → Inv s'.
Proof.
  intros [E1 E2 E3 _ _ _ _ Hok Hw] Hn [H1 H2 H3 H4 H5 H6]. split; rewrite ?E1, ?E2, ?E3, ?Hw; auto.
  apply awaiting_rest; [done|]. eapply Forall_impl; [exact Hn|]. intros spec. by rewrite elem_of_list_to_set.
Qed.

(** ** Closing routes *)

Lemma close_one_ok r s :
  env_ok (v_env s) → short (route_path r) →
  ∃ m s', close_one (PM := PM) r s = (Ret tt, s')
    ∧ reads_report m (lit "*services") (HttpStatus.toInt HttpStatus.Gone) (route_path r)
    ∧ says s (set_routes (v_routes s) s') [] [m] ∧ v_routes s' = v_routes s - 1
    ∧ (∀ rs e', dismissed rs (v_env s') e' → dismissed (r :: rs) (v_env s) e').
Proof.
  intros Hok Hs. destruct (sub_disconnect_law (route_path r) (v_env s) Hok) as (e1 & E1 & Hok1 & W1 & A1 & P1).
  destruct (announce_ok HttpStatus.Gone (route_path r) (set_env e1 s)) as (m & s' & E2 & Hr & Hsay & Hpub); [done|lia|].
  exists m, (set_routes (v_routes s' - 1) s'). destruct Hsay as [F1 F2 F3 F4 F5 F6 F7 F8 F9].
  split_and!; [|done| | |].
  - unfold close_one. erewrite bind_run by (unfold in_env, zoom; by rewrite E1).
    revert E2. unfold in_env, zoom, mbind, M_bind, lift, modify. simpl.
    destruct (written _) as [m1| |]; [|done..]. destruct (env_publish m1 e1) as [[]  ?]; try done.
    simpl. by intros [= _ <-].
  - simpl in *. by split; simpl; rewrite ?F1, ?F2, ?F3, ?F4, ?F6, ?F7, ?F9, ?A1, ?P1, ?W1.
  - simpl in *. by rewrite F5.
  - intros rs e' Hd. eapply dismissed_cons; [exact E1 | by exists m | done].
Qed.

Lemma close_loop_ok fuel s :
  Inv s → (length (v_route_close s) ≤ fuel)%nat →
  ∃ ms s', close_loop (PM := PM) fuel s = (Ret tt, s') ∧ Inv s'
    ∧ Forall2 (λ r m, reads_report m (lit "*services") (HttpStatus.toInt HttpStatus.Gone) (route_path r))
        (v_route_close s) ms
    ∧ v_route_close s' = [] ∧ v_map s' = v_map s ∧ v_route_open s' = v_route_open s
    ∧ v_registrationMap s' = v_registrationMap s
    ∧ v_routes s' = v_routes s - Z.of_nat (length (v_route_close s))
    ∧ answers (v_env s') = answers (v_env s) ∧ announced (v_env s') = announced (v_env s) ++ ms
    ∧ dismissed (v_route_close s) (v_env s) (v_env s').
Proof.
  revert s. induction fuel as [|fuel IH]; intros s HI Hl; simpl; unfold mbind at 1, M_bind at 1; simpl;
    destruct (v_route_close s) as [|r rest] eqn:Ec; simpl in Hl; try lia.
  1, 2: exists [], s; simpl; rewrite app_nil_r, Z.sub_0_r; split_and!; try done; constructor.
  pose proof (inv_close s HI) as Hc. rewrite Ec in Hc. inversion_clear Hc as [|? ? [Hok Hs] Hrest].
  destruct (close_one_ok r (set_queues (v_route_open s) rest s) (inv_env s HI) Hs)
    as (m & s1 & E1 & Hm & [F1 F2 F3 F4 _ F6 F7 F8 F9] & F5 & Hd).
  simpl in *. destruct (IH s1) as (ms & s2 & E2 & HI2 & Hms & G1 & G2 & G3 & G4 & G5 & G6 & G7 & G8).
  { destruct HI as [H1 H2 H3 H4 H5 H6]. split; rewrite ?F1, ?F2, ?F3, ?F9, ?difference_empty_L; auto. }
  { rewrite F3. lia. }
  exists (m :: ms), s2. rewrite modify_run. erewrite bind_run by exact E1. split_and!; try done.
  - rewrite F3 in Hms. by constructor.
  - congruence.
  - congruence.
  - congruence.
  - rewrite G5, F5, F3. lia.
  - by rewrite G6, F6, app_nil_r.
  - by rewrite G7, F7, <- app_assoc.
  - apply Hd. by rewrite F3 in G8.
Qed.

(** ** Opening routes *)

Definition spec_ok spec : Prop := short (nr_map_uri spec) ∧ nr_host spec = Host.InProc (nr_map_uri spec).

Definition leaked s : Z :=
  v_routes s - Z.of_nat (size (table s)) - Z.of_nat (length (v_route_close s)).

(** The outcome of one registration: the code of the answer. *)
Definition outcome s spec s' (c : HttpStatus.Code) : Prop :=
  let uri := nr_map_uri spec in
  let forgotten := delete (nr_pipeID spec) (v_registrationMap s) in
  match c with
  | HttpStatus.Conflict =>
      is_Some (table s !! uri) ∧ answered spec c (v_env s) (v_env s')
      ∧ table s' = table s ∧ v_registrationMap s' = forgotten ∧ leaked s' = leaked s
  | HttpStatus.ServiceUnavailable =>
      table s !! uri = None
      ∧ (∃ e1, dial_service spec (v_env s) = (None, e1) ∧ answered spec c e1 (v_env s'))
      ∧ table s' = table s ∧ v_registrationMap s' = forgotten
      ∧ leaked s ≤ leaked s' ≤ leaked s + 1
  | HttpStatus.OK =>
      table s !! uri = None
      ∧ (∃ r e1 e2, dial_service spec (v_env s) = (Some r, e1) ∧ answered spec c e1 e2
           ∧ reported uri HttpStatus.Created e2 (v_env s') ∧ table s' = <[uri:=r]> (table s))
      ∧ v_registrationMap s' = v_registrationMap s ∧ leaked s' = leaked s
  | _ => False
  end.

Lemma try_nng_ok (m handler ok : M exn (Services PM R E) unit) s :
  (∀ s', m s = (Ret tt, s') → try_nng m handler ok s = ok s')
  ∧ (∀ e w s', m s = (Throw (NngException e w), s') → try_nng m handler ok s = handler s').
Proof. unfold try_nng. split; [intros s' -> | intros e w s' ->]; done. Qed.

(** A URI that the table cannot hold. *)
Definition too_long spec : Prop := pm_max_key_size < blen (nr_map_uri spec).

(** [emplace] of a free URI. *)
Lemma emplace_ok uri s r :
  table s !! uri = None → route_new uri = Ret r → blen uri ≤ pm_max_key_size →
  ∃ m, emplace (E := E) uri s = (Ret tt, set_map m (set_routes (v_routes s + 1) s)) ∧ entries m = <[uri:=r]> (table s).
Proof.
  intros Hn Er Hl. destruct (entries_emplace uri r (v_map s) Hl) as (m & Em & Et). rewrite Hn in Et.
  exists m. split; [|done]. unfold emplace, mbind, M_bind, lift, get, modify. rewrite Er. simpl. by rewrite Em.
Qed.

(** The [try] block: it throws over a URI that is too long, and otherwise ends
    normally or by an [nng::exception], as the dials do. *)
Definition established spec s (o : result exn unit) s' : Prop :=
  v_route_open s' = v_route_open s ∧ v_route_close s' = v_route_close s
  ∧ v_registrationMap s' = v_registrationMap s
  ∧ (env_ok (v_env s') ∧ awaiting (v_env s') = awaiting (v_env s))
  ∧ answers (v_env s') = answers (v_env s) ∧ announced (v_env s') = announced (v_env s)
  ∧ ((∃ r, o = Ret tt ∧ dial_service spec (v_env s) = (Some r, v_env s') ∧ v_routes s' = v_routes s + 1
       ∧ route_ok r ∧ route_path r = nr_map_uri spec ∧ table s' = <[nr_map_uri spec := r]> (table s))
     ∨ ((∃ e w, o = Throw (NngException e w)) ∧ dial_service spec (v_env s) = (None, v_env s')
       ∧ (v_routes s' = v_routes s + 1 ∧ (∃ r, table s' = <[nr_map_uri spec := r]> (table s))
          ∨ v_routes s' = v_routes s ∧ table s' = table s))).

Lemma nng_only_throw {A} (o : result exn A) : nng_only o → (∃ a, o = Ret a) ∨ ∃ e w, o = Throw (NngException e w).
Proof. destruct o as [a|[]|]; simpl; try done; eauto. Qed.

Lemma establish_ok spec s :
  Inv s → table s !! nr_map_uri spec = None →
  (too_long spec ∧ ∃ w s', establish spec s = (Throw (StdException w), s'))
  ∨ ∃ o s', establish spec s = (o, s') ∧ established spec s o s'.
Proof.
  intros HI Hn. unfold establish, established, dial_service, too_long. set (uri := nr_map_uri spec) in *.
  pose proof (inv_env s HI) as Hok0. pose proof (new_ok uri) as Hnew.
  destruct (route_new uri) as [r|e|f] eqn:Er; [| |done].
  2: { right. destruct (nng_only_throw _ Hnew) as [[? ?]|(e1 & w & [= ->])]; [done|].
    exists (Throw (NngException e1 w)), s. split_and!; try done.
    - unfold emplace, mbind, M_bind, lift. by rewrite Er.
    - right. split_and!; [by eauto | done | by right]. }
  destruct (decide (pm_max_key_size < blen uri)) as [Hl|Hl].
  { left. split; [done|]. exists (lit "Key is too long."), (set_routes (v_routes s + 1) s).
    unfold emplace, mbind, M_bind, lift, get, modify. rewrite Er. simpl. by rewrite emplace_long. }
  right. destruct Hnew as [Hok Hpath]. destruct (emplace_ok uri s r Hn Er) as (m & Ee & Et); [lia|].
  erewrite bind_run by exact Ee. set (s1 := set_map m _). unfold in_env, zoom. unfold mbind at 1, M_bind at 1.
  change (v_env s1) with (v_env s).
  destruct (sub_dial_law (nr_host spec) (v_env s) Hok0) as (Hd & Hok1 & W1 & A1 & P1).
  destruct (env_sub_dial (nr_host spec) (v_env s)) as [[[]|e|f] e1]; simpl in *; [| |done].
  2: { exists (Throw e), (set_env e1 s1). split_and!; try done. right.
    destruct (nng_only_throw (Throw (A := unit) e) Hd) as [[? ?]|(e2 & w & [= ->])]; [done|].
    split_and!; [by eauto | done | left]. split; [done|]. by exists r. }
  unfold mbind at 1, M_bind at 1, get. simpl. rewrite entries_find, Et, lookup_insert_eq.
  destruct (dial_ok (nr_host spec) r Hok) as (Hd2 & Hok2 & Hp2).
  destruct (route_dial (nr_host spec) r) as [o r'] eqn:Ed. simpl in *. rewrite modify_run.
  eexists o, _. split; [reflexivity|]. simpl. rewrite entries_update, Et, insert_insert_eq.
  split_and!; try done. destruct (nng_only_throw _ Hd2) as [[[] ->]|(e2 & w & ->)]; [left | right].
  - exists r'. split_and!; congruence.
  - split_and!; [by eauto | done | left]. split; [done|]. by exists r'.
Qed.

Lemma short_text uri t : short uri → blen t ≤ 100 → blen (uri ++ [LF] ++ t) < 2 ^ 60.
Proof. intros H1 H2. rewrite !blen_app. change (blen [LF]) with 1. lia. Qed.

(** The query of a registration is awaited, and no other registration has it. *)
Definition waits spec s : Prop :=
  nr_queryID spec ∈ awaiting (v_env s) ∧ Forall (λ spec', nr_queryID spec' ≠ nr_queryID spec) (v_route_open s).

Lemma not_answered spec (specs : list NewRoute) :
  Forall (λ spec', nr_queryID spec' ≠ nr_queryID spec) specs →
  Forall (λ spec', nr_queryID spec' ∉ [nr_queryID spec]) specs.
Proof. intros H1. eapply Forall_impl; [exact H1|]. intros spec' Hne Hin. by apply list_elem_of_singleton in Hin. Qed.

Lemma answer_text_short spec c : short (nr_map_uri spec) → blen (answer_text spec c) < 2 ^ 60.
Proof.
  intros Hs. assert (blen (lit "inproc://") = 9) as H9 by by vm_compute.
  destruct c; cbn [answer_text]; rewrite <- ?app_assoc, ?(blen_app (lit "inproc://")), ?H9; unfold LF;
    rewrite !blen_app; match goal with |- context [blen (lit ?t)] => let v := eval vm_compute in (blen (lit t)) in
      change (blen (lit t)) with v end; change (blen [_]) with 1; lia.
Qed.

(** The answer is given, in a directory where the registration is settled. *)
Lemma settled spec c s :
  spec_ok spec → env_ok (v_env s) → nr_queryID spec ∈ awaiting (v_env s) →
  ∃ m s', notify (PM := PM) (R := R) (nr_queryID spec) (HttpStatus.toInt c) (answer_text spec c) s = (Ret tt, s')
    ∧ reads_reply m (HttpStatus.toInt c) (answer_text spec c) ∧ says s s' [(nr_queryID spec, m)] []
    ∧ answered spec c (v_env s) (v_env s').
Proof.
  intros [Hs _] Hok Hid.
  destruct (notify_ok (nr_queryID spec) c (answer_text spec c) s Hok Hid) as (m & s' & En & Hm & Hsay & Hans).
  { by apply answer_text_short. }
  exists m, s'. split_and!; try done. by exists m.
Qed.

Lemma open_conflict spec s :
  Inv s → spec_ok spec → waits spec s → is_Some (table s !! nr_map_uri spec) →
  ∃ m s', open_one pf spec s = (Ret tt, s') ∧ Inv s' ∧ outcome s spec s' HttpStatus.Conflict
    ∧ reads_reply m (HttpStatus.toInt HttpStatus.Conflict) (answer_text spec HttpStatus.Conflict)
    ∧ says (set_registrations (delete (nr_pipeID spec) (v_registrationMap s)) s) s' [(nr_queryID spec, m)] [].
Proof.
  intros HI Hspec [Hid Hne] [r Et].
  destruct (settled spec HttpStatus.Conflict (set_registrations (delete (nr_pipeID spec) (v_registrationMap s)) s)
    Hspec (inv_env s HI) Hid) as (m & s' & En & Hm & Hsay & Hans).
  pose proof Hsay as [F1 F2 F3 F4 F5 F6 F7 F8 F9]. exists m, s'. split_and!; [|..|done|done].
  - unfold open_one, forget_pipe. unfold mbind at 1, M_bind at 1, get.
    rewrite entries_find, Et, modify_run. exact En.
  - eapply says_Inv; [exact Hsay | by apply not_answered |]. by destruct HI; split.
  - simpl in *. split_and!; [by eexists | done | by rewrite F1 | by rewrite F4 |].
    unfold leaked. by rewrite F1, F3, F5.
Qed.

Lemma open_failed spec s s1 e w :
  Inv s → spec_ok spec → waits spec s → table s !! nr_map_uri spec = None →
  establish spec s = (Throw (NngException e w), s1) → established spec s (Throw (NngException e w)) s1 →
  ∃ m s', open_one pf spec s = (Ret tt, s') ∧ Inv s' ∧ outcome s spec s' HttpStatus.ServiceUnavailable
    ∧ reads_reply m (HttpStatus.toInt HttpStatus.ServiceUnavailable) (answer_text spec HttpStatus.ServiceUnavailable)
    ∧ v_route_open s' = v_route_open s ∧ v_route_close s' = v_route_close s
    ∧ answers (v_env s') = answers (v_env s1) ++ [(nr_queryID spec, m)]
    ∧ announced (v_env s') = announced (v_env s1).
Proof.
  intros HI Hspec [Hid Hne] Et E1 (Q1 & Q2 & Q3 & [Hok1 W1] & _ & _ & [(r & [=] & _)|(_ & Hdial & Hcase)]).
  set (s2 := set_registrations (delete (nr_pipeID spec) (v_registrationMap s1))
               (set_map (pm_erase (nr_map_uri spec) (v_map s1)) s1)).
  destruct (settled spec HttpStatus.ServiceUnavailable s2) as (m & s' & En & Hm & Hsay & Hans);
    [done | done | simpl; by rewrite W1 |].
  pose proof Hsay as [F1 F2 F3 F4 F5 F6 F7 F8 F9]. simpl in F1, F2, F3, F4, F5, F6, F7, F8, F9.
  assert (table s2 = table s) as Et2.
  { unfold s2. simpl. rewrite entries_erase.
    destruct Hcase as [(_ & r & ->)|[_ ->]]; [by rewrite delete_insert_id | by rewrite delete_id]. }
  exists m, s'. split_and!; [|..|done|congruence|congruence|done|by rewrite F7, app_nil_r].
  - unfold open_one. unfold mbind at 1, M_bind at 1, get. rewrite entries_find, Et.
    rewrite (proj2 (try_nng_ok _ _ _ s) e w s1 E1). unfold failed_dial, forget_pipe.
    rewrite !modify_run. rewrite (proj2 Hspec). exact En.
  - eapply says_Inv; [exact Hsay | simpl; rewrite Q1; by apply not_answered |].
    destruct HI as [H1 H2 H3 H4 H5 H6]. split; rewrite ?Et2; simpl; rewrite ?Q1, ?Q2, ?W1; auto.
  - assert (table s' = table s) as Es' by (by rewrite F1). simpl.
    split_and!; [done | by exists (v_env s1) | done | by rewrite F4, Q3 |..]; unfold leaked; rewrite Es', F3, F5, Q2; lia.
Qed.

Lemma open_enrolled spec s s1 :
  Inv s → spec_ok spec → waits spec s → table s !! nr_map_uri spec = None →
  establish spec s = (Ret tt, s1) → established spec s (Ret tt) s1 →
  ∃ m p s', open_one pf spec s = (Ret tt, s') ∧ Inv s' ∧ outcome s spec s' HttpStatus.OK
    ∧ reads_reply m (HttpStatus.toInt HttpStatus.OK) (answer_text spec HttpStatus.OK)
    ∧ reads_report p (lit "*services") (HttpStatus.toInt HttpStatus.Created) (nr_map_uri spec)
    ∧ v_route_open s' = v_route_open s ∧ v_route_close s' = v_route_close s
    ∧ answers (v_env s') = answers (v_env s1) ++ [(nr_queryID spec, m)]
    ∧ announced (v_env s') = announced (v_env s1) ++ [p].
Proof.
  intros HI Hspec [Hid Hne] Et E1 (Q1 & Q2 & Q3 & [Hok1 W1] & _ & _ & [(r & _ & Hdial & Q4 & Hok & Hpath & Et1)|((? & ? & [=]) & _)]).
  destruct (settled spec HttpStatus.OK s1) as (m & s2 & En & Hm & Hsay & Hans); [done | done | by rewrite W1 |].
  destruct (announce_ok HttpStatus.Created (nr_map_uri spec) s2) as (p & s' & Ep & Hp & Hsay' & Hpub);
    [apply Hsay | destruct Hspec; lia |].
  destruct Hsay as [F1 F2 F3 F4 F5 F6 F7 F8 F9], Hsay' as [G1 G2 G3 G4 G5 G6 G7 G8 G9].
  assert (table s' = <[nr_map_uri spec := r]> (table s)) as Es' by (by rewrite G1, F1).
  exists m, p, s'. split_and!; [|..|done|done|congruence|congruence|
    by rewrite G6, F6, app_nil_r | by rewrite G7, F7, app_nil_r].
  - unfold open_one. unfold mbind at 1, M_bind at 1, get. rewrite entries_find, Et.
    rewrite (proj1 (try_nng_ok _ _ _ s) s1 E1). erewrite bind_run by exact En. exact Ep.
  - destruct HI as [H1 H2 H3 H4 H5 H6]. split; rewrite ?Es', ?G2, ?F2, ?G3, ?F3, ?Q1, ?Q2; auto.
    + intros k r0. rewrite lookup_insert_Some. intros [[<- <-]|[_ E0]]; [split_and!; [done..|apply Hspec] | by apply H1].
    + simpl in G9. rewrite G9, difference_empty_L, F9, W1. apply awaiting_rest; [done|].
      eapply Forall_impl; [exact (not_answered _ _ Hne)|]. intros spec'. by rewrite elem_of_list_to_set.
  - simpl. split_and!; [done | | by rewrite G4, F4 |].
    + exists r, (v_env s1), (v_env s2). split_and!; try done. by exists p.
    + unfold leaked. rewrite Es', G3, F3, G5, F5, Q2, Q4, map_size_insert_None by done. lia.
Qed.

(** What one registration announces. *)
Definition announces spec (c : HttpStatus.Code) (ps : list msg) : Prop :=
  Forall2 (λ uri p, reads_report p (lit "*services") (HttpStatus.toInt HttpStatus.Created) uri)
    (enrolled [spec] [c]) ps.

(** Every registration is answered. *)
Lemma open_one_ok spec s :
  Inv s → spec_ok spec → waits spec s →
  (too_long spec ∧ ∃ w s', open_one pf spec s = (Throw (StdException w), s'))
  ∨ ∃ c m ps s', open_one pf spec s = (Ret tt, s') ∧ Inv s' ∧ outcome s spec s' c
    ∧ reads_reply m (HttpStatus.toInt c) (answer_text spec c) ∧ announces spec c ps
    ∧ v_route_open s' = v_route_open s ∧ v_route_close s' = v_route_close s
    ∧ answers (v_env s') = answers (v_env s) ++ [(nr_queryID spec, m)]
    ∧ announced (v_env s') = announced (v_env s) ++ ps.
Proof.
  intros HI Hspec Hw. destruct (table s !! nr_map_uri spec) as [r|] eqn:Et.
  - right. destruct (open_conflict spec s HI Hspec Hw ltac:(by eexists)) as (m & s' & En & HI' & Ho & Hm & []).
    exists HttpStatus.Conflict, m, [], s'. split_and!; try done. constructor.
  - destruct (establish_ok spec s HI Et) as [(Hl & w & s1 & E1)|(o & s1 & E1 & Hest)].
    + left. split; [done|]. exists w, s1. unfold open_one. unfold mbind at 1, M_bind at 1, get.
      rewrite entries_find, Et. unfold try_nng. by rewrite E1.
    + right. pose proof Hest as (_ & _ & _ & _ & A1 & P1 & [(r & -> & _)|((e & w & ->) & _)]).
      * destruct (open_enrolled spec s s1) as (m & p & s' & ? & ? & ? & ? & ? & ? & ? & A & P); try done.
        exists HttpStatus.OK, m, [p], s'. rewrite A, P, A1, P1. split_and!; try done. by repeat constructor.
      * destruct (open_failed spec s s1 e w) as (m & s' & ? & ? & ? & ? & ? & ? & A & P); try done.
        exists HttpStatus.ServiceUnavailable, m, [], s'. rewrite A, P, A1, P1, app_nil_r. split_and!; try done. constructor.
Qed.

Definition answer_of spec (c : HttpStatus.Code) (a : QueryID * msg) : Prop :=
  fst a = nr_queryID spec ∧ reads_reply (snd a) (HttpStatus.toInt c) (answer_text spec c).

(** All the registrations [specs] have been served. *)
Definition all_served s (specs : list NewRoute) (cs : list HttpStatus.Code) (as_ : list (QueryID * msg))
    (ps : list msg) s' : Prop :=
  served (table s) (v_env s) specs cs (table s') (v_env s')
  ∧ answers (v_env s') = answers (v_env s) ++ as_ ∧ Forall3 answer_of specs cs as_
  ∧ announced (v_env s') = announced (v_env s) ++ ps
  ∧ Forall2 (λ uri p, reads_report p (lit "*services") (HttpStatus.toInt HttpStatus.Created) uri)
      (enrolled specs cs) ps
  ∧ v_registrationMap s' = forget_all (refused specs cs) (v_registrationMap s)
  ∧ leaked s ≤ leaked s' ≤ leaked s + unavailable cs.

Lemma all_served_nil s : all_served s [] [] [] [] s.
Proof. unfold all_served. simpl. rewrite !app_nil_r. split_and!; try done; try constructor; lia. Qed.

Lemma all_served_cons spec specs c cs m as_ ps ps' s s1 s2 :
  outcome s spec s1 c → reads_reply m (HttpStatus.toInt c) (answer_text spec c) → announces spec c ps →
  answers (v_env s1) = answers (v_env s) ++ [(nr_queryID spec, m)] → announced (v_env s1) = announced (v_env s) ++ ps →
  all_served s1 specs cs as_ ps' s2 →
  all_served s (spec :: specs) (c :: cs) ((nr_queryID spec, m) :: as_) (ps ++ ps') s2.
Proof.
  intros Ho Hm Hann A1 P1 (Hsv & A2 & Has & P2 & Hps & G2 & L2). unfold all_served.
  rewrite A2, A1, P2, P1, <- !app_assoc.
  assert (enrolled (spec :: specs) (c :: cs) = enrolled [spec] [c] ++ enrolled specs cs) as ->
    by (destruct c; done).
  split_and!; try done.
  - destruct c; try done; simpl in Ho.
    + destruct Ho as (Ht & (r & e1 & e2 & Hd & Ha & Hr & Et) & _). eapply served_ok; [done..|]. by rewrite <- Et.
    + destruct Ho as (Ht & Ha & Et & _). eapply served_conflict; [done..|]. by rewrite <- Et.
    + destruct Ho as (Ht & (e1 & Hd & Ha) & Et & _). eapply served_unavailable; [done..|]. by rewrite <- Et.
  - by constructor.
  - by apply Forall2_app.
  - rewrite G2. destruct c; try done; simpl in Ho.
    + by destruct Ho as (_ & _ & -> & _).
    + by destruct Ho as (_ & _ & _ & -> & _).
    + by destruct Ho as (_ & _ & _ & -> & _).
  - destruct c; try done; simpl in Ho |- *; lia.
  - destruct c; try done; simpl in Ho |- *; lia.
Qed.

Lemma open_loop_eq fuel s :
  open_loop pf fuel s =
    match v_route_open s, fuel with
    | [], _ => (Ret tt, s)
    | _, O => (Fault OutOfFuel, s)
    | spec :: rest, S fuel => (open_one pf spec;; open_loop pf fuel) (set_queues rest (v_route_close s) s)
    end.
Proof. destruct fuel; simpl; unfold mbind at 1, M_bind at 1; simpl; by destruct (v_route_open s). Qed.

Lemma open_loop_ok fuel s :
  Inv s → (length (v_route_open s) ≤ fuel)%nat →
  (Exists too_long (v_route_open s) ∧ ∃ w s', open_loop pf fuel s = (Throw (StdException w), s'))
  ∨ ∃ cs as_ ps s', open_loop pf fuel s = (Ret tt, s') ∧ Inv s' ∧ all_served s (v_route_open s) cs as_ ps s'
    ∧ v_route_open s' = [] ∧ v_route_close s' = v_route_close s.
Proof.
  revert s. induction fuel as [|fuel IH]; intros s HI Hl; rewrite open_loop_eq;
    destruct (v_route_open s) as [|spec rest] eqn:Ec; simpl in Hl; try lia.
  1, 2: right; exists [], [], [], s; split_and!; try done; apply all_served_nil.
  pose proof (inv_open s HI) as Hc. rewrite Ec in Hc. inversion_clear Hc as [|? ? Hspec Hrest].
  set (s0 := set_queues rest (v_route_close s) s).
  pose proof (inv_ids s HI) as Hnd. rewrite Ec in Hnd. apply NoDup_cons in Hnd as [Hnin Hnd].
  pose proof (inv_awaiting s HI) as Haw. rewrite Ec in Haw. apply Forall_cons in Haw as [Hid Haw].
  assert (Inv s0) as HI0 by (destruct HI; by split).
  assert (waits spec s0) as Hw.
  { split; [done|]. simpl. apply Forall_forall. intros spec' Hin En. apply Hnin. rewrite <- En.
    by apply list_elem_of_fmap_2. }
  fold s0.
  destruct (open_one_ok spec s0 HI0 Hspec Hw)
    as [(Hlong & w & s1 & E1)|(c & m & ps & s1 & E1 & HI1 & Ho & Hm & Hann & Q1 & Q2 & A1 & P1)].
  { left. split; [by apply Exists_cons_hd|]. exists w, s1. unfold mbind at 1, M_bind at 1. by rewrite E1. }
  erewrite bind_run by exact E1. simpl in Q1, Q2.
  destruct (IH s1 HI1) as [(Hlong & w & s2 & E2)|(cs & as_ & ps' & s2 & E2 & HI2 & Hall & Z1 & Z2)].
  { rewrite Q1. simpl. lia. }
  - left. rewrite Q1 in Hlong. split; [by apply Exists_cons_tl | by eauto].
  - right. exists (c :: cs), ((nr_queryID spec, m) :: as_), (ps ++ ps'), s2. rewrite Q1 in Hall.
    split_and!; try done; try congruence. by apply (all_served_cons _ _ _ _ _ _ _ _ s0 s1).
Qed.

(** ** Requests for registration *)

Lemma bodyString_short v text : blen (v_raw v) < 2 ^ 59 → View.bodyString v = Ret text → short text.
Proof. intros Hb E1. apply ParseFacts.string_short in E1. lia. Qed.

Lemma ConsumeLine_short text : short text → short (fst (Detail.ConsumeLine text)).
Proof. intros H. pose proof (MsgUtilFacts.ConsumeLine_length text). unfold blen in *. lia. Qed.

Lemma parse_raw type m v : View.parse type m = Ret v → v_raw v = m.
Proof.
  unfold View.parse. by destruct (Layout._parse_msg m type Layout.reset) as [[] ?]; try done; intros [= <-].
Qed.

(** A query is delivered once: it is awaited, and no registration has it. *)
Definition delivered id s : Prop := id ∈ awaiting (v_env s) ∧ id ∉ map nr_queryID (v_route_open s).

Lemma async_recv_Inv id pipe m s :
  Inv s → delivered id s → blen (msg_body m) < 2 ^ 59 → Inv (snd (async_recv id pipe m s)).
Proof.
  intros HI [Hid Hnew] Hb. unfold async_recv.
  destruct (View.parse REQUEST (msg_body m)) as [v|[| | |]|f] eqn:Ep; try done.
  - unfold mbind, M_bind, lift, get, modify, mret, M_ret. destruct (View.uriString v); [|done..].
    destruct (View.bodyString v) as [text| |] eqn:Et; [|done..].
    pose proof (ConsumeLine_short text) as Hs.
    destruct (Detail.ConsumeLine text) as [pathPrefix rest]. destruct (Detail.ConsumeLine rest) as [configLine rest2].
    destruct rest2; simpl.
    + destruct HI as [H1 H2 H3 H4 H5 H6]. split; simpl; auto.
      * apply Forall_app. split; [done|]. constructor; [|done].
        simpl. split; [|done]. apply Hs. eapply bodyString_short; [|exact Et]. by rewrite (parse_raw _ _ _ Ep).
      * rewrite map_app. apply NoDup_app. split_and!; [done | | apply NoDup_singleton].
        intros x Hx. simpl. by intros ->%list_elem_of_singleton.
      * apply Forall_app. split; [done|]. by constructor.
    + by destruct (written _).
  - unfold mbind, M_bind, lift. by destruct (written _).
Qed.

Lemma pipe_event_Inv pipe ev s : Inv s → Inv (snd (pipe_event (E := E) pipe ev s)).
Proof.
  intros HI. unfold pipe_event. destruct ev; try done.
  unfold mbind, M_bind, get, modify, fail. destruct (v_registrationMap s !! pipe) as [path|]; [|done]. simpl.
  rewrite entries_find. destruct (table s !! path) as [r|] eqn:Er; simpl; [|by destruct HI; split].
  destruct HI as [H1 H2 H3 H4 H5 H6]. split; simpl; auto.
  - intros k r0. rewrite entries_erase, lookup_delete_Some. intros [_ E0]. by apply H1.
  - apply Forall_app. split; [done|]. constructor; [|done]. destruct (H1 path r Er) as (? & -> & ?). done.
Qed.

Lemma route_to_Inv send path m s :
  (∀ m r, route_ok r → nng_only (fst (send m r)) ∧ route_ok (snd (send m r))
     ∧ route_path (snd (send m r)) = route_path r) →
  Inv s → Inv (snd (route_to (msg := msg) send path m s)).
Proof.
  intros Hsend HI. unfold route_to, mbind, M_bind, get, modify, mret, M_ret.
  destruct (pm_longest path (v_map s)) as [[k r]|] eqn:El; [|done].
  apply longest_some in El as (Ek & _). destruct (inv_table s HI k r Ek) as (Hok & Hp & Hk).
  destruct (Hsend m r Hok) as (_ & Hok' & Hp'). destruct (send m r) as [o r']. simpl in *.
  assert (Inv (set_map (pm_update k r' (v_map s)) s)) as HI'.
  { destruct HI as [H1 H2 H3 H4 H5 H6]. split; simpl; auto. intros k0 r0. rewrite entries_update, lookup_insert_Some.
    intros [[<- <-]|[_ E0]]; [split_and!; congruence | by apply H1]. }
  by destruct o as [|[]|].
Qed.

(** A message is delivered with a query that is new, and it is one that a
    program can hold. *)
Definition fits (e : event msg) s : Prop :=
  match e with ERecv id _ m => delivered id s ∧ blen (msg_body m) < 2 ^ 59 | _ => True end.

(** What the communicators do by themselves: they stay open, and keep the
    queries of the registrations. *)
Definition env_moves s (e' : E) : Prop :=
  env_ok e' ∧ Forall (λ spec, nr_queryID spec ∈ awaiting e') (v_route_open s).

(** What the loops of a route do by themselves: they stay in order, and the
    route keeps its path. *)
Definition route_moves r r' : Prop := route_ok r' ∧ route_path r' = route_path r.

(** The states reached. *)
Inductive reached : Services PM R E → Prop :=
| reached_new e0 : env_ok e0 → reached (new_services e0)
| reached_env s e' : reached s → env_moves s e' → reached (set_env e' s)
| reached_route k r r' s : reached s → table s !! k = Some r → route_moves r r' →
    reached (set_map (pm_update k r' (v_map s)) s)
| reached_event e s s' : reached s → fits e s → handle pf e s = (Ret tt, s') → reached s'.

(** One pass of the management thread. *)
Definition pass_done s (cs : list HttpStatus.Code) (as_ : list (QueryID * msg)) (gone created : list msg) s' : Prop :=
  v_route_open s' = [] ∧ v_route_close s' = []
  ∧ (∃ e1, dismissed (v_route_close s) (v_env s) e1
       ∧ served (table s) e1 (v_route_open s) cs (table s') (v_env s'))
  ∧ answers (v_env s') = answers (v_env s) ++ as_ ∧ Forall3 answer_of (v_route_open s) cs as_
  ∧ announced (v_env s') = announced (v_env s) ++ gone ++ created
  ∧ Forall2 (λ r p, reads_report p (lit "*services") (HttpStatus.toInt HttpStatus.Gone) (route_path r))
      (v_route_close s) gone
  ∧ Forall2 (λ uri p, reads_report p (lit "*services") (HttpStatus.toInt HttpStatus.Created) uri)
      (enrolled (v_route_open s) cs) created
  ∧ v_registrationMap s' = forget_all (refused (v_route_open s) cs) (v_registrationMap s)
  ∧ leaked s ≤ leaked s' ≤ leaked s + unavailable cs.

Lemma management_pass_ok s :
  Inv s →
  (Exists too_long (v_route_open s) ∧ ∃ s', management_pass pf s = (Fault NoexceptTerminate, s'))
  ∨ ∃ cs as_ gone created s', management_pass pf s = (Ret tt, s') ∧ Inv s' ∧ pass_done s cs as_ gone created s'.
Proof.
  intros HI.
  destruct (close_loop_ok (length (v_route_close s)) s HI (le_n _))
    as (gone & s1 & E1 & HI1 & Hgone & C1 & M1 & O1 & G1 & R1 & A1 & P1 & D1).
  assert (∀ o s2, open_loop pf (length (v_route_open s1)) s1 = (o, s2) →
    management_pass pf s = (match o with Throw _ => Fault NoexceptTerminate | o => o end, s2)) as Hrun.
  { intros o s2 E2. unfold management_pass, noexcept. unfold mbind at 1, M_bind at 1, get at 1.
    erewrite bind_run by exact E1. unfold mbind at 1, M_bind at 1, get at 1. rewrite E2. by destruct o. }
  destruct (open_loop_ok (length (v_route_open s1)) s1 HI1 (le_n _))
    as [(Hlong & w & s2 & E2)|(cs & as_ & created & s2 & E2 & HI2 & (Hsv & A2 & Has & P2 & Hcr & G2 & L2) & O2 & C2)].
  - left. rewrite <- O1. split; [done|]. exists s2. by rewrite (Hrun _ _ E2).
  - right. exists cs, as_, gone, created, s2. rewrite O1, M1 in *. split; [by rewrite (Hrun _ _ E2)|]. split; [done|].
    assert (leaked s1 = leaked s) as L1 by (unfold leaked; rewrite M1, C1, R1; simpl; lia).
    unfold pass_done. split_and!; try done; try congruence.
    + by exists (v_env s1).
    + by rewrite P2, P1, <- app_assoc.
    + lia.
    + lia.
Qed.

(** A pass over URIs that the table can hold. *)
Lemma management_pass_fits s :
  Inv s → Forall (λ spec, blen (nr_map_uri spec) ≤ pm_max_key_size) (v_route_open s) →
  ∃ cs as_ gone created s', management_pass pf s = (Ret tt, s') ∧ Inv s' ∧ pass_done s cs as_ gone created s'.
Proof.
  intros HI Hf. destruct (management_pass_ok s HI) as [[Hl _]|?]; [|done]. exfalso.
  apply Exists_exists in Hl as (spec & Hin & Hl). rewrite Forall_forall in Hf. specialize (Hf spec Hin).
  unfold too_long in Hl. lia.
Qed.

Lemma reached_Inv s : reached s → Inv s.
Proof.
  induction 1 as [e0 H0|s e' _ IH [Hok Hw]|k r r' s _ IH Hk [Hok Hp]|e s s' _ IH Hf Hh].
  - split; simpl; try done; [|constructor]. intros k r. by rewrite entries_empty.
  - by destruct IH; split.
  - destruct IH as [H1 H2 H3 H4 H5 H6]. split; simpl; try done. intros k0 r0. rewrite entries_update, lookup_insert_Some.
    intros [[<- <-]|[_ E0]]; [|by apply H1]. destruct (H1 k r Hk) as (_ & ? & ?). split_and!; [done | congruence | done].
  - destruct e as [id pipe m|pipe ev| |path m|path m]; simpl in *.
    + destruct Hf as [Hd Hb]. pose proof (async_recv_Inv id pipe m s IH Hd Hb) as HI. revert Hh. unfold mbind, M_bind, mret, M_ret.
      destruct (async_recv id pipe m s) as [[] ?]; try done. by intros [= <-].
    + pose proof (pipe_event_Inv pipe ev s IH) as HI. by rewrite Hh in HI.
    + destruct (management_pass_ok s IH) as [(_ & s2 & E2)|(? & ? & ? & ? & s2 & E2 & HI & _)]; congruence.
    + pose proof (route_to_Inv route_sendPush path m s push_ok IH) as HI. revert Hh.
      unfold routePush, mbind, M_bind, mret, M_ret.
      destruct (route_to route_sendPush path m s) as [[] ?]; try done. by intros [= <-].
    + pose proof (route_to_Inv route_sendRequest path m s request_ok IH) as HI. revert Hh.
      unfold routeRequest, mbind, M_bind, mret, M_ret.
      destruct (route_to route_sendRequest path m s) as [[] ?]; try done. by intros [= <-].
Qed.

(** Routing, from a state where the invariant holds. *)
Lemma route_by_prefix s (push : bool) path m :
  Inv s →
  let go := if push then routePush (E := E) else routeRequest in
  let send := if push then route_sendPush else route_sendRequest in
  ((∀ k, k `prefix_of` path → table s !! k = None) →
     go path m s = (Ret (HttpStatus.toInt HttpStatus.NotFound, Some m), s))
  ∧ (∀ k r, table s !! k = Some r → k `prefix_of` path →
      (∀ k', is_Some (table s !! k') → k' `prefix_of` path → (length k' ≤ length k)%nat) →
      ∃ s', table s' = <[k := snd (send m r)]> (table s)
        ∧ v_route_open s' = v_route_open s ∧ v_route_close s' = v_route_close s
        ∧ v_registrationMap s' = v_registrationMap s ∧ v_env s' = v_env s
        ∧ go path m s =
            (match fst (send m r) with
             | Ret _ => Ret (HttpStatus.toInt HttpStatus.OK, None)
             | _ => Ret (HttpStatus.toInt HttpStatus.ServiceUnavailable, Some m)
             end, s')).
Proof.
  intros Hr go send.
  assert (go = route_to send) as -> by (unfold go, send; by destruct push). split.
  - intros Hn. apply longest_none in Hn. unfold route_to, mbind, M_bind, get. by rewrite Hn.
  - intros k r Hk Hp Hmax. assert (pm_longest path (v_map s) = Some (k, r)) as El by by apply longest_some.
    exists (set_map (pm_update k (snd (send m r)) (v_map s)) s). simpl. rewrite entries_update.
    split_and!; try done. unfold route_to, mbind, M_bind, get, modify, mret, M_ret. rewrite El.
    destruct (inv_table s Hr k r Hk) as (Hok & _).
    assert (nng_only (fst (send m r))) as Hn.
    { unfold send. destruct push; [apply (push_ok m r Hok) | apply (request_ok m r Hok)]. }
    by destruct (send m r) as [[|[]|] r'].
Qed.

(** ** The properties *)

(** C4. Messages are routed by the longest registered prefix of their path: 404
    and no change when there is none; otherwise the route of that prefix, and
    no other, gets the message, and the answer is 200, or 503 when the route
    refuses it.  The message comes back exactly when it was not sent. *)
Theorem routing_by_longest_prefix s (push : bool) path m :
  reached s →
  let go := if push then routePush (E := E) else routeRequest in
  let send := if push then route_sendPush else route_sendRequest in
  ((∀ k, k `prefix_of` path → table s !! k = None) →
     go path m s = (Ret (HttpStatus.toInt HttpStatus.NotFound, Some m), s))
  ∧ (∀ k r, table s !! k = Some r → k `prefix_of` path →
      (∀ k', is_Some (table s !! k') → k' `prefix_of` path → (length k' ≤ length k)%nat) →
      ∃ s', table s' = <[k := snd (send m r)]> (table s)
        ∧ v_route_open s' = v_route_open s ∧ v_route_close s' = v_route_close s
        ∧ v_registrationMap s' = v_registrationMap s ∧ v_env s' = v_env s
        ∧ go path m s =
            (match fst (send m r) with
             | Ret _ => Ret (HttpStatus.toInt HttpStatus.OK, None)
             | _ => Ret (HttpStatus.toInt HttpStatus.ServiceUnavailable, Some m)
             end, s')).
Proof. intros Hr%reached_Inv. by apply route_by_prefix. Qed.

(** C3. One pass of the management thread ends, and serves everything that waits,
    when the table can hold every URI that waits.  For each route that is gone
    the subscriber is disconnected and the loss is reported.  Then every
    registration request gets exactly one answer, in the order of the requests:
    409 when its URI is in the table; otherwise a route is made, and the
    subscriber and the route dial the service: 200 when they succeed, the
    dialled route enters the table and the new service is reported; 503 when
    they fail.  The pipes of the registrants refused are forgotten, no others.
    Route objects are leaked only by the 503s, one each at most. *)
Theorem registrations_answered s :
  reached s → Forall (λ spec, blen (nr_map_uri spec) ≤ pm_max_key_size) (v_route_open s) →
  ∃ cs as_ gone created s', management_pass pf s = (Ret tt, s')
    ∧ v_route_open s' = [] ∧ v_route_close s' = []
    ∧ (∃ e1, dismissed (v_route_close s) (v_env s) e1
         ∧ served (table s) e1 (v_route_open s) cs (table s') (v_env s'))
    ∧ answers (v_env s') = answers (v_env s) ++ as_ ∧ Forall3 answer_of (v_route_open s) cs as_
    ∧ announced (v_env s') = announced (v_env s) ++ gone ++ created
    ∧ Forall2 (λ r p, reads_report p (lit "*services") (HttpStatus.toInt HttpStatus.Gone) (route_path r))
        (v_route_close s) gone
    ∧ Forall2 (λ uri p, reads_report p (lit "*services") (HttpStatus.toInt HttpStatus.Created) uri)
        (enrolled (v_route_open s) cs) created
    ∧ v_registrationMap s' = forget_all (refused (v_route_open s) cs) (v_registrationMap s)
    ∧ leaked s ≤ leaked s' ≤ leaked s + unavailable cs.
Proof.
  intros Hr%reached_Inv Hf. destruct (management_pass_fits s Hr Hf) as (cs & as_ & gone & created & s' & E1 & _ & H1).
  by exists cs, as_, gone, created, s'.
Qed.

(** A free URI that the table cannot hold ends the program: [emplace] throws a
    [std::length_error], which nothing catches. *)
Lemma long_uri_terminates s spec rest r :
  Inv s → v_route_close s = [] → v_route_open s = spec :: rest → table s !! nr_map_uri spec = None →
  too_long spec → route_new (nr_map_uri spec) = Ret r →
  ∃ s', management_pass pf s = (Fault NoexceptTerminate, s').
Proof.
  intros HI Hc Ho Et Hl Er. eexists. unfold management_pass, noexcept. unfold mbind at 1, M_bind at 1, get at 1.
  rewrite Hc. simpl. unfold mbind at 1, M_bind at 1. unfold mbind at 1, M_bind at 1, get at 1. rewrite Hc.
  unfold mret at 1, M_ret at 1. unfold mbind at 1, M_bind at 1, get at 1. rewrite Ho. simpl.
  unfold mbind at 1, M_bind at 1, get at 1. rewrite Ho, modify_run.
  unfold open_one, mbind at 1, M_bind at 1, try_nng, establish, emplace, mbind, M_bind, lift, get, modify. simpl.
  by rewrite entries_find, Et, Er, emplace_long.
Qed.

(** C38. When a pipe is removed, its registration is forgotten and the route at
    its URI is taken out of the table for the management thread, whichever
    pipe enrolled that route: a registrant that was too late and leaves before
    it is answered takes the route of the first registrant with it, who stays
    registered without a route. *)
Theorem disconnect_removes_route s pipe uri :
  reached s → v_registrationMap s !! pipe = Some uri →
  ∃ s', pipe_event pipe rem_post s = (Ret tt, s')
    ∧ v_registrationMap s' = delete pipe (v_registrationMap s)
    ∧ table s' = delete uri (table s)
    ∧ v_route_close s' = v_route_close s ++ option_list (table s !! uri)
    ∧ leaked s' = leaked s
    ∧ (∀ pipe', pipe' ≠ pipe → v_registrationMap s !! pipe' = Some uri →
         v_registrationMap s' !! pipe' = Some uri ∧ table s' !! uri = None).
Proof.
  intros _ Hp. unfold pipe_event, mbind, M_bind, get, modify, mret, M_ret. rewrite Hp. simpl.
  rewrite entries_find. destruct (table s !! uri) as [r|] eqn:Er.
  - eexists. split; [reflexivity|]. simpl. rewrite entries_erase. split_and!; try done.
    + unfold leaked. simpl. rewrite entries_erase, map_size_delete, Er, length_app. simpl.
      assert (size (table s) ≠ 0%nat); [|lia]. rewrite map_size_non_empty_iff. intros E0. by rewrite E0 in Er.
    + intros pipe' Hne Hp'. by rewrite lookup_delete_ne, lookup_delete_eq.
  - eexists. split; [reflexivity|]. simpl. rewrite (delete_id (table s) uri), app_nil_r by done. split_and!; try done.
    intros pipe' Hne Hp'. by rewrite lookup_delete_ne.
Qed.

(** C39. A pass of the management thread refuses some registrations, with 409 or
    503.  The pipe of each of them is no longer registered afterwards, so its
    removal calls [erase(end())] on the registration map, which is undefined. *)
Theorem refused_disconnect_undefined s :
  reached s → Forall (λ spec, blen (nr_map_uri spec) ≤ pm_max_key_size) (v_route_open s) →
  ∃ cs as_ s', management_pass pf s = (Ret tt, s')
    ∧ answers (v_env s') = answers (v_env s) ++ as_ ∧ Forall3 answer_of (v_route_open s) cs as_
    ∧ Forall2 (λ spec c, c ≠ HttpStatus.OK → pipe_event (nr_pipeID spec) rem_post s' = (Fault EraseEnd, s'))
        (v_route_open s) cs.
Proof.
  intros Hr%reached_Inv Hf. destruct (management_pass_fits s Hr Hf)
    as (cs & as_ & gone & created & s' & E1 & _ & (_ & _ & _ & A1 & Has & _ & _ & _ & G1 & _)).
  exists cs, as_, s'. split_and!; try done.
  assert (∀ pipe, pipe ∈ refused (v_route_open s) cs → pipe_event pipe rem_post s' = (Fault EraseEnd, s')) as Hp.
  { intros pipe Hin. unfold pipe_event, mbind, M_bind, get, fail. by rewrite G1, forget_all_eq, decide_True. }
  clear -Has Hp. induction Has as [|spec c a specs cs as_ _ _ IH]; constructor.
  - intros Hc. apply Hp. destruct c; try done; apply list_elem_of_here.
  - apply IH. intros pipe Hin. apply Hp. destruct c; try done; by apply list_elem_of_further.
Qed.

End Facts.

(** ** Witnesses: a directory with two registrants of one URI *)

Import FinitePrefixMap.
Abbreviation exRoute := (Route unit flat_msg).

#[local] Instance ex_routing : Routing exRoute flat_msg :=
  RouteFacts.Route_routing RouteFacts.any_open RouteFacts.any_connector OtherPlatform.
#[local] Instance ex_routing_laws : RoutingLaws exRoute flat_msg :=
  RouteFacts.Route_laws RouteFacts.any_open RouteFacts.any_connector OtherPlatform (λ _ _, I) (λ _ _ _ _, I).

(** Communicators that accept everything; every query may be answered. *)
Record log : Type := mkLog {
  log_awaiting : gset QueryID;
  log_answers : list (QueryID * flat_msg);
  log_announced : list flat_msg;
}.
#[local] Instance ex_env : ServicesEnv log flat_msg := {
  env_respondTo id m :=
    modify (λ e, mkLog (log_awaiting e ∖ {[id]}) (log_answers e ++ [(id, m)]) (log_announced e));
  env_publish m := modify (λ e, mkLog (log_awaiting e) (log_answers e) (log_announced e ++ [m]));
  env_sub_dial _ := mret tt;
  env_sub_disconnect _ := mret tt;
}.
#[local] Instance ex_env_laws : ServicesEnvLaws log flat_msg.
Proof.
  refine (Build_ServicesEnvLaws _ _ _ (λ _, True) log_awaiting log_answers log_announced _ _ _ _); intros; by eexists.
Defined.
Definition e0 : log := mkLog ({[11; 12]}) [] [].

Definition registration : flat_msg :=
  mkFlat [] (lit "POST *services Tell/0" ++ [LF; LF] ++ lit "/a").

Abbreviation exServices := (Services (gmap bytes exRoute) exRoute log).
Abbreviation ex_handle := (handle (PM := gmap bytes exRoute) (R := exRoute) (E := log) OtherPlatform).

Definition after (e : event flat_msg) (s : exServices) : exServices := snd (ex_handle e s).

Definition one_waiting : exServices := after (ERecv 11 1 registration) (new_services e0).
Definition one_enrolled : exServices := after EManage one_waiting.
Definition two_waiting : exServices := after (ERecv 12 2 registration) one_enrolled.

Ltac by_decision := apply (bool_decide_unpack _); vm_compute; exact I.

Lemma one_waiting_reached : reached OtherPlatform one_waiting.
Proof.
  apply (reached_event _ (ERecv 11 1 registration) (new_services e0)); [by apply reached_new | split; [split|]; by_decision |].
  vm_compute. reflexivity.
Qed.
Lemma one_enrolled_reached : reached OtherPlatform one_enrolled.
Proof.
  apply (reached_event _ EManage one_waiting); [apply one_waiting_reached | done |]. vm_compute. reflexivity.
Qed.
Lemma two_waiting_reached : reached OtherPlatform two_waiting.
Proof.
  apply (reached_event _ (ERecv 12 2 registration) one_enrolled); [apply one_enrolled_reached | split; [split|]; by_decision |].
  vm_compute. reflexivity.
Qed.

Lemma routing_by_longest_prefix_witness :
  fst (routePush (lit "/b") registration one_enrolled) = Ret (404, Some registration).
Proof.
  refine (f_equal fst (proj1 (routing_by_longest_prefix OtherPlatform one_enrolled true (lit "/b") registration
    one_enrolled_reached) _)).
  intros k Hk. apply longest_none with (path := lit "/b"); [vm_compute; reflexivity | exact Hk].
Defined.

Lemma registrations_answered_witness :
  ∃ s', management_pass OtherPlatform two_waiting = (Ret tt, s') ∧ v_route_open s' = [] ∧ v_registrationMap s' !! 2 = None.
Proof.
  destruct (registrations_answered OtherPlatform two_waiting two_waiting_reached)
    as (cs & as_ & gone & created & s' & E1 & E2 & _); [by_decision|].
  exists s'. split; [exact E1|]. split; [exact E2|].
  apply (f_equal snd) in E1. cbn [snd] in E1. rewrite <- E1. vm_compute. reflexivity.
Defined.

Lemma disconnect_removes_route_witness :
  ∃ s', pipe_event 2 rem_post two_waiting = (Ret tt, s')
    ∧ v_registrationMap s' !! 1 = Some (lit "/a") ∧ v_map s' !! lit "/a" = None.
Proof.
  destruct (disconnect_removes_route OtherPlatform two_waiting 2 (lit "/a") two_waiting_reached)
    as (s' & E1 & _ & _ & _ & _ & H1); [vm_compute; reflexivity|].
  exists s'. split; [exact E1|]. apply (H1 1); [discriminate | vm_compute; reflexivity].
Defined.

Lemma refused_disconnect_undefined_witness :
  ∃ s', management_pass OtherPlatform two_waiting = (Ret tt, s') ∧ pipe_event 2 rem_post s' = (Fault EraseEnd, s').
Proof.
  destruct (refused_disconnect_undefined OtherPlatform two_waiting two_waiting_reached)
    as (cs & as_ & s' & E1 & A1 & Has & Hp); [by_decision|].
  exists s'. split; [exact E1|].
  replace (v_route_open two_waiting) with [mkNewRoute 12 2 (lit "/a") (Host.InProc (lit "/a"))] in Has, Hp
    by (vm_compute; reflexivity).
  inversion Has as [|? c a ? ? ? [_ (v & Ep & _ & Es & _)] Hnil]; subst. inversion Hnil; subst.
  inversion Hp as [|? ? ? ? Hc _]; subst. apply Hc. intros ->.
  apply (f_equal snd) in E1. cbn [snd] in E1. rewrite <- E1 in A1. clear -A1 Ep Es.
  apply (f_equal last) in A1. rewrite last_snoc in A1. vm_compute in A1. injection A1 as <-.
  vm_compute in Ep. injection Ep as <-. vm_compute in Es. discriminate.
Defined.

(** A registration whose URI is too long for the table ends the program. *)
Definition long_registration : flat_msg :=
  mkFlat [] (lit "POST *services Tell/0" ++ [LF; LF] ++ replicate (Z.to_nat 65536) "a"%char).
Example long_uri_ends_the_program :
  fst (ex_handle EManage (after (ERecv 11 1 long_registration) (new_services e0))) = Fault NoexceptTerminate.
Proof. vm_compute. reflexivity. Qed.

End ServicesFacts.
