(* ===== verification/ServicesRoutes.v ===== *)
(** * The directory of services: where routes come from

    Whatever the directory does with its table, the routes in it afterwards are
    those that were in it before, and ones that have just been constructed and
    dialled, with nothing to send. *)
From stdpp Require Import gmap.
From S2P Require Import Prelude.
From S2P Require Import Nng.
From S2P Require Import MsgUtil.
From S2P Require Import MsgLayout.
From S2P Require Import MsgView.
From S2P Require Import MsgWriter.
From S2P Require Import Pattern.
From S2P Require Import HostAddress.
From S2P Require Import Socket.
From S2P Require Import PrefixMap.
From S2P Require Import Boxes.
From S2P Require Import Route.
From S2P Require Import Services.

Module ServicesRoutes.
Import ServicesOps.

Section Routes.
Context {PM R E msg : Type}.
Context {Hmsg : NngMsg msg} {Hpm : PrefixMap PM R} {Hpml : PrefixMapLaws PM R}.
Context {Hroute : Routing R msg} {Henv : ServicesEnv E msg}.
Context (pf : PLATFORM).
Implicit Types (s : Services PM R E) (r : R).

Abbreviation table s := (entries (v_map s)).
Abbreviation V := (M exn (Services PM R E)).

Definition brand_new r : Prop :=
  ∃ path r0 host, route_new path = Ret r0 ∧ (r = r0 ∨ r = snd (route_dial host r0)).

Definition kept s s' : Prop := ∀ k r, table s' !! k = Some r → table s !! k = Some r ∨ brand_new r.

Lemma kept_trans s1 s2 s3 : kept s1 s2 → kept s2 s3 → kept s1 s3.
Proof. intros H1 H2 k r Hr. destruct (H2 k r Hr) as [Hr'|?]; [by apply H1 | by right]. Qed.
Lemma kept_same s s' : v_map s' = v_map s → kept s s'.
Proof. intros Em k r. rewrite Em. by left. Qed.

(** What a computation does from the state [s]. *)
Definition keeps {A} (m : V A) s : Prop := kept s (snd (m s)).

Lemma keeps_bind {A B} (m : V A) (f : A → V B) s : keeps m s → (∀ a s', m s = (Ret a, s') → keeps (f a) s') → keeps (a ← m; f a) s.
Proof.
  unfold keeps, mbind, M_bind. destruct (m s) as [[a| |] s'] eqn:Em; simpl; [|done..]. intros H1 H2.
  by eapply kept_trans, H2.
Qed.
Lemma keeps_lift {A} (o : result exn A) s : keeps (lift o) s.
Proof. by apply kept_same. Qed.
Lemma keeps_in_env {A} (m : M exn E A) s : keeps (in_env (PM := PM) (R := R) m) s.
Proof. apply kept_same. unfold in_env, zoom. by destruct (m (v_env s)). Qed.
Lemma keeps_modify (f : Services PM R E → Services PM R E) s : v_map (f s) = v_map s → keeps (modify f) s.
Proof. intros Em. by apply kept_same. Qed.

Create HintDb keeps discriminated.
#[local] Hint Resolve keeps_lift keeps_in_env : keeps.
Ltac keep := repeat first [apply keeps_bind; [|intros ? ? _] | apply keeps_modify; reflexivity | eauto with keeps].

Lemma keeps_notify id status text s : keeps (notify (PM := PM) (R := R) id status text) s.
Proof. unfold notify. keep. Qed.
Lemma keeps_announce path status s :
  keeps (report ← lift (written (WriteReport (lit "*services") status;; writeBody path)); in_env (PM := PM) (R := R) (env_publish report)) s.
Proof. keep. Qed.

Lemma keeps_close_one r s : keeps (close_one (PM := PM) r) s.
Proof. unfold close_one. keep. Qed.

Lemma keeps_close_loop fuel s : keeps (close_loop (PM := PM) (R := R) (E := E) fuel) s.
Proof.
  revert s. induction fuel as [|fuel IH]; intros s; simpl; unfold keeps, mbind at 1, M_bind at 1; simpl;
    destruct (v_route_close s) as [|r rest]; try by apply kept_same.
  rewrite modify_run. apply (kept_trans _ (set_queues (v_route_open s) rest s)); [by apply kept_same|].
  apply keeps_bind; [apply keeps_close_one | intros ? s' _; apply IH].
Qed.

Lemma keeps_establish spec s : table s !! nr_map_uri spec = None → keeps (establish spec) s.
Proof.
  intros Hn. unfold keeps, establish.
  assert (∀ o s', emplace (nr_map_uri spec) s = (o, s') → o ≠ Ret tt → v_map s' = v_map s) as Hfail.
  { unfold emplace, mbind, M_bind, lift, modify, get, throw. intros o s'. destruct (route_new _); simpl; [|by intros [= <- <-]..].
    destruct (pm_emplace _ _ _); by intros [= <- <-]. }
  unfold mbind at 1, M_bind at 1.
  destruct (emplace (nr_map_uri spec) s) as [[[]|e|f] s1] eqn:Ee; [|apply kept_same; by eapply Hfail..].
  assert (∃ r, route_new (nr_map_uri spec) = Ret r ∧ table s1 = <[nr_map_uri spec := r]> (table s)) as (r & Er & Et).
  { revert Ee. unfold emplace, mbind, M_bind, lift, modify, get, throw. destruct (route_new _) as [r| |]; simpl; [|done..].
    destruct (pm_emplace (nr_map_uri spec) r (v_map s)) as [m|] eqn:Em; [|done]. intros [= <-]. exists r. split; [done|].
    destruct (Z_le_gt_dec (blen (nr_map_uri spec)) pm_max_key_size) as [Hl|Hl].
    - destruct (entries_emplace (nr_map_uri spec) r (v_map s) Hl) as (m' & Em' & Et'). rewrite Hn in Et'. simpl. congruence.
    - rewrite emplace_long in Em by lia. done. }
  assert (kept s s1) as K1.
  { intros k r0. rewrite Et, lookup_insert_Some. intros [[_ <-]|[_ ?]]; [right | by left]. exists (nr_map_uri spec), r, (nr_host spec). by split; [|left]. }
  unfold in_env, zoom. unfold mbind at 1, M_bind at 1.
  destruct (env_sub_dial (nr_host spec) (v_env s1)) as [[[]| |] e1]; [|exact K1..].
  unfold mbind at 1, M_bind at 1, get. change (v_map (set_env e1 s1)) with (v_map s1). rewrite entries_find, Et, lookup_insert_eq.
  destruct (route_dial (nr_host spec) r) as [o r'] eqn:Ed. rewrite modify_run. intros k r0.
  change (v_map (snd (lift o _))) with (pm_update (nr_map_uri spec) r' (v_map s1)).
  rewrite entries_update, Et, insert_insert_eq, lookup_insert_Some. intros [[_ <-]|[_ ?]]; [right | by left].
  exists (nr_map_uri spec), r, (nr_host spec). rewrite Ed. by split; [|right].
Qed.

Lemma keeps_failed_dial spec s : keeps (failed_dial (R := R) pf spec) s.
Proof.
  unfold failed_dial, forget_pipe. apply keeps_bind; [|intros ? ? _].
  - intros k r. simpl. rewrite entries_erase, lookup_delete_Some. by intros [_ ?]; left.
  - keep.
Qed.

Lemma keeps_open_one spec s : keeps (open_one pf spec) s.
Proof.
  unfold keeps, open_one. unfold mbind at 1, M_bind at 1, get. rewrite entries_find.
  destruct (table s !! nr_map_uri spec) as [r|] eqn:Et.
  - apply keeps_bind; [by apply keeps_modify | intros; apply keeps_notify].
  - pose proof (keeps_establish spec s Et) as K1. unfold keeps, try_nng in *.
    destruct (establish spec s) as [[|[]|] s1] eqn:Es; simpl in *; try done; eapply kept_trans; try exact K1.
    + apply keeps_bind; [apply keeps_notify | intros; apply keeps_announce].
    + apply keeps_failed_dial.
Qed.

Lemma keeps_open_loop fuel s : keeps (open_loop pf fuel) s.
Proof.
  revert s. induction fuel as [|fuel IH]; intros s; simpl; unfold keeps, mbind at 1, M_bind at 1; simpl;
    destruct (v_route_open s) as [|spec rest]; try by apply kept_same.
  rewrite modify_run. apply (kept_trans _ (set_queues rest (v_route_close s) s)); [by apply kept_same|].
  apply keeps_bind; [apply keeps_open_one | intros ? s' _; apply IH].
Qed.

Lemma keeps_manage s : keeps (management_pass pf) s.
Proof.
  unfold keeps, management_pass, noexcept.
  assert (∀ B (m : V B) s0, snd (match m s0 with (Throw _, s') => (Fault NoexceptTerminate, s') | o => o end) = snd (m s0)) as Hn.
  { intros B m s0. by destruct (m s0) as [[] ?]. }
  rewrite Hn. apply keeps_bind; [by apply kept_same | intros ? ? _]. apply keeps_bind; [apply keeps_close_loop | intros].
  apply keeps_bind; [by apply kept_same | intros]. apply keeps_open_loop.
Qed.

Lemma keeps_recv id pipe m s : v_map (snd (async_recv (R := R) id pipe m s)) = v_map s.
Proof.
  unfold async_recv. destruct (View.parse REQUEST (msg_body m)) as [v|[| | |]|f]; try done.
  - unfold mbind, M_bind, lift, get, modify, mret, M_ret. destruct (View.uriString v); [|done..].
    destruct (View.bodyString v) as [text| |]; [|done..].
    destruct (Detail.ConsumeLine text) as [? rest]. destruct (Detail.ConsumeLine rest) as [? []]; [done|]. by destruct (written _).
  - unfold mbind, M_bind, lift. by destruct (written _).
Qed.

(** Only a registration request that is queued changes the directory. *)
Lemma recv_answered id pipe m s (reply : msg) s' : async_recv (R := R) id pipe m s = (Ret (Some reply), s') → s' = s.
Proof.
  unfold async_recv. destruct (View.parse REQUEST (msg_body m)) as [v|[| | |]|f]; try done.
  - unfold mbind, M_bind, lift, get, modify, mret, M_ret. destruct (View.uriString v); [|done..].
    destruct (View.bodyString v) as [text| |]; [|done..].
    destruct (Detail.ConsumeLine text) as [? rest]. destruct (Detail.ConsumeLine rest) as [? []]; [done|].
    destruct (written _); [|done..]. by intros [= _ <-].
  - unfold mbind, M_bind, lift. destruct (written _); [|done..]. by intros [= _ <-].
Qed.

Lemma keeps_pipe pipe ev s : keeps (pipe_event (E := E) pipe ev) s.
Proof.
  unfold keeps, pipe_event. destruct ev; try by apply kept_same.
  unfold mbind, M_bind, get, modify, fail. destruct (v_registrationMap s !! pipe) as [path|]; [|by apply kept_same]. simpl.
  destruct (pm_find path (v_map s)); simpl; [|by apply kept_same].
  intros k r0. simpl. rewrite entries_erase, lookup_delete_Some. by intros [_ ?]; left.
Qed.

End Routes.

(** ** The routes of the server *)
Section Concrete.
Context {P msg : Type} {Hpipe : PipeEventHandler P}.
Context (nng_open : bool → PROTOCOL → result exn Z).
Context (make_connector : bool → Z → bytes → gset Z → result exn Z).
Context (pf : PLATFORM).

Lemma brand_new_silent (r : Route P msg) :
  brand_new (Hroute := RouteFacts.Route_routing nng_open make_connector pf) r → BoxFacts.outgoing (rt_req_send r) = [].
Proof.
  intros (path & r0 & host & E & Hr). simpl in E, Hr.
  assert (BoxFacts.outgoing (rt_req_send r0) = []) as H0.
  { revert E. unfold RouteOps.new_route, mbind, result_bind. destruct (SocketOps.open_socket _ _ _ _); [|done..].
    destruct (SendBoxOps.Push_Box _); [|done..]. simpl. by intros [= <-]. }
  destruct Hr as [->| ->]; [done|]. unfold RouteOps.dial, zoom, mbind, M_bind.
  destruct (RouteOps.dial_socket _ _ _ (rt_req r0)) as [[] ?]; simpl; [|done..].
  by destruct (RouteOps.dial_socket _ _ _ _) as [[] ?].
Qed.

End Concrete.
End ServicesRoutes.
