(* ===== verification/ServerFacts.v ===== *)
(** * The server: theorems

    The communicators of the server keep what the directory asks of them, so
    the theorems about the directory hold in the server; what the relays do
    with requests, pushes and reports. *)
From stdpp Require Import gmap.
From S2P Require Import Prelude.
From S2P Require Import Nng.
From S2P Require Import MsgUtil.
From S2P Require Import Status.
From S2P Require Import MsgLayout.
From S2P Require Import MsgView.
From S2P Require Import MsgParse.
From S2P Require Import MsgWriter.
From S2P Require Import Notices.
From S2P Require Import Pattern.
From S2P Require Import HostAddress.
From S2P Require Import AsyncSend.
From S2P Require Import AsyncRecv.
From S2P Require Import ServiceReply.
From S2P Require Import ServiceReplyFacts.
From S2P Require Import Socket.
From S2P Require Import Boxes.
From S2P Require Import PrefixMap.
From S2P Require Import Route.
From S2P Require Import Relays.
From S2P Require Import Services.
From S2P Require Import Server.
From S2P Require Import ServicesFacts.

Module ServerFacts.
Import ServerOps.

(** ** The communicators of the directory *)
Section Env.
Context {P msg : Type} {Hpipe : PipeEventHandler P}.
Context (make_connector : bool → Z → bytes → gset Z → result exn Z).
Context (pf : PLATFORM).

(** The registration responder is open and serves a live directory, and the
    events can be published. *)
Record open_env (e : ServerEnv P msg) : Prop := {
  open_register : ReplyFacts.Inv (ReplyOps.y_reply (en_register e)) (ReplyOps.y_threads (en_register e));
  open_listening : p_ready (ReplyOps.y_reply (en_register e)) = true;
  open_handler : p_handler (ReplyOps.y_reply (en_register e)) = Some tt;
  open_events : SocketOps.isReady (sb_socket (en_events e)) = true;
  open_queue : BoxFacts.queue_ok (sb_loop (en_events e));
}.

Definition Server_env_laws
    (connector_throws : ∀ l s uri live, nng_only (make_connector l s uri live)) :
  @ServicesEnvLaws (ServerEnv P msg) msg (Server_env make_connector pf).
Proof.
  refine (@Build_ServicesEnvLaws _ _ (Server_env make_connector pf) open_env
    (λ e, p_unresponded (ReplyOps.y_reply (en_register e))) en_answers en_announced _ _ _ _); simpl.
  - intros id m e [H1 H2 H3 H4 H5] Hid.
    destruct (ReplyFacts.respond_ok (Hops := Directory_handler) _ _ id m tt m tt H1 H2 H3 eq_refl Hid) as (y' & E & HI & Hr & Hh & Hu).
    unfold respondTo. rewrite E. eexists. split; [reflexivity|]. by split_and!.
  - intros m e [H1 H2 H3 H4 H5]. unfold publish_event, SendBoxOps.publish, SendBoxOps.when_ready, zoom, mbind, M_bind, get.
    rewrite H4. simpl. destruct (BoxFacts.send_msg_ok (sb_loop (en_events e)) m H5) as (l' & -> & Hl & _).
    eexists. split; [reflexivity|]. by split_and!.
  - intros host e [H1 H2 H3 H4 H5]. unfold sub_dial, on_subscriber, zoom.
    pose proof (RouteFacts.dial_socket_nng make_connector pf connector_throws host (ps_subscribe (en_publish e))) as Hn.
    destruct (RouteOps.dial_socket make_connector pf host (ps_subscribe (en_publish e))) as [o k]. by split_and!.
  - intros path e [H1 H2 H3 H4 H5]. unfold sub_disconnect, on_subscriber, zoom.
    eexists. split; [reflexivity|]. by split_and!.
Defined.

End Env.

(** ** The relays *)
Section Relays.
Context {PM R P msg : Type}.
Context {Hmsg : NngMsg msg} {Hmsgl : NngMsgLaws msg} {Hpm : PrefixMap PM R} {Hpml : PrefixMapLaws PM R}.
Context {Hroute : Routing R msg} {Hroutel : RoutingLaws R msg} {Hpipe : PipeEventHandler P}.
Context (make_connector : bool → Z → bytes → gset Z → result exn Z).
Context (pf : PLATFORM).
Context (connector_throws : ∀ l s uri live, nng_only (make_connector l s uri live)).
Implicit Types (sv : Server PM R P msg).

#[local] Instance env : ServicesEnv (ServerEnv P msg) msg := Server_env make_connector pf.
#[local] Instance env_laws : ServicesEnvLaws (ServerEnv P msg) msg := Server_env_laws make_connector pf connector_throws.

#[local] Arguments HttpStatus.toInt : simpl never.
Import Notices.

Abbreviation table sv := (entries (v_map (sv_services sv))).

(** A server at work: its directory has been reached, with communicators that
    are open, and its reply loop works. *)
Definition serving sv : Prop :=
  ServicesFacts.reached pf (sv_services sv) ∧ BoxFacts.queue_ok (rr_send (sv_reply sv)).

(** [k] is the longest registered prefix of [uri], and its route is [r]. *)
Definition longest_prefix sv uri k (r : R) : Prop :=
  table sv !! k = Some r ∧ k `prefix_of` uri ∧
  ∀ k', is_Some (table sv !! k') → k' `prefix_of` uri → (length k' ≤ length k)%nat.
Definition no_prefix sv uri : Prop := ∀ k, k `prefix_of` uri → table sv !! k = None.

(** A reply with this status and text, to the sender of [m], goes to the end
    of the queue of replies. *)
Definition replied sv sv' (m : msg) (code : HttpStatus.Code) (text : bytes) : Prop :=
  ∃ reply, BoxFacts.outgoing (rr_send (sv_reply sv')) = BoxFacts.outgoing (rr_send (sv_reply sv)) ++ [reply]
    ∧ msg_header reply = msg_header m ∧ reads_reply reply (HttpStatus.toInt code) text.

Definition not_found_text (uri : bytes) : bytes := lit "No service for URI `" ++ uri ++ lit "`".
Definition failed_text : bytes := lit "Service exists but forwarding failed.".

Lemma compose_assoc (m k1 k2 : M exn (MsgWriter msg) unit) w : (m;; k1;; k2) w = ((m;; k1);; k2) w.
Proof. unfold mbind, M_bind. by destruct (m w) as [[] ?]. Qed.

Lemma error_reply_written code text uri (m : msg) :
  blen text < 2 ^ 60 →
  code = HttpStatus.NotFound ∧ text = not_found_text uri
  ∨ code = HttpStatus.ServiceUnavailable ∧ text = failed_text →
  ∃ reply, ServicesOps.written (error_reply (HttpStatus.toInt code) uri (Some m)) = Ret reply
    ∧ reads_reply reply (HttpStatus.toInt code) text ∧ msg_header reply = msg_header m.
Proof.
  intros Hb Hcode. destruct (reply_header_written (msg := msg) code text (msg_header m) Hb) as (reply & E & Hr & Hh).
  exists reply. split; [|done]. apply ServicesFacts.written_eq. rewrite <- E. apply compose_ext.
  rewrite <- compose_assoc. by destruct Hcode as [[-> ->]|[-> ->]].
Qed.

(** The directory keeps being reached. *)
Lemma routed_reached (push : bool) uri m (s s' : Services PM R (ServerEnv P msg)) x :
  ServicesFacts.reached pf s →
  (if push then ServicesOps.routePush else ServicesOps.routeRequest) uri m s = (Ret x, s') →
  ServicesFacts.reached pf s'.
Proof.
  intros Hr E1.
  apply (ServicesFacts.reached_event pf (if push then ServicesOps.EPush uri m else ServicesOps.ERequest uri m) s s' Hr).
  - by destruct push.
  - destruct push; simpl; unfold mbind, M_bind; by rewrite E1.
Qed.

(** A reply is enqueued. *)
Lemma service_replying_ok sv reply :
  BoxFacts.queue_ok (rr_send (sv_reply sv)) →
  ∃ sv', in_reply (RelayOps.service_replying reply) sv = (Ret tt, sv')
    ∧ BoxFacts.queue_ok (rr_send (sv_reply sv')) ∧ sv_services sv' = sv_services sv
    ∧ BoxFacts.outgoing (rr_send (sv_reply sv')) = BoxFacts.outgoing (rr_send (sv_reply sv)) ++ [reply].
Proof.
  intros Hq. destruct (BoxFacts.send_msg_ok (rr_send (sv_reply sv)) reply Hq) as (l' & E1 & Hl & Ho).
  unfold in_reply, RelayOps.service_replying, zoom. rewrite E1. by eexists.
Qed.

Lemma failed_request sv m uri code text (s' : Services PM R (ServerEnv P msg)) :
  BoxFacts.queue_ok (rr_send (sv_reply sv)) → blen text < 2 ^ 60 →
  code = HttpStatus.NotFound ∧ text = not_found_text uri
  ∨ code = HttpStatus.ServiceUnavailable ∧ text = failed_text →
  ServicesOps.routeRequest uri m (sv_services sv) = (Ret (HttpStatus.toInt code, Some m), s') →
  ∃ sv', (routed ← in_services (ServicesOps.routeRequest uri m);
          let '(status, kept) := (routed : Z * option msg) in
          if HttpStatus.isSuccessful status then mret tt
          else reply ← lift (ServicesOps.written (error_reply status uri kept));
               in_reply (RelayOps.service_replying reply)) sv = (Ret tt, sv')
    ∧ BoxFacts.queue_ok (rr_send (sv_reply sv')) ∧ sv_services sv' = s' ∧ replied sv sv' m code text.
Proof.
  intros Hq Hb Hcode E1.
  destruct (error_reply_written code text uri m Hb Hcode) as (reply & E2 & Hr & Hh).
  destruct (service_replying_ok (set_services s' sv) reply Hq) as (sv' & E3 & Hq' & Es & Ho).
  exists sv'. split_and!; [|done|done|by exists reply].
  erewrite bind_run by (unfold in_services, zoom; rewrite E1; reflexivity). cbv beta iota.
  replace (HttpStatus.isSuccessful (HttpStatus.toInt code)) with false by by destruct Hcode as [[-> _]|[-> _]].
  unfold mbind at 1, M_bind at 1, lift. by rewrite E2.
Qed.

(** What becomes of a request for [uri]. *)
Record handled sv sv' (m : msg) (uri : bytes) : Prop := {
  handled_serving : serving sv';
  handled_env : v_env (sv_services sv') = v_env (sv_services sv);
  handled_404 : no_prefix sv uri →
    table sv' = table sv ∧ replied sv sv' m HttpStatus.NotFound (not_found_text uri);
  handled_route k r : longest_prefix sv uri k r →
    table sv' = <[k := snd (route_sendRequest m r)]> (table sv) ∧
    match fst (route_sendRequest m r) with
    | Ret _ => sv_reply sv' = sv_reply sv
    | _ => replied sv sv' m HttpStatus.ServiceUnavailable failed_text
    end;
}.

Lemma prefix_cases sv uri : no_prefix sv uri ∨ ∃ k r, longest_prefix sv uri k r.
Proof.
  destruct (pm_longest uri (v_map (sv_services sv))) as [[k r]|] eqn:El.
  - right. exists k, r. exact (proj1 (longest_some _ _ _ _) El).
  - left. exact (proj1 (longest_none _ _) El).
Qed.

Lemma longest_unique sv uri k r k' r' : longest_prefix sv uri k r → longest_prefix sv uri k' r' → k = k' ∧ r = r'.
Proof.
  intros H1 H2. apply (proj2 (longest_some _ _ _ _)) in H1, H2. rewrite H1 in H2. by injection H2.
Qed.

Lemma longest_some_prefix sv uri k r : longest_prefix sv uri k r → ¬ no_prefix sv uri.
Proof. intros (Hk & Hp & _) Hn. by rewrite Hn in Hk. Qed.

Lemma request_handled sv m v uri :
  serving sv → View.parse REQUEST (msg_body m) = Ret v → View.uriString v = Ret uri → blen uri < 2 ^ 59 →
  ∃ sv', client_requesting m sv = (Ret tt, sv') ∧ handled sv sv' m uri.
Proof.
  intros [Hr Hq] Ep Eu Hlen. unfold client_requesting. rewrite Ep.
  unfold mbind at 1, M_bind at 1, lift at 1. rewrite Eu.
  pose proof (ServicesFacts.route_by_prefix (sv_services sv) false uri m (ServicesFacts.reached_Inv _ _ Hr)) as [H404 Hroute_].
  assert (∀ s' x, ServicesOps.routeRequest uri m (sv_services sv) = (Ret x, s') → ServicesFacts.reached pf s') as Hreach.
  { intros s' x. exact (routed_reached false uri m _ s' x Hr). }
  destruct (prefix_cases sv uri) as [Hn|(k & r & Hk)].
  - specialize (H404 Hn). destruct (failed_request sv m uri HttpStatus.NotFound (not_found_text uri) (sv_services sv) Hq)
      as (sv' & E1 & Hq' & Es & Hrep); [| by left | exact H404 |].
    { unfold not_found_text. rewrite !blen_app. change (blen (lit "No service for URI `")) with 20.
      change (blen (lit "`")) with 1. lia. }
    exists sv'. split; [exact E1|]. split; [|by rewrite Es|..].
    + split; [rewrite Es; by eapply Hreach | done].
    + intros _. by rewrite Es.
    + intros k r Hk. by apply longest_some_prefix in Hk.
  - destruct Hk as (Hk1 & Hk2 & Hk3). destruct (Hroute_ k r Hk1 Hk2 Hk3) as (s' & Et & _ & _ & _ & Ee & E1).
    assert (longest_prefix sv uri k r) as Hk by done.
    destruct (fst (route_sendRequest m r)) as [u|e|f] eqn:Eo.
    1: exists (set_services s' sv).
    2-3: destruct (failed_request sv m uri HttpStatus.ServiceUnavailable failed_text s' Hq)
        as (sv' & E2 & Hq' & Es & Hrep); [by vm_compute | by right | exact E1 |]; exists sv'.
    all: split; [|split; try (intros Hn; by apply longest_some_prefix in Hk)].
    1: { erewrite bind_run by (unfold in_services, zoom; rewrite E1; reflexivity). reflexivity. }
    all: try exact E2; try (split; [rewrite ?Es; by eapply Hreach | done]); try (by rewrite ?Es).
    all: intros k' r' Hk'; destruct (longest_unique sv uri k r k' r' Hk Hk') as [<- <-];
      rewrite Eo, ?Es; by split.
Qed.

(** C10. A client's request never stops the server.  A message that is not a
    request changes nothing.  A request goes to the route with the longest
    registered prefix of its URI; when there is none, or the route refuses the
    message, a reply 404 or 503 with the request's NNG header, which leads back
    to the client, is put at the end of the queue of replies. *)
Theorem request_relayed sv m :
  serving sv → blen (msg_body m) < 2 ^ 59 →
  match View.parse REQUEST (msg_body m) with
  | Ret v => ∃ uri sv', View.uriString v = Ret uri ∧ client_requesting m sv = (Ret tt, sv') ∧ handled sv sv' m uri
  | _ => client_requesting m sv = (Ret tt, sv)
  end.
Proof.
  intros Hs Hb. pose proof (ParseFacts.parse_total REQUEST (msg_body m)) as Hp.
  destruct (View.parse REQUEST (msg_body m)) as [v|e|f] eqn:Ep; [| |done].
  - destruct (ParseFacts.parse_accessible REQUEST (msg_body m) v) as [Eraw Hacc]; [lia | done |].
    destruct (ParseFacts.acc_uri v Hacc) as [uri Eu].
    pose proof (ParseFacts.string_short _ _ _ Eu) as Hlen. rewrite Eraw in Hlen.
    destruct (request_handled sv m v uri Hs Ep Eu) as (sv' & E1 & Hh); [lia|]. by exists uri, sv'.
  - destruct Hp as (err & text & -> & _). unfold client_requesting. by rewrite Ep.
Qed.

(** C11. A pushed message goes to the route with the longest registered prefix of
    its URI, and is dropped when there is none, when the route refuses it, and
    when it is not a request; no other route changes, nor do the relay of
    requests and the communicators of the directory, so nothing is replied. *)
Theorem push_relayed sv m :
  serving sv → blen (msg_body m) < 2 ^ 59 →
  ∃ sv', pulling m sv = (Ret tt, sv') ∧ serving sv'
    ∧ sv_reply sv' = sv_reply sv ∧ v_env (sv_services sv') = v_env (sv_services sv)
    ∧ match View.parse REQUEST (msg_body m) with
      | Ret v => ∃ uri, View.uriString v = Ret uri ∧ (no_prefix sv uri → table sv' = table sv)
          ∧ ∀ k r, longest_prefix sv uri k r → table sv' = <[k := snd (route_sendPush m r)]> (table sv)
      | _ => sv' = sv
      end.
Proof.
  intros Hs Hb. pose proof (ParseFacts.parse_total REQUEST (msg_body m)) as Hp. unfold pulling.
  destruct (View.parse REQUEST (msg_body m)) as [v|e|f] eqn:Ep; [| |done].
  2: { destruct Hp as (err & text & -> & _). by exists sv. }
  destruct (ParseFacts.parse_accessible REQUEST (msg_body m) v) as [_ Hacc]; [lia | done |].
  destruct (ParseFacts.acc_uri v Hacc) as [uri Eu]. destruct Hs as [Hr Hq].
  pose proof (ServicesFacts.route_by_prefix (sv_services sv) true uri m (ServicesFacts.reached_Inv _ _ Hr)) as [H404 Hroute_].
  assert (∃ x s', ServicesOps.routePush uri m (sv_services sv) = (Ret x, s') ∧ v_env s' = v_env (sv_services sv)
    ∧ (no_prefix sv uri → s' = sv_services sv)
    ∧ ∀ k r, longest_prefix sv uri k r → entries (v_map s') = <[k := snd (route_sendPush m r)]> (table sv))
    as (x & s' & E1 & Ee & Hn & Hk).
  { destruct (prefix_cases sv uri) as [Hn|(k & r & Hk)].
    - eexists _, _. split; [exact (H404 Hn)|]. split_and!; [done | done |].
      intros k r Hk. by apply longest_some_prefix in Hk.
    - destruct Hk as (Hk1 & Hk2 & Hk3). destruct (Hroute_ k r Hk1 Hk2 Hk3) as (s' & Et & _ & _ & _ & Ee & E1).
      assert (longest_prefix sv uri k r) as Hk by done.
      destruct (fst (route_sendPush m r)); eexists _, s'; (split; [exact E1|]);
        (split_and!; [done | intros Hn; by apply longest_some_prefix in Hk |]);
        intros k' r' Hk'; by destruct (longest_unique sv uri k r k' r' Hk Hk') as [<- <-]. }
  exists (set_services s' sv). split_and!.
  - unfold mbind at 1, M_bind at 1, lift at 1. rewrite Eu. unfold in_services, zoom, mbind, M_bind. by rewrite E1.
  - split; [|done]. by eapply (routed_reached true).
  - done.
  - done.
  - exists uri. split_and!; [done | intros H0; simpl; by rewrite Hn | done].
Qed.

(** C12. A report of a service is published to the clients when the server is
    open at some address, and one that is not a report is dropped.  When no
    address is open, [publish] throws inside the callback of the receiving
    loop, which ends the program. *)
Theorem report_relayed (r : PubSub P msg) m :
  BoxFacts.queue_ok (sb_loop (ps_publish r)) → rl_handler (ps_loop r) = true →
  match View.parse REPORT (msg_body m) with
  | Ret _ =>
      if SocketOps.isReady (sb_socket (ps_publish r))
      then ∃ r', RelayOps.pub_async_recv m r = (Ret tt, r')
        ∧ BoxFacts.outgoing (sb_loop (ps_publish r')) = BoxFacts.outgoing (sb_loop (ps_publish r)) ++ [m]
        ∧ BoxFacts.queue_ok (sb_loop (ps_publish r')) ∧ ps_loop r' = ps_loop r
      else RelayOps.pub_received success m r = (Fault NoexceptTerminate, r)
  | _ => RelayOps.pub_async_recv m r = (Ret tt, r)
  end.
Proof.
  intros Hq Hh. pose proof (ParseFacts.parse_total REPORT (msg_body m)) as Hp.
  destruct (View.parse REPORT (msg_body m)) as [v|e|f] eqn:Ep; [| |done].
  - destruct (SocketOps.isReady (sb_socket (ps_publish r))) eqn:Er.
    + destruct (BoxFacts.send_msg_ok (sb_loop (ps_publish r)) m Hq) as (l' & E1 & Hl & Ho).
      unfold RelayOps.pub_async_recv, SendBoxOps.publish, SendBoxOps.when_ready, zoom, mbind, M_bind, get.
      rewrite Ep, Er. simpl. rewrite E1. by eexists.
    + unfold RelayOps.pub_received, noexcept, RelayOps.pub_async_recv, SendBoxOps.publish, SendBoxOps.when_ready,
        zoom, mbind, M_bind, get. rewrite Hh, Ep. simpl. rewrite Er. by destruct r.
  - destruct Hp as (err & text & -> & _). unfold RelayOps.pub_async_recv. by rewrite Ep.
Qed.

(** ** Construction

    NNG may refuse to open a socket or to make a connector, a context or an
    aio: [allowed] says whether it may. *)
Section Start.
Context (nng_open : bool → PROTOCOL → result exn Z).
Context (allowed : Prop).

(** A constructor gives a result, or NNG refused something. *)
Definition ends {A} (r : result exn A) (Q : A → Prop) : Prop :=
  match r with Ret a => Q a | Throw (NngException _ _) => allowed | _ => False end.

Definition made_ctx (made : exn + QueryID) : result exn QueryID :=
  match made with inl e => Throw e | inr fresh => Ret fresh end.
Definition made_aios (aios : option exn) : result exn unit :=
  match aios with Some e => Throw e | None => Ret tt end.

Hypothesis opens : ∀ raw p, ends (nng_open raw p) (λ _, True).
Hypothesis connects : ∀ l s uri live, ends (make_connector l s uri live) (λ _, True).

Lemma ends_bind {A B} (r : result exn A) (f : A → result exn B) (Q : A → Prop) (Q' : B → Prop) :
  ends r Q → (∀ a, Q a → ends (f a) Q') → ends (a ← r; f a) Q'.
Proof. destruct r as [a|[]|]; simpl; try done. intros H1 H2. by apply H2. Qed.

Lemma init_bind {S A B} (m : M exn S A) (f : A → M exn S B) s (Q Q' : S → Prop) :
  ends (RouteOps.init m s) Q → (∀ a s', m s = (Ret a, s') → Q s' → ends (RouteOps.init (f a) s') Q') →
  ends (RouteOps.init (a ← m; f a) s) Q'.
Proof.
  unfold RouteOps.init, mbind, M_bind. destruct (m s) as [[a|[]|] s'] eqn:E; simpl; try done.
  intros H1 H2. by apply (H2 a).
Qed.

Lemma open_ends r p v :
  v ≠ other_variant → Protocol.Choose r p ≠ NO_PROTOCOL →
  ends (SocketOps.open_socket nng_open r p v) (λ k : Socket P, ∃ s, k = mkSocket r p (Protocol.Choose r p) (Some s) 0 None ∅ ∅).
Proof.
  intros Hv Hp. unfold SocketOps.open_socket.
  destruct v; [| |done]; destruct (Protocol.Choose r p) eqn:Ep; try done;
    (eapply ends_bind; [apply opens | intros s _; simpl; by eexists]).
Qed.

(** What [listen] and [dial] do to a socket that is open. *)
Definition attached l base (k k' : Socket P) : Prop :=
  k_socket k' = k_socket k ∧ k_pattern k' = k_pattern k ∧ SocketOps.isReady k' = true
  ∧ ∃ uri, Host.toString (E := exn) pf (Host.derived base (k_pattern k)) = Ret uri
    ∧ (is_Some (k_connectors k !! uri) ∧ k_connectors k' = k_connectors k
       ∨ k_connectors k !! uri = None ∧ ∃ id, k_connectors k' = <[uri:=mkConnector l id]> (k_connectors k)).

Lemma connect_ends l base (k : Socket P) :
  is_Some (k_socket k) →
  ends (RouteOps.init (SocketOps.at_base pf (SocketOps.connect make_connector l) base) k) (attached l base k).
Proof.
  intros [s Hs]. destruct (HostFacts.derived_uri (E := exn) pf base (k_pattern k)) as [u Hu].
  unfold RouteOps.init, attached, SocketOps.at_base, SocketOps.connect, mbind, M_bind, get, lift, modify. rewrite Hu, Hs.
  pose proof (connects l s u (k_live k)) as Hc.
  destruct (make_connector l s u (k_live k)) as [id|[]|]; simpl in *; try done.
  assert (∀ c : gmap bytes ListenerOrDialer, c ≠ ∅ → negb (Nat.eqb (size c) 0) = true) as Hne.
  { intros c Hc0. apply negb_true_iff, Nat.eqb_neq. by rewrite map_size_non_empty_iff. }
  destruct (k_connectors k !! u) as [c|] eqn:Ec; simpl; split_and!; try done.
  - apply Hne. simpl. intros E0. by rewrite E0 in Ec.
  - exists u. split; [done|]. left. split; [by eexists | done].
  - apply Hne, insert_non_empty.
  - exists u. split; [done|]. right. split; [done | by exists id].
Qed.

Definition host_socket sv (h : HOST) : Socket P :=
  match h with
  | REPLY_HOST => rr_reply_ext (sv_reply sv)
  | PUBLISH_HOST => sb_socket (ps_publish (sv_publish sv))
  | PULL_HOST => pp_socket (sv_pull sv)
  end.
Definition host_pattern (h : HOST) : PATTERN :=
  match h with REPLY_HOST => REQ_REP | PUBLISH_HOST => PUB_SUB | PULL_HOST => PUSH_PULL end.
Definition hosts_open sv : Prop :=
  ∀ h, is_Some (k_socket (host_socket sv h)) ∧ k_pattern (host_socket sv h) = host_pattern h.

(** A host listens at its address under [base], and has no other connector. *)
Definition listens base h sv : Prop :=
  ∃ uri id, Host.toString (E := exn) pf (Host.derived base (host_pattern h)) = Ret uri
    ∧ k_connectors (host_socket sv h) = {[uri := mkConnector true id]}.
Definition silent h sv : Prop := k_connectors (host_socket sv h) = ∅.

Lemma listen_host base h sv :
  hosts_open sv → serving sv → listens base h sv ∨ silent h sv →
  ends (RouteOps.init (on_host (RelayOps.listen_socket make_connector pf base) h) sv)
    (λ sv', hosts_open sv' ∧ serving sv' ∧ listens base h sv'
      ∧ (∀ h', h' ≠ h → host_socket sv' h' = host_socket sv h') ∧ v_map (sv_services sv') = v_map (sv_services sv)).
Proof.
  intros Ho [Hr Hq] Hl. destruct (Ho h) as [Hopen Hpat].
  pose proof (connect_ends true base (host_socket sv h) Hopen) as Hc.
  change (SocketOps.at_base pf (SocketOps.connect (P := P) make_connector true) base)
    with (RelayOps.listen_socket (P := P) make_connector pf base) in Hc.
  assert (∀ k sv', attached true base (host_socket sv h) k → host_socket sv' h = k →
    (∀ h', h' ≠ h → host_socket sv' h' = host_socket sv h') → serving sv' → v_map (sv_services sv') = v_map (sv_services sv) →
    hosts_open sv' ∧ serving sv' ∧ listens base h sv' ∧ (∀ h', h' ≠ h → host_socket sv' h' = host_socket sv h')
    ∧ v_map (sv_services sv') = v_map (sv_services sv)) as Hdone.
  { intros k sv' (Ks & Kp & _ & uri & Hu & Hk) Eh Hne Hs Hm. rewrite Hpat in Hu. split_and!; try done.
    - intros h'. destruct (decide (h' = h)) as [->|Hd]; [rewrite Eh, Ks, Kp; apply Ho | rewrite Hne by done; apply Ho].
    - exists uri. rewrite Eh. destruct Hl as [(uri' & id & Hu' & El)|El].
      + assert (uri' = uri) as -> by congruence. exists id. split; [done|]. rewrite El, lookup_singleton_eq in Hk.
        destruct Hk as [[_ ->]|[? _]]; done.
      + unfold silent in El. rewrite El, lookup_empty in Hk. destruct Hk as [[[] _]|(_ & id & ->)]; [done|]. by exists id. }
  destruct h; cbn [host_socket] in Hc, Hdone; unfold RouteOps.init, on_host, on_reply_host, on_publish_host, on_pull_host, zoom in *;
    destruct (RelayOps.listen_socket make_connector pf base _) as [[[]|[]|] k]; cbn [ends] in Hc |- *; try done;
    (apply (Hdone k); [done | done | by intros [] | | done]).
  - done.
  - split; [|done]. apply (ServicesFacts.reached_env pf (sv_services sv)); [done|].
    pose proof (ServicesFacts.reached_Inv _ _ Hr) as HI. split.
    + by destruct (ServicesFacts.inv_env _ HI); split.
    + apply (ServicesFacts.inv_awaiting _ HI).
  - done.
Qed.

Lemma listen_hosts base order sv :
  hosts_open sv → serving sv → (∀ h, listens base h sv ∨ silent h sv) →
  ends (RouteOps.init (args_call_ref (RelayOps.listen_socket make_connector pf base) order) sv)
    (λ sv', serving sv' ∧ (∀ h, h ∈ order ∨ listens base h sv → listens base h sv')
      ∧ v_map (sv_services sv') = v_map (sv_services sv)).
Proof.
  revert sv. induction order as [|h order IH]; intros sv Ho Hs Hl.
  - simpl. split_and!; try done. intros h [Hh|Hh]; [by apply elem_of_nil in Hh | done].
  - simpl. eapply init_bind; [by apply listen_host|]. intros [] sv1 _ (Ho1 & Hs1 & Hl1 & Hne & M1).
    assert (∀ h', h' ≠ h → (listens base h' sv1 ↔ listens base h' sv) ∧ (silent h' sv1 ↔ silent h' sv)) as Hsame.
    { intros h' Hd. unfold listens, silent. by rewrite (Hne h' Hd). }
    assert (∀ h', listens base h' sv1 ∨ silent h' sv1) as Hl'.
    { intros h'. destruct (decide (h' = h)) as [->|Hd]; [by left|]. destruct (Hsame h' Hd) as [-> ->]. apply Hl. }
    specialize (IH sv1 Ho1 Hs1 Hl'). destruct (RouteOps.init _ sv1) as [sv2|[]|]; simpl in IH |- *; try done.
    destruct IH as (Hs2 & Hl2 & M2). split_and!; [done | | congruence]. intros h' Hh'. apply Hl2.
    destruct (decide (h' = h)) as [->|Hd]; [by right|]. destruct Hh' as [[?|?]%elem_of_cons|Hh']; [done | by left |].
    right. by apply Hsame.
Qed.

(** The clean-up of [open] does not fail. *)
Lemma disconnect_hosts base order sv :
  ∃ sv', args_call_ref (SocketOps.at_base pf SocketOps.disconnect base) order sv = (Ret tt, sv').
Proof.
  revert sv. induction order as [|h order IH]; intros sv; [by exists sv|]. simpl.
  assert (∃ sv1, on_host (SocketOps.at_base pf SocketOps.disconnect base) h sv = (Ret tt, sv1)) as [sv1 E1].
  { assert (∀ k : Socket P, ∃ k', SocketOps.at_base pf SocketOps.disconnect base k = (Ret tt, k')) as Hd.
    { intros k. unfold SocketOps.at_base, SocketOps.disconnect, mbind, M_bind, get, lift, modify.
      destruct (HostFacts.derived_uri (E := exn) pf base (k_pattern k)) as [u ->]. by eexists. }
    destruct h; unfold on_host, on_reply_host, on_publish_host, on_pull_host, zoom; (edestruct Hd as [k' ->]); by eexists. }
  erewrite bind_run by exact E1. apply IH.
Qed.

Lemma open_hosts base order order' sv :
  hosts_open sv → serving sv → (∀ h, silent h sv) → (∀ h, h ∈ order) →
  ends (RouteOps.init (open make_connector pf base order order') sv)
    (λ sv', serving sv' ∧ (∀ h, listens base h sv') ∧ v_map (sv_services sv') = v_map (sv_services sv)).
Proof.
  intros Ho Hs Hn Hall. pose proof (listen_hosts base order sv Ho Hs (λ h, or_intror (Hn h))) as Hl.
  unfold RouteOps.init, open, CommunicatorOps.catch_nng in *.
  destruct (args_call_ref (RelayOps.listen_socket make_connector pf base) order sv) as [[[]|[]|] sv1]; simpl in Hl |- *; try done.
  - destruct Hl as (? & Hl & ?). split_and!; try done. intros h. apply Hl. by left.
  - destruct (disconnect_hosts base order' sv1) as [sv2 ->]. done.
Qed.

(** The constructors of the relays. *)
Lemma pub_sub_ends internal :
  ends (RelayOps.new_PubSub (P := P) (msg := msg) nng_open make_connector pf internal)
    (λ p, k_connectors (sb_socket (ps_publish p)) = ∅ ∧ is_Some (k_socket (sb_socket (ps_publish p)))
      ∧ k_pattern (sb_socket (ps_publish p)) = PUB_SUB).
Proof.
  eapply ends_bind; [by apply open_ends|]. intros k [s ->]. eapply ends_bind.
  { eapply ends_bind; [by apply open_ends|]. intros k' [s' ->]. simpl.
    instantiate (1 := λ b, k_connectors (sb_socket b) = ∅ ∧ is_Some (k_socket (sb_socket b)) ∧ k_pattern (sb_socket b) = PUB_SUB).
    by split_and!; [|eexists|]. }
  intros b Hb. eapply ends_bind; [apply (connect_ends true); by eexists|]. by intros k' _.
Qed.

Lemma push_pull_ends :
  ends (RelayOps.new_PushPull (P := P) (msg := msg) nng_open)
    (λ u, k_connectors (pp_socket u) = ∅ ∧ is_Some (k_socket (pp_socket u)) ∧ k_pattern (pp_socket u) = PUSH_PULL).
Proof. eapply ends_bind; [by apply open_ends|]. intros k [s ->]. by split_and!; [|eexists|]. Qed.

Lemma req_rep_ends internal :
  ends (RelayOps.new_ReqRep (P := P) (msg := msg) nng_open make_connector pf internal)
    (λ r, k_connectors (rr_reply_ext r) = ∅ ∧ is_Some (k_socket (rr_reply_ext r)) ∧ k_pattern (rr_reply_ext r) = REQ_REP
      ∧ BoxFacts.queue_ok (rr_send r)).
Proof.
  eapply ends_bind; [by apply open_ends|]. intros k1 [s1 ->]. eapply ends_bind; [by apply open_ends|]. intros k2 [s2 ->].
  eapply ends_bind; [by apply open_ends|]. intros k3 [s3 ->]. unfold RouteOps.init at 1 2, mbind at 1 2, result_bind at 1 2.
  cbn [AsyncSendLoop.send_init AsyncRecvLoop.recv_start].
  eapply ends_bind; [apply (connect_ends true); by eexists|]. intros k3' _.
  eapply ends_bind; [apply (connect_ends false); by eexists|]. intros k2' _.
  split_and!; try done. apply BoxFacts.queue_ok_new.
Qed.

(** The constructor of the directory. *)
Lemma registry_ends made aios :
  ends (made_ctx made) (λ _, True) → ends (made_aios aios) (λ _, True) →
  ends (RouteOps.init (ReplyOps.initialize (Some tt) made aios) (ReplyOps.new : Reply unit msg))
    (λ y, ReplyFacts.Inv y [] ∧ p_handler y = Some tt).
Proof.
  intros Hm Ha. pose proof (ReplyFacts.initialize_post (live := true) (Some tt) made aios ReplyOps.new [] eq_refl
    (ReplyFacts.reply_Inv_new (H := unit) (msg := msg))) as HI.
  destruct made as [e|fresh]; simpl in Hm.
  - unfold RouteOps.init. simpl. by destruct e.
  - specialize (HI (not_elem_of_empty _)). destruct aios as [e|]; simpl in Ha.
    + unfold RouteOps.init. simpl. by destruct e.
    + unfold RouteOps.init. by simpl in HI |- *.
Qed.

Lemma directory_ends ID made aios self (p : PubSub P msg) :
  ends (made_ctx made) (λ _, True) → ends (made_aios aios) (λ _, True) →
  ends (new_directory (PM := PM) (R := R) nng_open make_connector pf ID made aios self p)
    (λ v, ServicesFacts.reached pf v ∧ en_publish (v_env v) = p ∧ v_map v = pm_empty).
Proof.
  intros Hm Ha. eapply ends_bind; [by apply open_ends|]. intros k [s ->].
  eapply ends_bind.
  { eapply ends_bind; [by apply open_ends|]. intros k' [s' ->]. simpl.
    instantiate (1 := λ b, is_Some (k_socket (sb_socket b)) ∧ BoxFacts.queue_ok (sb_loop b)).
    split; [by eexists | apply BoxFacts.queue_ok_new]. }
  intros b [Hb Hq]. eapply ends_bind; [by apply registry_ends|]. intros y [HI Hh].
  unfold RouteOps.init at 1, SocketOps.setPipeHandler, mbind at 1, result_bind at 1.
  cbn [mbind M_bind get modify k_pipe_handler].
  eapply ends_bind; [apply (connect_ends true); by eexists|]. intros k' (_ & _ & Hk & _).
  eapply ends_bind.
  { pose proof (connect_ends false (address_internal ID) (sb_socket b) Hb) as Hc.
    unfold RouteOps.init, zoom in *.
    change (SocketOps.at_base pf (SocketOps.connect (P := P) make_connector false))
      with (RouteOps.dial_socket (P := P) make_connector pf) in Hc.
    destruct (RouteOps.dial_socket make_connector pf (address_internal ID) (sb_socket b)) as [[[]|[]|] k2]; simpl in Hc |- *; try done.
    instantiate (1 := λ b', SocketOps.isReady (sb_socket b') = true ∧ sb_loop b' = sb_loop b). by destruct Hc as (_ & _ & ? & _). }
  intros b' [Hb' El]. simpl. split; [|done]. apply ServicesFacts.reached_new.
  split; simpl; [|done..| by rewrite El]. by destruct HI; split.
Qed.

Lemma server_built ID made aios self open_inproc order order' :
  (∀ h, h ∈ order) → ends (made_ctx made) (λ _, True) → ends (made_aios aios) (λ _, True) →
  ends (new_server (PM := PM) (R := R) (msg := msg) nng_open make_connector pf ID made aios self open_inproc order order')
    (λ sv, serving sv ∧ table sv = ∅ ∧ ∀ h, if open_inproc then listens (Host.InProc ID) h sv else silent h sv).
Proof.
  intros Hall Hm Ha. eapply ends_bind; [apply pub_sub_ends|]. intros p (P1 & P2 & P3).
  eapply ends_bind; [apply push_pull_ends|]. intros u (U1 & U2 & U3).
  eapply ends_bind; [apply req_rep_ends|]. intros r (R1 & R2 & R3 & Hq).
  eapply ends_bind; [by apply directory_ends|]. intros v (Hv & Epub & Em).
  set (sv := mkServer ID u r v). assert (serving sv) as Hs by done.
  assert (hosts_open sv) as Ho by (intros []; unfold host_socket, sv_publish; simpl; by rewrite ?Epub).
  assert (∀ h, silent h sv) as Hn by (intros []; unfold silent, host_socket, sv_publish; simpl; by rewrite ?Epub).
  destruct open_inproc; simpl; [|by rewrite Em, entries_empty].
  pose proof (open_hosts (Host.InProc ID) order order' sv Ho Hs Hn Hall) as Hop.
  destruct (RouteOps.init _ sv) as [sv'|[]|]; simpl in Hop |- *; try done.
  destruct Hop as (? & ? & M'). rewrite M'. simpl. by rewrite Em, entries_empty.
Qed.

End Start.


End Relays.

(** ** Witnesses: a server in a process where NNG opens everything *)
Import FinitePrefixMap RouteFacts.
Abbreviation exRoute := (Route unit flat_msg).
Abbreviation exServer := (Server (gmap bytes exRoute) exRoute unit flat_msg).

#[local] Instance ex_routing : Routing exRoute flat_msg := Route_routing any_open any_connector OtherPlatform.
#[local] Instance ex_routing_laws : RoutingLaws exRoute flat_msg :=
  Route_laws any_open any_connector OtherPlatform (λ _ _, I) (λ _ _ _ _, I).

Definition hosts : list HOST := [REPLY_HOST; PUBLISH_HOST; PULL_HOST].
Definition ex_new (open_inproc : bool) : result exn exServer :=
  new_server any_open any_connector OtherPlatform (lit "srv") (inr 7) None tt open_inproc hosts hosts.

Lemma all_hosts h : h ∈ hosts.
Proof. unfold hosts. rewrite !elem_of_cons. destruct h; auto. Qed.


Lemma ex_built open_inproc :
  ∃ sv, ex_new open_inproc = Ret sv ∧ serving any_connector OtherPlatform (λ _ _ _ _, I) sv
    ∧ entries (v_map (sv_services sv)) = ∅
    ∧ ∀ h, if open_inproc then listens OtherPlatform (Host.InProc (lit "srv")) h sv else silent h sv.
Proof.
  pose proof (server_built (PM := gmap bytes exRoute) (R := exRoute) any_connector OtherPlatform (λ _ _ _ _, I) any_open False
    (λ _ _, I) (λ _ _ _ _, I) (lit "srv") (inr 7) None tt open_inproc hosts hosts all_hosts I I) as H1.
  fold (ex_new open_inproc) in H1. destruct (ex_new open_inproc) as [sv|[]|]; try done. by exists sv.
Qed.

Definition get_a : flat_msg := mkFlat (lit "trace") (lit "GET /a Tell/0" ++ [LF; LF]).

Lemma request_relayed_witness :
  ∃ sv sv', ex_new true = Ret sv ∧ client_requesting get_a sv = (Ret tt, sv')
    ∧ replied sv sv' get_a HttpStatus.NotFound (not_found_text (lit "/a")).
Proof.
  destruct (ex_built true) as (sv & E1 & Hs & Et & _).
  pose proof (request_relayed any_connector OtherPlatform (λ _ _ _ _, I) sv get_a Hs ltac:(by vm_compute)) as H1.
  vm_compute (View.parse REQUEST (msg_body get_a)) in H1.
  destruct H1 as (uri & sv' & Eu & E2 & Hh). vm_compute in Eu. injection Eu as <-.
  exists sv, sv'. split; [exact E1|]. split; [exact E2|].
  apply (handled_404 _ _ _ _ _ _ _ Hh). intros k _. by rewrite Et.
Defined.

Lemma push_relayed_witness :
  ∃ sv sv', ex_new true = Ret sv ∧ pulling get_a sv = (Ret tt, sv') ∧ sv_reply sv' = sv_reply sv.
Proof.
  destruct (ex_built true) as (sv & E1 & Hs & _).
  destruct (push_relayed any_connector OtherPlatform (λ _ _ _ _, I) sv get_a Hs ltac:(by vm_compute))
    as (sv' & E2 & _ & E3 & _).
  by exists sv, sv'.
Defined.

Definition report_a : flat_msg := mkFlat [] (lit "/a Tell/0 200 OK" ++ [LF; LF]).

Definition relay (open_inproc : bool) : option (PubSub unit flat_msg) :=
  match ex_new open_inproc with Ret sv => Some (sv_publish sv) | _ => None end.

Lemma report_relayed_witness :
  ∃ r, relay false = Some r ∧ RelayOps.pub_received success report_a r = (Fault NoexceptTerminate, r).
Proof.
  eexists. split; [vm_compute; reflexivity|].
  match goal with |- RelayOps.pub_received _ _ ?r = _ =>
    pose proof (report_relayed r report_a BoxFacts.queue_ok_new eq_refl) as H1 end.
  vm_compute in H1 |- *. exact H1.
Defined.

End ServerFacts.
