(* ===== verification/RegistrationFacts.v ===== *)
(** * Registering a service: theorems

    What [Registration] writes, the directory reads, and what the directory
    answers, [Registration] understands. *)
From stdpp Require Import gmap.
From S2P Require Import Prelude.
From S2P Require Import Nng.
From S2P Require Import MsgUtil.
From S2P Require Import Status.
From S2P Require Import Method.
From S2P Require Import Notices.
From S2P Require Import HostAddress.
From S2P Require Import PrefixMap.
From S2P Require Import Route.
From S2P Require Import Services.
From S2P Require Import Registration.
From S2P Require Import ServicesFacts.

Module RegistrationFacts.
Import ServicesOps ServicesFacts Notices.

(** The URI that a registration asks for. *)
Definition registered_uri (path alias : bytes) : bytes := if blen alias =? 0 then path else alias.

Section Message.
Context {msg : Type} {Hmsg : NngMsg msg} {Hmsgl : NngMsgLaws msg}.

(** The message of the constructor, as the directory reads it. *)
Lemma registration_written path alias :
  blen path < 2 ^ 58 → blen alias < 2 ^ 58 →
  ∃ m : msg, RegistrationOps.registration_message path alias = Ret m
    ∧ reads_request m (lit "*services") POST (registered_uri path alias ++ [LF] ++ path).
Proof.
  intros Hp Ha. unfold RegistrationOps.registration_message, RegistrationOps.registration_steps.
  destruct (request_written (msg := msg) (lit "*services") POST (registered_uri path alias ++ [LF] ++ path))
    as (m & E1 & Hr); [done | done | by vm_compute | |].
  { rewrite !blen_app. change (blen [LF]) with 1. unfold registered_uri. destruct (blen alias =? 0); lia. }
  exists m. split; [|done]. unfold registered_uri in E1. by rewrite E1.
Qed.

(** The status of a reply, as the delegate reads it. *)
Lemma delegate_reads (a : msg) code text d :
  reads_reply a (HttpStatus.toInt code) text →
  RegistrationOps.async_recv (msg_body a) d =
    Ret (if HttpStatus.isSuccessful (HttpStatus.toInt code) then mkRegDelegate ENLISTED (dg_except d)
         else mkRegDelegate FAILED (RegistrationOps.reply_error (HttpStatus.toInt code))).
Proof.
  intros (v & Hp & _ & Hs & _). unfold RegistrationOps.async_recv. rewrite Hp.
  unfold mbind, result_bind. by rewrite Hs.
Qed.

End Message.

Section Facts.
Context {PM R E msg : Type}.
Context {Hmsg : NngMsg msg} {Hmsgl : NngMsgLaws msg} {Hpm : PrefixMap PM R} {Hpml : PrefixMapLaws PM R}.
Context {Hroute : Routing R msg} {Hroutel : RoutingLaws R msg} {Henv : ServicesEnv E msg} {Henvl : ServicesEnvLaws E msg}.
Context (pf : PLATFORM).
Implicit Types (s : Services PM R E) (spec : NewRoute).

#[local] Arguments HttpStatus.toInt : simpl never.
Abbreviation table s := (entries (v_map s)).

(** The pass of the management thread for one registration. *)
Lemma management_one spec s s' :
  v_route_close s = [] → v_route_open s = [spec] →
  open_one pf spec (set_queues [] [] s) = (Ret tt, s') → v_route_open s' = [] →
  management_pass pf s = (Ret tt, s').
Proof.
  intros Hc Ho E1 Ho'. unfold management_pass, noexcept. unfold mbind at 1, M_bind at 1, get at 1.
  rewrite Hc. simpl. unfold mbind at 1, M_bind at 1. unfold mbind at 1, M_bind at 1, get at 1. rewrite Hc.
  unfold mret at 1, M_ret at 1. unfold mbind at 1, M_bind at 1, get at 1. rewrite Ho. simpl.
  unfold mbind at 1, M_bind at 1, get at 1. rewrite Ho, modify_run, Hc.
  erewrite bind_run by exact E1. unfold mbind at 1, M_bind at 1, get at 1. by rewrite Ho'.
Qed.

(** A registration arrives. *)
Definition spec_of (id : QueryID) (pipe : PipeID) (uri : bytes) : NewRoute := mkNewRoute id pipe uri (Host.InProc uri).

Lemma registration_received s id pipe path alias m :
  MsgUtilFacts.no_newline path → MsgUtilFacts.no_newline alias →
  reads_request m (lit "*services") POST (registered_uri path alias ++ [LF] ++ path) →
  v_registrationMap s !! pipe = None →
  let uri := registered_uri path alias in
  async_recv id pipe m s = (Ret None,
    set_queues (v_route_open s ++ [spec_of id pipe uri]) (v_route_close s)
      (set_registrations (<[pipe:=uri]> (v_registrationMap s)) s)).
Proof.
  intros Hp Ha (v & Ep & _ & Eu & _ & Eb) Hn uri.
  assert (MsgUtilFacts.no_newline uri) as Hu by (unfold uri, registered_uri; by destruct (blen alias =? 0)).
  unfold async_recv. rewrite Ep. unfold mbind, M_bind, lift, get, modify. rewrite Eu, Eb.
  fold uri. rewrite MsgUtilFacts.ConsumeLine_app by (done || by left).
  rewrite MsgUtilFacts.ConsumeLine_no_newline by done. by rewrite Hn.
Qed.

(** The code of the answer that [outcome] determines. *)
Definition verdict s spec : HttpStatus.Code :=
  match table s !! nr_map_uri spec, fst (dial_service spec (v_env s)) with
  | Some _, _ => HttpStatus.Conflict
  | None, Some _ => HttpStatus.OK
  | None, None => HttpStatus.ServiceUnavailable
  end.

Lemma outcome_verdict s spec s' c : outcome s spec s' c → c = verdict s spec.
Proof.
  unfold verdict. destruct c; simpl; try done.
  - by intros (-> & (r & e1 & e2 & -> & _) & _).
  - by intros ([r ->] & _).
  - by intros (-> & (e1 & -> & _) & _).
Qed.

(** C31. A service registers: the message that [Registration] writes reaches a
    directory that is up to date, whose management thread wakes up, and whose
    table can hold the URI.  The directory answers, and the delegate
    understands the answer.  A taken URI is a conflict: the delegate has
    [FAILED] with [addrinuse].  At a free one a route is made, and the
    subscriber and the route dial the service: when both dials succeed the
    table has the dialled route at the URI and the delegate is [ENLISTED]; when
    one fails the delegate has [FAILED] with [internal].  A failure leaves the
    table and the registrations as they were. *)
Theorem registration_enrolls s id pipe path alias (m : msg) d :
  reached pf s → delivered id s → v_route_open s = [] → v_route_close s = [] →
  v_registrationMap s !! pipe = None →
  MsgUtilFacts.no_newline path → MsgUtilFacts.no_newline alias → blen path < 2 ^ 58 → blen alias < 2 ^ 58 →
  blen (registered_uri path alias) ≤ pm_max_key_size → blen (msg_body m) < 2 ^ 59 →
  RegistrationOps.registration_message path alias = Ret m →
  let uri := registered_uri path alias in
  ∃ s' a d', (async_recv id pipe m;; management_pass pf) s = (Ret tt, s')
    ∧ answers (v_env s') = answers (v_env s) ++ [(id, a)]
    ∧ RegistrationOps.async_recv (msg_body a) d = Ret d'
    ∧ match table s !! uri, fst (dial_service (mkNewRoute id pipe uri (Host.InProc uri)) (v_env s)) with
      | Some _, _ =>
          dg_status d' = FAILED ∧ fst (dg_except d') = addrinuse ∧ table s' = table s
          ∧ v_registrationMap s' = v_registrationMap s
      | None, Some r =>
          RegistrationOps.isRegistered d' = true ∧ table s' = <[uri:=r]> (table s)
          ∧ v_registrationMap s' = <[pipe:=uri]> (v_registrationMap s)
      | None, None =>
          dg_status d' = FAILED ∧ fst (dg_except d') = internal ∧ table s' = table s
          ∧ v_registrationMap s' = v_registrationMap s
      end.
Proof.
  intros Hr Hd Ho Hc Hreg Hp Ha Hp' Ha' Hkey Hb Hm uri. pose proof (reached_Inv pf s Hr) as HI.
  destruct (registration_written (msg := msg) path alias Hp' Ha') as (m0 & E0 & Hreads).
  assert (m0 = m) as -> by congruence.
  pose proof (registration_received s id pipe path alias m Hp Ha Hreads Hreg) as Erecv. fold uri in Erecv.
  pose proof (async_recv_Inv id pipe m s HI Hd Hb) as HI1. rewrite Erecv, Ho, Hc in HI1. simpl in HI1.
  rewrite Ho, Hc in Erecv. simpl in Erecv. set (s1 := set_queues _ _ _) in *.
  set (spec := spec_of id pipe uri) in *.
  assert (spec_ok spec) as Hspec by (pose proof (inv_open _ HI1) as Hf; by inversion Hf).
  assert (Inv (set_queues [] [] s1)) as HI2 by (destruct HI1; split; simpl; try done; constructor).
  assert (waits spec (set_queues [] [] s1)) as Hw by (split; [apply Hd | constructor]).
  destruct (open_one_ok pf spec _ HI2 Hspec Hw) as [[Hlong _]|(c & a & ps & s' & E1 & _ & Hout & Ht & _ & Ho' & _ & A1 & _)].
  { unfold too_long in Hlong. simpl in Hlong. fold uri in Hkey. lia. }
  eexists s', a, _. split_and!; [|exact A1 | exact (delegate_reads a c _ d Ht) |].
  { erewrite bind_run by exact Erecv. by eapply management_one. }
  pose proof (outcome_verdict _ _ _ _ Hout) as Ev. unfold verdict in Ev.
  change (nr_map_uri spec) with uri in Ev. change (v_map (set_queues [] [] s1)) with (v_map s) in Ev.
  change (v_env (set_queues [] [] s1)) with (v_env s) in Ev. change (mkNewRoute id pipe uri (Host.InProc uri)) with spec.
  assert (delete pipe (<[pipe:=uri]> (v_registrationMap s)) = v_registrationMap s) as Edel by by apply delete_insert_id.
  destruct (table s !! uri) as [r|]; [|destruct (fst (dial_service spec (v_env s))) as [r|] eqn:Edial]; subst c; simpl in Hout |- *.
  - destruct Hout as (_ & _ & -> & -> & _). by rewrite Edel.
  - destruct Hout as (_ & (r' & e1 & e2 & Ed & _ & _ & ->) & -> & _). rewrite Ed in Edial. by injection Edial as ->.
  - destruct Hout as (_ & _ & -> & -> & _). by rewrite Edel.
Qed.

End Facts.

(** ** Witness: a first service registers under ["/a"] *)
#[local] Existing Instance ServicesFacts.ex_routing.
#[local] Existing Instance ServicesFacts.ex_routing_laws.
#[local] Existing Instance ServicesFacts.ex_env.
#[local] Existing Instance ServicesFacts.ex_env_laws.
Import FinitePrefixMap.

Definition first_message : flat_msg :=
  match RegistrationOps.registration_message (lit "/a") [] with Ret m => m | _ => mkFlat [] [] end.

Lemma registration_enrolls_witness :
  ∃ s' a d', (async_recv 11 1 first_message;; management_pass OtherPlatform) (new_services e0 : exServices) = (Ret tt, s')
    ∧ answers (v_env s') = [(11, a)]
    ∧ RegistrationOps.async_recv (msg_body a) RegistrationOps.new_delegate = Ret d'
    ∧ RegistrationOps.isRegistered d' = true ∧ v_registrationMap s' !! 1 = Some (lit "/a").
Proof.
  destruct (registration_enrolls (PM := gmap bytes exRoute) (R := exRoute) OtherPlatform (new_services e0) 11 1 (lit "/a") []
    first_message RegistrationOps.new_delegate) as (s' & a & d' & E1 & E2 & E3 & Hc).
  - by apply reached_new.
  - split; by_decision.
  - done.
  - done.
  - done.
  - by repeat constructor.
  - constructor.
  - by vm_compute.
  - by vm_compute.
  - by vm_compute.
  - by vm_compute.
  - vm_compute. reflexivity.
  - exists s', a, d'. split; [exact E1|]. split; [exact E2|]. split; [exact E3|].
    revert Hc. match goal with |- context [fst ?x] => let v := eval vm_compute in (fst x) in change (fst x) with v end.
    intros (H1 & _ & ->). split; [exact H1 | vm_compute; reflexivity].
Defined.

End RegistrationFacts.
