(* ===== verification/Bundles.v ===== *)
(** * Clients and services

    [Client] of [include/telling/client.h] and [client_base.h], [Service] of
    [include/telling/service.h] and [service_base.h]: three communicators, one
    per messaging pattern, connected together and given one handler; and the
    outboxes of [ClientHandler] and [ServiceHandler].

    A handler is a reference, of a type [H]: each communicator keeps its own
    copy of the reference. *)
From stdpp Require Import gmap.
From S2P Require Import Prelude.
From S2P Require Import Nng.
From S2P Require Import MsgUtil.
From S2P Require Import Method.
From S2P Require Import MsgHeaders.
From S2P Require Import MsgLayout.
From S2P Require Import MsgView.
From S2P Require Import MsgWriter.
From S2P Require Import Notices.
From S2P Require Import Pattern.
From S2P Require Import HostAddress.
From S2P Require Import IoQueue.
From S2P Require Import AsyncSend.
From S2P Require Import AsyncRecv.
From S2P Require Import ClientRequest.
From S2P Require Import ServiceReply.
From S2P Require Import Socket.
From S2P Require Import Boxes.
From S2P Require Import Route.
From S2P Require Import Relays.
From S2P Require Import Registration.
From S2P Require Import RegistrationFacts.

(** ** The sockets

    [requester()], [subscriber()] and [pusher()] of a client; [replier()],
    [publisher()] and [puller()] of a service. *)
Record Bundle (P : Type) : Type := mkBundle {
  b_query : Socket P;
  b_pubsub : Socket P;
  b_pushpull : Socket P;
}.
Arguments mkBundle {P} _ _ _.
Arguments b_query {P} _.
Arguments b_pubsub {P} _.
Arguments b_pushpull {P} _.

Inductive MEMBER : Set := QUERY | PUBSUB | PUSHPULL.

#[export] Instance MEMBER_eq_dec : EqDecision MEMBER.
Proof. solve_decision. Defined.

Module BundleOps.
Section Ops.
Context {P : Type} {Hpipe : PipeEventHandler P}.
Context (nng_open : bool → PROTOCOL → result exn Z).
Context (make_connector : bool → Z → bytes → gset Z → result exn Z).
Context (pf : PLATFORM).

Abbreviation B := (M exn (Bundle P)).

(** The members as their constructors leave them. *)
Definition open_all (r : ROLE) : result exn (Bundle P) :=
  query ← SocketOps.open_socket nng_open r REQ_REP STANDARD;
  pubsub ← SocketOps.open_socket nng_open r PUB_SUB STANDARD;
  pushpull ← SocketOps.open_socket nng_open r PUSH_PULL STANDARD;
  Ret (mkBundle query pubsub pushpull).

Definition member (m : MEMBER) (b : Bundle P) : Socket P :=
  match m with QUERY => b_query b | PUBSUB => b_pubsub b | PUSHPULL => b_pushpull b end.
Definition set_member (m : MEMBER) (k : Socket P) (b : Bundle P) : Bundle P :=
  match m with
  | QUERY => mkBundle k (b_pubsub b) (b_pushpull b)
  | PUBSUB => mkBundle (b_query b) k (b_pushpull b)
  | PUSHPULL => mkBundle (b_query b) (b_pubsub b) k
  end.
Definition on_member {A} (op : M exn (Socket P) A) (m : MEMBER) : B A := zoom (member m) (set_member m) op.

(** [ARGS_CALL_PTR]: the members in the order of the evaluation of the
    arguments, which the language does not specify. *)
Fixpoint args_call_ptr (op : M exn (Socket P) unit) (order : list MEMBER) : B unit :=
  match order with
  | [] => mret tt
  | m :: order => on_member op m;; args_call_ptr op order
  end.

Definition dial (base : HostAddress) (order order' : list MEMBER) : B unit :=
  CommunicatorOps.catch_nng
    (args_call_ptr (SocketOps.at_base pf (SocketOps.dial make_connector) base) order)
    (args_call_ptr (SocketOps.at_base pf SocketOps.disconnect base) order').
Definition listen (base : HostAddress) (order order' : list MEMBER) : B unit :=
  CommunicatorOps.catch_nng
    (args_call_ptr (SocketOps.at_base pf (SocketOps.listen make_connector) base) order)
    (args_call_ptr (SocketOps.at_base pf SocketOps.disconnect base) order').
Definition disconnect (base : HostAddress) (order : list MEMBER) : B unit :=
  noexcept (args_call_ptr (SocketOps.at_base pf SocketOps.disconnect base) order).
Definition disconnectAll (order : list MEMBER) : B unit := noexcept (args_call_ptr SocketOps.disconnectAll order).
Definition close (order : list MEMBER) : B unit := noexcept (args_call_ptr SocketOps.close order).

End Ops.
End BundleOps.

(** ** [ClientHandler] and [ServiceHandler]

    The outbox of either, for the messages pushed or published. *)
Module HandlerOutbox.
Section Ops.
Context {msg : Type}.

(** [push.send] has no destination while [send_msg] runs: a message that is
    not queued stays where it is. *)
Definition prep (m : msg) (pushQueue : SendQueue msg) : result exn (option msg) * SendQueue msg :=
  let '(queued, pushQueue) := SendQueueMtx.produce m pushQueue in
  (Ret (if queued then None else Some m), pushQueue).
Definition sent (pushQueue : SendQueue msg) : option msg * SendQueue msg := SendQueueMtx.consume pushQueue.
(** [async_error(Pushing, AsyncError) {}], unless it is overridden. *)
Definition error (_ : nng_error) (pushQueue : SendQueue msg) : option msg * SendQueue msg := (None, pushQueue).

(** As the handler of a sending loop. *)
Definition handler : AsyncSendHandler (SendQueue msg) msg := {|
  async_prep := prep;
  async_sent := sent;
  async_error := error;
|}.

End Ops.
End HandlerOutbox.

(** ** [Client] *)
Record Client (H msg : Type) : Type := mkClient {
  cl_sockets : Bundle H;
  cl_requester : Request H msg;
  cl_subscriber : RecvLoop msg;
  cl_topics : list bytes;
  cl_pusher : SendLoop H msg;
}.
Arguments mkClient {H msg} _ _ _ _ _.
Arguments cl_sockets {H msg} _.
Arguments cl_requester {H msg} _.
Arguments cl_subscriber {H msg} _.
Arguments cl_topics {H msg} _.
Arguments cl_pusher {H msg} _.

Module ClientOps.
Section Ops.
Context {H msg : Type}.
Context (nng_open : bool → PROTOCOL → result exn Z).

Abbreviation C := (Client H msg).

Definition set_sockets (b : Bundle H) (c : C) : C := mkClient b (cl_requester c) (cl_subscriber c) (cl_topics c) (cl_pusher c).
Definition set_requester (r : Request H msg) (c : C) : C := mkClient (cl_sockets c) r (cl_subscriber c) (cl_topics c) (cl_pusher c).
Definition set_subscriber (l : RecvLoop msg) (c : C) : C := mkClient (cl_sockets c) (cl_requester c) l (cl_topics c) (cl_pusher c).
Definition set_pusher (l : SendLoop H msg) (c : C) : C := mkClient (cl_sockets c) (cl_requester c) (cl_subscriber c) (cl_topics c) l.

Definition new_client : result exn C :=
  b ← BundleOps.open_all nng_open CLIENT;
  Ret (mkClient b RequestOps.new AsyncRecvLoop.new [] (mkSendLoop None None false)).

(** [initialize]: [None] is an expired handler; [refusal] is an exception of
    its [async_start] for subscriptions. *)
Definition initialize (handler : option H) (refusal : option exn) : M exn C unit :=
  zoom cl_sockets set_sockets (BundleOps.args_call_ptr (SocketOps.setPipeHandler handler) [QUERY; PUBSUB; PUSHPULL]);;
  zoom cl_requester set_requester (RequestOps.initialize handler);;
  zoom cl_subscriber set_subscriber (AsyncRecvLoop.recv_start (bool_decide (handler ≠ None)) refusal);;
  zoom cl_pusher set_pusher (AsyncSendLoop.send_init handler).

(** [Client_Base::subscribe]: the pointer of a [Client] is never null. *)
Definition subscribe (topic : bytes) : M exn C unit :=
  modify (λ c, mkClient (cl_sockets c) (cl_requester c) (cl_subscriber c) (cl_topics c ++ [topic]) (cl_pusher c)).

Definition unsubscribe (topic : bytes) (refused : option exn) : M exn C unit :=
  match refused with
  | Some e => throw e
  | None => modify (λ c, mkClient (cl_sockets c) (cl_requester c) (cl_subscriber c) (filter (λ t, t ≠ topic) (cl_topics c)) (cl_pusher c))
  end.

(** [push] and [request], with the handler's callbacks; [isReady()] of a
    communicator is that of its socket. *)
Definition push `{AsyncSendHandler H msg} (m : msg) : M exn C unit :=
  c ← get;
  if negb (SocketOps.isReady (b_pushpull (cl_sockets c)))
  then throw (NngException closed (lit "Push Communicator is not ready."))
  else zoom cl_pusher set_pusher (SendBoxOps.send_msg m).
Definition request `{AsyncQuery H msg} (made : exn + QueryID) (m : msg) : M exn C QueryID :=
  zoom (λ c, RequestOps.set_ready (SocketOps.isReady (b_query (cl_sockets c))) (cl_requester c)) set_requester
    (RequestOps.request made m).

(** [~Client]. *)
Definition destroy (order : list MEMBER) : M exn C unit := zoom cl_sockets set_sockets (BundleOps.close order).

End Ops.
End ClientOps.

(** ** [Service]

    The registration is seen from its requester. *)
Record Service (H msg : Type) : Type := mkService {
  se_uri : bytes;
  se_registration : option (Request (result exn RegDelegate) msg);
  se_sockets : Bundle H;
  se_replier : Reply H msg;
  se_puller : RecvLoop msg;
  se_publisher : SendLoop H msg;
}.
Arguments mkService {H msg} _ _ _ _ _ _.
Arguments se_uri {H msg} _.
Arguments se_registration {H msg} _.
Arguments se_sockets {H msg} _.
Arguments se_replier {H msg} _.
Arguments se_puller {H msg} _.
Arguments se_publisher {H msg} _.

Module ServiceOps.
Section Ops.
Context {H msg : Type} `{NngMsg msg}.
Context (nng_open : bool → PROTOCOL → result exn Z).
Context (make_connector : bool → Z → bytes → gset Z → result exn Z).
Context (pf : PLATFORM).

Abbreviation S := (Service H msg).

Definition set_registration r (s : S) : S := mkService (se_uri s) r (se_sockets s) (se_replier s) (se_puller s) (se_publisher s).
Definition set_sockets b (s : S) : S := mkService (se_uri s) (se_registration s) b (se_replier s) (se_puller s) (se_publisher s).
Definition set_replier r (s : S) : S := mkService (se_uri s) (se_registration s) (se_sockets s) r (se_puller s) (se_publisher s).
Definition set_puller l (s : S) : S := mkService (se_uri s) (se_registration s) (se_sockets s) (se_replier s) l (se_publisher s).
Definition set_publisher l (s : S) : S := mkService (se_uri s) (se_registration s) (se_sockets s) (se_replier s) (se_puller s) l.

Definition inProcAddress (s : S) : HostAddress := Host.InProc (se_uri s).

(** [registerURI]: the path and its alias are the URI of the service; [dial]
    and [made] are as in [new_registration]. *)
Definition registerURI (serverID : bytes) (dial : HostAddress → result exn bool) (made : exn + QueryID) : M exn S unit :=
  s ← get;
  match se_registration s with
  | Some _ => throw (NngException busy (lit "Service Registration already in progress."))
  | None =>
      r ← lift (RegistrationOps.new_registration (se_uri s) (se_uri s) serverID dial made);
      modify (set_registration (Some r))
  end.

(** The constructor: the base, which registers; the communicators; and then
    [listen(inProcAddress())]. *)
Definition new_service (uri serverID : bytes) (dial : HostAddress → result exn bool) (made : exn + QueryID)
    (order order' : list MEMBER) : result exn S :=
  registration ← (if negb (blen serverID =? 0)
                  then r ← RegistrationOps.new_registration uri uri serverID dial made; Ret (Some r)
                  else Ret None);
  b ← BundleOps.open_all nng_open SERVICE;
  b ← RouteOps.init (BundleOps.listen make_connector pf (Host.InProc uri) order order') b;
  Ret (mkService uri registration b ReplyOps.new AsyncRecvLoop.new (mkSendLoop None None false)).

(** [initialize]: [made] and [aios] are for the first context of the replier. *)
Definition initialize (handler : option H) (made : exn + QueryID) (aios refusal : option exn) : M exn S unit :=
  zoom se_sockets set_sockets (BundleOps.args_call_ptr (SocketOps.setPipeHandler handler) [QUERY; PUSHPULL; PUBSUB]);;
  zoom se_replier set_replier (ReplyOps.initialize handler made aios);;
  zoom se_puller set_puller (AsyncRecvLoop.recv_start (bool_decide (handler ≠ None)) refusal);;
  zoom se_publisher set_publisher (AsyncSendLoop.send_init handler).

(** [publish] and [respondTo]. *)
Definition publish `{AsyncSendHandler H msg} (m : msg) : M exn S unit :=
  s ← get;
  if negb (SocketOps.isReady (b_pubsub (se_sockets s)))
  then throw (NngException closed (lit "Publish Communicator is not ready."))
  else zoom se_publisher set_publisher (SendBoxOps.send_msg m).
Definition respondTo `{AsyncRespond H msg} (id : QueryID) (m : msg) : M exn S unit :=
  zoom (λ s, ReplyOps.set_ready (SocketOps.isReady (b_query (se_sockets s))) (se_replier s)) set_replier
    (ReplyOps.respond id m).

(** [~Service]. *)
Definition destroy (order : list MEMBER) : M exn S unit := zoom se_sockets set_sockets (BundleOps.close order).

End Ops.
End ServiceOps.
