(* ===== verification/BundlesFacts.v ===== *)
(** * Clients and services: theorems

    A handler is given to all the communicators of a client or to none; a
    service registers its URI and listens there. *)
From stdpp Require Import gmap.
From S2P Require Import Prelude.
From S2P Require Import Nng.
From S2P Require Import MsgUtil.
From S2P Require Import Method.
From S2P Require Import MsgWriter.
From S2P Require Import Notices.
From S2P Require Import Pattern.
From S2P Require Import HostAddress.
From S2P Require Import IoQueue.
From S2P Require Import AsyncSend.
From S2P Require Import AsyncRecv.
From S2P Require Import ClientRequest.
From S2P Require Import ServiceReply.
From S2P Require Import Socket.
From S2P Require Import SocketFacts.
From S2P Require Import Route.
From S2P Require Import Registration.
From S2P Require Import RegistrationFacts.
From S2P Require Import Bundles.

Module BundlesFacts.
Import BundleOps Notices.

(** ** The outbox of a handler keeps the discipline of sending loops *)
Definition HandlerOutbox_discipline {msg} : @SendDiscipline (SendQueue msg) msg HandlerOutbox.handler.
Proof. exact AsyncSendQueue_discipline. Defined.

(** ** Handlers *)
Section Handlers.
Context {H msg : Type}.
Implicit Types (c : Client H msg) (b : Bundle H).

Definition pipe_handlers b : list (option H) := map (λ m, k_pipe_handler (member m b)) [QUERY; PUBSUB; PUSHPULL].

Definition with_pipe_handlers h b : Bundle H :=
  mkBundle (SocketOps.set_pipes (k_pipe_count (b_query b)) h (b_query b))
    (SocketOps.set_pipes (k_pipe_count (b_pubsub b)) h (b_pubsub b))
    (SocketOps.set_pipes (k_pipe_count (b_pushpull b)) h (b_pushpull b)).

(** A client without a handler. *)
Definition blank c : Prop :=
  pipe_handlers (cl_sockets c) = [None; None; None] ∧ r_handler (cl_requester c) = None
  ∧ rl_handler (cl_subscriber c) = false ∧ rl_receiving (cl_subscriber c) = false ∧ l_handler (cl_pusher c) = None.

Ltac run_initialize :=
  unfold ClientOps.initialize; cbn [args_call_ptr];
  unfold on_member, zoom, SocketOps.setPipeHandler, RequestOps.initialize, AsyncRecvLoop.recv_start, AsyncRecvLoop.call,
    AsyncRecvLoop.start_recv, AsyncSendLoop.send_init, mbind, M_bind, get, modify; simpl.

(** [Client::initialize].  With a live handler, a client that has none gives
    it to the three sockets and the three communicators, and starts to receive
    reports.  An expired handler is refused and a second handler is refused,
    both without effect.  An exception of the handler's [async_start] leaves
    the client with the handler but with no reports and no way to push, for
    good: every later call is refused. *)
Theorem client_initialize c :
  blank c →
  (∀ h, ∃ c', ClientOps.initialize (Some h) None c = (Ret tt, c')
     ∧ pipe_handlers (cl_sockets c') = [Some h; Some h; Some h] ∧ r_handler (cl_requester c') = Some h
     ∧ rl_handler (cl_subscriber c') = true ∧ rl_receiving (cl_subscriber c') = negb (rl_stopped (cl_subscriber c))
     ∧ l_handler (cl_pusher c') = Some h
     ∧ ∀ again refusal, ∃ e, ClientOps.initialize again refusal c' = (Throw e, c'))
  ∧ (∀ refusal, ∃ e, ClientOps.initialize None refusal c = (Throw e, c))
  ∧ (∀ h e, ∃ c', ClientOps.initialize (Some h) (Some e) c = (Throw e, c')
     ∧ r_handler (cl_requester c') = Some h ∧ rl_receiving (cl_subscriber c') = false ∧ l_handler (cl_pusher c') = None
     ∧ ∀ again refusal, ∃ e', ClientOps.initialize again refusal c' = (Throw e', c')).
Proof.
  destruct c as [[q p s] [rdy rh acts act idl fin calls] [lh lr ls lc] tops [ph fl st]]. intros (E1 & E2 & E3 & E4 & E5).
  simpl in *. unfold pipe_handlers in E1. simpl in E1. injection E1 as Q P' S'. subst rh lh lr ph.
  split; [|split].
  - intros h. run_initialize; rewrite Q; run_initialize; rewrite P'; run_initialize; rewrite S'; run_initialize. eexists. split; [reflexivity|]. split_and!; try done.
    intros again refusal. by eexists.
  - intros refusal. run_initialize; rewrite Q; run_initialize; rewrite P'; run_initialize; rewrite S'; run_initialize. destruct q, p, s. simpl in *. subst. by eexists.
  - intros h e. run_initialize; rewrite Q; run_initialize; rewrite P'; run_initialize; rewrite S'; run_initialize. eexists. split; [reflexivity|]. split_and!; try done.
    intros again refusal. by eexists.
Qed.

End Handlers.

(** ** Services *)
Section Services.
Context {H msg : Type} {Hmsg : NngMsg msg} {Hmsgl : NngMsgLaws msg} {Hpipe : PipeEventHandler H}.
Context (nng_open : bool → PROTOCOL → result exn Z).
Context (make_connector : bool → Z → bytes → gset Z → result exn Z).
Context (pf : PLATFORM).
Hypothesis sockets_open : ∀ raw p, ∃ s, nng_open raw p = Ret s.
Hypothesis connectors_made : ∀ l s uri live, ∃ id, make_connector l s uri live = Ret id.

Definition all_open (b : Bundle H) : Prop := ∀ m, is_Some (k_socket (member m b)).

Lemma opens r : r = CLIENT ∨ r = SERVICE → ∃ b, open_all nng_open r = Ret b ∧ all_open b.
Proof.
  intros Hr. unfold open_all, SocketOps.open_socket, mbind, result_bind.
  destruct Hr as [-> | ->]; cbn [Protocol.Choose];
    repeat match goal with |- context [nng_open ?raw ?p] => destruct (sockets_open raw p) as [? ->] end;
    (eexists; split; [reflexivity|]); intros []; by eexists.
Qed.

Lemma listen_members base order b :
  all_open b →
  ∃ b', args_call_ptr (SocketOps.at_base pf (SocketOps.listen make_connector) base) order b = (Ret tt, b')
    ∧ all_open b' ∧ (∀ m, m ∈ order ∨ SocketOps.isReady (member m b) = true → SocketOps.isReady (member m b') = true).
Proof.
  revert b. induction order as [|m order IH]; intros b Hb.
  - exists b. split_and!; try done. intros m [Hm|Hm]; [by apply elem_of_nil in Hm | done].
  - destruct (Hb m) as [s Es].
    destruct (SocketFacts.connect_ready make_connector pf connectors_made true base (member m b) s Es) as (k & E1 & Ek & Hk & _).
    assert (∀ m', member m' (set_member m k b) = if decide (m' = m) then k else member m' b) as Hset by (by intros []; destruct m).
    destruct (IH (set_member m k b)) as (b' & E2 & Hb' & Hr).
    { intros m'. rewrite Hset. destruct (decide (m' = m)); [rewrite Ek; by eexists | apply Hb]. }
    exists b'. split_and!; [|done|].
    + cbn [args_call_ptr]. erewrite bind_run; [exact E2|]. unfold on_member, zoom.
      change (SocketOps.at_base pf (SocketOps.listen (P := H) make_connector) base (member m b))
        with (SocketOps.at_base pf (SocketOps.connect (P := H) make_connector true) base (member m b)). by rewrite E1.
    + intros m' Hm'. apply Hr. rewrite Hset. destruct (decide (m' = m)) as [|Hne]; [by right|].
      destruct Hm' as [[->|?]%elem_of_cons|?]; [done | by left | by right].
Qed.

(** The registration of a service in a server that can be dialled. *)
Lemma registration_sent uri serverID dial fresh :
  blen uri < 2 ^ 58 → dial (RegistrationOps.register_address serverID) = Ret true →
  ∃ r (m : msg), RegistrationOps.new_registration uri uri serverID dial (inr fresh) = Ret r
    ∧ r_actions r !! fresh = Some (mkAction SEND (OpSend m)) ∧ r_active r = {[fresh]}
    ∧ reads_request m (lit "*services") POST (uri ++ [LF] ++ uri).
Proof.
  intros Hu Hd. destruct (RegistrationFacts.registration_written (msg := msg) uri uri Hu Hu) as (m & Em & Hm).
  unfold RegistrationFacts.registered_uri in Hm.
  assert ((if blen uri =? 0 then uri else uri) = uri) as Euri by (by destruct (blen uri =? 0)). rewrite Euri in Hm.
  unfold RegistrationOps.new_registration. rewrite Hd, Em. unfold mbind, result_bind. simpl.
  unfold RequestOps.initialize, RequestOps.request, RequestOps.allocate, RequestOps.set_state, RequestOps.start_op, RequestOps.action.
  unfold mbind, M_bind, get, modify, mret, M_ret. simpl.
  rewrite lookup_insert_eq. simpl. rewrite lookup_insert_eq. simpl.
  eexists _, m. split; [reflexivity|]. simpl. split; [by rewrite lookup_insert_eq|]. split; [|done].
  apply (union_empty_r_L {[fresh]}).
Qed.

(** The constructor of a service, where NNG opens sockets and makes
    connectors: with a server to dial, it sends one registration request, for
    its own URI, and it listens on its three sockets at its in-process address;
    without, it only listens.  A second registration is refused and changes
    nothing. *)
Theorem service_constructed uri serverID dial fresh order order' :
  blen uri < 2 ^ 58 → dial (RegistrationOps.register_address serverID) = Ret true → (∀ m, m ∈ order) →
  ∃ s : Service H msg, ServiceOps.new_service nng_open make_connector pf uri serverID dial (inr fresh) order order' = Ret s
    ∧ ServiceOps.inProcAddress s = Host.InProc uri
    ∧ (∀ m, SocketOps.isReady (member m (se_sockets s)) = true)
    ∧ (if blen serverID =? 0 then se_registration s = None
       else ∃ r m, se_registration s = Some r ∧ r_actions r !! fresh = Some (mkAction SEND (OpSend m))
            ∧ r_active r = {[fresh]} ∧ reads_request m (lit "*services") POST (uri ++ [LF] ++ uri)
            ∧ ∀ dial' fresh', ∃ e, ServiceOps.registerURI serverID dial' fresh' s = (Throw e, s)).
Proof.
  intros Hu Hd Hall. destruct (opens SERVICE (or_intror eq_refl)) as (b & Eb & Hb).
  destruct (listen_members (Host.InProc uri) order b Hb) as (b' & El & _ & Hr).
  assert (RouteOps.init (listen make_connector pf (Host.InProc uri) order order') b = Ret b') as Ei.
  { unfold RouteOps.init, listen, CommunicatorOps.catch_nng. by rewrite El. }
  unfold ServiceOps.new_service. destruct (Z.eqb_spec (blen serverID) 0) as [E0|E0]; simpl.
  - unfold mbind, result_bind. rewrite Eb, Ei. eexists. split; [reflexivity|]. split; [done|]. split; [|done].
    intros m. apply Hr. by left.
  - destruct (registration_sent uri serverID dial fresh Hu Hd) as (r & m & Er & Ha & Hact & Hm).
    unfold mbind, result_bind. rewrite Er, Eb, Ei. eexists. split; [reflexivity|]. split; [done|].
    split; [intros m'; apply Hr; by left|]. exists r, m. split_and!; try done. intros dial' fresh'. by eexists.
Qed.

End Services.

(** ** Witnesses *)
Definition ex_bundle : Bundle unit :=
  let k r p := mkSocket (P := unit) r p (Protocol.Choose r p) (Some 1) 0 None ∅ ∅ in
  mkBundle (k CLIENT REQ_REP) (k CLIENT PUB_SUB) (k CLIENT PUSH_PULL).
Definition ex_client : Client unit flat_msg :=
  mkClient ex_bundle RequestOps.new AsyncRecvLoop.new [] (mkSendLoop None None false).

Lemma client_initialize_witness :
  ∃ c', ClientOps.initialize (Some tt) None ex_client = (Ret tt, c') ∧ l_handler (cl_pusher c') = Some tt.
Proof.
  destruct (proj1 (client_initialize ex_client ltac:(done)) tt) as (c' & E1 & _ & _ & _ & _ & E2 & _).
  exists c'. split; [exact E1 | exact E2].
Defined.

Lemma service_constructed_witness :
  ∃ s : Service unit flat_msg, ServiceOps.new_service RouteFacts.any_open RouteFacts.any_connector OtherPlatform
      (lit "/lamp") (lit "srv") (λ _, Ret true) (inr 3) [QUERY; PUBSUB; PUSHPULL] [QUERY; PUBSUB; PUSHPULL] = Ret s
    ∧ SocketOps.isReady (b_query (se_sockets s)) = true.
Proof.
  destruct (service_constructed (H := unit) (msg := flat_msg) RouteFacts.any_open RouteFacts.any_connector OtherPlatform
    (λ _ _, ex_intro _ _ eq_refl) (λ _ _ _ _, ex_intro _ _ eq_refl) (lit "/lamp") (lit "srv") (λ _, Ret true) 3
    [QUERY; PUBSUB; PUSHPULL] [QUERY; PUBSUB; PUSHPULL]) as (s & E1 & _ & E2 & _).
  - by vm_compute.
  - done.
  - intros []; rewrite !elem_of_cons; auto.
  - exists s. split; [exact E1 | apply (E2 QUERY)].
Defined.

End BundlesFacts.
