(* ===== verification/Mailboxes.v ===== *)
(** * Mailboxes

    [Client_Box] of [include/telling/client.h] and [Service_Box] of
    [include/telling/service.h]: a client and a service that are polled.  Each
    has three boxes, one per messaging pattern, and forwards to them.

    The box of requests and the box of replies are kept with their sockets:
    [isReady()] of a communicator is that of its socket, so an operation on the
    sockets updates it. *)
From stdpp Require Import gmap.
From S2P Require Import Prelude.
From S2P Require Import Nng.
From S2P Require Import MsgUtil.
From S2P Require Import MsgWriter.
From S2P Require Import Pattern.
From S2P Require Import HostAddress.
From S2P Require Import IoQueue.
From S2P Require Import AsyncSend.
From S2P Require Import AsyncRecv.
From S2P Require Import ClientRequest.
From S2P Require Import ServiceReply.
From S2P Require Import Socket.
From S2P Require Import Boxes.
From S2P Require Import Route.
From S2P Require Import Registration.
From S2P Require Import Bundles.

(** ** [Client_Box] *)
Record ClientBox (P msg : Type) : Type := mkClientBox {
  cb_socket : Socket P;                        (** the socket of [_requester] *)
  cb_requester : Request (Delegate msg) msg;
  cb_subscriber : RecvBox P msg;
  cb_pusher : SendBox P msg;
}.
Arguments mkClientBox {P msg} _ _ _ _.
Arguments cb_socket {P msg} _.
Arguments cb_requester {P msg} _.
Arguments cb_subscriber {P msg} _.
Arguments cb_pusher {P msg} _.

Module ClientBoxOps.
Section Ops.
Context {P msg : Type} {Hpipe : PipeEventHandler P}.
Context (nng_open : bool → PROTOCOL → result exn Z).
Context (make_connector : bool → Z → bytes → gset Z → result exn Z).
Context (pf : PLATFORM).

Abbreviation C := (ClientBox P msg).

Definition set_requester (r : Request (Delegate msg) msg) (c : C) : C :=
  mkClientBox (cb_socket c) r (cb_subscriber c) (cb_pusher c).
Definition set_subscriber (b : RecvBox P msg) (c : C) : C :=
  mkClientBox (cb_socket c) (cb_requester c) b (cb_pusher c).
Definition set_pusher (b : SendBox P msg) (c : C) : C :=
  mkClientBox (cb_socket c) (cb_requester c) (cb_subscriber c) b.

(** [requester()], [subscriber()] and [pusher()]. *)
Definition sockets (c : C) : Bundle P :=
  mkBundle (cb_socket c) (rb_socket (cb_subscriber c)) (sb_socket (cb_pusher c)).
Definition set_sockets (b : Bundle P) (c : C) : C :=
  mkClientBox (b_query b) (RequestOps.set_ready (SocketOps.isReady (b_query b)) (cb_requester c))
    (mkRecvBox (b_pubsub b) (rb_loop (cb_subscriber c)) (rb_queue (cb_subscriber c)) (rb_topics (cb_subscriber c)))
    (mkSendBox (b_pushpull b) (sb_loop (cb_pusher c))).

(** [Request_Box()]: a requester whose handler is a new delegate. *)
Definition new_requester : result exn (Socket P * Request (Delegate msg) msg) :=
  k ← SocketOps.open_socket nng_open CLIENT REQ_REP STANDARD;
  r ← RouteOps.init (RequestOps.initialize (Some RequestBox.new_delegate)) RequestOps.new;
  Ret (k, r).

Definition new_client_box : result exn C :=
  kr ← new_requester;
  s ← RecvBoxOps.Subscribe_Box nng_open;
  p ← SendBoxOps.Push_Box nng_open;
  Ret (mkClientBox (fst kr) (snd kr) s p).

Definition dial (base : HostAddress) (order order' : list MEMBER) : M exn C unit :=
  zoom sockets set_sockets (BundleOps.dial make_connector pf base order order').

Definition push (m : msg) : M exn C unit := zoom cb_pusher set_pusher (SendBoxOps.push m).
(** The result is the number of the future's shared state. *)
Definition request (made : exn + QueryID) (m : msg)
    (interleaved : Request (Delegate msg) msg → Request (Delegate msg) msg) : M exn C nat :=
  zoom cb_requester set_requester (RequestBox.request made m interleaved).
Definition consume : M exn C (option msg) := zoom cb_subscriber set_subscriber RecvBoxOps.pull.
Definition subscribe (topic : bytes) : M exn C unit := zoom cb_subscriber set_subscriber (RecvBoxOps.subscribe topic).
Definition unsubscribe (topic : bytes) (refused : option exn) : M exn C unit :=
  zoom cb_subscriber set_subscriber (RecvBoxOps.unsubscribe topic refused).

(** [~Client_Box]: [close()]. *)
Definition destroy (order : list MEMBER) : M exn C unit := zoom sockets set_sockets (BundleOps.close order).

End Ops.
End ClientBoxOps.

(** ** [Service_Box]

    The inbox of [_replier] is in the handler of its communicator, and
    [sx_current] is [current_query]. *)
Record ServiceBox (P msg : Type) : Type := mkServiceBox {
  sx_uri : bytes;
  sx_registration : option (Request (result exn RegDelegate) msg);
  sx_socket : Socket P;                        (** the socket of [_replier] *)
  sx_replier : ReplyOps.Sys (list (QueryID * msg)) msg;
  sx_current : QueryID;
  sx_publisher : SendBox P msg;
  sx_puller : RecvBox P msg;
}.
Arguments mkServiceBox {P msg} _ _ _ _ _ _ _.
Arguments sx_uri {P msg} _.
Arguments sx_registration {P msg} _.
Arguments sx_socket {P msg} _.
Arguments sx_replier {P msg} _.
Arguments sx_current {P msg} _.
Arguments sx_publisher {P msg} _.
Arguments sx_puller {P msg} _.

Module ServiceBoxOps.
Section Ops.
Context {P msg : Type} `{NngMsg msg} {Hpipe : PipeEventHandler P}.
Context (nng_open : bool → PROTOCOL → result exn Z).
Context (make_connector : bool → Z → bytes → gset Z → result exn Z).
Context (pf : PLATFORM).

#[local] Existing Instance ReplyBoxOps.Delegate_handler.

Abbreviation X := (ServiceBox P msg).
Abbreviation Inbox := (list (QueryID * msg)).

Definition set_replier (y : ReplyOps.Sys Inbox msg) (current : QueryID) (s : X) : X :=
  mkServiceBox (sx_uri s) (sx_registration s) (sx_socket s) y current (sx_publisher s) (sx_puller s).
Definition set_publisher (b : SendBox P msg) (s : X) : X :=
  mkServiceBox (sx_uri s) (sx_registration s) (sx_socket s) (sx_replier s) (sx_current s) b (sx_puller s).
Definition set_puller (b : RecvBox P msg) (s : X) : X :=
  mkServiceBox (sx_uri s) (sx_registration s) (sx_socket s) (sx_replier s) (sx_current s) (sx_publisher s) b.

(** [replier()], [publisher()] and [puller()]. *)
Definition sockets (s : X) : Bundle P :=
  mkBundle (sx_socket s) (sb_socket (sx_publisher s)) (rb_socket (sx_puller s)).
Definition set_sockets (b : Bundle P) (s : X) : X :=
  mkServiceBox (sx_uri s) (sx_registration s) (b_query b)
    (ReplyOps.mkSys (ReplyOps.set_ready (SocketOps.isReady (b_query b)) (ReplyOps.y_reply (sx_replier s)))
       (ReplyOps.y_threads (sx_replier s)))
    (sx_current s)
    (mkSendBox (b_pubsub b) (sb_loop (sx_publisher s)))
    (mkRecvBox (b_pushpull b) (rb_loop (sx_puller s)) (rb_queue (sx_puller s)) (rb_topics (sx_puller s))).

(** [_replier] as a box beside its communicator: the two share the inbox,
    which [respondTo] leaves as it is. *)
Definition reply_box (s : X) : ReplyBox msg * Reply Inbox msg :=
  let y := ReplyOps.y_reply (sx_replier s) in
  (mkReplyBox (default [] (p_handler y)) (sx_current s), y).
Definition set_reply_box (c : ReplyBox msg * Reply Inbox msg) (s : X) : X :=
  set_replier (ReplyOps.mkSys (ReplyOps.set_handler (Some (inbox (fst c))) (snd c)) (ReplyOps.y_threads (sx_replier s)))
    (current_query (fst c)) s.

(** [Reply_Box()]: [made] is the first context, [aios] the exception of making
    the aios. *)
Definition new_replier (made : exn + QueryID) (aios : option exn) : result exn (Socket P * ReplyOps.Sys Inbox msg) :=
  k ← SocketOps.open_socket nng_open SERVICE REQ_REP STANDARD;
  y ← RouteOps.init (ReplyOps.initialize (Some []) made aios) ReplyOps.new;
  Ret (k, ReplyOps.mkSys y []).

(** The constructor: the base, which registers; the boxes; and then
    [listen(inProcAddress())].  [made] and [dial] are of the registration,
    [made'] and [aios] of the replier. *)
Definition new_service_box (uri serverID : bytes) (dial : HostAddress → result exn bool) (made made' : exn + QueryID) (aios : option exn)
    (order order' : list MEMBER) : result exn X :=
  registration ← (if negb (blen serverID =? 0)
                  then r ← RegistrationOps.new_registration uri uri serverID dial made; Ret (Some r)
                  else Ret None);
  kr ← new_replier made' aios;
  p ← SendBoxOps.Publish_Box nng_open;
  q ← RecvBoxOps.Pull_Box nng_open;
  RouteOps.init
    (zoom sockets set_sockets (BundleOps.listen make_connector pf (Host.InProc uri) order order'))
    (mkServiceBox uri registration (fst kr) (snd kr) 0 p q).

Definition publish (m : msg) : M exn X unit := zoom sx_publisher set_publisher (SendBoxOps.publish m).
Definition pull : M exn X (option msg) := zoom sx_puller set_puller RecvBoxOps.pull.

Definition ready (s : X) : bool := SocketOps.isReady (sx_socket s).
Definition receive : M exn X (option msg) :=
  s ← get; zoom reply_box set_reply_box (ReplyBoxOps.receive (ready s)).
Definition respond (m : msg) : M exn X unit :=
  s ← get; zoom reply_box set_reply_box (ReplyBoxOps.respond ReplyOps.respond (ready s) m).
(** The loop ends after one turn per query and one more; [turns] is what happens
    between them. *)
Definition respond_all (fn : msg → result exn msg) (turns : list (ReplyBoxOps.turn msg (Reply Inbox msg))) : M exn X unit :=
  s ← get;
  zoom reply_box set_reply_box
    (ReplyBoxOps.respond_all ReplyOps.respond fn turns (ReplyBoxOps.turns_needed (inbox (fst (reply_box s))) turns)).

(** [~Service_Box]: [close()]. *)
Definition destroy (order : list MEMBER) : M exn X unit := zoom sockets set_sockets (BundleOps.close order).

End Ops.
End ServiceBoxOps.
