(* ===== verification/Exchange.v ===== *)
(** * The system

    Clients, a server and its services together: [Client_Box]es that send
    requests to a [Server], which relays them to the [Service_Box]es that are
    registered, and their replies back.

    What NNG does between the sockets is a parameter, [Transport], with what it
    documents of requests as laws: a request has a number of its own, which the
    header of a raw message leads back to, and a reply whose number no context
    waits for is discarded.  A step of the system is one call or one callback
    of a component, or a message on its way from one component to the next;
    operations of clients may fail at any time.  Services are constructed and
    destroyed, register and lose their registration: the table of routes
    changes.  The callbacks of a [Reply] run from beginning to end here; that
    they may be interleaved is the subject of [ServiceReplyFacts].  A route
    that is taken out of the table carries nothing more, as its service is
    gone. *)
From stdpp Require Import gmap.
From S2P Require Import Prelude.
From S2P Require Import Nng.
From S2P Require Import MsgUtil.
From S2P Require Import Pattern.
From S2P Require Import HostAddress.
From S2P Require Import Socket.
From S2P Require Import IoQueue.
From S2P Require Import AsyncSend.
From S2P Require Import AsyncRecv.
From S2P Require Import ClientRequest.
From S2P Require Import ServiceReply.
From S2P Require Import PrefixMap.
From S2P Require Import Route.
From S2P Require Import Relays.
From S2P Require Import Services.
From S2P Require Import Server.
From S2P Require Import Bundles.
From S2P Require Import Mailboxes.

(** ** NNG's requests

    - [at_server n m]: the [n]th request that is sent, of a message [m], as a raw
      socket of the server receives it;
    - [at_service m]: that message as a context of the service receives it;
    - [back_at_server q m]: the reply [m] of a context that received [q], as the
      route's raw socket receives it;
    - [back_at_client m]: the number that the header of [m] leads to, and the
      message that its context receives. *)
Class Transport (msg : Type) : Type := {
  at_server : nat → msg → msg;
  at_service : msg → msg;
  back_at_server : msg → msg → msg;
  back_at_client : msg → option (nat * msg);
}.

Class TransportLaws (msg : Type) `{NngMsg msg} `{Transport msg} : Prop := {
  server_body n m : msg_body (at_server n m) = msg_body m;
  service_body m : msg_body (at_service m) = msg_body m;
  back_body q m : msg_body (back_at_server q m) = msg_body m;
  back_header q m : msg_header (back_at_server q m) = msg_header q;
  client_back n q m : msg_header m = msg_header (at_server n q) →
    ∃ m', back_at_client m = Some (n, m') ∧ msg_body m' = msg_body m;
}.

(** ** The state *)

(** A client, and the messages it asked with: the [i]th belongs to its [i]th
    future. *)
Record Party (P msg : Type) : Type := mkParty {
  pa_box : ClientBox P msg;
  pa_asked : list msg;
}.
Arguments mkParty {P msg} _ _.
Arguments pa_box {P msg} _.
Arguments pa_asked {P msg} _.

(** The components; and NNG's part: the request that a context of a service
    holds, the messages of the requests in the order of their numbers, and the
    contexts that wait for a reply. *)
Record Net (PM P msg : Type) : Type := mkNet {
  n_clients : gmap nat (Party P msg);
  n_server : Server PM (Route P msg) P msg;
  n_services : gmap bytes (ServiceBox P msg);
  n_held : gmap (bytes * QueryID) msg;
  n_carried : list msg;
  n_waiting : gmap nat (nat * QueryID);
}.
Arguments mkNet {PM P msg} _ _ _ _ _ _.
Arguments n_clients {PM P msg} _.
Arguments n_server {PM P msg} _.
Arguments n_services {PM P msg} _.
Arguments n_held {PM P msg} _.
Arguments n_carried {PM P msg} _.
Arguments n_waiting {PM P msg} _.

Module Exchange.
Section Ops.
Context {PM P msg : Type}.
Context {Hmsg : NngMsg msg} {Hpm : PrefixMap PM (Route P msg)} {Hpipe : PipeEventHandler P} {Ht : Transport msg}.
Context (nng_open : bool → PROTOCOL → result exn Z).
Context (make_connector : bool → Z → bytes → gset Z → result exn Z).
Context (pf : PLATFORM).
(** The program of each service: its reply to a request. *)
Context (prog : bytes → msg → msg).

#[local] Existing Instance RequestBox.Delegate_handler.
#[local] Existing Instance ReplyBoxOps.Delegate_handler.
#[local] Instance routing : Routing (Route P msg) msg := RouteFacts.Route_routing nng_open make_connector pf.
#[local] Instance environment : ServicesEnv (ServerEnv P msg) msg := ServerOps.Server_env make_connector pf.

Abbreviation N := (Net PM P msg).
Abbreviation SV := (M exn (Server PM (Route P msg) P msg)).

(** A call that returns. *)
Definition returned {S A} (o : result exn A * S) : option (A * S) :=
  match o with (Ret a, s) => Some (a, s) | _ => None end.

(** *** Clients *)

Definition set_client (c : nat) (p : Party P msg) (net : N) : N :=
  mkNet (<[c := p]> (n_clients net)) (n_server net) (n_services net) (n_held net) (n_carried net) (n_waiting net).
Definition set_server (sv : Server PM (Route P msg) P msg) (net : N) : N :=
  mkNet (n_clients net) sv (n_services net) (n_held net) (n_carried net) (n_waiting net).
Definition set_waiting (w : gmap nat (nat * QueryID)) (net : N) : N :=
  mkNet (n_clients net) (n_server net) (n_services net) (n_held net) (n_carried net) w.

(** No request of the context is waited for. *)
Definition forget (c : nat) (id : QueryID) (net : N) : N :=
  set_waiting (filter (λ w, w.2 ≠ (c, id)) (n_waiting net)) net.

(** A client calls [request]; NNG gives a new context the id [fresh].  This is
    the first of its two calls, which makes the promise: other steps may come
    between it and the second. *)
Definition ask (c : nat) (fresh : QueryID) (m : msg) (net : N) : option N :=
  p ← n_clients net !! c;
  if bool_decide (fresh = 0 ∨ is_Some (r_actions (cb_requester (pa_box p)) !! fresh)) then None
  else '(_, q) ← returned (RequestOps.request (inr fresh) m (cb_requester (pa_box p)));
       Some (set_client c (mkParty (ClientBoxOps.set_requester q (pa_box p)) (pa_asked p ++ [m])) net).

(** The second call gives the client the future of the promise.  When it throws
    the client has no future and its state is as it was: that is no step. *)
Definition get_future (c : nat) (id : QueryID) (net : N) : option N :=
  p ← n_clients net !! c;
  '(_, q) ← returned (RequestBox.take_future id (cb_requester (pa_box p)));
  Some (set_client c (mkParty (ClientBoxOps.set_requester q (pa_box p)) (pa_asked p)) net).

(** An operation of a client ends, or its callback does. *)
Definition client_step (c : nat) (e : RequestOps.event (Delegate msg) msg) (net : N) : option N :=
  p ← n_clients net !! c;
  '(r, q) ← RequestOps.step (cb_requester (pa_box p)) e;
  '(_, q) ← returned (r, q);
  Some (set_client c (mkParty (ClientBoxOps.set_requester q (pa_box p)) (pa_asked p)) net).

Definition operation (c : nat) (id : QueryID) (net : N) : option (aio_op msg) :=
  p ← n_clients net !! c;
  a_op <$> r_actions (cb_requester (pa_box p)) !! id.

(** *** Messages on their way *)

(** The operation of a sending loop succeeds. *)
Definition finish_send : M exn (SendLoop (SendQueue msg) msg) unit :=
  modify (λ l, mkSendLoop (l_handler l) None (l_stopped l));;
  t ← AsyncSendLoop.run_thread (Callback success);
  match t with
  | Some t => AsyncSendLoop.run_thread t;; mret tt
  | None => mret tt
  end.

(** A request reaches the server. *)
Definition carry (c : nat) (id : QueryID) (net : N) : option N :=
  op ← operation c id net;
  match op with
  | OpSend m =>
      net ← client_step c (RequestOps.EComplete id success m) net;
      if rl_receiving (rr_recv (sv_reply (n_server net)))
      then let n := length (n_carried net) in
           '(_, sv) ← returned (ServerOps.request_received success (at_server n m) (n_server net));
           Some (mkNet (n_clients net) sv (n_services net) (n_held net) (n_carried net ++ [m])
                   (<[n := (c, id)]> (n_waiting net)))
      else None
  | _ => None
  end.

(** An operation of a client fails. *)
Definition fail_ (c : nat) (id : QueryID) (e : nng_error) (m : msg) (net : N) : option N :=
  if bool_decide (e = success) then None
  else net ← client_step c (RequestOps.EComplete id e m) net; Some (forget c id net).

(** A route of the server. *)
Definition set_route (k : bytes) (r : Route P msg) (sv : Server PM (Route P msg) P msg) :=
  ServerOps.set_services (ServicesOps.set_map (pm_update k r (v_map (sv_services sv))) (sv_services sv)) sv.
Definition on_route {A} (k : bytes) (op : M exn (Route P msg) A) : SV A := λ sv,
  match pm_find k (v_map (sv_services sv)) with
  | Some r => let '(o, r') := op r in (o, set_route k r' sv)
  | None => (Fault NullDeref, sv)
  end.

(** A callback of a [Reply] runs to its end: receiving takes four actions, and
    sending two, at most. *)
Fixpoint run_out {H} {Hh : AsyncRespond H msg} (fresh : QueryID) (fuel n : nat) (y : ReplyOps.Sys H msg) : option (ReplyOps.Sys H msg) :=
  if (length (ReplyOps.y_threads y) <=? n)%nat then Some y
  else match fuel with
       | O => None
       | S fuel =>
           o ← ReplyOps.step fresh y (ReplyOps.ERun n);
           '(y, _) ← returned (o, tt);
           run_out fresh fuel n y
       end.
Definition reply_callback {H} {Hh : AsyncRespond H msg} (fresh : QueryID) (e : ReplyOps.event H msg) (y : ReplyOps.Sys H msg) :
    option (ReplyOps.Sys H msg) :=
  o ← ReplyOps.step fresh y e;
  '(y', _) ← returned (o, tt);
  run_out fresh 4 (length (ReplyOps.y_threads y)) y'.

(** A request reaches the service of its route. *)
Definition hand_over (k : bytes) (fresh : QueryID) (net : N) : option N :=
  r ← pm_find k (v_map (sv_services (n_server net)));
  m ← l_flight (rt_req_send r);
  x ← n_services net !! k;
  ctx ← p_recv_ctx (ReplyOps.y_reply (sx_replier x));
  y ← reply_callback fresh (ReplyOps.EReceived success (at_service m)) (sx_replier x);
  '(_, sv) ← returned (on_route k (zoom rt_req_send RouteOps.set_send finish_send) (n_server net));
  Some (mkNet (n_clients net) sv (<[k := ServiceBoxOps.set_replier y (sx_current x) x]> (n_services net))
          (<[(k, ctx) := m]> (n_held net)) (n_carried net) (n_waiting net)).

(** The program of a service receives a request and responds. *)
Definition serve (k : bytes) (net : N) : option N :=
  x ← n_services net !! k;
  '(q, x) ← returned (ServiceBoxOps.receive x);
  q ← q;
  '(_, x) ← returned (ServiceBoxOps.respond (prog k q) x);
  Some (mkNet (n_clients net) (n_server net) (<[k := x]> (n_services net)) (n_held net) (n_carried net) (n_waiting net)).

(** The callback of a route's receiving loop, whose handler is [ReqRep]. *)
Definition reply_received (k : bytes) (m : msg) : SV unit :=
  noexcept (alive ← on_route k (r ← get; mret (rl_handler (rt_req_recv r)));
            (if (alive : bool) then ServerOps.in_reply (RelayOps.service_replying m) else mret tt);;
            on_route k (zoom rt_req_recv
              (λ l r, mkRoute (rt_path r) (rt_req r) (rt_push r) (rt_req_send r) l (rt_halted r))
              (AsyncRecvLoop.complete success m))).

(** A reply of a service reaches the server; one whose route is gone is
    discarded. *)
Definition carry_reply (k : bytes) (fresh : QueryID) (net : N) : option N :=
  x ← n_services net !! k;
  m ← p_flight (ReplyOps.y_reply (sx_replier x));
  ctx ← p_send_ctx (ReplyOps.y_reply (sx_replier x));
  y ← reply_callback fresh (ReplyOps.ESent success) (sx_replier x);
  let services := <[k := ServiceBoxOps.set_replier y (sx_current x) x]> (n_services net) in
  match n_held net !! (k, ctx) with
  | Some q =>
      r ← pm_find k (v_map (sv_services (n_server net)));
      if rl_receiving (rt_req_recv r)
      then '(_, sv) ← returned (reply_received k (back_at_server q m) (n_server net));
           Some (mkNet (n_clients net) sv services (delete (k, ctx) (n_held net)) (n_carried net) (n_waiting net))
      else None
  | None => Some (mkNet (n_clients net) (n_server net) services (n_held net) (n_carried net) (n_waiting net))
  end.

(** The server's reply reaches the client that waits for it; one that none
    waits for is discarded. *)
Definition deliver (net : N) : option N :=
  m ← l_flight (rr_send (sv_reply (n_server net)));
  '(_, sv) ← returned (ServerOps.in_reply (zoom rr_send RelayOps.set_rep_send finish_send) (n_server net));
  let net := set_server sv net in
  match back_at_client m with
  | Some (n, y) =>
      match n_waiting net !! n with
      | Some (c, id) =>
          op ← operation c id net;
          match op with
          | OpRecv => net ← client_step c (RequestOps.EComplete id success y) net; Some (forget c id net)
          | _ => None
          end
      | None => Some net
      end
  | None => Some net
  end.

(** *** Services come and go *)

(** A service is constructed. *)
Definition start_service (k serverID : bytes) (dial : HostAddress → result exn bool) (fresh fresh' : QueryID)
    (order order' : list MEMBER) (net : N) : option N :=
  if bool_decide (fresh' = 0 ∨ is_Some (n_services net !! k)) then None
  else match ServiceBoxOps.new_service_box nng_open make_connector pf k serverID dial (inr fresh) (inr fresh') None order order' with
       | Ret x => Some (mkNet (n_clients net) (n_server net) (<[k := x]> (n_services net)) (n_held net) (n_carried net) (n_waiting net))
       | _ => None
       end.

(** A service is destroyed, and its contexts with it. *)
Definition stop_service (k : bytes) (net : N) : N :=
  mkNet (n_clients net) (n_server net) (delete k (n_services net)) (filter (λ kq, kq.1.1 ≠ k) (n_held net))
    (n_carried net) (n_waiting net).

(** The directory goes on.  The requests that a service holds from a route
    that is gone have lost their way back. *)
Definition set_directory (v : Services PM (Route P msg) (ServerEnv P msg)) (net : N) : N :=
  mkNet (n_clients net) (ServerOps.set_services v (n_server net)) (n_services net)
    (filter (λ kq, is_Some (pm_find kq.1.1 (v_map v))) (n_held net)) (n_carried net) (n_waiting net).

Definition set_register (y : ReplyOps.Sys unit msg) (v : Services PM (Route P msg) (ServerEnv P msg)) :=
  let e := v_env v in
  ServicesOps.set_env (mkServerEnv y (en_register_socket e) (en_events e) (en_publish e) (en_answers e) (en_announced e)) v.

(** A message arrives at [register_reply]: the query is noted, and the
    directory handles it; what it answers at once is sent. *)
Definition register (fresh : QueryID) (pipe : PipeID) (m : msg) (net : N) : option N :=
  let v := sv_services (n_server net) in
  let y := en_register (v_env v) in
  match ReplyOps.y_threads y with
  | [] =>
      ctx ← p_recv_ctx (ReplyOps.y_reply y);
      y ← reply_callback fresh (ReplyOps.EReceived success m) y;
      '(reply, v) ← returned (ServicesOps.async_recv ctx pipe m (set_register y v));
      '(_, v) ← match reply with
                | Some r => returned (ServicesOps.in_env (env_respondTo ctx r) v)
                | None => Some (tt, v)
                end;
      Some (set_directory v net)
  | _ => None
  end.

(** An answer of [register_reply] has been sent. *)
Definition register_sent (fresh : QueryID) (net : N) : option N :=
  let v := sv_services (n_server net) in
  let y := en_register (v_env v) in
  match ReplyOps.y_threads y with
  | [] => y ← reply_callback fresh (ReplyOps.ESent success) y; Some (set_directory (set_register y v) net)
  | _ => None
  end.

(** A pipe of [register_reply] comes or goes; a pass of the management
    thread. *)
Definition directory_step (op : M exn (Services PM (Route P msg) (ServerEnv P msg)) unit) (net : N) : option N :=
  '(_, v) ← returned (op (sv_services (n_server net)));
  Some (set_directory v net).

(** *** Runs *)

Inductive event : Type :=
| EAsk (c : nat) (fresh : QueryID) (m : msg)
| EFuture (c : nat) (id : QueryID)
| ECarry (c : nat) (id : QueryID)
| EFail (c : nat) (id : QueryID) (e : nng_error) (m : msg)
| EFinish (c : nat) (id : QueryID)
| EHandOver (k : bytes) (fresh : QueryID)
| EServe (k : bytes)
| ECarryReply (k : bytes) (fresh : QueryID)
| EDeliver
| EStart (k serverID : bytes) (dial : HostAddress → result exn bool) (fresh fresh' : QueryID) (order order' : list MEMBER)
| EStop (k : bytes)
| ERegister (fresh : QueryID) (pipe : PipeID) (m : msg)
| ERegisterSent (fresh : QueryID)
| EPipe (pipe : PipeID) (ev : pipe_ev)
| EManage.

Definition step (net : N) (e : event) : option N :=
  match e with
  | EAsk c fresh m => ask c fresh m net
  | EFuture c id => get_future c id net
  | ECarry c id => carry c id net
  | EFail c id e m => fail_ c id e m net
  | EFinish c id => client_step c (RequestOps.EFinish id) net
  | EHandOver k fresh => hand_over k fresh net
  | EServe k => serve k net
  | ECarryReply k fresh => carry_reply k fresh net
  | EDeliver => deliver net
  | EStart k serverID dial fresh fresh' order order' => start_service k serverID dial fresh fresh' order order' net
  | EStop k => Some (stop_service k net)
  | ERegister fresh pipe m => register fresh pipe m net
  | ERegisterSent fresh => register_sent fresh net
  | EPipe pipe ev => directory_step (ServicesOps.pipe_event pipe ev) net
  | EManage => directory_step (ServicesOps.management_pass pf) net
  end.

Fixpoint run (net : N) (es : list event) : option N :=
  match es with [] => Some net | e :: es => net ← step net e; run net es end.

(** What a future of a client holds. *)
Definition answer (c i : nat) (net : N) : option (future msg) :=
  p ← n_clients net !! c;
  d ← r_handler (cb_requester (pa_box p));
  d_futures d !! i.

End Ops.
Arguments event : clear implicits.
End Exchange.
