(* ===== verification/ExchangeParts.v ===== *)
(** * The system: its parts

    What the system asks of a sending loop, of a client's requester and of a
    service's replier: which messages each step adds, moves or takes away, and
    the invariant of a service. *)
From stdpp Require Import gmap.
From S2P Require Import Prelude.
From S2P Require Import Nng.
From S2P Require Import MsgUtil.
From S2P Require Import Socket.
From S2P Require Import IoQueue.
From S2P Require Import AsyncSend.
From S2P Require Import ClientRequest.
From S2P Require Import ClientRequestFacts.
From S2P Require Import ServiceReply.
From S2P Require Import Boxes.
From S2P Require Import Mailboxes.
From S2P Require Import Exchange.

Module ExchangeParts.
Import Exchange.

#[local] Existing Instance RequestBox.Delegate_handler.
#[local] Existing Instance ReplyBoxOps.Delegate_handler.

Lemma returned_Some {S A} (o : result exn A * S) a s : returned o = Some (a, s) → o = (Ret a, s).
Proof. destruct o as [[] ?]; simpl; by intros [= <- <-]. Qed.

(** ** Sending loops *)
Section Loops.
Context {msg : Type}.
Implicit Types (l : SendLoop (SendQueue msg) msg).

Lemma finish_send_ok l m :
  BoxFacts.queue_ok l → l_flight l = Some m →
  ∃ l', finish_send l = (Ret tt, l') ∧ BoxFacts.queue_ok l' ∧ BoxFacts.outgoing l = m :: BoxFacts.outgoing l'.
Proof.
  intros [(q & Eh & Es & Hb) _] Ef. destruct l as [h f s]. simpl in *. subst h f s. specialize (Hb ltac:(by eexists)).
  unfold finish_send, AsyncSendLoop.run_thread, AsyncSendLoop.submit, mbind, M_bind, get, modify, mret, M_ret. simpl.
  unfold AsyncSendQueue.sent, SendQueueMtx.consume, BoxFacts.outgoing. destruct (sq_deq q) as [|m' deq] eqn:Eq; simpl.
  - eexists. split; [reflexivity|]. split; [|by rewrite ?Eq]. split; [|by intros q' [= <-]].
    eexists. split_and!; [reflexivity | done |]. by intros [].
  - eexists. split; [reflexivity|]. split; [|by rewrite ?Eq]. split; [|intros q' [= <-]; simpl; congruence].
    eexists. by split_and!.
Qed.

End Loops.

(** ** Clients *)
Section Clients.
Context {msg : Type}.
Implicit Types (s : Request (Delegate msg) msg) (d : Delegate msg) (id : QueryID) (m : msg).
Import RequestOps RequestFacts.

(** Only the context [id] is concerned, and it does not begin to send. *)
Definition moves s s' id : Prop :=
  (∀ i, i ≠ id → r_actions s' !! i = r_actions s !! i)
  ∧ ∀ a m, r_actions s' !! id = Some a → a_op a ≠ OpSend m.

(** What the delegate hears of an operation that ends. *)
Definition heard id r st m d : Delegate msg :=
  match r, st with
  | success, SEND => q_sent id d | success, RECV => q_recv id m d
  | success, IDLE => d | e, _ => q_error id e d
  end.

Lemma operation_ends s d id r m u s' :
  boxed s → r_handler s = Some d → step s (EComplete id r m) = Some (Ret u, s') →
  ∃ a, r_actions s !! id = Some a ∧ a_op a ≠ OpNone ∧ boxed s' ∧ moves s s' id ∧
    r_handler s' = Some (heard id r (a_state a) m d).
Proof.
  intros Hb Hd E. assert (boxed s') as Hb' by (by eapply box_step; [exact Hb | | | exact E]).
  simpl in E. destruct (r_actions s !! id) as [a|] eqn:Ha; [|done]. simpl in E. exists a.
  assert (a_op a ≠ OpNone) as Hop by (by destruct (a_op a)).
  assert (callback id r m s = (Ret u, s')) as Ec by (destruct (a_op a); [done|..]; by injection E).
  pose proof (callback_handler s id r m a d Ha Hd) as Hh. rewrite Ec in Hh.
  split_and!; [done | done | done | | exact Hh].
  revert Ec. unfold callback, action. erewrite bind_run by (unfold mbind, M_bind, get; rewrite Ha; reflexivity).
  rewrite modify_run. erewrite bind_run by reflexivity. cbv beta. cbn [r_handler set_action]. rewrite Hd.
  assert (∀ s1, r_actions s1 = <[id := mkAction (a_state a) OpNone]> (r_actions s) → moves s s1 id) as Hmv.
  { intros s1 E1. split.
    - intros i Hi. by rewrite E1, lookup_insert_ne.
    - intros a1 m1. rewrite E1, lookup_insert_eq. by intros [= <-]. }
  destruct r; simpl; try (intros [= _ <-]; by apply Hmv).
  destruct (a_state a); simpl; intros [= _ <-]; by apply Hmv.
Qed.

(** What is known of a query whose operation is under way. *)
Lemma operation_pending s d id a :
  boxed s → r_handler s = Some d → r_actions s !! id = Some a → a_op a ≠ OpNone →
  ∃ pd, d_pending d !! id = Some pd ∧ d_futures d !! p_promise pd = Some FPending
    ∧ (a_state a = SEND ∧ (∃ m, a_op a = OpSend m) ∨ a_state a = RECV ∧ a_op a = OpRecv).
Proof.
  intros (HI & _ & Hbx) Hd Ha Hop. destruct (inv_phase _ HI id) as [ph Hph].
  assert (told_at s id ≠ TNothing
    ∧ (a_state a = SEND ∧ (∃ m, a_op a = OpSend m) ∨ a_state a = RECV ∧ a_op a = OpRecv)) as [Ht1 Ht2].
  { unfold told_at. rewrite Hph. unfold phase_of in Hph. rewrite Ha in Hph.
    destruct (bool_decide _), a as [[] []], (r_finishing _ !! id) as [[]|]; simpl in *; simplify_eq; eauto. }
  destruct (box_has _ d id (Hbx d Hd) Ht1) as [pd Hpd]. exists pd.
  split_and!; [done | by apply (box_unset _ d (Hbx d Hd) id) | done].
Qed.

Lemma heard_outcome id r st m d pd :
  d_pending d !! id = Some pd → d_futures d !! p_promise pd = Some FPending → st ≠ IDLE →
  (∀ i, i ≠ id → d_pending (heard id r st m d) !! i = d_pending d !! i)
  ∧ (st = SEND → r = success → d_pending (heard id r st m d) !! id = Some (mkPending true (p_promise pd)))
  ∧ ∃ v, d_futures (heard id r st m d) = <[p_promise pd := v]> (d_futures d)
      ∧ ∀ y, v = FValue y → y = m ∧ r = success ∧ st = RECV.
Proof.
  intros Hpd Hfu Hst.
  assert (∀ e, (∀ i, i ≠ id → d_pending (RequestBox.box_error id e d) !! i = d_pending d !! i)
    ∧ ∃ v, d_futures (RequestBox.box_error id e d) = <[p_promise pd := v]> (d_futures d)
        ∧ ∀ y, v = FValue y → y = m ∧ r = success ∧ st = RECV) as Herr.
  { intros e. unfold RequestBox.box_error. rewrite Hpd. simpl. split; [intros i Hi; by apply lookup_delete_ne|]. by eexists. }
  destruct r; simpl;
    try (match goal with |- context [RequestBox.box_error id ?e d] => destruct (Herr e) as [He1 He2]; by split_and! end).
  destruct st; simpl; [done | |].
  - unfold RequestBox.box_sent. rewrite Hpd. simpl.
    split_and!; [intros i Hi; by rewrite lookup_insert_ne | by rewrite lookup_insert_eq |].
    exists FPending. by rewrite list_insert_id.
  - unfold RequestBox.box_recv. rewrite Hpd. simpl. split_and!; [intros i Hi; by rewrite lookup_delete_ne | done |].
    exists (FValue m). split; [done|]. by intros y' [= ->].
Qed.

Lemma finish_step_ok s d id u s' :
  boxed s → r_handler s = Some d → step s (EFinish id) = Some (Ret u, s') →
  boxed s' ∧ moves s s' id ∧ r_handler s' = Some d.
Proof.
  intros Hb Hd E. split; [by eapply box_step; [exact Hb | | | exact E]|].
  destruct Hb as (HI & _). simpl in E. destruct (r_finishing s !! id) as [c|] eqn:Hc; [|done]. simpl in E.
  destruct (inv_phase s HI id) as [p Hp]. unfold phase_of in Hp. rewrite Hc in Hp.
  destruct (r_actions s !! id) as [a|] eqn:Ha; [|by destruct (bool_decide _)].
  revert E. unfold callback_finish, set_state, start_op, action, mbind, M_bind, get, modify, mret, M_ret.
  destruct (bool_decide (id ∈ r_active s)), a as [[] []], c; try done; simpl;
    repeat (rewrite ?Ha, ?lookup_insert_eq; simpl); intros [= _ <-]; simpl;
    (split; [split; simpl; [intros i Hi; by rewrite !lookup_insert_ne by done |] | done]);
    intros a1 m1; rewrite lookup_insert_eq; by intros [= <-].
Qed.

(** A context that [request] may take. *)
Lemma free_context s d id :
  boxed s → r_handler s = Some d → id ∈ r_idle s ∨ r_actions s !! id = None → d_pending d !! id = None.
Proof.
  intros (HI & _ & Hb) Hd Hid. destruct (d_pending d !! id) as [pd|] eqn:Ep; [|done]. exfalso.
  apply (box_pending _ d (Hb d Hd) id); [by rewrite Ep|]. unfold told_at.
  destruct Hid as [Hid|Hid]; [by rewrite (idle_phase s id HI Hid)|].
  destruct (inv_phase s HI id) as [p Hp]. rewrite Hp. unfold phase_of in Hp. rewrite Hid in Hp.
  destruct (bool_decide _), (r_finishing s !! id) as [[]|]; simpl in Hp; by simplify_eq.
Qed.

Lemma boxed_future s d d' :
  boxed s → r_handler s = Some d → d_pending d' = d_pending d → d_futures d' = d_futures d →
  boxed (RequestOps.set_handler (Some d') s).
Proof.
  intros (HI & HT & Hb) Hd Ep Ef. split_and!.
  - apply (request_Inv_same s); [done | done | apply HI | apply HI].
  - by apply (Told_same s).
  - intros ? [= <-]. destruct (Hb d Hd) as [H1 H2 H3]. split; rewrite ?Ep, ?Ef; done.
Qed.

(** A request that is made. *)
Record asked_with s s' d id m : Prop := {
  ask_boxed : boxed s';
  ask_free : d_pending d !! id = None;
  ask_handler : ∃ d', r_handler s' = Some d'
    ∧ d_pending d' = <[id := mkPending false (length (d_futures d))]> (d_pending d)
    ∧ d_futures d' = d_futures d ++ [FPending];
  ask_self : r_actions s' !! id = Some (mkAction SEND (OpSend m));
  ask_other i : i ≠ id → r_actions s' !! i = r_actions s !! i;
}.

Lemma request_made s d fresh m id s' :
  boxed s → r_handler s = Some d → fresh ≠ 0 → r_actions s !! fresh = None →
  RequestOps.request (inr fresh) m s = (Ret id, s') → asked_with s s' d id m.
Proof.
  intros Hb Hd Hz Hf E.
  assert (boxed s') as Hb'.
  { apply (box_step s (ERequest (inr fresh) m) (Ret tt) s' Hb); [done | done |]. simpl. rewrite bool_decide_false, E; [done|].
    intros [?|Hs]; [done|]. rewrite Hf in Hs. by destruct Hs. }
  revert E. unfold RequestOps.request, allocate, set_state, start_op, action, mbind, M_bind, get, modify, mret, M_ret, throw.
  destruct (r_ready s); simpl; [|done]. rewrite Hd. destruct (r_idle s) as [|id0 rest] eqn:Ei; simpl.
  - rewrite lookup_insert_eq; simpl. rewrite lookup_insert_eq; simpl. intros [= -> <-].
    assert (d_pending d !! id = None) as Hp by (apply (free_context s d id Hb Hd); by right).
    split; [done | done | | |]; simpl.
    + eexists. split; [reflexivity|]. simpl. by rewrite Hp.
    + by rewrite lookup_insert_eq.
    + intros i Hi. by rewrite !lookup_insert_ne by done.
  - assert (id0 ∈ r_idle s) as Hin by (rewrite Ei; by left).
    rewrite (inv_idle s (proj1 Hb) id0 Hin); simpl. rewrite lookup_insert_eq; simpl. intros [= -> <-].
    assert (d_pending d !! id = None) as Hp by (apply (free_context s d id Hb Hd); by left).
    split; [done | done | | |]; simpl.
    + eexists. split; [reflexivity|]. simpl. by rewrite Hp.
    + by rewrite lookup_insert_eq.
    + intros i Hi. by rewrite !lookup_insert_ne by done.
Qed.

(** The future is taken. *)
Lemma future_taken s d id n s' :
  boxed s → r_handler s = Some d → RequestBox.take_future id s = (Ret n, s') →
  boxed s' ∧ r_actions s' = r_actions s ∧ r_ready s' = r_ready s
  ∧ ∃ d', r_handler s' = Some d' ∧ d_pending d' = d_pending d ∧ d_futures d' = d_futures d.
Proof.
  intros Hb Hd. unfold RequestBox.take_future, mbind, M_bind, get, modify, lift. rewrite Hd.
  destruct (RequestBox.getFuture id d) as [o d'] eqn:E2.
  assert (d_pending d' = d_pending d ∧ d_futures d' = d_futures d) as [Ep Ef].
  { revert E2. unfold RequestBox.getFuture, mbind, M_bind, get, modify, throw, mret, M_ret.
    destruct (d_pending d !! id); [|by intros [= _ <-]]. destruct (negb _); by intros [= _ <-]. }
  intros [= _ <-]. split; [by eapply boxed_future|]. split; [done|]. split; [done|]. by exists d'.
Qed.

End Clients.

(** ** Services *)
Section Services.
Context {P msg : Type} {Hmsg : NngMsg msg}.
Implicit Types (x : ServiceBox P msg) (y : Reply (list (QueryID * msg)) msg) (m q : msg).

Definition reply_of x : Reply (list (QueryID * msg)) msg := ReplyOps.y_reply (sx_replier x).

(** The requests not yet read, and the replies not yet sent. *)
Definition unread x : list (QueryID * msg) := default [] (p_handler (reply_of x)).
Definition unsent y : list (QueryID * msg) :=
  match p_flight y, p_send_ctx y with Some m, Some ctx => [(ctx, m)] | _, _ => [] end ++ sq_deq (p_outbox y).

(** The contexts in use: each has one place. *)
Definition owned (inbox : list (QueryID * msg)) y : list QueryID :=
  option_list (p_recv_ctx y) ++ inbox.*1 ++ (sq_deq (p_outbox y)).*1 ++ option_list (p_send_ctx y).

(** A service between two steps: it receives on a context, and sends when it
    has something to send. *)
Record service_ok x : Prop := {
  so_threads : ReplyOps.y_threads (sx_replier x) = [];
  so_current : sx_current x = 0;
  so_handler : is_Some (p_handler (reply_of x));
  so_recv : is_Some (p_recv_ctx (reply_of x));
  so_receiving : p_receiving (reply_of x) = true;
  so_nodup : NoDup (owned (unread x) (reply_of x));
  so_open ctx : ctx ∈ owned (unread x) (reply_of x) → ctx ≠ 0 ∧ ctx ∈ p_open (reply_of x);
  so_idle : p_flight (reply_of x) = None → p_outbox (reply_of x) = SendQueueMtx.new;
  so_busy : is_Some (p_flight (reply_of x)) → _busy (p_outbox (reply_of x)) = true ∧ is_Some (p_send_ctx (reply_of x));
  so_awaited ctx : ctx ∈ (unread x).*1 → ctx ∈ p_unresponded (reply_of x);
}.

Lemma run_one {H} {Hh : AsyncRespond H msg} fresh (y : Reply H msg) t :
  ¬ (fresh = 0 ∨ fresh ∈ p_open y) →
  ReplyOps.step fresh (ReplyOps.mkSys y [t]) (ReplyOps.ERun 0) =
  Some (match ReplyOps.run_thread (inr fresh) t y with
        | (Ret t', y') => Ret (ReplyOps.mkSys y' (option_list t'))
        | (Throw _, y') => Ret (ReplyOps.mkSys y' [])
        | (Fault f, _) => Fault f
        end).
Proof. intros Hf. unfold ReplyOps.step. simpl. by rewrite bool_decide_false. Qed.

(** The actions of the callback of a receive. *)
Lemma service_received x fresh m ctx s :
  service_ok x → p_recv_ctx (reply_of x) = Some ctx →
  reply_callback fresh (ReplyOps.EReceived success m) (sx_replier x) = Some s →
  let x' := ServiceBoxOps.set_replier s (sx_current x) x in
  service_ok x' ∧ unread x' = unread x ++ [(ctx, m)] ∧ unsent (reply_of x') = unsent (reply_of x)
  ∧ ctx ∉ (unread x).*1 ∧ ctx ∉ (unsent (reply_of x)).*1.
Proof.
  destruct x as [uri reg sock [[rdy h unr ob rc rcv sc fl op] ts] cur pub pul].
  intros [Hts Hc [q Hh] _ Hrv Hnd Hop Hid Hbs Haw] Hrc.
  unfold owned, unread, unsent, reply_of in *. simpl in *. subst ts cur h rcv rc. simpl in *.
  unfold reply_callback. destruct (decide (fresh = 0 ∨ fresh ∈ op)) as [Hf|Hf].
  { unfold ReplyOps.step. simpl. by rewrite bool_decide_true. }
  unfold ReplyOps.step at 1. simpl. rewrite bool_decide_false by done. simpl.
  rewrite run_one by done. simpl. rewrite run_one by done. simpl. rewrite difference_empty_L.
  intros [= <-]. simpl. rewrite fmap_app. simpl.
  apply NoDup_cons in Hnd as [Hctx Hnd]. rewrite !elem_of_app in Hctx.
  split_and!; [|done|done| |].
  - assert (∀ i, i ∈ (RecvQueue.push (ctx, m) q).*1 ++ (sq_deq ob).*1 ++ option_list sc → i ≠ 0 ∧ i ∈ op) as Hin.
    { intros i Hi. apply Hop. unfold RecvQueue.push in Hi. rewrite fmap_app, <- app_assoc in Hi. simpl in Hi.
      rewrite elem_of_app, elem_of_cons in Hi. rewrite elem_of_cons, elem_of_app. naive_solver. }
    split; simpl; try done; unfold owned, unread, reply_of; simpl.
    + apply NoDup_cons. split; [intros Hi%Hin; naive_solver|]. unfold RecvQueue.push. rewrite fmap_app, <- app_assoc. simpl.
      rewrite <- Permutation_middle. apply NoDup_cons. split; [|done]. rewrite !elem_of_app. naive_solver.
    + intros i. rewrite elem_of_cons, elem_of_union, elem_of_singleton. intros [->|Hi%Hin]; naive_solver.
    + intros i. unfold RecvQueue.push. rewrite fmap_app, elem_of_app, elem_of_union, elem_of_singleton. simpl.
      rewrite list_elem_of_singleton. naive_solver.
  - naive_solver.
  - rewrite elem_of_app. intros [Hi|Hi]; [|naive_solver].
    destruct fl as [m0|], sc as [c0|]; simpl in Hi; try by apply elem_of_nil in Hi.
    apply list_elem_of_singleton in Hi as ->. apply Hctx. right. right. simpl. by left.
Qed.

(** The callback of a send. *)
Lemma service_sent x fresh m ctx s :
  service_ok x → p_flight (reply_of x) = Some m → p_send_ctx (reply_of x) = Some ctx →
  reply_callback fresh (ReplyOps.ESent success) (sx_replier x) = Some s →
  let x' := ServiceBoxOps.set_replier s (sx_current x) x in
  service_ok x' ∧ unread x' = unread x ∧ unsent (reply_of x) = (ctx, m) :: unsent (reply_of x')
  ∧ ctx ∉ (unread x).*1 ∧ ctx ∉ (unsent (reply_of x')).*1.
Proof.
  destruct x as [uri reg sock [[rdy h unr ob rc rcv sc fl op] ts] cur pub pul].
  intros [Hts Hc [q Hh] [rc' Hrc] Hrv Hnd Hop Hid Hbs Haw] Hfl Hsc.
  unfold owned, unread, unsent, reply_of in *. simpl in *. subst ts cur h rcv rc fl sc. simpl in *.
  destruct (Hbs ltac:(by eexists)) as [Hb _]. clear Hid Hbs.
  unfold reply_callback. destruct (decide (fresh = 0 ∨ fresh ∈ op)) as [Hf|Hf].
  { unfold ReplyOps.step. simpl. by rewrite bool_decide_true. }
  unfold ReplyOps.step at 1. simpl. rewrite bool_decide_false by done. simpl.
  rewrite run_one by done. simpl. unfold SendQueueMtx.consume. destruct ob as [[|[c' m'] deq] b]; simpl in *; subst b.
  - intros [= <-]. simpl.
    assert (ctx ∉ q.*1) as Hctx.
    { intros Hi. apply NoDup_cons in Hnd as [_ Hnd]. apply NoDup_app in Hnd as (_ & Hd & _). by apply (Hd ctx Hi); left. }
    split_and!; [|done | done | done | by intros ?%elem_of_nil].
    split; try done. by intros [? ?].
  - rewrite run_one by done. simpl. intros [= <-]. simpl.
    assert (rc' :: q.*1 ++ c' :: deq.*1 ++ [ctx] ≡ₚ ctx :: rc' :: q.*1 ++ deq.*1 ++ [c']) as Hperm.
    { rewrite <- (Permutation_cons_append deq.*1 ctx), <- (Permutation_cons_append deq.*1 c'), (perm_swap ctx c').
      rewrite <- (Permutation_middle _ _ ctx). apply perm_swap. }
    rewrite Hperm in Hnd. apply NoDup_cons in Hnd as [Hctx Hnd].
    assert (ctx ∉ q.*1 ∧ ctx ∉ c' :: deq.*1) as [Hq Hd].
    { rewrite elem_of_cons, !elem_of_app, list_elem_of_singleton in Hctx. rewrite elem_of_cons. naive_solver. }
    split_and!; [|done | done | done | done].
    split; try done. intros i Hi. change (i ∈ rc' :: q.*1 ++ deq.*1 ++ [c']) in Hi.
    destruct (Hop i) as [Hi0 Hio]; [rewrite Hperm; by right|]. split; [done|]. simpl.
    apply elem_of_difference. split; [done|]. by intros ->%elem_of_singleton.
Qed.

(** The program of a service answers one request. *)
Lemma service_served x x1 x2 q m u :
  service_ok x → ServiceBoxOps.receive x = (Ret (Some q), x1) → ServiceBoxOps.respond m x1 = (Ret u, x2) →
  service_ok x2 ∧ ∃ ctx, unread x = (ctx, q) :: unread x2
    ∧ ∀ i, i ∈ unsent (reply_of x2) → i ∈ unsent (reply_of x) ∨ i = (ctx, m).
Proof.
  destruct x as [uri reg sock [[rdy h unr ob rc rcv sc fl op] ts] cur pub pul].
  intros [Hts Hc [q0 Hh] [rc' Hrc] Hrv Hnd Hop Hid Hbs Haw].
  unfold owned, unread, unsent, reply_of in *. simpl in *. subst ts cur h rcv rc. simpl in *.
  unfold ServiceBoxOps.receive, ServiceBoxOps.respond, ServiceBoxOps.ready, ReplyBoxOps.receive, ReplyBoxOps.respond, zoom,
    ReplyOps.respond, ReplyOps.respondTo, mbind, M_bind, get, modify, mret, M_ret, throw. simpl.
  destruct (SocketOps.isReady sock) eqn:Es; simpl; [|done]. destruct q0 as [|[ctx q'] rest]; simpl; [done|].
  intros [= -> <-]. simpl. rewrite Es. simpl.
  destruct (Hop ctx) as [Hz _]; [right; simpl; by left|]. rewrite (proj2 (Z.eqb_neq ctx 0) Hz). simpl.
  destruct rdy; simpl; [|done]. rewrite bool_decide_true by (apply Haw; simpl; by left). simpl.
  assert (ctx ∉ rc' :: rest.*1 ++ (sq_deq ob).*1 ++ option_list sc
    ∧ NoDup (rc' :: rest.*1 ++ (sq_deq ob).*1 ++ option_list sc)) as [Hctx Hnd'].
  { simpl in Hnd. rewrite (perm_swap ctx rc') in Hnd. by apply NoDup_cons in Hnd. }
  assert (∀ i, i ∈ rest.*1 → i ∈ unr ∖ {[ctx]}) as Haw'.
  { intros i Hi. apply elem_of_difference. split; [apply Haw; simpl; by right|]. intros ->%elem_of_singleton.
    apply Hctx. right. apply elem_of_app. by left. }
  unfold SendQueueMtx.produce. destruct (_busy ob) eqn:Eb; simpl.
  - destruct fl as [m0|]; [|by rewrite (Hid eq_refl) in Eb]. destruct (Hbs ltac:(by eexists)) as [_ [sc' ->]].
    intros [= _ <-]. simpl. split; [|exists ctx; split; [done|]; simpl; intros i; rewrite !elem_of_cons, elem_of_app, list_elem_of_singleton; naive_solver].
    assert (rc' :: rest.*1 ++ (sq_deq ob ++ [(ctx, m)]).*1 ++ [sc'] ≡ₚ ctx :: rc' :: rest.*1 ++ (sq_deq ob).*1 ++ [sc']) as Hperm.
    { rewrite fmap_app. simpl. rewrite <- (Permutation_cons_append (sq_deq ob).*1 ctx). simpl.
      rewrite <- (Permutation_middle _ _ ctx). apply perm_swap. }
    split; try done; unfold owned, unread, reply_of; simpl.
    + rewrite Hperm. by apply NoDup_cons.
    + intros i Hi. apply Hop. rewrite Hperm in Hi. simpl. rewrite (perm_swap ctx rc'). exact Hi.
  - destruct fl as [m0|]; [by destruct (Hbs ltac:(by eexists)) as [? _]|]. rewrite (Hid eq_refl) in *. simpl in *.
    intros [= _ <-]. simpl. split; [|exists ctx; split; [done|]; simpl; intros i; rewrite list_elem_of_singleton; naive_solver].
    assert (rc' :: rest.*1 ++ [ctx] ≡ₚ ctx :: rc' :: rest.*1) as Hperm.
    { rewrite <- (Permutation_cons_append rest.*1 ctx). apply perm_swap. }
    rewrite app_comm_cons in Hctx, Hnd'. apply NoDup_app in Hnd' as (Hnd1 & Hdis & _). rewrite elem_of_app in Hctx.
    split; try done; unfold owned, unread, reply_of; simpl.
    + rewrite Hperm. apply NoDup_cons. split; [|done]. intros Hi. apply Hctx. by left.
    + intros i Hi. rewrite Hperm, elem_of_cons in Hi. rewrite elem_of_difference.
      destruct (Hop i) as [Hi0 Hio].
      { rewrite (perm_swap ctx rc'), elem_of_cons, app_comm_cons, elem_of_app. naive_solver. }
      split_and!; [done | done |]. destruct sc as [sc'|]; [|set_solver]. intros ->%elem_of_singleton.
      destruct Hi as [->|Hi]; [apply Hctx; right; by left | apply (Hdis sc' Hi); by left].
Qed.

End Services.

End ExchangeParts.
