(* ===== verification/ExchangeFacts.v ===== *)
(** * The system: theorems

    However the steps of clients, server and services interleave, a client
    gets as the answer to a request only what the service of a registered
    prefix of its URI replied to that request, or that there is none. *)
From stdpp Require Import gmap.
From S2P Require Import Prelude.
From S2P Require Import Nng.
From S2P Require Import MsgUtil.
From S2P Require Import Status.
From S2P Require Import MsgLayout.
From S2P Require Import MsgView.
From S2P Require Import MsgParse.
From S2P Require Import Notices.
From S2P Require Import Pattern.
From S2P Require Import HostAddress.
From S2P Require Import Socket.
From S2P Require Import IoQueue.
From S2P Require Import AsyncSend.
From S2P Require Import AsyncRecv.
From S2P Require Import ClientRequest.
From S2P Require Import ClientRequestFacts.
From S2P Require Import ServiceReply.
From S2P Require Import ServiceReplyFacts.
From S2P Require Import PrefixMap.
From S2P Require Import Boxes.
From S2P Require Import Route.
From S2P Require Import Relays.
From S2P Require Import Services.
From S2P Require Import ServicesFacts.
From S2P Require Import ServicesRoutes.
From S2P Require Import Server.
From S2P Require Import ServerFacts.
From S2P Require Import Bundles.
From S2P Require Import Mailboxes.
From S2P Require Import Exchange.
From S2P Require Import ExchangeParts.

Module ExchangeFacts.
Import Exchange ExchangeParts.

#[local] Existing Instance RequestBox.Delegate_handler.
#[local] Existing Instance ReplyBoxOps.Delegate_handler.

(** ** The server *)
Section System.
Context {PM P msg : Type}.
Context {Hmsg : NngMsg msg} {Hmsgl : NngMsgLaws msg}.
Context {Hpm : PrefixMap PM (Route P msg)} {Hpml : PrefixMapLaws PM (Route P msg)}.
Context {Hpipe : PipeEventHandler P} {Ht : Transport msg} {Htl : TransportLaws msg}.
Context (nng_open : bool → PROTOCOL → result exn Z).
Context (make_connector : bool → Z → bytes → gset Z → result exn Z).
Context (pf : PLATFORM).
Context (open_throws : ∀ raw p, nng_only (nng_open raw p)).
Context (connector_throws : ∀ l s uri live, nng_only (make_connector l s uri live)).
Context (prog : bytes → msg → msg).

#[local] Instance routing' : Routing (Route P msg) msg := routing nng_open make_connector pf.
#[local] Instance routing_laws : RoutingLaws (Route P msg) msg :=
  RouteFacts.Route_laws nng_open make_connector pf open_throws connector_throws.

Abbreviation Sv := (Server PM (Route P msg) P msg).
Abbreviation N := (Net PM P msg).
Abbreviation serving := (ServerFacts.serving (PM := PM) (P := P) (msg := msg) make_connector pf connector_throws).
Abbreviation table sv := (entries (v_map (sv_services sv))).
Abbreviation outgoing := BoxFacts.outgoing.
Abbreviation short m := (blen (msg_body m) < 2 ^ 59).
Implicit Types (sv : Sv) (net : N) (k : bytes) (r : Route P msg) (m x y q : msg) (c : nat) (id : QueryID).

#[local] Instance environment' : ServicesEnv (ServerEnv P msg) msg := environment make_connector pf.
#[local] Instance environment_laws : ServicesEnvLaws (ServerEnv P msg) msg :=
  ServerFacts.Server_env_laws make_connector pf connector_throws.

#[local] Arguments HttpStatus.toInt : simpl never.

(** A request whose URI has the prefix [k], and the reply to one whose URI has
    no registered prefix. *)
Definition routed k (body : bytes) : Prop :=
  ∃ v uri, View.parse REQUEST body = Ret v ∧ View.uriString v = Ret uri ∧ k `prefix_of` uri.
Definition refused (body : bytes) y : Prop :=
  ∃ v uri, View.parse REQUEST body = Ret v ∧ View.uriString v = Ret uri
    ∧ Notices.reads_reply y (HttpStatus.toInt HttpStatus.NotFound) (ServerFacts.not_found_text uri).

Lemma route_loops sv k r : serving sv → table sv !! k = Some r → RouteFacts.loops_ok r.
Proof. intros [Hr _] Hk. by destruct (ServicesFacts.inv_table _ (ServicesFacts.reached_Inv _ _ Hr) k r Hk). Qed.

Lemma set_route_ok sv k r r' :
  serving sv → table sv !! k = Some r → RouteFacts.loops_ok r' → rt_path r' = rt_path r →
  serving (set_route k r' sv) ∧ table (set_route k r' sv) = <[k := r']> (table sv).
Proof.
  intros [Hr Hq] Hk Hl Hp. split; [split; [|done] | apply entries_update].
  exact (ServicesFacts.reached_route pf k r r' _ Hr Hk (conj Hl Hp)).
Qed.

Lemma sendRequest_ok r x :
  RouteFacts.loops_ok r →
  ∃ r', RouteOps.sendRequest x r = (Ret tt, r') ∧ outgoing (rt_req_send r') = outgoing (rt_req_send r) ++ [x].
Proof.
  intros Hl. destruct (BoxFacts.send_msg_ok (rt_req_send r) x (proj1 Hl)) as (l' & E & _ & Ho).
  unfold RouteOps.sendRequest, zoom. rewrite E. by eexists.
Qed.

(** What a step adds to the messages of the server: requests on a route, and
    replies. *)
Record grows sv sv' (new_request : bytes → msg → Prop) (new_reply : msg → Prop) : Prop := {
  grows_serving : serving sv';
  grows_routes k r' y : table sv' !! k = Some r' → y ∈ outgoing (rt_req_send r') →
    (∃ r, table sv !! k = Some r ∧ y ∈ outgoing (rt_req_send r)) ∨ new_request k y;
  grows_replies y : y ∈ outgoing (rr_send (sv_reply sv')) →
    y ∈ outgoing (rr_send (sv_reply sv)) ∨ new_reply y;
}.

Lemma grows_same sv sv' A B :
  serving sv → sv_services sv' = sv_services sv → rr_send (sv_reply sv') = rr_send (sv_reply sv) → grows sv sv' A B.
Proof.
  intros [Hr Hq] Es Er. split; rewrite ?Es, ?Er; try done; [split; by rewrite ?Es, ?Er | |]; eauto.
Qed.

(** What a request adds. *)
Definition took sv sv' x : Prop :=
  grows sv sv' (λ k y, y = x ∧ routed k (msg_body x)) (λ y, msg_header y = msg_header x ∧ refused (msg_body x) y).

Lemma client_requesting_took sv x :
  serving sv → short x → ∃ sv', ServerOps.client_requesting x sv = (Ret tt, sv') ∧ took sv sv' x.
Proof.
  intros Hs Hb. pose proof (ParseFacts.parse_total REQUEST (msg_body x)) as Hp.
  destruct (View.parse REQUEST (msg_body x)) as [v|e|f] eqn:Ep; [| |done].
  2: { destruct Hp as (err & text & -> & _). exists sv. split; [unfold ServerOps.client_requesting; by rewrite Ep|].
       by apply grows_same. }
  destruct (ParseFacts.parse_accessible REQUEST (msg_body x) v) as [Eraw Hacc]; [lia | done |].
  destruct (ParseFacts.acc_uri v Hacc) as [uri Eu].
  pose proof (ParseFacts.string_short _ _ _ Eu) as Hlen. rewrite Eraw in Hlen.
  destruct (ServerFacts.request_handled make_connector pf connector_throws sv x v uri Hs Ep Eu) as (sv' & E1 & Hh); [lia|].
  exists sv'. split; [done|]. destruct Hh as [Hs' _ H404 Hrt].
  destruct (ServerFacts.prefix_cases sv uri) as [Hn|(k & r & Hk)].
  - destruct (H404 Hn) as [Et (reply & Eo & Eh & Hr)]. split; [done | |]; rewrite ?Et; eauto.
    intros y. rewrite Eo, elem_of_app, list_elem_of_singleton. intros [?| ->]; [by left|]. right. split; [done|]. by exists v, uri.
  - destruct (Hrt k r Hk) as [Et Er]. pose proof Hk as (Hk1 & Hk2 & _).
    destruct (sendRequest_ok r x (route_loops sv k r Hs Hk1)) as (r' & E2 & Eo).
    assert (route_sendRequest x r = (Ret tt, r')) as E3 by exact E2. rewrite E3 in Et, Er. simpl in Et, Er.
    split; [done | |].
    + intros k' r0 y. rewrite Et. destruct (decide (k' = k)) as [->|Hne].
      * rewrite lookup_insert_eq. intros [= <-]. rewrite Eo, elem_of_app, list_elem_of_singleton. intros [?| ->]; [left; by exists r|].
        right. split; [done|]. by exists v, uri.
      * rewrite lookup_insert_ne by done. intros ? ?. left. by exists r0.
    + rewrite Er. by left.
Qed.

Lemma request_received_took sv x u sv' :
  serving sv → short x → ServerOps.request_received success x sv = (Ret u, sv') → took sv sv' x.
Proof.
  intros Hs Hb. unfold ServerOps.request_received, noexcept.
  unfold mbind at 1, M_bind at 1, get at 1.
  assert (∃ sv1, (if rl_handler (rr_recv (sv_reply sv)) && bool_decide (success = success)
                  then ServerOps.client_requesting x else mret tt) sv = (Ret tt, sv1) ∧ took sv sv1 x) as (sv1 & E1 & Ht1).
  { rewrite bool_decide_true by done. destruct (rl_handler _); simpl; [by apply client_requesting_took|].
    exists sv. split; [done|]. by apply grows_same. }
  erewrite bind_run by exact E1. unfold ServerOps.in_reply, zoom.
  destruct (AsyncRecvLoop.complete success x (rr_recv (sv_reply sv1))) as [[] l]; try done. intros [= _ <-].
  destruct Ht1 as [H1 H2 H3]. split; [exact H1 | exact H2 | exact H3].
Qed.

(** A route's own loop goes on. *)
Lemma on_route_ok {A} sv k r (op : M exn (Route P msg) A) u r' :
  serving sv → table sv !! k = Some r → op r = (Ret u, r') → RouteFacts.loops_ok r' → rt_path r' = rt_path r →
  ∃ sv', on_route k op sv = (Ret u, sv') ∧ serving sv' ∧ table sv' = <[k := r']> (table sv) ∧ sv_reply sv' = sv_reply sv.
Proof.
  intros Hs Hk E Hl Hp. destruct (set_route_ok sv k r r' Hs Hk Hl Hp) as [Hs' Et].
  exists (set_route k r' sv). unfold on_route. by rewrite entries_find, Hk, E.
Qed.

Lemma route_sent_ok sv k r x :
  serving sv → table sv !! k = Some r → l_flight (rt_req_send r) = Some x →
  ∃ sv', on_route k (zoom rt_req_send RouteOps.set_send finish_send) sv = (Ret tt, sv')
    ∧ grows sv sv' (λ _ _, False) (λ _, False) ∧ x ∈ outgoing (rt_req_send r).
Proof.
  intros Hs Hk Ef. pose proof (route_loops sv k r Hs Hk) as Hl.
  destruct (finish_send_ok (rt_req_send r) x (proj1 Hl) Ef) as (l' & E1 & Hq & Eo).
  destruct (on_route_ok sv k r (zoom rt_req_send RouteOps.set_send finish_send) tt (RouteOps.set_send l' r) Hs Hk)
    as (sv' & E2 & Hs' & Et & Er); [unfold zoom; by rewrite E1 | split; [done | apply Hl] | done |].
  exists sv'. split_and!; [done | | rewrite Eo; by left]. split; [done | |].
  - intros k' r0 y. rewrite Et. destruct (decide (k' = k)) as [->|Hne].
    + rewrite lookup_insert_eq. intros [= <-] Hy. left. exists r. split; [done|]. rewrite Eo. by right.
    + rewrite lookup_insert_ne by done. intros ? ?. left. by exists r0.
  - rewrite Er. by left.
Qed.

Lemma reply_received_ok sv k r y u sv' :
  serving sv → table sv !! k = Some r → reply_received k y sv = (Ret u, sv') →
  grows sv sv' (λ _ _, False) (λ y', y' = y).
Proof.
  intros Hs Hk. pose proof (route_loops sv k r Hs Hk) as Hl. unfold reply_received, noexcept.
  unfold mbind at 1, M_bind at 1, on_route at 1. rewrite entries_find, Hk. simpl.
  destruct (set_route_ok sv k r r Hs Hk Hl eq_refl) as [Hs1 Et1].
  assert (∃ sv1, (if rl_handler (rt_req_recv r) then ServerOps.in_reply (RelayOps.service_replying y) else mret tt)
                   (set_route k r sv) = (Ret tt, sv1) ∧ serving sv1 ∧ table sv1 = table sv
            ∧ ∀ y', y' ∈ outgoing (rr_send (sv_reply sv1)) → y' ∈ outgoing (rr_send (sv_reply sv)) ∨ y' = y)
    as (sv1 & E1 & Hs2 & Et2 & Ho).
  { assert (table (set_route k r sv) = table sv) as Et by (rewrite Et1; by apply insert_id).
    destruct (rl_handler _).
    - destruct (ServerFacts.service_replying_ok (set_route k r sv) y (proj2 Hs1)) as (sv1 & E1 & Hq & Es & Eo).
      exists sv1. split; [done|]. split; [split; [rewrite Es; apply Hs1 | done]|]. split; [by rewrite Es|].
      intros y'. rewrite Eo, elem_of_app, list_elem_of_singleton. by intros [?| ->]; [left | right].
    - exists (set_route k r sv). split; [done|]. split; [done|]. split; [done|]. by left. }
  unfold mbind, M_bind. rewrite E1. unfold on_route. rewrite entries_find, Et2, Hk. unfold zoom.
  destruct (AsyncRecvLoop.complete success y (rt_req_recv r)) as [[] l]; try done. intros [= _ <-].
  edestruct (set_route_ok sv1 k r) as [Hs3 Et3]; [done | by rewrite Et2 | | |].
  3: split; [exact Hs3 | | exact Ho].
  3: { intros k' r0 y'. rewrite Et3, Et2. destruct (decide (k' = k)) as [->|Hne].
    + rewrite lookup_insert_eq. intros [= <-] Hy. left. by exists r.
    + rewrite lookup_insert_ne by done. intros ? ?. left. by exists r0. }
  all: done.
Qed.

Lemma reply_sent_ok sv x :
  serving sv → l_flight (rr_send (sv_reply sv)) = Some x →
  ∃ sv', ServerOps.in_reply (zoom rr_send RelayOps.set_rep_send finish_send) sv = (Ret tt, sv')
    ∧ grows sv sv' (λ _ _, False) (λ _, False) ∧ x ∈ outgoing (rr_send (sv_reply sv)).
Proof.
  intros [Hr Hq] Ef. destruct (finish_send_ok (rr_send (sv_reply sv)) x Hq Ef) as (l' & E1 & Hq' & Eo).
  unfold ServerOps.in_reply, zoom. rewrite E1. eexists. split; [reflexivity|]. split; [|rewrite Eo; by left].
  split; simpl; [done | eauto |]. intros y Hy. left. rewrite Eo. by right.
Qed.

(** ** The invariant *)

(** What may answer a request [m]: the reply of the program of a service at a
    prefix of its URI, to a message with the body of [m]; or, when there is
    none, 404. *)
Inductive answers m y : Prop :=
| answered k q : routed k (msg_body m) → msg_body q = msg_body m → msg_body y = msg_body (prog k q) → answers m y
| not_found : refused (msg_body m) y → answers m y.

Lemma answers_body m y y' : msg_body y' = msg_body y → answers m y → answers m y'.
Proof.
  intros E [k q H1 H2 H3|(v & uri & H1 & H2 & H3)]; [by apply (answered m y' k q); [..|congruence]|].
  apply not_found. exists v, uri. split_and!; [done | done |]. unfold Notices.reads_reply. by rewrite E.
Qed.

(** A request on its way to the service at [k], and a reply on its way back. *)
Definition is_request (carried : list msg) k x : Prop :=
  ∃ n m, carried !! n = Some m ∧ x = at_server n m ∧ routed k (msg_body m).
Definition is_reply (carried : list msg) y : Prop :=
  ∃ n m, carried !! n = Some m ∧ msg_header y = msg_header (at_server n m) ∧ answers m y.

Lemma is_request_app carried l k x : is_request carried k x → is_request (carried ++ l) k x.
Proof. intros (n & m & H1 & H2). exists n, m. split; [by apply lookup_app_l_Some | done]. Qed.
Lemma is_reply_app carried l y : is_reply carried y → is_reply (carried ++ l) y.
Proof. intros (n & m & H1 & H2). exists n, m. split; [by apply lookup_app_l_Some | done]. Qed.

(** The message of the query that a context of a client has pending. *)
Definition pending_request (p : Party P msg) id : option msg :=
  d ← r_handler (cb_requester (pa_box p));
  pd ← d_pending d !! id;
  pa_asked p !! p_promise pd.

Record party_ok (p : Party P msg) : Prop := {
  pk_boxed : RequestFacts.boxed (cb_requester (pa_box p));
  pk_short : Forall (λ m, short m) (pa_asked p);
  pk_futures : ∃ d, r_handler (cb_requester (pa_box p)) = Some d ∧ length (d_futures d) = length (pa_asked p)
    ∧ ∀ i y, d_futures d !! i = Some (FValue y) → ∃ m, pa_asked p !! i = Some m ∧ answers m y;
  pk_sending id a m : r_actions (cb_requester (pa_box p)) !! id = Some a → a_op a = OpSend m →
    pending_request p id = Some m;
}.

Definition with_requester (p : Party P msg) (s : Request (Delegate msg) msg) : Party P msg :=
  mkParty (ClientBoxOps.set_requester s (pa_box p)) (pa_asked p).

(** An operation ends. *)
Lemma party_complete p id res y u s' a :
  party_ok p → RequestOps.step (cb_requester (pa_box p)) (RequestOps.EComplete id res y) = Some (Ret u, s') →
  r_actions (cb_requester (pa_box p)) !! id = Some a →
  (res = success → a_op a = OpRecv → ∀ m, pending_request p id = Some m → answers m y) →
  party_ok (with_requester p s')
  ∧ (∀ i, i ≠ id → pending_request (with_requester p s') i = pending_request p i)
  ∧ (∀ m, a_op a = OpSend m → res = success → pending_request (with_requester p s') id = Some m).
Proof.
  intros [Hb Hsh (d & Hd & Hlen & Hval) Hsend] E Ha Hans.
  destruct (operation_ends _ d id res y u s' Hb Hd E) as (a' & Ha' & Hop & Hb' & [Hmo Hms] & Hh).
  assert (a' = a) as -> by congruence. clear Ha'.
  destruct (operation_pending _ d id a Hb Hd Ha Hop) as (pd & Hpd & Hfu & Hst).
  assert (pending_request p id = pa_asked p !! p_promise pd) as Epr by (unfold pending_request; by rewrite Hd; simpl; rewrite Hpd).
  set (d' := heard id res (a_state a) y d). rename Hh into Hd'. fold d' in Hd'. clear E.
  assert (a_state a ≠ IDLE) as Hni by (by destruct Hst as [[-> _]|[-> _]]).
  destruct (heard_outcome id res (a_state a) y d pd Hpd Hfu Hni) as (Hoth & Hself & v & Efu & Hv). fold d' in Hoth, Hself, Efu.
  assert (∀ i, i ≠ id → pending_request (with_requester p s') i = pending_request p i) as Hpr.
  { intros i Hi. unfold pending_request. simpl. rewrite Hd, Hd'. simpl. by rewrite Hoth. }
  split_and!; [|done|].
  - split; simpl; [done | done | |].
    + exists d'. rewrite Efu, length_insert. split_and!; [done | done |]. intros i y' Hy.
      apply list_lookup_insert_Some in Hy as [(<- & -> & _)|[_ Hy]]; [|by apply Hval].
      destruct (Hv y' eq_refl) as (-> & Eres & Est).
      assert (a_op a = OpRecv) as Eop by (by destruct Hst as [[? _]|[_ ?]]; [congruence|]). pose proof (lookup_lt_Some _ _ _ Hfu) as Hlt. rewrite Hlen in Hlt.
      destruct (lookup_lt_is_Some_2 _ _ Hlt) as [m Hm]. exists m. split; [done|]. apply Hans; [done | done |]. by rewrite Epr.
    + intros i a1 m Ha1 Eop. destruct (decide (i = id)) as [->|Hi]; [by destruct (Hms a1 m Ha1)|].
      rewrite Hpr by done. rewrite Hmo in Ha1 by done. by eapply Hsend.
  - intros m Eop Eres. unfold pending_request. simpl. rewrite Hd'. simpl.
    destruct Hst as [[Est _]|[_ ?]]; [|congruence]. rewrite Hself by done. simpl. rewrite <- Epr. by eapply Hsend.
Qed.

(** A callback ends. *)
Lemma party_finish p id u s' :
  party_ok p → RequestOps.step (cb_requester (pa_box p)) (RequestOps.EFinish id) = Some (Ret u, s') →
  party_ok (with_requester p s') ∧ ∀ i, pending_request (with_requester p s') i = pending_request p i.
Proof.
  intros [Hb Hsh (d & Hd & Hlen & Hval) Hsend] E.
  destruct (finish_step_ok _ d id u s' Hb Hd E) as (Hb' & [Hmo Hms] & Hd').
  assert (∀ i, pending_request (with_requester p s') i = pending_request p i) as Hpr.
  { intros i. unfold pending_request. simpl. by rewrite Hd, Hd'. }
  split; [|done]. split; simpl; [done | done | by exists d |].
  intros i a m Ha Eop. destruct (decide (i = id)) as [->|Hi]; [by destruct (Hms a m Ha)|].
  rewrite Hpr. rewrite Hmo in Ha by done. by eapply Hsend.
Qed.

(** A client asks. *)
Lemma party_ask p fresh m n s' :
  party_ok p → short m → fresh ≠ 0 → r_actions (cb_requester (pa_box p)) !! fresh = None →
  RequestOps.request (inr fresh) m (cb_requester (pa_box p)) = (Ret n, s') →
  let p' := mkParty (ClientBoxOps.set_requester s' (pa_box p)) (pa_asked p ++ [m]) in
  party_ok p' ∧ ∀ i x, pending_request p i = Some x → pending_request p' i = Some x.
Proof.
  intros [Hb Hsh (d & Hd & Hlen & Hval) Hsend] Hm Hz Hf E p'.
  rename n into id.
  destruct (request_made _ d fresh m id s' Hb Hd Hz Hf E) as [Hb' Hfree (d' & Hd' & Ep & Ef) Hself Hoth].
  assert (∀ i x, pending_request p i = Some x → pending_request p' i = Some x) as Hpr.
  { intros i x. unfold pending_request, p'. simpl. rewrite Hd, Hd'. simpl. rewrite Ep.
    destruct (decide (i = id)) as [->|Hi]; [by rewrite Hfree|]. rewrite lookup_insert_ne by done.
    destruct (d_pending d !! i) as [pd|]; [|done]. simpl. apply lookup_app_l_Some. }
  split; [|done]. split; simpl; [done | by apply Forall_app_2; [|constructor] | |].
  - exists d'. rewrite Ef, !length_app. split_and!; [done | simpl; lia |]. intros i y Hy.
    apply lookup_app_Some in Hy as [Hy|[_ Hy]].
    + destruct (Hval i y Hy) as (x & Hx & Hans). exists x. split; [by apply lookup_app_l_Some | done].
    + apply list_lookup_singleton_Some in Hy as [_ ?]. done.
  - intros i a x Ha Eop. destruct (decide (i = id)) as [->|Hi].
    + rewrite Hself in Ha. injection Ha as <-. simpl in Eop. injection Eop as <-.
      unfold pending_request, p'. simpl. rewrite Hd'. simpl. rewrite Ep, lookup_insert_eq. simpl.
      by rewrite Hlen, lookup_app_r, Nat.sub_diag by lia.
    + apply Hpr. rewrite Hoth in Ha by done. by eapply Hsend.
Qed.

(** A client takes a future. *)
Lemma party_future p id n s' :
  party_ok p → RequestBox.take_future id (cb_requester (pa_box p)) = (Ret n, s') →
  party_ok (with_requester p s') ∧ ∀ i, pending_request (with_requester p s') i = pending_request p i.
Proof.
  intros [Hb Hsh (d & Hd & Hlen & Hval) Hsend] E.
  destruct (future_taken _ d id n s' Hb Hd E) as (Hb' & Ea & _ & d' & Hd' & Ep & Ef).
  assert (∀ i, pending_request (with_requester p s') i = pending_request p i) as Hpr.
  { intros i. unfold pending_request. simpl. rewrite Hd, Hd'. simpl. by rewrite Ep. }
  split; [|done]. split; simpl; [done | done | exists d'; by rewrite Ef |].
  intros i a x Ha Eop. rewrite Hpr. rewrite Ea in Ha. by eapply Hsend.
Qed.

(** A request that a context waits for is the one it has pending. *)
Definition waits (clients : gmap nat (Party P msg)) (carried : list msg) n c id : Prop :=
  ∃ p m, clients !! c = Some p ∧ pending_request p id = Some m ∧ carried !! n = Some m.

(** What a service has not read comes from the requests its contexts hold, as
    far as these have a way back, and what it has not sent answers them. *)
Record holds (held : gmap (bytes * QueryID) msg) k (x : ServiceBox P msg) : Prop := {
  ho_ok : service_ok x;
  ho_unread ctx m q : (ctx, m) ∈ unread x → held !! (k, ctx) = Some q → msg_body m = msg_body q;
  ho_unsent ctx y q : (ctx, y) ∈ unsent (reply_of x) → held !! (k, ctx) = Some q →
    ∃ m, msg_body m = msg_body q ∧ msg_body y = msg_body (prog k m);
}.

Lemma holds_less held held' k (x : ServiceBox P msg) :
  holds held k x → (∀ ctx q, held' !! (k, ctx) = Some q → held !! (k, ctx) = Some q) → holds held' k x.
Proof.
  intros [H1 H2 H3] Hh. split; [done|..].
  - intros ctx m q Hm Hq. eapply H2; [exact Hm | by apply Hh].
  - intros ctx y q Hy Hq. eapply H3; [exact Hy | by apply Hh].
Qed.

Record net_ok net : Prop := {
  ok_clients c p : n_clients net !! c = Some p → party_ok p;
  ok_waiting n c id : n_waiting net !! n = Some (c, id) → waits (n_clients net) (n_carried net) n c id;
  ok_serving : serving (n_server net);
  ok_routes k r x : table (n_server net) !! k = Some r → x ∈ outgoing (rt_req_send r) → is_request (n_carried net) k x;
  ok_replies y : y ∈ outgoing (rr_send (sv_reply (n_server net))) → is_reply (n_carried net) y;
  ok_held k ctx q : n_held net !! (k, ctx) = Some q → is_request (n_carried net) k q;
  ok_services k (x : ServiceBox P msg) : n_services net !! k = Some x → holds (n_held net) k x;
}.

(** One client changes. *)
Lemma set_client_ok net c p p' (w : gmap nat (nat * QueryID)) :
  net_ok net → n_clients net !! c = Some p → party_ok p' →
  (∀ n c' id, w !! n = Some (c', id) → n_waiting net !! n = Some (c', id)
     ∧ (c' = c → ∀ m, pending_request p id = Some m → pending_request p' id = Some m)) →
  net_ok (set_waiting w (set_client c p' net)).
Proof.
  intros [H1 H2 H3 H4 H5 H6 H7] Hc Hp Hw. split; simpl; try done.
  - intros c' p0. destruct (decide (c' = c)) as [->|Hne]; [|by rewrite lookup_insert_ne by done; apply H1].
    rewrite lookup_insert_eq. by intros [= <-].
  - intros n c' id Hn. destruct (Hw n c' id Hn) as [Hn' Hpend]. destruct (H2 n c' id Hn') as (p0 & m & E1 & E2 & E3).
    destruct (decide (c' = c)) as [->|Hne].
    + assert (p0 = p) as -> by congruence. exists p', m. rewrite lookup_insert_eq. by split_and!; [|apply Hpend|].
    + exists p0, m. by rewrite lookup_insert_ne.
Qed.

Lemma set_client_same net c p p' :
  net_ok net → n_clients net !! c = Some p → party_ok p' →
  (∀ id m, pending_request p id = Some m → pending_request p' id = Some m) → net_ok (set_client c p' net).
Proof.
  intros Hn Hc Hp Hpend. pose proof (set_client_ok net c p p' (n_waiting net) Hn Hc Hp) as H1.
  destruct net. apply H1. intros n c' id E. split; [done|]. intros _ m. apply Hpend.
Qed.

(** The server goes on, with requests and replies that are in order. *)
Lemma set_server_ok net sv A B :
  net_ok net → grows (n_server net) sv A B →
  (∀ k x, A k x → is_request (n_carried net) k x) → (∀ y, B y → is_reply (n_carried net) y) →
  net_ok (set_server sv net).
Proof.
  intros [H1 H2 H3 H4 H5 H6 H7] [G1 G2 G3] HA HB. split; simpl; try done.
  - intros k r x Hk Hx. destruct (G2 k r x Hk Hx) as [(r0 & Hr0 & Hx0)|HAx]; [by eapply H4 | by apply HA].
  - intros y Hy. destruct (G3 y Hy) as [Hy0|HBy]; [by apply H5 | by apply HB].
Qed.

(** One more request is carried. *)
Lemma carried_ok net m :
  net_ok net → net_ok (mkNet (n_clients net) (n_server net) (n_services net) (n_held net) (n_carried net ++ [m]) (n_waiting net)).
Proof.
  intros [H1 H2 H3 H4 H5 H6 H7]. split; simpl; try done.
  - intros n c id Hn. destruct (H2 n c id Hn) as (p & x & E1 & E2 & E3). exists p, x.
    split_and!; [done | done | by apply lookup_app_l_Some].
  - intros k r x Hk Hx. eapply is_request_app, H4; done.
  - intros y Hy. by apply is_reply_app, H5.
  - intros k ctx q Hq. by eapply is_request_app, H6.
Qed.

(** A service goes on, with the requests it holds. *)
Lemma set_service_ok net k (x : ServiceBox P msg) held :
  net_ok net → holds held k x →
  (∀ k' ctx q, held !! (k', ctx) = Some q → n_held net !! (k', ctx) = Some q ∨ is_request (n_carried net) k' q) →
  (∀ k' ctx, k' ≠ k → held !! (k', ctx) = n_held net !! (k', ctx)) →
  net_ok (mkNet (n_clients net) (n_server net) (<[k := x]> (n_services net)) held (n_carried net) (n_waiting net)).
Proof.
  intros [H1 H2 H3 H4 H5 H6 H7] Hx Hheld Hoth. split; simpl; try done.
  - intros k' ctx q Hq. destruct (Hheld k' ctx q Hq) as [Hq'|?]; [by eapply H6 | done].
  - intros k' x'. destruct (decide (k' = k)) as [->|Hne]; [rewrite lookup_insert_eq; by intros [= <-]|].
    rewrite lookup_insert_ne by done. intros Hx'. eapply holds_less; [by apply H7|]. intros ctx q. by rewrite Hoth.
Qed.

(** ** Every step *)

Lemma client_step_inv c e net net' :
  client_step c e net = Some net' →
  ∃ p u s', n_clients net !! c = Some p ∧ RequestOps.step (cb_requester (pa_box p)) e = Some (Ret u, s')
    ∧ net' = set_client c (with_requester p s') net.
Proof.
  unfold client_step. destruct (n_clients net !! c) as [p|]; [|done]. simpl.
  destruct (RequestOps.step (cb_requester (pa_box p)) e) as [[o s']|] eqn:E; [|done]. simpl.
  destruct o as [u| |]; simpl; [|done..]. intros [= <-]. by exists p, u, s'.
Qed.

Lemma operation_inv c id net op p :
  operation c id net = Some op → n_clients net !! c = Some p →
  ∃ a, r_actions (cb_requester (pa_box p)) !! id = Some a ∧ a_op a = op.
Proof.
  unfold operation. intros E Hc. rewrite Hc in E. simpl in E.
  destruct (r_actions _ !! id) as [a|]; [|done]. injection E as <-. by exists a.
Qed.

Lemma ask_ok c fresh m net net' : net_ok net → short m → ask c fresh m net = Some net' → net_ok net'.
Proof.
  intros Hn Hm. unfold ask. destruct (n_clients net !! c) as [p|] eqn:Hc; [|done]. simpl. case_bool_decide as Hf; [done|].
  destruct (RequestOps.request (inr fresh) m (cb_requester (pa_box p))) as [[n| |] s'] eqn:E; simpl; try done.
  intros [= <-]. destruct (party_ask p fresh m n s') as [Hp Hpend]; try done; [by eapply ok_clients | naive_solver | |].
  { apply eq_None_not_Some. intros Hs. apply Hf. by right. }
  by eapply set_client_same.
Qed.

Lemma get_future_ok c id net net' : net_ok net → get_future c id net = Some net' → net_ok net'.
Proof.
  intros Hn. unfold get_future. destruct (n_clients net !! c) as [p|] eqn:Hc; [|done]. simpl.
  destruct (RequestBox.take_future id (cb_requester (pa_box p))) as [[n| |] s'] eqn:E; simpl; try done.
  intros [= <-]. destruct (party_future p id n s') as [Hp Hpend]; try done; [by eapply ok_clients|].
  eapply set_client_same; try done. intros i x. by rewrite <- Hpend.
Qed.

Lemma set_waiting_ok net w :
  net_ok net → (∀ n c id, w !! n = Some (c, id) → waits (n_clients net) (n_carried net) n c id) → net_ok (set_waiting w net).
Proof. intros [H1 H2 H3 H4 H5 H6 H7] Hw. split; simpl; done. Qed.

Lemma carry_ok c id net net' : net_ok net → carry nng_open make_connector pf c id net = Some net' → net_ok net'.
Proof.
  intros Hn. unfold carry. destruct (operation c id net) as [op|] eqn:Eop; [|done]. simpl. destruct op as [|m|]; [done| |done].
  destruct (client_step c _ net) as [net1|] eqn:E1; [|done]. simpl. destruct (rl_receiving _); [|done].
  destruct (returned _) as [[u sv]|] eqn:E2; [|done]. simpl. apply returned_Some in E2. intros [= <-].
  destruct (client_step_inv _ _ _ _ E1) as (p & v & s' & Hc & Es & ->). clear E1.
  pose proof (ok_clients net Hn c p Hc) as Hp. destruct (operation_inv c id net _ p Eop Hc) as (a & Ha & Ea).
  assert (pending_request p id = Some m) as Hpend by (by eapply pk_sending).
  destruct (party_complete p id success m v s' a Hp Es Ha) as (Hp' & Hoth & Hself); [congruence|].
  specialize (Hself m Ea eq_refl).
  assert (net_ok (set_client c (with_requester p s') net)) as Hn1.
  { apply (set_client_same net c p); [done..|]. intros i x Hx. destruct (decide (i = id)) as [->|Hi]; [congruence | by rewrite Hoth]. }
  assert (short m) as Hm.
  { unfold pending_request in Hpend. destruct (r_handler _) as [d|]; [|done]. simpl in Hpend.
    destruct (d_pending d !! id) as [pd|]; [|done]. exact (Forall_lookup_1 _ _ _ _ (pk_short p Hp) Hpend). }
  apply (carried_ok _ m) in Hn1. simpl in E2.
  assert (short (at_server (length (n_carried net)) m)) as Hm' by (by rewrite server_body).
  pose proof (request_received_took _ _ _ _ (ok_serving net Hn) Hm' E2) as Htook.
  assert ((n_carried net ++ [m]) !! length (n_carried net) = Some m) as Hlast by (by rewrite lookup_app_r, Nat.sub_diag by lia).
  eapply set_server_ok in Hn1; [|exact Htook | |].
  - eapply set_waiting_ok in Hn1; [exact Hn1|]. intros n c' id'. simpl. rewrite lookup_insert_Some. intros [[<- [= <- <-]]|[_ Hw]].
    + exists (with_requester p s'), m. by rewrite lookup_insert_eq.
    + by apply (ok_waiting _ Hn1).
  - intros k y [-> Hk]. rewrite server_body in Hk. by exists (length (n_carried net)), m.
  - intros y [Hh Hr]. rewrite server_body in Hr. exists (length (n_carried net)), m. split_and!; [done..|]. by apply not_found.
Qed.

(** An operation of a client ends with an outcome. *)
Lemma outcome_ok c id res y net net' :
  net_ok net → client_step c (RequestOps.EComplete id res y) net = Some net' →
  (res = success → operation c id net = Some OpRecv ∧ ∀ p m, n_clients net !! c = Some p → pending_request p id = Some m → answers m y) →
  net_ok (forget c id net').
Proof.
  intros Hn E Hans. destruct (client_step_inv _ _ _ _ E) as (p & u & s' & Hc & Es & ->).
  assert (∃ a, r_actions (cb_requester (pa_box p)) !! id = Some a) as [a Ha].
  { simpl in Es. destruct (r_actions _ !! id) as [a|]; [by exists a | done]. }
  destruct (party_complete p id res y u s' a (ok_clients net Hn c p Hc) Es Ha) as (Hp & Hoth & _).
  { intros Hres _ m Hm. by apply (proj2 (Hans Hres) p m). }
  apply (set_client_ok net c p (with_requester p s')); [done..|]. intros n c' id' Hw.
  apply map_lookup_filter_Some in Hw as [Hw Hne]. simpl in Hne. split; [done|]. intros -> m Hm.
  rewrite Hoth; [done|]. intros ->. by apply Hne.
Qed.

Lemma hand_over_ok k fresh net net' : net_ok net → hand_over k fresh net = Some net' → net_ok net'.
Proof.
  intros Hn. unfold hand_over. destruct (pm_find k _) as [r|] eqn:Hr; [|done]. simpl. rewrite entries_find in Hr.
  destruct (l_flight (rt_req_send r)) as [x|] eqn:Hx; [|done]. simpl.
  destruct (n_services net !! k) as [b|] eqn:Hb; [|done]. simpl.
  destruct (p_recv_ctx _) as [ctx|] eqn:Hctx; [|done]. simpl.
  destruct (reply_callback _ _ _) as [y|] eqn:Ey; [|done]. simpl.
  destruct (route_sent_ok _ k r x (ok_serving net Hn) Hr Hx) as (sv & E1 & Hg & Hin). rewrite E1. simpl. intros [= <-].
  pose proof (ok_routes net Hn k r x Hr Hin) as Hreq. destruct (ok_services net Hn k b Hb) as [Hok Hun Hsent].
  destruct (service_received b fresh (at_service x) ctx y Hok Hctx Ey) as (Hok' & Eu & Es & Hc1 & Hc2).
  eapply set_server_ok in Hn; [|exact Hg | done | done].
  eapply (set_service_ok _ k) in Hn; [exact Hn | split; [exact Hok'| |] | |].
  - intros c m q. rewrite Eu, elem_of_app, list_elem_of_singleton. intros [Hm|[= -> ->]].
    + rewrite lookup_insert_ne; [by apply Hun|]. intros [= ->]. apply Hc1. apply list_elem_of_fmap. by exists (c, m).
    + rewrite lookup_insert_eq. intros [= <-]. apply service_body.
  - intros c m q. rewrite Es. intros Hm. rewrite lookup_insert_ne; [by apply Hsent|].
    intros [= ->]. apply Hc2. apply list_elem_of_fmap. by exists (c, m).
  - intros k' c q. rewrite lookup_insert_Some. intros [[[= <- <-] <-]|[_ Hq]]; [by right | by left].
  - intros k' c Hk. apply lookup_insert_ne. by intros [= ? _].
Qed.

Lemma serve_ok k net net' : net_ok net → serve prog k net = Some net' → net_ok net'.
Proof.
  intros Hn. unfold serve. destruct (n_services net !! k) as [b|] eqn:Hb; [|done]. simpl.
  destruct (returned (ServiceBoxOps.receive b)) as [[o b1]|] eqn:E1; [|done]. simpl. destruct o as [q|]; [|done]. simpl.
  destruct (returned (ServiceBoxOps.respond _ b1)) as [[u b2]|] eqn:E2; [|done]. simpl. intros [= <-].
  apply returned_Some in E1, E2. destruct (ok_services net Hn k b Hb) as [Hok Hun Hsent].
  destruct (service_served b b1 b2 q (prog k q) u Hok E1 E2) as (Hok' & ctx & Eu & Es).
  apply (set_service_ok net k b2 (n_held net)); [done | split; [done| |] | by left | done].
  - intros c m q0 Hm. apply Hun. rewrite Eu. by right.
  - intros c y q0 Hy. destruct (Es _ Hy) as [Hy'|[= -> ->]]; [by apply Hsent|].
    intros Hq. exists q. split; [|done]. apply (Hun ctx); [rewrite Eu; by left | done].
Qed.

Lemma carry_reply_ok k fresh net net' : net_ok net → carry_reply k fresh net = Some net' → net_ok net'.
Proof.
  intros Hn. unfold carry_reply. destruct (n_services net !! k) as [b|] eqn:Hb; [|done]. simpl.
  destruct (p_flight _) as [m|] eqn:Hm; [|done]. simpl. destruct (p_send_ctx _) as [ctx|] eqn:Hctx; [|done]. simpl.
  destruct (reply_callback _ _ _) as [y|] eqn:Ey; [|done]. simpl.
  destruct (ok_services net Hn k b Hb) as [Hok Hun Hsent].
  destruct (service_sent b fresh m ctx y Hok Hm Hctx Ey) as (Hok' & Eu & Es & Hc1 & Hc2).
  assert (holds (n_held net) k (ServiceBoxOps.set_replier y (sx_current b) b)) as Hh.
  { split; [exact Hok' | intros c m' q'; rewrite Eu; apply Hun |]. intros c y' q' Hy'. apply Hsent. rewrite Es. by right. }
  destruct (n_held net !! (k, ctx)) as [q|] eqn:Hq; simpl.
  2: { intros [= <-]. apply set_service_ok; [done | done | by left | done]. }
  destruct (pm_find k _) as [r|] eqn:Hr; [|done]. simpl. rewrite entries_find in Hr. destruct (rl_receiving _); [|done].
  destruct (returned _) as [[u sv]|] eqn:E1; [|done]. simpl. apply returned_Some in E1. intros [= <-].
  destruct (Hsent ctx m q) as (m0 & Em0 & Em); [rewrite Es; by left | done |].
  destruct (ok_held net Hn k ctx q Hq) as (n & m1 & Hn1 & -> & Hk).
  eapply set_server_ok in Hn; [|exact (reply_received_ok _ k r _ u sv (ok_serving net Hn) Hr E1) | done |].
  - eapply (set_service_ok _ k) in Hn; [exact Hn | eapply holds_less; [exact Hh|] | |].
    + intros c q'. rewrite lookup_delete_Some. by intros [_ ?].
    + intros k' c q'. rewrite lookup_delete_Some. intros [_ Hq']. by left.
    + intros k' c Hne. apply lookup_delete_ne. by intros [= ? _].
  - intros y' ->. exists n, m1. rewrite back_header. split_and!; [done..|].
    apply (answered m1 _ k m0); [done | by rewrite Em0, server_body | by rewrite back_body].
Qed.

Lemma deliver_ok net net' : net_ok net → deliver net = Some net' → net_ok net'.
Proof.
  intros Hn. unfold deliver. destruct (l_flight _) as [x|] eqn:Hx; [|done]. simpl.
  destruct (reply_sent_ok _ x (ok_serving net Hn) Hx) as (sv & E1 & Hg & Hin). rewrite E1. simpl.
  destruct (ok_replies net Hn x Hin) as (n & m & Hm & Hh & Hans).
  assert (net_ok (set_server sv net)) as Hn' by (by eapply set_server_ok).
  destruct (client_back n m x Hh) as (y & Ey & Eb). rewrite Ey.
  destruct (n_waiting net !! n) as [[c id]|] eqn:Ew; [|by intros [= <-]].
  destruct (operation c id _) as [op|] eqn:Eop; [|done]. simpl. destruct op; [done..|].
  destruct (client_step c _ _) as [net1|] eqn:E2; [|done]. simpl. intros [= <-].
  eapply outcome_ok; [exact Hn' | exact E2 |]. intros _. split; [done|]. intros p m' Hp Hm'.
  destruct (ok_waiting net Hn n c id Ew) as (p0 & m0 & Hp0 & Hm0 & Hc0). simpl in Hp.
  assert (p0 = p) as -> by congruence. assert (m' = m) as -> by congruence. by apply (answers_body m x).
Qed.

(** ** Services come and go *)

Abbreviation Dir := (Services PM (Route P msg) (ServerEnv P msg)).
Abbreviation Reg := (ReplyOps.Sys unit msg).
Implicit Types (v : Dir) (z : Reg).

(** A service as its constructor leaves it. *)
Definition new_service_at (x : ServiceBox P msg) : Prop :=
  sx_current x = 0 ∧
  ∃ ctx b, ctx ≠ 0 ∧
    sx_replier x = ReplyOps.mkSys (mkReply b (Some []) ∅ SendQueueMtx.new (Some ctx) true None None {[ctx]}) [].

Lemma constructed uri serverID dial fresh fresh' order order' (x : ServiceBox P msg) :
  ServiceBoxOps.new_service_box nng_open make_connector pf uri serverID dial (inr fresh) (inr fresh') None order order' = Ret x →
  fresh' ≠ 0 → new_service_at x.
Proof.
  intros E Hz. unfold ServiceBoxOps.new_service_box, ServiceBoxOps.new_replier, mbind, result_bind in E.
  destruct (if negb _ then _ else _) as [reg| |]; [|done..].
  destruct (SocketOps.open_socket _ _ _ _) as [k| |]; [|done..]. simpl in E.
  destruct (SendBoxOps.Publish_Box _) as [pb| |]; [|done..]. destruct (RecvBoxOps.Pull_Box _) as [q| |]; [|done..].
  unfold RouteOps.init, zoom in E. destruct (BundleOps.listen _ _ _ _ _ _) as [[u| |] b]; [|done..]. injection E as <-.
  split; [done|]. exists fresh', (SocketOps.isReady (b_query b)). split; [done|]. simpl. unfold ReplyOps.set_ready. simpl.
  by rewrite difference_empty_L, union_empty_r_L.
Qed.

Lemma new_service_holds held k (x : ServiceBox P msg) : new_service_at x → holds held k x.
Proof.
  intros [Ec (ctx & b & Hz & Ey)]. split; [split; unfold owned, unread, reply_of; rewrite ?Ec, ?Ey; simpl; try done|..].
  - apply NoDup_singleton.
  - intros i ->%list_elem_of_singleton. split; [done | by apply elem_of_singleton].
  - intros i Hi. by apply elem_of_nil in Hi.
  - unfold unread, reply_of. rewrite Ey. simpl. intros i m q Hi. by apply elem_of_nil in Hi.
  - unfold unsent, reply_of. rewrite Ey. simpl. intros i m q Hi. by apply elem_of_nil in Hi.
Qed.

Lemma stop_ok k net : net_ok net → net_ok (stop_service k net).
Proof.
  intros [H1 H2 H3 H4 H5 H6 H7]. split; simpl; try done.
  - intros k' ctx q [Hq _]%map_lookup_filter_Some. by eapply H6.
  - intros k' x [_ Hx]%lookup_delete_Some. eapply holds_less; [by apply H7|]. by intros ctx q [? _]%map_lookup_filter_Some.
Qed.

(** The directory goes on: its routes are kept, or new. *)
Lemma set_directory_ok v net :
  net_ok net → ServicesFacts.reached pf v → ServicesRoutes.kept (sv_services (n_server net)) v → net_ok (set_directory v net).
Proof.
  intros [H1 H2 [H3 H3'] H4 H5 H6 H7] Hv Hk. split; simpl; try done.
  - intros k r x Hr Hx. destruct (Hk k r Hr) as [Hr'|Hnew]; [by eapply H4|].
    rewrite (ServicesRoutes.brand_new_silent nng_open make_connector pf r Hnew) in Hx. by apply elem_of_nil in Hx.
  - intros k ctx q [Hq _]%map_lookup_filter_Some. by eapply H6.
  - intros k x Hx. eapply holds_less; [by apply H7|]. by intros ctx q [? _]%map_lookup_filter_Some.
Qed.

(** *** The communicator of the directory *)

Lemma run_out_Inv fresh fuel n : ∀ z z',
  ReplyFacts.Inv (ReplyOps.y_reply z) (ReplyOps.y_threads z) → run_out fresh fuel n z = Some z' →
  ReplyFacts.Inv (ReplyOps.y_reply z') (ReplyOps.y_threads z').
Proof.
  induction fuel as [|fuel IH]; intros z z' HI; simpl; (destruct (_ <=? _)%nat; [by intros [= <-]|]); [done|].
  destruct (ReplyOps.step fresh z (ReplyOps.ERun n)) as [[z1| |]|] eqn:E; simpl; try done. apply IH.
  by apply (ReplyFacts.reply_step_ok fresh z _ _ HI E).
Qed.

Lemma register_callback_Inv fresh e z z' :
  ReplyFacts.Inv (ReplyOps.y_reply z) (ReplyOps.y_threads z) → e ≠ ReplyOps.EExpire → reply_callback fresh e z = Some z' →
  ReplyFacts.Inv (ReplyOps.y_reply z') (ReplyOps.y_threads z').
Proof.
  intros HI He. unfold reply_callback. destruct (ReplyOps.step fresh z e) as [[z1| |]|] eqn:E; cbn [mbind option_bind returned]; try done.
  apply run_out_Inv. by apply (ReplyFacts.reply_step_ok fresh z _ e HI E).
Qed.

(** Only the query that arrives is new. *)
Lemma register_received fresh m z z' ctx :
  ReplyOps.y_threads z = [] → p_handler (ReplyOps.y_reply z) = Some tt → p_recv_ctx (ReplyOps.y_reply z) = Some ctx →
  reply_callback fresh (ReplyOps.EReceived success m) z = Some z' →
  p_ready (ReplyOps.y_reply z') = p_ready (ReplyOps.y_reply z) ∧ p_handler (ReplyOps.y_reply z') = Some tt
  ∧ p_unresponded (ReplyOps.y_reply z') = {[ctx]} ∪ p_unresponded (ReplyOps.y_reply z).
Proof.
  destruct z as [[rdy h unr ob rc rcv sc fl op] ts]. simpl. intros -> -> ->. unfold reply_callback.
  destruct (decide (fresh = 0 ∨ fresh ∈ op)) as [Hf|Hf]; [unfold ReplyOps.step; simpl; by rewrite bool_decide_true|].
  unfold ReplyOps.step at 1. simpl. rewrite bool_decide_false by done. destruct rcv; [|done]. simpl.
  rewrite run_one by done. simpl. rewrite run_one by done. simpl. by intros [= <-].
Qed.

Lemma register_sends fresh z z' :
  ReplyOps.y_threads z = [] → p_handler (ReplyOps.y_reply z) = Some tt →
  reply_callback fresh (ReplyOps.ESent success) z = Some z' →
  p_ready (ReplyOps.y_reply z') = p_ready (ReplyOps.y_reply z) ∧ p_handler (ReplyOps.y_reply z') = Some tt
  ∧ p_unresponded (ReplyOps.y_reply z') = p_unresponded (ReplyOps.y_reply z).
Proof.
  destruct z as [[rdy h unr ob rc rcv sc fl op] ts]. simpl. intros -> ->. unfold reply_callback.
  destruct (decide (fresh = 0 ∨ fresh ∈ op)) as [Hf|Hf]; [unfold ReplyOps.step; simpl; by rewrite bool_decide_true|].
  unfold ReplyOps.step at 1. simpl. rewrite bool_decide_false by done. destruct fl; [|done]. simpl.
  rewrite run_one by done. simpl. unfold SendQueueMtx.consume. destruct ob as [[|[c' m'] deq] b]; simpl; [by intros [= <-]|].
  rewrite run_one by done. simpl. by intros [= <-].
Qed.

(** A context that receives has no query that waits for an answer. *)
Lemma receiving_idle z ctx :
  ReplyFacts.Inv (ReplyOps.y_reply z) (ReplyOps.y_threads z) → p_recv_ctx (ReplyOps.y_reply z) = Some ctx →
  ctx ∉ p_unresponded (ReplyOps.y_reply z).
Proof.
  intros HI Hc Hu. pose proof (ReplyFacts.inv_owns _ _ _ HI ctx) as Ho. unfold ReplyFacts.owns in Ho.
  rewrite Hc, ReplyFacts.one_true, (ReplyFacts.one_true (ctx ∈ _)) in Ho by done.
  pose proof (ReplyFacts.one_le (ctx ∈ p_open (ReplyOps.y_reply z))). lia.
Qed.

(** The communicator goes on by itself. *)
Lemma set_register_reached v z :
  ServicesFacts.reached pf v → ReplyFacts.Inv (ReplyOps.y_reply z) (ReplyOps.y_threads z) →
  p_ready (ReplyOps.y_reply z) = p_ready (ReplyOps.y_reply (en_register (v_env v))) →
  p_handler (ReplyOps.y_reply z) = Some tt →
  p_unresponded (ReplyOps.y_reply (en_register (v_env v))) ⊆ p_unresponded (ReplyOps.y_reply z) →
  ServicesFacts.reached pf (set_register z v).
Proof.
  intros Hv HI Hr Hh Hu. pose proof (ServicesFacts.reached_Inv _ _ Hv) as HV.
  destruct (ServicesFacts.inv_env _ HV) as [O1 O2 O3 O4 O5]. apply ServicesFacts.reached_env; [done|]. split.
  - split; simpl; [done | congruence | done..].
  - eapply Forall_impl; [exact (ServicesFacts.inv_awaiting _ HV)|]. intros spec Hin. simpl in *. by apply Hu.
Qed.

Lemma register_env v : ServicesFacts.reached pf v →
  ReplyFacts.Inv (ReplyOps.y_reply (en_register (v_env v))) (ReplyOps.y_threads (en_register (v_env v)))
  ∧ p_handler (ReplyOps.y_reply (en_register (v_env v))) = Some tt.
Proof. intros Hv. by destruct (ServicesFacts.inv_env _ (ServicesFacts.reached_Inv _ _ Hv)) as [O1 O2 O3 O4 O5]. Qed.

Lemma register_sent_ok fresh net net' : net_ok net → register_sent fresh net = Some net' → net_ok net'.
Proof.
  intros Hn. pose proof (proj1 (ok_serving net Hn)) as Hv. destruct (register_env _ Hv) as [HI Hh]. unfold register_sent.
  set (v := sv_services (n_server net)) in *. destruct (ReplyOps.y_threads (en_register (v_env v))) eqn:Et; [|done].
  destruct (reply_callback _ _ _) as [z|] eqn:E; [|done]. simpl. intros [= <-].
  destruct (register_sends _ _ _ Et Hh E) as (E1 & E2 & E3). apply set_directory_ok; [done | | by apply ServicesRoutes.kept_same].
  apply set_register_reached; [done | | exact E1 | exact E2 | by rewrite E3]. eapply register_callback_Inv; [by rewrite Et | | exact E]. discriminate.
Qed.

(** A message for the directory, and what it answers at once. *)
Lemma register_step_ok fresh pipe m net net' :
  net_ok net → short m → register make_connector pf fresh pipe m net = Some net' → net_ok net'.
Proof.
  intros Hn Hm. pose proof (proj1 (ok_serving net Hn)) as Hv. destruct (register_env _ Hv) as [HI Hh]. unfold register.
  set (v := sv_services (n_server net)) in *. destruct (ReplyOps.y_threads (en_register (v_env v))) eqn:Et; [|done].
  destruct (p_recv_ctx _) as [ctx|] eqn:Ec; [|done]. simpl. destruct (reply_callback _ _ _) as [z|] eqn:E; [|done]. simpl.
  destruct (register_received _ _ _ _ ctx Et Hh Ec E) as (E1 & E2 & E3).
  assert (ServicesFacts.reached pf (set_register z v)) as Hv1.
  { apply set_register_reached; [done | | done | done | rewrite E3; by apply union_subseteq_r].
    eapply register_callback_Inv; [by rewrite Et | | exact E]. discriminate. }
  assert (ctx ∉ p_unresponded (ReplyOps.y_reply (en_register (v_env v)))) as Hctx by (apply receiving_idle; [by rewrite Et | done]).
  assert (ServicesFacts.delivered ctx (set_register z v)) as Hd.
  { split; [simpl; rewrite E3; set_solver|]. simpl. intros (spec & -> & Hin)%list_elem_of_fmap. apply Hctx.
    pose proof (ServicesFacts.inv_awaiting _ (ServicesFacts.reached_Inv _ _ Hv)) as Hw. rewrite Forall_forall in Hw. by apply Hw. }
  destruct (ServicesOps.async_recv ctx pipe m (set_register z v)) as [[reply| |] v1] eqn:Er; simpl; try done.
  pose proof (ServicesRoutes.keeps_recv ctx pipe m (set_register z v)) as Em. rewrite Er in Em. simpl in Em.
  assert (ServicesFacts.reached pf v1) as Hv2.
  { eapply (ServicesFacts.reached_event pf (ServicesOps.ERecv ctx pipe m)); [exact Hv1 | by split |]. simpl.
    by erewrite bind_run by exact Er. }
  destruct reply as [reply|].
  2: { simpl. intros [= <-]. apply set_directory_ok; [done | done | by apply ServicesRoutes.kept_same]. }
  pose proof (ServicesRoutes.recv_answered _ _ _ _ _ _ Er) as ->.
  destruct (respond_law ctx reply (v_env (set_register z v)) (ServicesFacts.inv_env _ (ServicesFacts.reached_Inv _ _ Hv1)) (proj1 Hd))
    as (e' & Ee & Hok & Hw & _).
  match goal with |- context [ServicesOps.in_env ?op ?s] =>
    assert (ServicesOps.in_env op s = (Ret tt, ServicesOps.set_env e' s)) as -> end.
  { transitivity (let '(o, e) := env_respondTo ctx reply (v_env (set_register z v)) in (o, ServicesOps.set_env e (set_register z v)));
      [reflexivity | by rewrite Ee]. }
  simpl. intros [= <-].
  apply set_directory_ok; [done | | by apply ServicesRoutes.kept_same]. apply ServicesFacts.reached_env; [done|]. split; [done|].
  rewrite Hw. apply ServicesFacts.awaiting_rest; [apply (ServicesFacts.inv_awaiting _ (ServicesFacts.reached_Inv _ _ Hv1))|].
  apply Forall_forall. intros spec Hin. rewrite elem_of_singleton. intros En. apply (proj2 Hd). rewrite <- En.
  by apply list_elem_of_fmap_2.
Qed.

Lemma directory_step_ok e op net net' :
  net_ok net → op = ServicesOps.handle pf e → (∀ v, ServicesFacts.fits e v) → (∀ v, ServicesRoutes.keeps op v) →
  directory_step op net = Some net' → net_ok net'.
Proof.
  intros Hn -> Hf Hk. unfold directory_step. destruct (returned _) as [[[] v]|] eqn:E; [|done]. simpl. apply returned_Some in E.
  intros [= <-]. apply set_directory_ok; [done | |].
  - eapply ServicesFacts.reached_event; [exact (proj1 (ok_serving net Hn)) | apply Hf | exact E].
  - pose proof (Hk (sv_services (n_server net))) as Hkk. unfold ServicesRoutes.keeps in Hkk. by rewrite E in Hkk.
Qed.

(** Messages that clients ask with and that register are ones that a program
    can hold. *)
Definition fits (e : event msg) : Prop :=
  match e with EAsk _ _ m | ERegister _ _ m => short m | _ => True end.

Lemma step_ok net e net' :
  net_ok net → fits e → step nng_open make_connector pf prog net e = Some net' → net_ok net'.
Proof.
  intros Hn Hf. destruct e as [c fresh m|c id|c id|c id e m|c id|k fresh|k|k fresh| |k serverID dial fresh fresh' order order'|k|fresh pipe m|fresh|pipe ev|];
    cbn [step].
  - by apply ask_ok.
  - by apply get_future_ok.
  - by apply carry_ok.
  - unfold fail_. case_bool_decide as He; [done|]. destruct (client_step c _ net) as [net1|] eqn:E1; [|done]. simpl.
    intros [= <-]. by eapply outcome_ok.
  - intros E. destruct (client_step_inv _ _ _ _ E) as (p & u & s' & Hc & Es & ->).
    destruct (party_finish p id u s' (ok_clients net Hn c p Hc) Es) as [Hp Hpr].
    apply (set_client_same net c p); [done..|]. intros i x. by rewrite Hpr.
  - by apply hand_over_ok.
  - by apply serve_ok.
  - by apply carry_reply_ok.
  - by apply deliver_ok.
  - unfold start_service. case_bool_decide as Hb; [done|].
    destruct (ServiceBoxOps.new_service_box _ _ _ _ _ _ _ _ _ _ _) as [x| |] eqn:E; [|done..]. intros [= <-].
    apply set_service_ok; [done | | by left | done]. apply new_service_holds. eapply constructed; [exact E | naive_solver].
  - intros [= <-]. by apply stop_ok.
  - by apply register_step_ok.
  - by apply register_sent_ok.
  - apply directory_step_ok with (e := ServicesOps.EPipe pipe ev); [done.. | apply ServicesRoutes.keeps_pipe].
  - apply directory_step_ok with (e := ServicesOps.EManage); [done.. | apply ServicesRoutes.keeps_manage].
Qed.

Lemma run_ok es : ∀ net net', net_ok net → Forall fits es → run nng_open make_connector pf prog net es = Some net' → net_ok net'.
Proof.
  induction es as [|e es IH]; intros net net' Hn Hf; simpl; [by intros [= <-]|]. apply Forall_cons in Hf as [He Hes].
  destruct (step _ _ _ _ net e) as [net1|] eqn:E; [|done]. simpl. apply IH; [by eapply step_ok | done].
Qed.

(** ** The beginning

    The clients and the services as they are after their constructors, and a
    server at work with nothing on its way. *)
Record at_start net : Prop := {
  st_clients c p : n_clients net !! c = Some p → pa_asked p = [] ∧
    ∃ b, cb_requester (pa_box p) = RequestOps.set_ready b (RequestOps.set_handler (Some RequestBox.new_delegate) RequestOps.new);
  st_serving : serving (n_server net);
  st_routes k r : table (n_server net) !! k = Some r → outgoing (rt_req_send r) = [];
  st_replies : outgoing (rr_send (sv_reply (n_server net))) = [];
  st_services k (x : ServiceBox P msg) : n_services net !! k = Some x → new_service_at x;
  st_empty : n_held net = ∅ ∧ n_carried net = [] ∧ n_waiting net = ∅;
}.

Lemma start_boxed b :
  RequestFacts.boxed (RequestOps.set_ready b (RequestOps.set_handler (Some (RequestBox.new_delegate (msg := msg))) RequestOps.new)).
Proof.
  apply RequestFacts.box_invariant.
  eapply (RequestFacts.with_step _ (RequestOps.set_handler (Some RequestBox.new_delegate) RequestOps.new) (RequestOps.EReady b));
    [|done | done | done].
  eapply (RequestFacts.with_step _ RequestOps.new (RequestOps.EInitialize (Some RequestBox.new_delegate)));
    [apply RequestFacts.with_new | done | by intros h [= <-] | done].
Qed.

Lemma at_start_ok net : at_start net → net_ok net.
Proof.
  intros [H1 H2 H3 H4 H5 (E1 & E2 & E3)]. split; rewrite ?E1, ?E2, ?E3; try done.
  - intros c p Hp. destruct (H1 c p Hp) as [Ea [b Eb]]. split; rewrite ?Ea, ?Eb; [apply start_boxed | done | |].
    + exists RequestBox.new_delegate. split_and!; [done | done |]. intros i y. simpl. by rewrite lookup_nil.
    + intros id a m. simpl. by rewrite lookup_empty.
  - intros k r x Hk Hx. rewrite (H3 k r Hk) in Hx. by apply elem_of_nil in Hx.
  - intros y Hy. rewrite H4 in Hy. by apply elem_of_nil in Hy.
  - intros k x Hx. by apply new_service_holds, (H5 k).
Qed.

(** The messages a client has asked with. *)
Definition asked_by c (es : list (event msg)) : list msg :=
  omap (λ e, match e with EAsk c' _ m => if bool_decide (c' = c) then Some m else None | _ => None end) es.

Lemma client_step_asked c e net net' c' p' :
  client_step c e net = Some net' → n_clients net' !! c' = Some p' →
  ∃ p, n_clients net !! c' = Some p ∧ pa_asked p' = pa_asked p ++ [].
Proof.
  setoid_rewrite app_nil_r. intros E Hp. destruct (client_step_inv _ _ _ _ E) as (p & u & s' & Hc & _ & ->). simpl in Hp.
  apply lookup_insert_Some in Hp as [[<- <-]|[_ Hp]]; eauto.
Qed.

(** The steps of the server and the services leave the clients alone. *)
Definition of_client (e : event msg) : bool :=
  match e with EAsk _ _ _ | EFuture _ _ | ECarry _ _ | EFail _ _ _ _ | EFinish _ _ | EDeliver => true | _ => false end.

Lemma others_clients net e net' :
  of_client e = false → step nng_open make_connector pf prog net e = Some net' → n_clients net' = n_clients net.
Proof.
  destruct e; simpl; try done; intros _;
    unfold hand_over, serve, carry_reply, start_service, register, register_sent, directory_step, mbind, option_bind; intros E;
    repeat case_match; by simplify_eq/=.
Qed.

Lemma step_asked net e net' c p' :
  step nng_open make_connector pf prog net e = Some net' → n_clients net' !! c = Some p' →
  ∃ p, n_clients net !! c = Some p ∧ pa_asked p' = pa_asked p ++ asked_by c [e].
Proof.
  intros E Hp. destruct (of_client e) eqn:Ec.
  2: { rewrite (others_clients _ _ _ Ec E) in Hp. exists p'. split; [done|]. unfold asked_by. destruct e; simpl in *; try done; by rewrite app_nil_r. }
  destruct e as [c' fresh m|c' id|c' id|c' id e m|c' id| | | | | | | | | |]; try done; unfold asked_by; simpl in *.
  - unfold ask in E. destruct (n_clients net !! c') as [p|] eqn:Hc; [|done]. simpl in E. case_bool_decide; [done|].
    destruct (returned _) as [[n b]|]; [|done]. simpl in E. injection E as <-. simpl in Hp.
    destruct (decide (c' = c)) as [->|Hne].
    + rewrite bool_decide_true by done. rewrite lookup_insert_eq in Hp. injection Hp as <-. by exists p.
    + rewrite bool_decide_false by done. rewrite lookup_insert_ne in Hp by done. exists p'. by rewrite app_nil_r.
  - unfold get_future in E. destruct (n_clients net !! c') as [p|] eqn:Hc; [|done]. simpl in E.
    destruct (returned _) as [[n b]|]; [|done]. simpl in E. injection E as <-. simpl in Hp. setoid_rewrite app_nil_r.
    apply lookup_insert_Some in Hp as [[<- <-]|[_ Hp]]; eauto.
  - unfold carry in E. destruct (operation c' id net) as [[]|]; [done| |done..]. simpl in E.
    destruct (client_step c' _ net) as [net1|] eqn:E1; [|done]. simpl in E. destruct (rl_receiving _); [|done].
    destruct (returned _) as [[u sv]|]; [|done]. simpl in E. injection E as <-. exact (client_step_asked _ _ _ _ c p' E1 Hp).
  - unfold fail_ in E. case_bool_decide; [done|]. destruct (client_step c' _ net) as [net1|] eqn:E1; [|done].
    simpl in E. injection E as <-. exact (client_step_asked _ _ _ _ c p' E1 Hp).
  - exact (client_step_asked _ _ _ _ c p' E Hp).
  - unfold deliver in E. destruct (l_flight _) as [x|]; [|done]. simpl in E. destruct (returned _) as [[u sv]|]; [|done]. simpl in E.
    destruct (back_at_client x) as [[n y]|]; [|injection E as <-; exists p'; by rewrite app_nil_r].
    destruct (n_waiting net !! n) as [[c0 id]|]; [|injection E as <-; exists p'; by rewrite app_nil_r].
    destruct (operation c0 id _) as [[]|]; [done.. | |done]. simpl in E.
    destruct (client_step c0 _ _) as [net1|] eqn:E1; [|done]. simpl in E. injection E as <-.
    exact (client_step_asked _ _ _ _ c p' E1 Hp).
Qed.

Lemma run_asked es : ∀ net net' c p',
  run nng_open make_connector pf prog net es = Some net' → n_clients net' !! c = Some p' →
  ∃ p, n_clients net !! c = Some p ∧ pa_asked p' = pa_asked p ++ asked_by c es.
Proof.
  induction es as [|e es IH]; intros net net' c p'; simpl.
  - intros [= <-] Hp. exists p'. by rewrite app_nil_r.
  - destruct (step _ _ _ _ net e) as [net1|] eqn:E; [|done]. simpl. intros E1 Hp.
    destruct (IH net1 net' c p' E1 Hp) as (p1 & Hp1 & Ea1). destruct (step_asked net e net1 c p1 E Hp1) as (p & Hp0 & Ea0).
    exists p. split; [done|]. rewrite Ea1, Ea0, <- app_assoc. f_equal. unfold asked_by. by rewrite <- omap_app.
Qed.

(** C1. The system from its beginning, with any interleaving of its steps, of any
    number of clients, with services that are constructed, register, lose their
    registration and are destroyed, and any failures of the clients'
    operations: when a future of a client has a value, it answers the request
    that this client made with it.  Its body is what the program of a service
    at a prefix of that request's URI (the longest one is [request_served])
    replied to a message with that request's body, or the message is the reply
    404 for that URI.  The steps are those of [Exchange]: the two calls that a
    client's [request] makes are two steps, and a callback of a [Reply] is one. *)
Theorem answers_not_crossed net es net' c i y :
  at_start net → Forall fits es → run nng_open make_connector pf prog net es = Some net' →
  answer c i net' = Some (FValue y) →
  ∃ m, asked_by c es !! i = Some m ∧ answers m y.
Proof.
  intros Hs Hf E Ha. pose proof (run_ok es net net' (at_start_ok net Hs) Hf E) as Hn.
  unfold answer in Ha. destruct (n_clients net' !! c) as [p'|] eqn:Hp'; [|done]. simpl in Ha.
  destruct (ok_clients net' Hn c p' Hp') as [_ _ (d & Hd & _ & Hval) _]. rewrite Hd in Ha. simpl in Ha.
  destruct (Hval i y Ha) as (m & Hm & Hans). exists m. split; [|done].
  destruct (run_asked es net net' c p' E Hp') as (p & Hp & Ea). destruct (st_clients net Hs c p Hp) as [E0 _].
  by rewrite Ea, E0 in Hm.
Qed.

End System.

End ExchangeFacts.
