(* ===== verification/ExchangeLive.v ===== *)
(** * The system: a request is served

    A system at rest answers a request: the steps that carry it to its service
    and the reply back can be taken, one after the other, and they leave the
    system at rest. *)
From stdpp Require Import gmap.
From S2P Require Import Prelude.
From S2P Require Import Nng.
From S2P Require Import MsgUtil.
From S2P Require Import Status.
From S2P Require Import MsgLayout.
From S2P Require Import MsgView.
From S2P Require Import MsgParse.
From S2P Require Import MsgWriter.
From S2P Require Import Pattern.
From S2P Require Import HostAddress.
From S2P Require Import Socket.
From S2P Require Import IoQueue.
From S2P Require Import AsyncSend.
From S2P Require Import AsyncRecv.
From S2P Require Import ClientRequest.
From S2P Require Import ClientRequestFacts.
From S2P Require Import ServiceReply.
From S2P Require Import PrefixMap.
From S2P Require Import Boxes.
From S2P Require Import Route.
From S2P Require Import Relays.
From S2P Require Import Services.
From S2P Require Import ServicesFacts.
From S2P Require Import Server.
From S2P Require Import ServerFacts.
From S2P Require Import Bundles.
From S2P Require Import Mailboxes.
From S2P Require Import Exchange.
From S2P Require Import ExchangeParts.
From S2P Require Import ExchangeFacts.

Module ExchangeLive.
Import Exchange ExchangeParts ExchangeFacts.

#[local] Existing Instance RequestBox.Delegate_handler.
#[local] Existing Instance ReplyBoxOps.Delegate_handler.

(** ** Loops at rest *)
Section Loops.
Context {msg : Type}.
Implicit Types (l : SendLoop (SendQueue msg) msg) (q : RecvLoop msg).

(** A sending loop with nothing to send, and one that sends [m] only. *)
Definition at_rest l : Prop := l = mkSendLoop (Some SendQueueMtx.new) None false.
Definition sends (m : msg) l : Prop := l = mkSendLoop (Some (mkSendQueue [] true)) (Some m) false.

Lemma rest_send l m : at_rest l → ∃ l', SendBoxOps.send_msg m l = (Ret tt, l') ∧ sends m l'.
Proof. intros ->. eexists. by split. Qed.
Lemma sends_finish l m : sends m l → ∃ l', finish_send l = (Ret tt, l') ∧ at_rest l' ∧ l_flight l = Some m.
Proof. intros ->. eexists. by split_and!. Qed.

(** A receiving loop that waits for a message. *)
Definition listening q : Prop := rl_handler q = true ∧ rl_receiving q = true ∧ rl_stopped q = false.

Lemma listening_receives q m : listening q → ∃ q', AsyncRecvLoop.complete success m q = (Ret tt, q') ∧ listening q'.
Proof. destruct q as [h r s cs]. intros (H1 & H2 & H3). simpl in *. subst. eexists. by split. Qed.

End Loops.

(** ** Clients *)
Section Clients.
Context {msg : Type}.
Implicit Types (s : Request (Delegate msg) msg) (d : Delegate msg) (id : QueryID) (m : msg).
Import RequestOps RequestFacts.

(** Where a query of the context [id], with the promise [i], is: sending [m],
    sent, waiting, answered with [m], and done. *)
Inductive stage : Type := Sending (m : msg) | Sent | Waiting | Answered (m : msg) | Done (m : msg).
Definition at_stage s id (i : nat) (st : stage) : Prop :=
  boxed s ∧ r_ready s = true ∧ ∃ d, r_handler s = Some d ∧
  match st with
  | Sending m => r_actions s !! id = Some (mkAction SEND (OpSend m))
      ∧ p_promise <$> d_pending d !! id = Some i
  | Sent => r_actions s !! id = Some (mkAction SEND OpNone) ∧ r_finishing s !! id = Some false
      ∧ p_promise <$> d_pending d !! id = Some i
  | Waiting => r_actions s !! id = Some (mkAction RECV OpRecv) ∧ p_promise <$> d_pending d !! id = Some i
  | Answered m => r_actions s !! id = Some (mkAction RECV OpNone) ∧ r_finishing s !! id = Some true
      ∧ d_futures d !! i = Some (FValue m)
  | Done m => d_futures d !! i = Some (FValue m)
  end.

Lemma sending_sent s id i m y :
  at_stage s id i (Sending m) → ∃ s', step s (EComplete id success y) = Some (Ret tt, s') ∧ at_stage s' id i Sent.
Proof.
  intros (Hb & Hr & d & Hd & Ha & Hp). simpl. rewrite Ha. simpl.
  destruct (d_pending d !! id) as [pd|] eqn:Epd; [|done]. injection Hp as Hp.
  unfold callback, action, mbind, M_bind, get, modify, mret, M_ret. rewrite Ha. simpl. rewrite Hd. simpl.
  eexists. split; [reflexivity|]. split; [|split; [done|]].
  - eapply (box_step s (EComplete id success y) (Ret tt)); [done..|]. simpl. rewrite Ha. simpl.
    unfold callback, action, mbind, M_bind, get, modify, mret, M_ret. rewrite Ha. simpl. rewrite Hd. reflexivity.
  - eexists. split; [reflexivity|]. simpl. rewrite !lookup_insert_eq. unfold RequestBox.box_sent. rewrite Epd. simpl.
    rewrite lookup_insert_eq. simpl. by rewrite Hp.
Qed.

Lemma sent_waiting s id i :
  at_stage s id i Sent → ∃ s', step s (EFinish id) = Some (Ret tt, s') ∧ at_stage s' id i Waiting.
Proof.
  intros (Hb & Hr & d & Hd & Ha & Hf & Hp).
  assert (∃ s', step s (EFinish id) = Some (Ret tt, s') ∧ r_ready s' = true ∧ r_handler s' = Some d
    ∧ r_actions s' !! id = Some (mkAction RECV OpRecv)) as (s' & E & H1 & H2 & H3).
  { simpl. rewrite Hf. simpl. unfold callback_finish, set_state, start_op, action, mbind, M_bind, get, modify, mret, M_ret. simpl.
    rewrite Ha. simpl. rewrite Ha. simpl. rewrite lookup_insert_eq. simpl. eexists. split; [reflexivity|]. simpl.
    by rewrite lookup_insert_eq. }
  exists s'. split; [done|]. split; [by eapply (box_step s (EFinish id)) | split; [done|]]. by exists d.
Qed.

Lemma waiting_answered s id i m :
  at_stage s id i Waiting → ∃ s', step s (EComplete id success m) = Some (Ret tt, s') ∧ at_stage s' id i (Answered m).
Proof.
  intros (Hb & Hr & d & Hd & Ha & Hp). destruct (d_pending d !! id) as [pd|] eqn:Epd; [|done]. injection Hp as Hp.
  assert (∃ s', step s (EComplete id success m) = Some (Ret tt, s') ∧ r_ready s' = true ∧ r_handler s' = Some (RequestBox.box_recv id m d)
    ∧ r_actions s' !! id = Some (mkAction RECV OpNone) ∧ r_finishing s' !! id = Some true) as (s' & E & H1 & H2 & H3 & H4).
  { simpl. rewrite Ha. simpl. unfold callback, action, mbind, M_bind, get, modify, mret, M_ret. rewrite Ha. simpl. rewrite Hd. simpl.
    eexists. split; [reflexivity|]. simpl. by rewrite !lookup_insert_eq. }
  exists s'. split; [done|]. split; [by eapply (box_step s (EComplete id success m)) | split; [done|]].
  eexists. split_and!; [exact H2 | done | done |]. unfold RequestBox.box_recv. rewrite Epd. simpl. rewrite Hp.
  apply list_lookup_insert_eq. destruct Hb as (_ & _ & Hbx). rewrite <- Hp. eapply lookup_lt_Some, (box_unset _ d (Hbx d Hd) id pd Epd).
Qed.

Lemma answered_done s id i m :
  at_stage s id i (Answered m) → ∃ s', step s (EFinish id) = Some (Ret tt, s') ∧ at_stage s' id i (Done m).
Proof.
  intros (Hb & Hr & d & Hd & Ha & Hf & Hv).
  assert (∃ s', step s (EFinish id) = Some (Ret tt, s') ∧ r_ready s' = true ∧ r_handler s' = Some d) as (s' & E & H1 & H2).
  { simpl. rewrite Hf. simpl. unfold callback_finish, set_state, start_op, action, mbind, M_bind, get, modify, mret, M_ret. simpl.
    rewrite Ha. simpl. rewrite lookup_insert_eq. simpl. rewrite lookup_insert_eq. simpl. by eexists. }
  exists s'. split; [done|]. split; [by eapply (box_step s (EFinish id)) | split; [done|]]. by exists d.
Qed.

(** The two calls of [request], one after the other. *)
Lemma ask_sending s d fresh m :
  boxed s → r_ready s = true → r_handler s = Some d → fresh ≠ 0 → r_actions s !! fresh = None →
  ∃ id s1 n s', RequestOps.request (inr fresh) m s = (Ret id, s1) ∧ RequestBox.take_future id s1 = (Ret n, s')
    ∧ at_stage s' id (length (d_futures d)) (Sending m).
Proof.
  intros Hb Hr Hd Hz Hf.
  assert (∃ id s1 d1, RequestOps.request (inr fresh) m s = (Ret id, s1) ∧ r_ready s1 = true
    ∧ r_handler s1 = Some d1 ∧ d_newQueryID d1 = id) as (id & s1 & d1 & E & Hr1 & Hd1 & Hn).
  { unfold RequestOps.request, allocate, set_state, start_op, action, mbind, M_bind, get, modify, mret, M_ret, throw.
    rewrite Hr, Hd. simpl. destruct (r_idle s) as [|id0 rest] eqn:Ei; simpl.
    - rewrite lookup_insert_eq; simpl. rewrite lookup_insert_eq; simpl. eexists _, _, _. by split_and!.
    - assert (id0 ∈ r_idle s) as Hin by (rewrite Ei; by left).
      rewrite (inv_idle s (proj1 Hb) id0 Hin); simpl. rewrite lookup_insert_eq; simpl. eexists _, _, _. by split_and!. }
  destruct (request_made s d fresh m id s1 Hb Hd Hz Hf E) as [Hb1 _ (d' & Hd' & Ep & _) Hself _].
  assert (d' = d1) as -> by congruence.
  assert (∃ n s', RequestBox.take_future id s1 = (Ret n, s')) as (n & s' & E').
  { unfold RequestBox.take_future, RequestBox.getFuture, mbind, M_bind, get, modify, mret, M_ret, lift.
    rewrite Hd1, Ep, lookup_insert_eq, Hn, Z.eqb_refl. simpl. by eexists _, _. }
  destruct (future_taken s1 d1 id n s' Hb1 Hd1 E') as (Hb' & Ea & Er & d2 & Hd2 & Ep2 & _).
  exists id, s1, n, s'. split; [done|]. split; [done|]. split; [done|]. split; [congruence|].
  exists d2. rewrite Ep2, Ep, lookup_insert_eq, Ea. by split_and!.
Qed.

End Clients.

(** ** Services *)
Section Services.
Context {P msg : Type} {Hmsg : NngMsg msg}.
Implicit Types (x : ServiceBox P msg) (m q : msg).

Definition connected x : Prop := ServiceBoxOps.ready x = true ∧ p_ready (reply_of x) = true.

(** A service with nothing to read or to send. *)
Definition resting x : Prop := service_ok x ∧ connected x ∧ unread x = [] ∧ unsent (reply_of x) = [].

Lemma unsent_flight x : service_ok x → unsent (reply_of x) = [] → p_flight (reply_of x) = None.
Proof.
  intros Hx Hu. destruct (p_flight (reply_of x)) eqn:E; [|done]. destruct (so_busy x Hx) as [_ [ctx Hc]]; [by eexists|].
  unfold unsent in Hu. by rewrite E, Hc in Hu.
Qed.

Lemma service_receives x fresh m :
  service_ok x → connected x → fresh ≠ 0 → fresh ∉ p_open (reply_of x) →
  ∃ ctx s, p_recv_ctx (reply_of x) = Some ctx ∧ reply_callback fresh (ReplyOps.EReceived success m) (sx_replier x) = Some s
    ∧ connected (ServiceBoxOps.set_replier s (sx_current x) x).
Proof.
  destruct x as [uri reg sock [[rdy h unr ob rc rcv sc fl op] ts] cur pub pul].
  intros [Hts Hc [q Hh] [ctx Hrc] Hrv _ _ _ _ _] [H1 H2] Hz Hf.
  unfold reply_of, connected in *. simpl in *. subst ts cur h rcv rc rdy.
  assert (¬ (fresh = 0 ∨ fresh ∈ op)) as Hf' by naive_solver. exists ctx. unfold reply_callback. unfold ReplyOps.step at 1. simpl.
  rewrite bool_decide_false by done. simpl. rewrite run_one by done. simpl. rewrite run_one by done. simpl.
  eexists. by split_and!.
Qed.

Lemma service_serves x ctx q rest m :
  service_ok x → connected x → unread x = (ctx, q) :: rest → unsent (reply_of x) = [] →
  ∃ x1 x2, ServiceBoxOps.receive x = (Ret (Some q), x1) ∧ ServiceBoxOps.respond m x1 = (Ret tt, x2) ∧ connected x2
    ∧ unread x2 = rest ∧ unsent (reply_of x2) = [(ctx, m)] ∧ p_flight (reply_of x2) = Some m ∧ p_send_ctx (reply_of x2) = Some ctx.
Proof.
  intros Hx [Hr1 Hr2] Hu Hs. pose proof (unsent_flight x Hx Hs) as Hfl.
  destruct x as [uri reg sock [[rdy h unr ob rc rcv sc fl op] ts] cur pub pul].
  destruct Hx as [Hts Hc [q0 Hh] _ Hrv _ Hop Hid _ Haw].
  unfold owned, unread, unsent, reply_of, connected, ServiceBoxOps.ready in *. simpl in *. subst ts cur h rcv fl rdy. simpl in *. subst q0.
  rewrite (Hid eq_refl) in *. simpl in *.
  destruct (Hop ctx) as [Hz _]; [rewrite !elem_of_app; right; left; by left|].
  unfold ServiceBoxOps.receive, ServiceBoxOps.respond, ServiceBoxOps.ready, ReplyBoxOps.receive, ReplyBoxOps.respond, zoom,
    ReplyOps.respond, ReplyOps.respondTo, mbind, M_bind, get, modify, mret, M_ret, throw. simpl. rewrite Hr1. simpl.
  eexists _, _. split; [reflexivity|]. simpl. rewrite Hr1. simpl. rewrite (proj2 (Z.eqb_neq ctx 0) Hz). simpl.
  rewrite bool_decide_true by (apply Haw; by left). simpl. by split_and!.
Qed.

Lemma service_sends x fresh m ctx :
  service_ok x → connected x → p_flight (reply_of x) = Some m → p_send_ctx (reply_of x) = Some ctx →
  fresh ≠ 0 → fresh ∉ p_open (reply_of x) →
  ∃ s, reply_callback fresh (ReplyOps.ESent success) (sx_replier x) = Some s
    ∧ connected (ServiceBoxOps.set_replier s (sx_current x) x).
Proof.
  destruct x as [uri reg sock [[rdy h unr ob rc rcv sc fl op] ts] cur pub pul].
  intros [Hts Hc [q Hh] _ Hrv _ _ _ _ _] [H1 H2] Hfl Hsc Hz Hf.
  unfold reply_of, connected in *. simpl in *. subst ts cur h rcv sc fl rdy.
  assert (¬ (fresh = 0 ∨ fresh ∈ op)) as Hf' by naive_solver. unfold reply_callback. unfold ReplyOps.step at 1. simpl.
  rewrite bool_decide_false by done. simpl. rewrite run_one by done. simpl. unfold SendQueueMtx.consume.
  destruct ob as [[|[c' m'] deq] b]; simpl; [eexists; by split_and!|]. rewrite run_one by done. simpl. eexists. by split_and!.
Qed.

End Services.

(** ** The server *)
Section System.
Context {PM P msg : Type}.
Context {Hmsg : NngMsg msg} {Hmsgl : NngMsgLaws msg}.
Context {Hpm : PrefixMap PM (Route P msg)} {Hpml : PrefixMapLaws PM (Route P msg)}.
Context {Hpipe : PipeEventHandler P} {Ht : Transport msg} {Htl : TransportLaws msg}.
Context (nng_open : bool → PROTOCOL → result exn Z).
Context (make_connector : bool → Z → bytes → gset Z → result exn Z).
Context (pf : PLATFORM).
Context (open_throws : ∀ raw p, nng_only (nng_open raw p)).
Context (connector_throws : ∀ l s uri live, nng_only (make_connector l s uri live)).
Context (prog : bytes → msg → msg).

#[local] Instance routing' : Routing (Route P msg) msg := routing nng_open make_connector pf.
#[local] Instance routing_laws : RoutingLaws (Route P msg) msg :=
  RouteFacts.Route_laws nng_open make_connector pf open_throws connector_throws.

Abbreviation Sv := (Server PM (Route P msg) P msg).
Abbreviation N := (Net PM P msg).
Abbreviation serving := (ServerFacts.serving (PM := PM) (P := P) (msg := msg) make_connector pf connector_throws).
Abbreviation ok := (net_ok nng_open make_connector pf open_throws connector_throws prog).
Abbreviation step := (Exchange.step nng_open make_connector pf prog).
Abbreviation run := (Exchange.run nng_open make_connector pf prog).
Abbreviation table sv := (entries (v_map (sv_services sv))).
Abbreviation short m := (blen (msg_body m) < 2 ^ 59).
Implicit Types (sv : Sv) (net : N) (k : bytes) (r : Route P msg) (m y q : msg) (c : nat) (id : QueryID).

(** A request arrives for the route [k], which is at rest. *)
Lemma request_arrives sv m v uri k r :
  serving sv → listening (rr_recv (sv_reply sv)) → short m →
  View.parse REQUEST (msg_body m) = Ret v → View.uriString v = Ret uri →
  ServerFacts.longest_prefix sv uri k r → at_rest (rt_req_send r) →
  ∃ sv' r', ServerOps.request_received success m sv = (Ret tt, sv') ∧ table sv' = <[k := r']> (table sv)
    ∧ sends m (rt_req_send r') ∧ rt_req_recv r' = rt_req_recv r
    ∧ rr_send (sv_reply sv') = rr_send (sv_reply sv) ∧ listening (rr_recv (sv_reply sv')).
Proof.
  intros Hs Hl Hm Ep Eu Hk Hr.
  destruct (ParseFacts.parse_accessible REQUEST (msg_body m) v) as [Eraw _]; [lia | done |].
  pose proof (ParseFacts.string_short _ _ _ Eu) as Hlen. rewrite Eraw in Hlen.
  destruct (ServerFacts.request_handled make_connector pf connector_throws sv m v uri Hs Ep Eu) as (sv1 & E1 & Hh); [lia|].
  destruct (ServerFacts.handled_route _ _ _ _ _ _ _ Hh k r Hk) as [Et Er].
  destruct (rest_send (rt_req_send r) m Hr) as (l' & E2 & Hl').
  assert (route_sendRequest m r = (Ret tt, RouteOps.set_send l' r)) as E3.
  { cbn [route_sendRequest routing' routing RouteFacts.Route_routing]. unfold RouteOps.sendRequest, zoom. by rewrite E2. }
  rewrite E3 in Et, Er. cbn [fst snd] in Et, Er.
  assert (listening (rr_recv (sv_reply sv1))) as Hl1 by (by rewrite Er).
  destruct (listening_receives _ m Hl1) as (l1 & E4 & Hl2).
  exists (ServerOps.set_reply (RelayOps.set_rep_recv l1 (sv_reply sv1)) sv1), (RouteOps.set_send l' r).
  split_and!; [|done | done | done | by rewrite <- Er | done].
  unfold ServerOps.request_received, noexcept. unfold mbind at 1, M_bind at 1, get at 1.
  rewrite (proj1 Hl), bool_decide_true by done. cbn [andb]. erewrite bind_run by exact E1.
  unfold ServerOps.in_reply, zoom. by rewrite E4.
Qed.

Lemma route_sent_rests sv k r m :
  serving sv → table sv !! k = Some r → sends m (rt_req_send r) →
  ∃ sv' r', on_route k (zoom rt_req_send RouteOps.set_send finish_send) sv = (Ret tt, sv')
    ∧ table sv' = <[k := r']> (table sv) ∧ at_rest (rt_req_send r') ∧ rt_req_recv r' = rt_req_recv r ∧ sv_reply sv' = sv_reply sv.
Proof.
  intros Hs Hk Hm. destruct (sends_finish _ m Hm) as (l' & E & Hl & _).
  pose proof (route_loops nng_open make_connector pf open_throws connector_throws sv k r Hs Hk) as [_ Hp].
  destruct (on_route_ok nng_open make_connector pf open_throws connector_throws sv k r
    (zoom rt_req_send RouteOps.set_send finish_send) tt (RouteOps.set_send l' r) Hs Hk) as (sv' & E' & _ & Et & Er).
  - unfold zoom. by rewrite E.
  - split; [|done]. simpl. rewrite Hl. apply BoxFacts.queue_ok_new.
  - done.
  - by exists sv', (RouteOps.set_send l' r).
Qed.

(** A reply arrives from the service of [k]. *)
Lemma reply_arrives sv k r y :
  serving sv → table sv !! k = Some r → listening (rt_req_recv r) → at_rest (rr_send (sv_reply sv)) →
  ∃ sv' r', reply_received k y sv = (Ret tt, sv')
    ∧ table sv' = <[k := r']> (table sv) ∧ rt_req_send r' = rt_req_send r ∧ listening (rt_req_recv r')
    ∧ sends y (rr_send (sv_reply sv')) ∧ rr_recv (sv_reply sv') = rr_recv (sv_reply sv).
Proof.
  intros Hs Hk Hl Hr. destruct (rest_send _ y Hr) as (l' & E1 & Hl'). destruct (listening_receives _ y Hl) as (l1 & E2 & Hl1).
  unfold reply_received, noexcept. unfold mbind at 1, M_bind at 1, on_route at 1. rewrite entries_find, Hk. simpl.
  rewrite (proj1 Hl). unfold mbind, M_bind. unfold ServerOps.in_reply, RelayOps.service_replying, zoom.
  change (sv_reply (set_route k r sv)) with (sv_reply sv). rewrite E1. unfold on_route. simpl.
  rewrite entries_find, entries_update, lookup_insert_eq, E2. eexists _, _. split; [reflexivity|]. simpl.
  rewrite !entries_update, insert_insert_eq. by split_and!.
Qed.

Lemma reply_leaves sv y :
  sends y (rr_send (sv_reply sv)) →
  ∃ sv', ServerOps.in_reply (zoom rr_send RelayOps.set_rep_send finish_send) sv = (Ret tt, sv')
    ∧ sv_services sv' = sv_services sv ∧ at_rest (rr_send (sv_reply sv')) ∧ rr_recv (sv_reply sv') = rr_recv (sv_reply sv).
Proof.
  intros Hy. destruct (sends_finish _ y Hy) as (l' & E & Hl & _). unfold ServerOps.in_reply, zoom. rewrite E.
  eexists. by split_and!.
Qed.

(** ** The way of a request *)

(** The system but for the route and the service at [k] and the replies: the
    server listens, and every other route and service is at rest. *)
Record world net k (R L : SendLoop (SendQueue msg) msg → Prop) (X : ServiceBox P msg → Prop) : Prop := {
  w_ok : ok net;
  w_replies : L (rr_send (sv_reply (n_server net)));
  w_requests : listening (rr_recv (sv_reply (n_server net)));
  w_route : ∃ r, table (n_server net) !! k = Some r ∧ R (rt_req_send r) ∧ listening (rt_req_recv r);
  w_service : ∃ x, n_services net !! k = Some x ∧ connected x ∧ X x;
  w_others k' r : k' ≠ k → table (n_server net) !! k' = Some r →
    at_rest (rt_req_send r) ∧ listening (rt_req_recv r) ∧ ∃ x, n_services net !! k' = Some x ∧ resting x;
}.
Definition quiet (x : ServiceBox P msg) : Prop := unread x = [] ∧ unsent (reply_of x) = [].

(** The query [i] of the client [c], on its context [id]. *)
Definition client_at net c id i (st : stage (msg := msg)) : Prop :=
  ∃ p, n_clients net !! c = Some p ∧ at_stage (cb_requester (pa_box p)) id i st.

Lemma world_same net net' k R L X :
  world net k R L X → ok net' → n_server net' = n_server net → n_services net' = n_services net → world net' k R L X.
Proof. intros [H1 H2 H3 H4 H5 H6] Hok E1 E2. split; rewrite ?E1, ?E2; done. Qed.

(** A step of the client [c]. *)
Lemma client_goes net c id i st st' e :
  client_at net c id i st →
  (∀ s, at_stage s id i st → ∃ s', RequestOps.step s e = Some (Ret tt, s') ∧ at_stage s' id i st') →
  ∃ p s', n_clients net !! c = Some p ∧ client_step c e net = Some (set_client c (with_requester p s') net)
    ∧ at_stage s' id i st'.
Proof.
  intros (p & Hp & Hst) Hgo. destruct (Hgo _ Hst) as (s' & E & Hst'). exists p, s'. split_and!; [done | | done].
  unfold client_step. rewrite Hp. simpl. by rewrite E.
Qed.

Lemma client_at_set net c p s' id i st : at_stage s' id i st → client_at (set_client c (with_requester p s') net) c id i st.
Proof. intros Hst. exists (with_requester p s'). simpl. by rewrite lookup_insert_eq. Qed.

Lemma step_asks net k R L X c p fresh m :
  world net k R L X → n_clients net !! c = Some p → r_ready (cb_requester (pa_box p)) = true → short m →
  fresh ≠ 0 → r_actions (cb_requester (pa_box p)) !! fresh = None →
  ∃ id net1 net', step net (EAsk c fresh m) = Some net1 ∧ step net1 (EFuture c id) = Some net'
    ∧ world net' k R L X ∧ n_server net' = n_server net ∧ client_at net' c id (length (pa_asked p)) (Sending m).
Proof.
  intros Hw Hp Hr Hm Hz Hf. destruct (ok_clients _ _ _ _ _ _ _ (w_ok _ _ _ _ _ Hw) c p Hp) as [Hb _ (d & Hd & Hlen & _) _].
  destruct (ask_sending _ d fresh m Hb Hr Hd Hz Hf) as (id & s1 & n & s' & E1 & E2 & Hst).
  set (p1 := mkParty (ClientBoxOps.set_requester s1 (pa_box p)) (pa_asked p ++ [m])).
  assert (step net (EAsk c fresh m) = Some (set_client c p1 net)) as Es1.
  { cbn [Exchange.step]. unfold ask. rewrite Hp. cbn [mbind option_bind]. rewrite bool_decide_false.
    - by rewrite E1.
    - intros [?|[? Hs]]; [done|]. by rewrite Hf in Hs. }
  assert (step (set_client c p1 net) (EFuture c id) = Some (set_client c (with_requester p1 s') (set_client c p1 net))) as Es2.
  { cbn [Exchange.step]. unfold get_future. simpl. rewrite lookup_insert_eq. cbn [mbind option_bind]. simpl. by rewrite E2. }
  eexists id, _, _. split_and!; [exact Es1 | exact Es2 | | done |].
  - apply (world_same net); [done | | done | done]. eapply step_ok; [| |exact Es2]; [|done].
    by eapply step_ok; [apply (w_ok _ _ _ _ _ Hw) | | exact Es1].
  - eexists. simpl. rewrite lookup_insert_eq. split; [done|]. simpl. by rewrite <- Hlen.
Qed.

Lemma step_finishes net k R L X c id i st st' :
  world net k R L X → client_at net c id i st →
  (∀ s, at_stage s id i st → ∃ s', RequestOps.step s (RequestOps.EFinish id) = Some (Ret tt, s') ∧ at_stage s' id i st') →
  ∃ net', step net (EFinish c id) = Some net' ∧ world net' k R L X ∧ n_waiting net' = n_waiting net ∧ n_held net' = n_held net
    ∧ client_at net' c id i st'.
Proof.
  intros Hw Hc Hgo. destruct (client_goes _ _ _ _ _ _ _ Hc Hgo) as (p & s' & Hp & E & Hst).
  exists (set_client c (with_requester p s') net). split_and!; [exact E | | done | done | by apply client_at_set].
  apply (world_same net); [done | | done | done]. by eapply (step_ok _ _ _ _ _ _ net (EFinish c id)); [apply (w_ok _ _ _ _ _ Hw) | |].
Qed.

(** The route and the service at [k] change. *)
Lemma world_moves net net' k R L X R' L' X' r' x' :
  world net k R L X → ok net' →
  table (n_server net') = <[k := r']> (table (n_server net)) → R' (rt_req_send r') → listening (rt_req_recv r') →
  L' (rr_send (sv_reply (n_server net'))) → listening (rr_recv (sv_reply (n_server net'))) →
  (n_services net' !! k = Some x') → (∀ k', k' ≠ k → n_services net' !! k' = n_services net !! k') →
  connected x' → X' x' → world net' k R' L' X'.
Proof.
  intros [H1 H2 H3 H4 H5 H6] Hok Et HR Hl HL Hl' Ek Es Hc HX. split; try done.
  - exists r'. rewrite Et, lookup_insert_eq. by split_and!.
  - by exists x'.
  - intros k' r Hne. rewrite Et, lookup_insert_ne, Es by done. by apply H6.
Qed.

Lemma step_to_server net k L c id i m v uri r :
  world net k at_rest L quiet → client_at net c id i (Sending m) → short m →
  View.parse REQUEST (msg_body m) = Ret v → View.uriString v = Ret uri →
  ServerFacts.longest_prefix (n_server net) uri k r →
  ∃ n net', step net (ECarry c id) = Some net' ∧ world net' k (sends (at_server n m)) L quiet
    ∧ client_at net' c id i Sent ∧ n_waiting net' !! n = Some (c, id).
Proof.
  intros Hw Hc Hm Ep Eu Hk. pose proof (w_ok _ _ _ _ _ Hw) as Hok.
  destruct (client_goes _ _ _ _ _ _ (RequestOps.EComplete id success m) Hc (λ s, sending_sent s id i m m))
    as (p & s' & Hp & E1 & Hst).
  destruct (w_route _ _ _ _ _ Hw) as (r0 & Hr0 & Hrest & Hlis). pose proof Hk as (Hk1 & _).
  assert (r0 = r) as -> by congruence. set (n := length (n_carried net)).
  destruct (request_arrives (n_server net) (at_server n m) v uri k r) as (sv' & r' & E2 & Et & Hsend & Hrecv & Hsame & Hlis');
    rewrite ?server_body; try done; [apply Hok | apply (w_requests _ _ _ _ _ Hw) |].
  assert (operation c id net = Some (OpSend m)) as Eop.
  { destruct Hc as (p0 & Hp0 & _ & _ & d & _ & Ha & _). unfold operation. rewrite Hp0. simpl. by rewrite Ha. }
  eexists n, _. eassert (step net (ECarry c id) = Some _) as Es.
  { cbn [Exchange.step]. unfold carry. rewrite Eop. cbn [mbind option_bind]. rewrite E1. cbn [mbind option_bind].
    change (n_server (set_client c (with_requester p s') net)) with (n_server net).
    rewrite (proj1 (proj2 (w_requests _ _ _ _ _ Hw))).
    change (n_carried (set_client c (with_requester p s') net)) with (n_carried net). fold n.
    unfold routing' in E2. rewrite E2.
    reflexivity. }
  split_and!; [exact Es | | |].
  - destruct (w_service _ _ _ _ _ Hw) as (x & Hx & Hcx & Hq).
    eapply (world_moves net _ k at_rest L quiet (sends (at_server n m)) L quiet r' x Hw); try done.
    + by eapply step_ok; [exact Hok | | exact Es].
    + by rewrite Hrecv.
    + simpl. rewrite Hsame. apply Hw.
  - exists (with_requester p s'). simpl. by rewrite lookup_insert_eq.
  - simpl. by rewrite lookup_insert_eq.
Qed.

(** The request is with the service, which has read nothing of it. *)
Definition holding net k y q (x : ServiceBox P msg) : Prop :=
  ∃ ctx, n_held net !! (k, ctx) = Some q ∧ unread x = [(ctx, y)] ∧ unsent (reply_of x) = [].
Definition replying net k y q (x : ServiceBox P msg) : Prop :=
  ∃ ctx, n_held net !! (k, ctx) = Some q ∧ unread x = [] ∧ unsent (reply_of x) = [(ctx, y)]
    ∧ p_flight (reply_of x) = Some y ∧ p_send_ctx (reply_of x) = Some ctx.

Lemma step_hands_over net k L q :
  world net k (sends q) L quiet →
  ∃ fresh net', step net (EHandOver k fresh) = Some net' ∧ world net' k at_rest L (holding net' k (at_service q) q)
    ∧ n_clients net' = n_clients net ∧ n_waiting net' = n_waiting net.
Proof.
  intros Hw. pose proof (w_ok _ _ _ _ _ Hw) as Hok. destruct (w_route _ _ _ _ _ Hw) as (r & Hr & Hs & Hl).
  destruct (w_service _ _ _ _ _ Hw) as (x & Hx & Hcx & Hu & Hus).
  destruct (ok_services _ _ _ _ _ _ _ Hok k x Hx) as [Hxok _ _].
  set (fr := fresh ({[0]} ∪ p_open (reply_of x))).
  assert (fr ∉ {[0]} ∪ p_open (reply_of x)) as Hfr by apply is_fresh. rewrite not_elem_of_union, not_elem_of_singleton in Hfr.
  destruct (service_receives x fr (at_service q) Hxok Hcx (proj1 Hfr) (proj2 Hfr)) as (ctx & y & Hctx & Ey & Hcy).
  destruct (service_received x fr (at_service q) ctx y Hxok Hctx Ey) as (Hok' & Eu' & Es' & _).
  destruct (route_sent_rests (n_server net) k r q (ok_serving _ _ _ _ _ _ _ Hok) Hr Hs) as (sv' & r' & E2 & Et & Hrest & Erecv & Erep).
  destruct (sends_finish _ q Hs) as (_ & _ & _ & Hfl).
  eexists fr, _. eassert (step net (EHandOver k fr) = Some _) as Es.
  { cbn [Exchange.step]. unfold hand_over. rewrite entries_find, Hr. cbn [mbind option_bind]. rewrite Hfl. cbn [mbind option_bind].
    rewrite Hx. cbn [mbind option_bind]. unfold reply_of in Hctx. rewrite Hctx. cbn [mbind option_bind]. rewrite Ey.
    cbn [mbind option_bind]. rewrite E2. reflexivity. }
  split_and!; [exact Es | | done | done].
  eapply (world_moves net _ k (sends q) L quiet at_rest L _ r' (ServiceBoxOps.set_replier y (sx_current x) x)); try done.
  - by eapply step_ok; [exact Hok | | exact Es].
  - by rewrite Erecv.
  - simpl. rewrite Erep. apply Hw.
  - simpl. rewrite Erep. apply Hw.
  - simpl. by rewrite lookup_insert_eq.
  - intros k' Hne. simpl. by rewrite lookup_insert_ne.
  - exists ctx. simpl. rewrite lookup_insert_eq. split_and!; [done | | ].
    + etrans; [exact Eu'|]. by rewrite Hu.
    + etrans; [exact Es'|]. done.
Qed.

Lemma step_serves net k L y q :
  world net k at_rest L (holding net k y q) →
  ∃ net', step net (EServe k) = Some net' ∧ world net' k at_rest L (replying net' k (prog k y) q)
    ∧ n_clients net' = n_clients net ∧ n_waiting net' = n_waiting net.
Proof.
  intros Hw. pose proof (w_ok _ _ _ _ _ Hw) as Hok. destruct (w_route _ _ _ _ _ Hw) as (r & Hr & Hs & Hl).
  destruct (w_service _ _ _ _ _ Hw) as (x & Hx & Hcx & ctx & Hheld & Hu & Hus).
  destruct (ok_services _ _ _ _ _ _ _ Hok k x Hx) as [Hxok _ _].
  destruct (service_serves x ctx y [] (prog k y) Hxok Hcx Hu Hus) as (x1 & x2 & E1 & E2 & Hc2 & Hu2 & Hs2 & Hf2 & Hctx2).
  eexists. eassert (step net (EServe k) = Some _) as Es.
  { cbn [Exchange.step]. unfold serve. rewrite Hx. cbn [mbind option_bind]. rewrite E1. cbn [mbind option_bind returned].
    rewrite E2. reflexivity. }
  split_and!; [exact Es | | done | done].
  eapply (world_moves net _ k at_rest L _ at_rest L _ r x2); try done.
  - by eapply step_ok; [exact Hok | | exact Es].
  - simpl. by rewrite insert_id.
  - apply Hw.
  - apply Hw.
  - simpl. by rewrite lookup_insert_eq.
  - intros k' Hne. simpl. by rewrite lookup_insert_ne.
  - by exists ctx.
Qed.

Lemma step_replies net k y q :
  world net k at_rest at_rest (replying net k y q) →
  ∃ fresh net', step net (ECarryReply k fresh) = Some net' ∧ world net' k at_rest (sends (back_at_server q y)) quiet
    ∧ n_clients net' = n_clients net ∧ n_waiting net' = n_waiting net.
Proof.
  intros Hw. pose proof (w_ok _ _ _ _ _ Hw) as Hok. destruct (w_route _ _ _ _ _ Hw) as (r & Hr & Hs & Hl).
  destruct (w_service _ _ _ _ _ Hw) as (x & Hx & Hcx & ctx & Hheld & Hu & Hus & Hfl & Hctx).
  destruct (ok_services _ _ _ _ _ _ _ Hok k x Hx) as [Hxok _ _].
  set (fr := fresh ({[0]} ∪ p_open (reply_of x))).
  assert (fr ∉ {[0]} ∪ p_open (reply_of x)) as Hfr by apply is_fresh. rewrite not_elem_of_union, not_elem_of_singleton in Hfr.
  destruct (service_sends x fr y ctx Hxok Hcx Hfl Hctx (proj1 Hfr) (proj2 Hfr)) as (z & Ez & Hcz).
  destruct (service_sent x fr y ctx z Hxok Hfl Hctx Ez) as (_ & Eu' & Es' & _).
  destruct (reply_arrives (n_server net) k r (back_at_server q y) (ok_serving _ _ _ _ _ _ _ Hok) Hr Hl (w_replies _ _ _ _ _ Hw))
    as (sv' & r' & E2 & Et & Esend & Hl' & Hsend & Erecv).
  eexists fr, _. eassert (step net (ECarryReply k fr) = Some _) as Es.
  { cbn [Exchange.step]. unfold carry_reply. rewrite Hx. cbn [mbind option_bind]. unfold reply_of in Hfl, Hctx.
    rewrite Hfl. cbn [mbind option_bind]. rewrite Hctx. cbn [mbind option_bind].
    rewrite Ez. cbn [mbind option_bind]. rewrite Hheld, entries_find, Hr. cbn [mbind option_bind]. rewrite (proj1 (proj2 Hl)), E2.
    reflexivity. }
  split_and!; [exact Es | | done | done].
  eapply (world_moves net _ k _ _ _ at_rest _ quiet r' (ServiceBoxOps.set_replier z (sx_current x) x) Hw); try done.
  - by eapply step_ok; [exact Hok | | exact Es].
  - by rewrite Esend.
  - simpl. rewrite Erecv. apply Hw.
  - simpl. by rewrite lookup_insert_eq.
  - intros k' Hne. simpl. by rewrite lookup_insert_ne.
  - split; [by etrans; [exact Eu'|]|]. rewrite Hus in Es'. by injection Es' as <-.
Qed.

Lemma step_delivers net k y0 n y c id i :
  world net k at_rest (sends y0) quiet → back_at_client y0 = Some (n, y) → n_waiting net !! n = Some (c, id) →
  client_at net c id i Waiting →
  ∃ net', step net EDeliver = Some net' ∧ world net' k at_rest at_rest quiet ∧ client_at net' c id i (Answered y).
Proof.
  intros Hw Hb Hn Hc. pose proof (w_ok _ _ _ _ _ Hw) as Hok. destruct (sends_finish _ _ (w_replies _ _ _ _ _ Hw)) as (_ & _ & _ & Hfl).
  destruct (reply_leaves (n_server net) y0 (w_replies _ _ _ _ _ Hw)) as (sv' & E1 & Esv & Hrest & Erecv).
  destruct (client_goes (set_server sv' net) c id i _ _ (RequestOps.EComplete id success y) Hc (λ s, waiting_answered s id i y))
    as (p & s' & Hp & E2 & Hst).
  assert (operation c id (set_server sv' net) = Some OpRecv) as Eop.
  { destruct Hc as (p0 & Hp0 & _ & _ & d & _ & Ha & _). unfold operation. simpl. rewrite Hp0. simpl. by rewrite Ha. }
  eexists. eassert (step net EDeliver = Some _) as Es.
  { cbn [Exchange.step]. unfold deliver. rewrite Hfl. cbn [mbind option_bind]. rewrite E1. cbn [mbind option_bind returned].
    rewrite Hb. change (n_waiting (set_server sv' net)) with (n_waiting net). rewrite Hn, Eop. cbn [mbind option_bind].
    rewrite E2. reflexivity. }
  split_and!; [exact Es | | by apply client_at_set].
  destruct (w_route _ _ _ _ _ Hw) as (r & Hr & Hs & Hl). destruct (w_service _ _ _ _ _ Hw) as (x & Hx & Hcx & Hq).
  eapply (world_moves net _ k _ _ _ at_rest at_rest quiet r x Hw); try done.
  - by eapply step_ok; [exact Hok | | exact Es].
  - simpl. by rewrite Esv, insert_id.
  - simpl. rewrite Erecv. apply Hw.
Qed.

(** The system at rest: nothing is on its way but the requests that clients
    have not sent, and every route has a service. *)
Record calm net : Prop := {
  calm_ok : ok net;
  calm_replies : at_rest (rr_send (sv_reply (n_server net)));
  calm_requests : listening (rr_recv (sv_reply (n_server net)));
  calm_routes k r : table (n_server net) !! k = Some r →
    at_rest (rt_req_send r) ∧ listening (rt_req_recv r) ∧ ∃ x, n_services net !! k = Some x ∧ resting x;
}.

Lemma calm_world net k r : calm net → table (n_server net) !! k = Some r → world net k at_rest at_rest quiet.
Proof.
  intros [H1 H2 H3 H4] Hk. destruct (H4 k r Hk) as (Hr & Hl & x & Hx & _ & Hc & Hq).
  split; try done; [by exists r | by exists x | intros k' r' _; apply H4].
Qed.
Lemma world_calm net k : world net k at_rest at_rest quiet → calm net.
Proof.
  intros [H1 H2 H3 (r & Hr & Hs & Hl) (x & Hx & Hc & Hq) H6]. split; try done. intros k' r' Hk'.
  destruct (decide (k' = k)) as [->|Hne]; [|by apply H6]. assert (r' = r) as -> by congruence.
  split_and!; [done | done |]. exists x. split; [done|]. split; [|done]. apply (ok_services _ _ _ _ _ _ _ H1 k x Hx).
Qed.

Lemma run_step net net1 e es o : step net e = Some net1 → run net1 es = o → run net (e :: es) = o.
Proof. intros E <-. simpl. by rewrite E. Qed.

(** The way of a request, from the two calls of the client to the end of the
    callback that sets its future. *)
Definition way c id k (fresh fresh' fresh'' : QueryID) m : list (event msg) :=
  [EAsk c fresh m; EFuture c id; ECarry c id; EFinish c id; EHandOver k fresh'; EServe k; ECarryReply k fresh''; EDeliver; EFinish c id].

(** C2. When nothing else is under way, a request of a client that is ready, whose
    URI has registered prefixes, is served: its way can be taken step by step,
    and after it the client's future has the reply of the service at the
    longest of these prefixes to a message with the request's body, and the
    system is again at rest. *)
Theorem request_served net c p fresh m v uri k r :
  calm net → n_clients net !! c = Some p → r_ready (cb_requester (pa_box p)) = true →
  fresh ≠ 0 → r_actions (cb_requester (pa_box p)) !! fresh = None →
  short m → View.parse REQUEST (msg_body m) = Ret v → View.uriString v = Ret uri →
  ServerFacts.longest_prefix (n_server net) uri k r →
  ∃ id fresh' fresh'' net' q y,
    run net (way c id k fresh fresh' fresh'' m) = Some net' ∧ calm net'
    ∧ answer c (length (pa_asked p)) net' = Some (FValue y)
    ∧ msg_body q = msg_body m ∧ msg_body y = msg_body (prog k q).
Proof.
  intros Hcalm Hp Hr Hz Hf Hm Ep Eu Hk. pose proof (calm_world net k r Hcalm (proj1 Hk)) as W0.
  destruct (step_asks _ _ _ _ _ c p fresh m W0 Hp Hr Hm Hz Hf) as (id & net0 & net1 & E0 & E1 & W1 & Esv & C1).
  rewrite <- Esv in Hk. destruct (step_to_server _ _ _ _ _ _ _ _ _ _ W1 C1 Hm Ep Eu Hk) as (n & net2 & E2 & W2 & C2 & Hn).
  destruct (step_finishes _ _ _ _ _ _ _ _ _ _ W2 C2 (λ s, sent_waiting s id _)) as (net3 & E3 & W3 & En3 & _ & C3).
  destruct (step_hands_over _ _ _ _ W3) as (fresh' & net4 & E4 & W4 & Ec4 & En4).
  destruct (step_serves _ _ _ _ _ W4) as (net5 & E5 & W5 & Ec5 & En5).
  destruct (step_replies _ _ _ _ W5) as (fresh'' & net6 & E6 & W6 & Ec6 & En6).
  destruct (client_back n m (back_at_server (at_server n m) (prog k (at_service (at_server n m))))) as (y & Hy & Hb);
    [apply back_header|].
  rewrite <- En3, <- En4, <- En5, <- En6 in Hn.
  assert (client_at net6 c id (length (pa_asked p)) Waiting) as C6.
  { destruct C3 as (p3 & Hp3 & Hst). exists p3. by rewrite Ec6, Ec5, Ec4. }
  destruct (step_delivers _ _ _ _ _ _ _ _ W6 Hy Hn C6) as (net7 & E7 & W7 & C7).
  destruct (step_finishes _ _ _ _ _ _ _ _ _ _ W7 C7 (λ s, answered_done s id _ y)) as (net8 & E8 & W8 & _ & _ & C8).
  exists id, fresh', fresh'', net8, (at_service (at_server n m)), y. split_and!.
  - by do 9 (eapply run_step; [eassumption|]).
  - by eapply world_calm.
  - destruct C8 as (p8 & Hp8 & _ & _ & d & Hd & Hv). unfold answer. rewrite Hp8. cbn [mbind option_bind]. by rewrite Hd.
  - by rewrite service_body, server_body.
  - by rewrite Hb, back_body.
Qed.

End System.

End ExchangeLive.
