(* ===== verification/ExchangeExample.v ===== *)
(** * The system: an example

    A server and two clients that are constructed.  A service registers under
    ["/a"]; requests of the clients are answered, by the service or by the
    server; and the service goes, so that the server answers for it. *)
From stdpp Require Import gmap.
From S2P Require Import Prelude.
From S2P Require Import Nng.
From S2P Require Import MsgUtil.
From S2P Require Import Status.
From S2P Require Import MsgLayout.
From S2P Require Import MsgView.
From S2P Require Import MsgParse.
From S2P Require Import MsgWriter.
From S2P Require Import Notices.
From S2P Require Import Pattern.
From S2P Require Import HostAddress.
From S2P Require Import Socket.
From S2P Require Import IoQueue.
From S2P Require Import AsyncSend.
From S2P Require Import AsyncRecv.
From S2P Require Import ClientRequest.
From S2P Require Import ClientRequestFacts.
From S2P Require Import ServiceReply.
From S2P Require Import ServiceReplyFacts.
From S2P Require Import PrefixMap.
From S2P Require Import Boxes.
From S2P Require Import Route.
From S2P Require Import Relays.
From S2P Require Import Services.
From S2P Require Import ServicesFacts.
From S2P Require Import Server.
From S2P Require Import ServerFacts.
From S2P Require Import Bundles.
From S2P Require Import Mailboxes.
From S2P Require Import Exchange.
From S2P Require Import ExchangeParts.
From S2P Require Import ExchangeFacts.
From S2P Require Import ExchangeLive.

Module ExchangeExample.
Import Exchange ExchangeParts ExchangeFacts ExchangeLive.

#[local] Existing Instance RequestBox.Delegate_handler.
#[local] Existing Instance ReplyBoxOps.Delegate_handler.

(** ** An example: a service at ["/a"] and two clients *)
Import FinitePrefixMap RouteFacts ServerFacts.

(** The header of a raw message counts its request in characters. *)
#[local] Instance flat_transport : Transport flat_msg := {
  at_server n m := mkFlat (replicate n "#"%char) (flat_body m);
  at_service m := mkFlat [] (flat_body m);
  back_at_server q m := mkFlat (flat_header q) (flat_body m);
  back_at_client m := Some (length (flat_header m), mkFlat [] (flat_body m));
}.
#[local] Instance flat_transport_laws : TransportLaws flat_msg.
Proof.
  split; try done. intros n q m E. exists (mkFlat [] (flat_body m)). split; [|done]. simpl in *. by rewrite E, length_replicate.
Qed.

Definition members : list MEMBER := [QUERY; PUBSUB; PUSHPULL].
Definition ex_client : option (ClientBox unit flat_msg) :=
  match ClientBoxOps.new_client_box any_open with
  | Ret b => match ClientBoxOps.dial any_connector OtherPlatform (Host.InProc (lit "srv")) members members b with
             | (Ret _, b) => Some b | _ => None end
  | _ => None
  end.

(** The server as it is constructed, and the two clients. *)
Definition ex_begin : option (Net (gmap bytes exRoute) unit flat_msg) :=
  sv ← match ex_new true with Ret sv => Some sv | _ => None end;
  b ← ex_client;
  Some (mkNet {[0%nat := mkParty b []; 1%nat := mkParty b []]} sv ∅ ∅ [] ∅).

(** The program of the service. *)
Definition hello (k : bytes) (q : flat_msg) : flat_msg := mkFlat [] (lit "Tell/0 200 OK" ++ [LF; LF] ++ flat_body q).
Definition get_ (uri : bytes) : flat_msg := mkFlat [] (lit "GET " ++ uri ++ lit " Tell/0" ++ [LF; LF]).
Abbreviation ex_run_from := (run any_open any_connector OtherPlatform hello).

(** The service is constructed and registers; the management thread answers. *)
Definition registration : flat_msg := mkFlat [] (lit "POST *services Tell/0" ++ [LF; LF] ++ lit "/a").
Definition enrolment : list (event flat_msg) :=
  [EStart (lit "/a") [] (λ _, Ret true) 1 5 members members; ERegister 8 1 registration; EManage; ERegisterSent 9].
Definition ex_net : option (Net (gmap bytes exRoute) unit flat_msg) := net ← ex_begin; ex_run_from net enrolment.

(** Two requests and their way. *)
Definition requests : list (event flat_msg) :=
  [EAsk 0 3 (get_ (lit "/a/b")); EAsk 1 3 (get_ (lit "/c")); EFuture 0 3; ECarry 0 3; ECarry 1 3; EFinish 0 3; EFinish 1 3; EDeliver;
   EHandOver (lit "/a") 6; EServe (lit "/a"); ECarryReply (lit "/a") 7; EDeliver].
(** The service loses its registration, and is destroyed; the same request is
    now answered by the server. *)
Definition departure : list (event flat_msg) :=
  [EPipe 1 rem_post; EManage; EStop (lit "/a"); EFinish 0 3; EAsk 0 4 (get_ (lit "/a/b")); ECarry 0 3; EFinish 0 3; EDeliver].
Definition ex_events : list (event flat_msg) := enrolment ++ requests ++ departure.
Definition ex_run : option (Net (gmap bytes exRoute) unit flat_msg) := net ← ex_begin; ex_run_from net ex_events.

(** All three are answered. *)
Definition refusal (uri : bytes) : flat_msg :=
  mkFlat [] (lit "Tell/0 404 Not Found" ++ [LF; LF] ++ not_found_text uri).
Example ex_answered :
  (net ← ex_run; answer 0 0 net) = Some (FValue (hello [] (get_ (lit "/a/b"))))
  ∧ (net ← ex_run; answer 1 0 net) = Some (FValue (refusal (lit "/c")))
  ∧ (net ← ex_run; answer 0 1 net) = Some (FValue (refusal (lit "/a/b"))).
Proof. split_and!; vm_compute; reflexivity. Qed.

Lemma client_facts :
  cb_requester <$> ex_client =
  Some (RequestOps.set_ready true (RequestOps.set_handler (Some RequestBox.new_delegate) RequestOps.new)).
Proof. vm_compute. reflexivity. Qed.

Lemma replies_fact : match ex_new true with Ret sv => Some (BoxFacts.outgoing (rr_send (sv_reply sv))) | _ => None end = Some [].
Proof. vm_compute. reflexivity. Qed.

Abbreviation ex_serving := (serving any_connector OtherPlatform (λ _ _ _ _, I)).
Abbreviation ex_at_start := (at_start any_open any_connector OtherPlatform (λ _ _, I) (λ _ _ _ _, I)).

(** No routes, and nothing on its way. *)
Lemma ex_begins : ∃ net, ex_begin = Some net ∧ ex_at_start net.
Proof.
  destruct (ex_built true) as (sv & E1 & Hs & Ht & Ho).
  destruct ex_client as [b|] eqn:E3; [|by pose proof client_facts as F; rewrite E3 in F].
  exists (mkNet {[0%nat := mkParty b []; 1%nat := mkParty b []]} sv ∅ ∅ [] ∅). split.
  { unfold ex_begin. rewrite E1, E3. reflexivity. }
  pose proof client_facts as F2. rewrite E3 in F2. injection F2 as H3.
  pose proof replies_fact as F1. rewrite E1 in F1. apply (inj Some) in F1. clear E1 E3.
  split; [|exact Hs | | exact F1 | | by split_and!]; cbn [n_clients n_services n_server].
  - intros c p [[_ <-]|[_ [_ <-]%lookup_singleton_Some]]%lookup_insert_Some; (split; [done|]; by exists true).
  - intros k r. by rewrite Ht, lookup_empty.
  - intros k x. by rewrite lookup_empty.
Qed.

(** The run from there, and its first part. *)
Lemma ex_run_eq net : ex_begin = Some net → ex_run = ex_run_from net ex_events.
Proof. intros E. unfold ex_run. rewrite E. reflexivity. Qed.
Lemma ex_net_eq net : ex_begin = Some net → ex_net = ex_run_from net enrolment.
Proof. intros E. unfold ex_net. rewrite E. reflexivity. Qed.

Lemma answers_not_crossed_witness :
  ∃ net net' m, ex_begin = Some net ∧ ex_at_start net
    ∧ ex_run_from net ex_events = Some net'
    ∧ asked_by 0 ex_events !! 0%nat = Some m ∧ answers hello m (hello [] (get_ (lit "/a/b"))).
Proof.
  destruct ex_begins as (net & E0 & Hs). pose proof (ex_run_eq net E0) as Er. pose proof (proj1 ex_answered) as Ha.
  destruct ex_run as [net'|]; [|discriminate Ha].
  destruct (answers_not_crossed any_open any_connector OtherPlatform (λ _ _, I) (λ _ _ _ _, I) hello net ex_events net' 0 0
    (hello [] (get_ (lit "/a/b"))) Hs) as (m & Hm & Hans); [repeat constructor; by vm_compute | done | exact Ha |].
  exists net, net', m. split_and!; done.
Defined.

(** What is under way after the enrolment: nothing. *)
Definition flags (l : RecvLoop flat_msg) : bool * bool * bool := (rl_handler l, rl_receiving l, rl_stopped l).
Lemma flags_listening l : flags l = (true, true, false) → listening l.
Proof. destruct l. by intros [= -> -> ->]. Qed.

Abbreviation nothing := (mkSendLoop (Some SendQueueMtx.new) None false).
Definition under_way (net : Net (gmap bytes exRoute) unit flat_msg) :=
  (rr_send (sv_reply (n_server net)), flags (rr_recv (sv_reply (n_server net))),
   (λ r, (rt_req_send r, flags (rt_req_recv r))) <$> (v_map (sv_services (n_server net)) : gmap bytes exRoute),
   (λ x, (ServiceBoxOps.ready x, reply_of x)) <$> n_services net,
   (λ p, (r_ready (cb_requester (pa_box p)), r_actions (cb_requester (pa_box p)))) <$> n_clients net !! 0%nat).
Lemma calm_facts :
  under_way <$> ex_net =
  Some (nothing, (true, true, false), {[lit "/a" := (nothing, (true, true, false))]},
    {[lit "/a" := (true, mkReply true (Some []) ∅ SendQueueMtx.new (Some 5) true None None {[5]})]}, Some (true, ∅)).
Proof. vm_compute. reflexivity. Qed.

Abbreviation ex_calm := (calm any_open any_connector OtherPlatform (λ _ _, I) (λ _ _ _ _, I) hello).

Lemma fmap_one {A B} (f : A → B) (mp : gmap bytes A) k0 b k a :
  f <$> mp = {[k0 := b]} → mp !! k = Some a → k = k0 ∧ f a = b.
Proof.
  intros E Ha. assert ((f <$> mp) !! k = Some (f a)) as Hl by (by rewrite lookup_fmap, Ha).
  rewrite E in Hl. by apply lookup_singleton_Some in Hl as [-> ->].
Qed.

Lemma fmap_one_found {A B} (f : A → B) (mp : gmap bytes A) k0 b : f <$> mp = {[k0 := b]} → ∃ a, mp !! k0 = Some a ∧ f a = b.
Proof.
  intros E. assert ((f <$> mp) !! k0 = Some b) as Hl by (by rewrite E, lookup_singleton_eq).
  rewrite lookup_fmap in Hl. by apply fmap_Some in Hl as (a & Ha & ->); exists a.
Qed.

Lemma pairs_eq {A B C D E} (a a' : A) (b b' : B) (c c' : C) (d d' : D) (e e' : E) :
  Some (a, b, c, d, e) = Some (a', b', c', d', e') → a = a' ∧ b = b' ∧ c = c' ∧ d = d' ∧ e = e'.
Proof. by intros [= -> -> -> -> ->]. Qed.

Lemma calm_net net : ex_net = Some net →
  at_rest (rr_send (sv_reply (n_server net))) ∧ flags (rr_recv (sv_reply (n_server net))) = (true, true, false)
  ∧ (λ r, (rt_req_send r, flags (rt_req_recv r))) <$> (v_map (sv_services (n_server net)) : gmap bytes exRoute) =
    {[lit "/a" := (nothing, (true, true, false))]}
  ∧ (λ x, (ServiceBoxOps.ready x, reply_of x)) <$> n_services net =
    {[lit "/a" := (true, mkReply true (Some []) ∅ SendQueueMtx.new (Some 5) true None None {[5]})]}
  ∧ (λ p, (r_ready (cb_requester (pa_box p)), r_actions (cb_requester (pa_box p)))) <$> n_clients net !! 0%nat = Some (true, ∅).
Proof. intros E. pose proof calm_facts as F. rewrite E in F. exact (pairs_eq _ _ _ _ _ _ _ _ _ _ F). Qed.

Lemma ex_at_rest net0 net : ex_begin = Some net0 → ex_at_start net0 → ex_net = Some net → ex_calm net.
Proof.
  intros E0 Hs E. destruct (calm_net net E) as (F1 & F2 & F3 & F4 & _). rewrite (ex_net_eq net0 E0) in E. clear E0.
  assert (net_ok any_open any_connector OtherPlatform (λ _ _, I) (λ _ _ _ _, I) hello net) as Hok.
  { apply (run_ok any_open any_connector OtherPlatform (λ _ _, I) (λ _ _ _ _, I) hello enrolment net0); [by apply at_start_ok | | exact E].
    repeat constructor; by vm_compute. }
  clear E.
  split; [exact Hok | exact F1 | by apply flags_listening |]. intros k r Hk.
  destruct (fmap_one _ _ _ _ k r F3 Hk) as [-> [= Hr Hl1 Hl2 Hl3]].
  split; [exact Hr|]. split; [by split_and!|].
  destruct (fmap_one_found _ _ _ _ F4) as (x & Hx & [= Hrd Hrp]). exists x. split; [done|].
  split; [apply (ok_services _ _ _ _ _ _ _ Hok (lit "/a") x Hx)|]. unfold connected, unread, unsent. by rewrite Hrd, Hrp.
Qed.

Lemma ex_parsed : ∃ v, View.parse REQUEST (msg_body (get_ (lit "/a/b"))) = Ret v ∧ View.uriString v = Ret (lit "/a/b").
Proof.
  destruct (View.parse REQUEST (msg_body (get_ (lit "/a/b")))) as [v| |] eqn:E; vm_compute in E; try done.
  injection E as <-. eexists. split; [reflexivity|]. by vm_compute.
Qed.

Lemma ex_prefix net : ex_net = Some net → ∃ r, longest_prefix (n_server net) (lit "/a/b") (lit "/a") r.
Proof.
  intros E. destruct (calm_net net E) as (_ & _ & F3 & _). clear E.
  destruct (fmap_one_found _ _ _ _ F3) as (r & Hr & _). exists r. split_and!; [done | by exists (lit "/b") |].
  intros k' [r' Hk'] _. by destruct (fmap_one _ _ _ _ k' r' F3 Hk') as [-> _].
Qed.

Lemma request_served_witness :
  ∃ net p v r id fresh' fresh'' net' y, ex_net = Some net ∧ ex_calm net
    ∧ n_clients net !! 0%nat = Some p ∧ View.parse REQUEST (msg_body (get_ (lit "/a/b"))) = Ret v
    ∧ longest_prefix (n_server net) (lit "/a/b") (lit "/a") r
    ∧ run any_open any_connector OtherPlatform hello net (way 0 id (lit "/a") 3 fresh' fresh'' (get_ (lit "/a/b"))) = Some net'
    ∧ ex_calm net' ∧ answer 0 (length (pa_asked p)) net' = Some (FValue y).
Proof.
  destruct ex_begins as (net0 & E0 & Hs). pose proof calm_facts as F0.
  destruct ex_net as [net|] eqn:E; [|discriminate F0]. clear F0. destruct (calm_net net E) as (_ & _ & _ & _ & F).
  destruct (n_clients net !! 0%nat) as [p|] eqn:Hp; [|discriminate F]. injection F as Hr Ha.
  destruct ex_parsed as (v & Ev & Eu). destruct (ex_prefix net E) as (r & Hk).
  pose proof (ex_at_rest net0 net E0 Hs E) as Hcalm.
  destruct (request_served any_open any_connector OtherPlatform (λ _ _, I) (λ _ _ _ _, I) hello net 0 p 3 (get_ (lit "/a/b")) v
    (lit "/a/b") (lit "/a") r) as (id & fresh' & fresh'' & net' & q & y & Erun & Hc & Hans & _);
    [exact Hcalm | exact Hp | exact Hr | discriminate | by rewrite Ha | by vm_compute | exact Ev | exact Eu | exact Hk |].
  exists net, p, v, r, id, fresh', fresh'', net', y. exact (conj eq_refl (conj Hcalm (conj Hp (conj Ev (conj Hk (conj Erun (conj Hc Hans))))))).
Defined.

End ExchangeExample.
